(* ===== verification/_CoqProject ===== *)
-Q . S2P
Prelude.v
SampleType.v
Float32.v
Format.v
Message.v
Wire.v
Udp.v
Iter.v
Queue.v
ByteProducer.v
ByteConsumer.v
Interleaver.v
Jack.v
GenericClient.v
CoreAudio.v
CoreAudioVolume.v
CoreAudioMemory.v
CoreAudioProperties.v
CoreAudioTables.v
CoreAudioInstances.v
CoreAudioHAL.v
CoreAudioDriver.v
