(* ===== verification/Prelude.v ===== *)
(** * Syfala: a verification library

    Syfala streams audio between machines: servers (devices) and clients
    (drivers, applications) exchange control messages and audio packets over
    UDP, and adapters move samples between the network, lock-free ring buffers
    and the audio systems JACK and CoreAudio.  This library models the Rust
    crates of the repository as executable definitions and proves what makes
    them correct, or where they are not.

    ** The program and the files that model it

    - [Prelude.v]: outcomes of Rust code ([exec]: a value, a panic, undefined
      behaviour), [Result], machine integers and their checked operations,
      little-endian byte strings, the tactics [bounds], [lengths] and
      [exec_inv], the hint databases [syfala] and [syfala_lengths].
    - [SampleType.v]: [syfala_utils/src/sample_type.rs].  The traits as
      classes and their forty implementations as instances.
    - [Format.v]: [syfala_proto/src/format.rs].  Sample formats, sample rates
      (validated [f64] bit patterns), stream formats and chunk sizes.
    - [Message.v]: [syfala_proto/src/lib.rs] and [message.rs].  Headers and the
      nested message enums.
    - [Wire.v]: [syfala_network/src/lib.rs].  The flat wire enums, the
      conversions, encoding and decoding, the [SyncUdpSock] trait and its
      implementation for the standard socket.
    - [Udp.v]: [syfala_network/src/udp/client/mod.rs] and [server/mod.rs].
      Client and server sockets, the discovery beacon, the receive loops.
    - [Iter.v]: what the crates use of [core::iter], and [LawfulIterator], the
      promise iterators make to the code that drives them.
    - [Queue.v]: [syfala_utils/src/queue.rs].  Counters, periodic wake-ups,
      shifted iterators, and the adapters [IndexedTx] and [IndexedRx] that keep
      a ring buffer aligned with a timeline.
    - [ByteProducer.v], [ByteConsumer.v]: [byte_producer.rs] and
      [byte_consumer.rs] of [syfala_utils].  Samples to byte packets and back.
    - [Interleaver.v], [Jack.v]: [interleaver.rs] and [lib.rs] of
      [syfala_jack].  The raw-pointer interleaver over explicit memory, and the
      duplex process callback that joins it to the queues.
    - [GenericClient.v]: [syfala_network/src/udp/client/generic/].  The client
      that tracks many servers: IO state machines, deadlines, polling.
    - [Float32.v]: what the driver below uses of [f32], as executable IEEE-754
      arithmetic, with bounds on rounding.
    - [CoreAudio.v]: [syfala_coreaudio/src/lib.rs], the state of the driver,
      object numbers, reference count, life cycle, IO client counting and the
      device clock.
    - [CoreAudioVolume.v]: its decibel conversions.  [CoreAudioMemory.v]: typed
      values in the HAL's buffers.  [CoreAudioProperties.v]: the property
      tables, one [PropertyData] per arm, and the five property callbacks.
      [CoreAudioTables.v]: every table entry keeps the promise [entry_ok].
      [CoreAudioInstances.v]: a concrete CoreAudio for the witnesses.
      [CoreAudioHAL.v]: what the HAL can rely on.  [CoreAudioDriver.v]: the
      table of callbacks [DRIVER_INTERFACE] as a state machine over calls.

    State is passed explicitly: an operation on [&mut self] returns the new
    [self]; a value that is borrowed by an iterator comes back when the
    iterator is dropped (the [..._release] and [..._drop] definitions).  Names
    are those of the code, prefixed with the type where Rust's method names
    clash.

    ** What the theorems show

    - Timelines: [IndexedTx_send_aligned], [IndexedTx_timeline],
      [IndexedRx_recv_aligned] (early, late, overlapping and missing data keep
      every element at its index); [PeriodicCounter_wakes_every_boundary];
      [interleave_walks_frames], [process_rx_outputs] and
      [duplex_session_aligned] carry the same through the JACK callback, with
      memory safety; [zero_timestamps_do_not_drift] is the clock of the
      CoreAudio device.
    - Bytes: [sample_types_roundtrip], [frame_samples_resumes],
      [produce_packets_partition] for the producer.  The consumer has two
      defects: [feed_bytes_in_order] and [consume_packet_only_silence] show
      that it never delivers a sample, [feed_bytes_gap] that it skips the wrong
      bytes; [consume_packet_reordered] holds.
    - Messages: [flat_messages_isomorphic], [discriminants_distinct],
      [client_message_roundtrip], [server_message_roundtrip];
      [send_msg_sends_unwritten_tail] shows that [send_msg] sends the wrong
      part of its buffer, while [discovery_beacon_correct] shows the trace of
      the beacon, every datagram's bytes and address included (by way of
      [Recorded], a socket with a log beside it).
    - The CoreAudio driver: [reachable_driver_wf] (by induction on runs of
      calls, the state keeps its types and no call that keeps the rules panics
      or is undefined behaviour), [get_property_data_safe],
      [property_queries_agree], [set_property_data_spec],
      [set_leaves_other_objects_alone], [boolean_set_get_roundtrip], [object_tree],
      [translate_uid_finds_device]; [ref_calls_refine_counter] and
      [io_calls_refine_counter] refine counters; [volumes_in_decibel_range]
      bounds the conversions, of which [db_to_norm_constant] shows that one is
      broken.
    - State machines: [on_msg_refines_protocol] (refinement of the abstract IO
      protocol), [on_message_keeps_deadlines], [on_timeout_expires_exactly],
      [on_timeout_arms_timer] and, by induction on the steps of a run,
      [reachable_client_safe]; [poll_server_requests_start] and
      [connect_send_error_loses_deadline] show two defects;
      [expire_terminates] counts the iterations of the expiry loop;
      [client_loop_returns_only_hard_errors] and its server counterpart are
      about the receive loops.
    - Bounds and errors: [SampleRate_new_accepts], [chunk_size_bytes_spec],
      [Interleaver_new_accepts], [control_ids_bijective],
      [process_panics_on_earlier_frame], [Interleaved_len_overcounts],
      [send_msg_buffer_too_small], [ticks_per_timestamp_too_long],
      [is_signed_correct_except_I64].

    ** Code outside the repository

    Crates and system interfaces are classes of operations, with what the code
    relies on as laws in a second class, and a small concrete instance of both
    that the witnesses run on: [rtrb] ([RtrbProducer], [RtrbConsumer];
    [ListRing]), [postcard] ([Postcard], [PostcardSerde], [PostcardLaws];
    [CountableCodec]; the writers it is used with are [LawfulWrite]), sockets
    and the clock ([UdpSocket], [UdpRecvLaws]; [LogSocket], [DeadSocket]),
    [priority_queue] ([PriorityQueue]; [MapPQ]),
    [jack] ([Jack], with [cycle_buffers] as what a process cycle guarantees;
    [BufferJack]), [coreaudio_sys] and the Mach clock ([CoreAudioSys],
    [PropertyNumbers], [CoreAudioLayout], [LawfulNumbers], [LawfulLayout],
    [MachClock]), CoreFoundation ([CoreFoundation], [LawfulCoreFoundation]: a
    string may be shared or fail to be created, and comparing anything but live
    strings is undefined behaviour, [cf_string_compare]) and the platform's floating-point functions ([FloatPlatform],
    [LawfulPlatform]).  The applications behind the traits of [state.rs] are the
    class [ClientContext] ([EagerApp]).

    ** Bounds and fuel

    [usize] has 64 bits.  Endless loops ([Client_loop], [ServerState_loop],
    [discovery_loop]) take the number of iterations to run, and the theorems
    hold for every number.  Loops that end ([write_zip], [expire]) take fuel
    computed by their caller from the number of items left; running out of it
    is an outcome ([UB]) that the theorems exclude.  [MAX_PORTS] (2^30) keeps
    the sample indices of a JACK session, whose frame counter has 32 bits, in
    the range of [i64].

    ** Not modelled

    Logging, [Debug] and [Display] implementations, derived orders and hashes;
    alignment of the HAL's buffers, and NaN payloads; thread scheduling.  The
    queues are lock-free rings whose two ends are used by one thread each.  The
    CoreAudio callbacks are steps that follow each other: each touches the IO
    state under its lock and the other statics by atomic operations (the host,
    which is set once, included).  The clock of a zero time stamp is read before
    the lock is taken, so it is an argument of the step that may be older than
    the state; the theorems say where they assume that it is not, and
    [zero_timestamp_race] what follows otherwise. *)

From stdpp Require Export base tactics numbers option list gmap.
From Stdlib Require Export ZArith Lia.
#[global] Open Scope Z_scope.

(** ** Outcomes of Rust code

    A Rust computation returns, panics, or (in [unsafe] code) has undefined
    behaviour. *)
Inductive exec (A : Type) : Type :=
  | Ret (a : A)
  | Panic
  | UB.
Arguments Ret {A} a.
Arguments Panic {A}.
Arguments UB {A}.

#[global] Instance exec_ret : MRet exec := fun A a => Ret a.
#[global] Instance exec_bind : MBind exec := fun A B f m =>
  match m with Ret a => f a | Panic => Panic | UB => UB end.

(** Rust's [Result]. *)
Inductive Result (T E : Type) : Type :=
  | Ok (t : T)
  | Err (e : E).
Arguments Ok {T E} t.
Arguments Err {T E} e.

(** [Option::unwrap] and [Result::unwrap]. *)
Definition unwrap {A} (o : option A) : exec A :=
  match o with Some a => Ret a | None => Panic end.
Definition unwrap_ok {T E} (r : Result T E) : exec T :=
  match r with Ok t => Ret t | Err _ => Panic end.
(** [Result::ok]. *)
Definition ok {T E} (r : Result T E) : option T :=
  match r with Ok t => Some t | Err _ => None end.

(** ** Machine integers

    A [w]-bit unsigned integer is a [Z] in [0 .. 2^w); [usize] has 64 bits. *)
Definition u8_MAX : Z := 2 ^ 8 - 1.
Definition u32_MAX : Z := 2 ^ 32 - 1.
Definition u64_MAX : Z := 2 ^ 64 - 1.
Definition usize_MAX : Z := u64_MAX.
Definition i64_MIN : Z := - 2 ^ 63.
Definition i64_MAX : Z := 2 ^ 63 - 1.

(** [strict_add], [strict_mul] (at the type whose maximum is [max]) and
    [strict_sub] panic on overflow in every build profile. *)
Definition strict_add (max a b : Z) : exec Z :=
  if a + b <=? max then Ret (a + b) else Panic.
Definition strict_mul (max a b : Z) : exec Z :=
  if a * b <=? max then Ret (a * b) else Panic.
Definition strict_sub (a b : Z) : exec Z :=
  if b <=? a then Ret (a - b) else Panic.
(** [try_into().unwrap()] to an unsigned type with maximum [max]. *)
Definition try_into (max z : Z) : exec Z :=
  if (0 <=? z) && (z <=? max) then Ret z else Panic.
(** [u64::checked_signed_diff], followed by [unwrap]. *)
Definition signed_diff (a b : Z) : exec Z :=
  if (i64_MIN <=? a - b) && (a - b <=? i64_MAX) then Ret (a - b) else Panic.

Definition is_u8 (z : Z) : Prop := 0 <= z <= u8_MAX.
Definition is_u32 (z : Z) : Prop := 0 <= z <= u32_MAX.
Definition is_u64 (z : Z) : Prop := 0 <= z <= u64_MAX.

(** ** Hint databases and tactics *)

Create HintDb syfala.
Create Rewrite HintDb syfala_lengths.

(** Unfold the machine-integer bounds everywhere, then [lia]. *)
Ltac bounds :=
  unfold is_u8, is_u32, is_u64, usize_MAX, u8_MAX, u32_MAX, u64_MAX,
    i64_MIN, i64_MAX in *; lia.

(** ** Lemmas on outcomes *)

Lemma bind_Ret {A B} (a : A) (f : A → exec B) : (Ret a ≫= f) = f a.
Proof. reflexivity. Qed.

Lemma bind_Ret_inv {A B} (m : exec A) (f : A → exec B) b :
  m ≫= f = Ret b → ∃ a, m = Ret a ∧ f a = Ret b.
Proof. destruct m; simpl; [eauto|discriminate..]. Qed.

Lemma strict_add_Ret max a b : a + b <= max → strict_add max a b = Ret (a + b).
Proof. intros. unfold strict_add. by rewrite (proj2 (Z.leb_le _ _)). Qed.

Lemma strict_add_inv max a b c :
  strict_add max a b = Ret c → c = a + b ∧ a + b <= max.
Proof. unfold strict_add. destruct (Z.leb_spec (a + b) max); naive_solver. Qed.

Lemma strict_mul_Ret max a b : a * b <= max → strict_mul max a b = Ret (a * b).
Proof. intros. unfold strict_mul. by rewrite (proj2 (Z.leb_le _ _)). Qed.

Lemma strict_mul_inv max a b c :
  strict_mul max a b = Ret c → c = a * b ∧ a * b <= max.
Proof. unfold strict_mul. destruct (Z.leb_spec (a * b) max); naive_solver. Qed.

Lemma strict_sub_Ret a b : b <= a → strict_sub a b = Ret (a - b).
Proof. intros. unfold strict_sub. by rewrite (proj2 (Z.leb_le _ _)). Qed.

Lemma strict_sub_Panic a b : a < b → strict_sub a b = Panic.
Proof. intros. unfold strict_sub. by rewrite (proj2 (Z.leb_gt _ _)). Qed.

Lemma strict_sub_inv a b c : strict_sub a b = Ret c → c = a - b ∧ b <= a.
Proof. unfold strict_sub. destruct (Z.leb_spec b a); naive_solver. Qed.

Lemma try_into_Ret max z : 0 <= z <= max → try_into max z = Ret z.
Proof.
  intros []. unfold try_into.
  rewrite (proj2 (Z.leb_le 0 z)), (proj2 (Z.leb_le z max)); done.
Qed.

Lemma try_into_inv max z r : try_into max z = Ret r → r = z ∧ 0 <= z <= max.
Proof.
  unfold try_into.
  destruct (Z.leb_spec 0 z), (Z.leb_spec z max); naive_solver.
Qed.

Lemma signed_diff_Ret a b :
  i64_MIN <= a - b <= i64_MAX → signed_diff a b = Ret (a - b).
Proof.
  intros []. unfold signed_diff.
  rewrite (proj2 (Z.leb_le i64_MIN _)), (proj2 (Z.leb_le _ i64_MAX)); done.
Qed.

Lemma signed_diff_inv a b d :
  signed_diff a b = Ret d → d = a - b ∧ i64_MIN <= a - b <= i64_MAX.
Proof.
  unfold signed_diff.
  destruct (Z.leb_spec i64_MIN (a - b)), (Z.leb_spec (a - b) i64_MAX); naive_solver.
Qed.

#[export] Hint Resolve strict_add_Ret strict_mul_Ret strict_sub_Ret
  try_into_Ret signed_diff_Ret : syfala.

(** Invert every successful bind and arithmetic step of the hypotheses. *)
Ltac exec_inv :=
  repeat match goal with
  | H : (_ ≫= _) = Ret _ |- _ => apply bind_Ret_inv in H as (? & ? & ?)
  | H : strict_add _ _ _ = Ret _ |- _ => apply strict_add_inv in H as [-> ?]
  | H : strict_mul _ _ _ = Ret _ |- _ => apply strict_mul_inv in H as [-> ?]
  | H : strict_sub _ _ = Ret _ |- _ => apply strict_sub_inv in H as [-> ?]
  | H : try_into _ _ = Ret _ |- _ => apply try_into_inv in H as [-> ?]
  | H : signed_diff _ _ = Ret _ |- _ => apply signed_diff_inv in H as [-> ?]
  | H : (let '(_, _) := ?p in _) = Ret _ |- _ => destruct p
  | H : Ret _ = Ret _ |- _ => injection H as H
  | H : mret _ = Ret _ |- _ => injection H as H
  | H : Panic = Ret _ |- _ => discriminate H
  | H : UB = Ret _ |- _ => discriminate H
  end.

(** ** Little-endian byte strings *)

Fixpoint to_le (n : nat) (z : Z) : list Z :=
  match n with
  | O => []
  | S n => z mod 256 :: to_le n (z / 256)
  end.

Fixpoint from_le (bs : list Z) : Z :=
  match bs with
  | [] => 0
  | b :: bs => b + 256 * from_le bs
  end.

Lemma length_to_le n z : length (to_le n z) = n.
Proof. revert z; induction n; intros; simpl; auto. Qed.

Lemma to_le_bytes n z : Forall is_u8 (to_le n z).
Proof.
  revert z; induction n as [|n IH]; intros z; simpl; constructor; [|done].
  pose proof (Z.mod_pos_bound z 256). bounds.
Qed.

Lemma from_to_le n z : from_le (to_le n z) = z mod 2 ^ (8 * Z.of_nat n).
Proof.
  revert z; induction n as [|n IH]; intros z; simpl.
  { by rewrite Z.mod_1_r. }
  rewrite IH. replace (8 * Z.of_nat (S n)) with (8 + 8 * Z.of_nat n) by lia.
  rewrite Z.pow_add_r by lia. change (2 ^ 8) with 256.
  rewrite (Z.rem_mul_r z 256 (2 ^ (8 * Z.of_nat n))); lia.
Qed.

Lemma from_to_le_id n z :
  0 <= z < 2 ^ (8 * Z.of_nat n) → from_le (to_le n z) = z.
Proof. intros. rewrite from_to_le. by apply Z.mod_small. Qed.

Lemma from_le_bound bs :
  Forall is_u8 bs → 0 <= from_le bs < 2 ^ (8 * Z.of_nat (length bs)).
Proof.
  induction 1 as [|b bs Hb _ IH]; simpl; [lia|].
  replace (8 * Z.of_nat (S (length bs)))
    with (8 + 8 * Z.of_nat (length bs)) by lia.
  rewrite Z.pow_add_r by lia. change (2 ^ 8) with 256. bounds.
Qed.

Lemma to_from_le bs :
  Forall is_u8 bs → to_le (length bs) (from_le bs) = bs.
Proof.
  induction 1 as [|b bs Hb _ IH]; simpl; [done|].
  assert ((b + 256 * from_le bs) mod 256 = b) as ->.
  { symmetry. apply (Z.mod_unique _ _ (from_le bs)); bounds. }
  assert ((b + 256 * from_le bs) / 256 = from_le bs) as ->.
  { symmetry. apply (Z.div_unique _ _ _ b); bounds. }
  by rewrite IH.
Qed.

#[export] Hint Rewrite length_to_le @length_app @length_take @length_drop
  @length_replicate @length_fmap @length_seq @length_imap : syfala_lengths.
#[export] Hint Rewrite length_seqZ : syfala_lengths.

(** Arithmetic on the lengths of lists. *)
Ltac lengths := autorewrite with syfala_lengths in *; lia.

(** ** Lists *)

Lemma tail_drop {A} n (l : list A) : tail (drop n l) = drop (S n) l.
Proof. revert l; induction n; intros [|x l]; simpl; auto. Qed.

Lemma head_drop {A} n (l : list A) : head (drop n l) = l !! n.
Proof. by rewrite head_lookup, lookup_drop, Nat.add_0_r. Qed.

Lemma foldr_add_nonneg ds : Forall (λ d, 0 <= d) ds → 0 <= foldr Z.add 0 ds.
Proof. induction 1; cbn [foldr] in *; lia. Qed.

Lemma length_Z_take {A} n (l : list A) :
  0 <= n → Z.of_nat (length (take (Z.to_nat n) l)) = Z.min n (Z.of_nat (length l)).
Proof. rewrite length_take. lia. Qed.

Lemma take_length_take {A} k (l : list A) : take (length (take k l)) l = take k l.
Proof. rewrite length_take, <- take_take, firstn_all. done. Qed.

Lemma drop_length_take {A} k (l : list A) : drop (length (take k l)) l = drop k l.
Proof.
  rewrite length_take. destruct (decide (k <= length l)%nat).
  - by rewrite Nat.min_l.
  - by rewrite Nat.min_r, drop_all, drop_ge by lia.
Qed.
