(* ===== verification/SampleType.v ===== *)
(** * Sample types: [syfala_utils/src/sample_type.rs]

    The numeric types a stream can carry, the four traits the byte adapters
    ask of them ([SampleSize], [SampleFromBytes], [SampleToBytes],
    [SampleTypeSilence]) and their ten implementations.  A Rust integer is its
    mathematical value, a float its IEEE-754 bit pattern, which is what
    [to_le_bytes] and [from_le_bytes] store and load. *)

From S2P Require Import Prelude.

(** ** Values *)

(** An unsigned [w]-bit integer, a signed [w]-bit integer, and a [w]-bit
    float given by [to_bits]. *)
Record uint (w : Z) := MkUint { uint_val : Z }.
Record sint (w : Z) := MkSint { sint_val : Z }.
Record float (w : Z) := MkFloat { float_bits : Z }.
Arguments MkUint {w} _.
Arguments uint_val {w} _.
Arguments MkSint {w} _.
Arguments sint_val {w} _.
Arguments MkFloat {w} _.
Arguments float_bits {w} _.

Abbreviation u8 := (uint 8).
Abbreviation u16 := (uint 16).
Abbreviation u32 := (uint 32).
Abbreviation u64 := (uint 64).
Abbreviation i8 := (sint 8).
Abbreviation i16 := (sint 16).
Abbreviation i32 := (sint 32).
Abbreviation i64 := (sint 64).
Abbreviation f32 := (float 32).
Abbreviation f64 := (float 64).

Definition uint_valid {w} (x : uint w) : Prop := 0 <= uint_val x < 2 ^ w.
Definition sint_valid {w} (x : sint w) : Prop :=
  - 2 ^ (w - 1) <= sint_val x < 2 ^ (w - 1).
Definition float_valid {w} (x : float w) : Prop := 0 <= float_bits x < 2 ^ w.

(** [to_le_bytes] and [from_le_bytes] of the standard library, on arrays of
    [w / 8] bytes; signed integers are in two's complement. *)
Definition uint_to_le_bytes {w} (x : uint w) : list Z :=
  to_le (Z.to_nat (w / 8)) (uint_val x).
Definition uint_from_le_bytes {w} (bs : list Z) : uint w := MkUint (from_le bs).
Definition sint_to_le_bytes {w} (x : sint w) : list Z :=
  to_le (Z.to_nat (w / 8)) (sint_val x mod 2 ^ w).
Definition sint_from_le_bytes {w} (bs : list Z) : sint w :=
  let u := from_le bs in
  MkSint (if u <? 2 ^ (w - 1) then u else u - 2 ^ w).
Definition float_to_le_bytes {w} (x : float w) : list Z :=
  to_le (Z.to_nat (w / 8)) (float_bits x).
Definition float_from_le_bytes {w} (bs : list Z) : float w := MkFloat (from_le bs).

(** [slice.try_into().unwrap()] to an array of [n] elements, and
    [*slice.as_mut_array().unwrap() = arr], which yields the slice's new
    contents: both panic when the slice does not have [n] elements. *)
Definition slice_try_into (n : Z) (slice : list Z) : exec (list Z) :=
  if Z.of_nat (length slice) =? n then Ret slice else Panic.
Definition store_array (n : Z) (slice arr : list Z) : exec (list Z) :=
  if Z.of_nat (length slice) =? n then Ret arr else Panic.

(** ** The traits *)

Class SampleSize (T : Type) := SIZE : Z.
Class SampleFromBytes (T : Type) := from_bytes : list Z → exec T.
Class SampleToBytes (T : Type) := to_bytes : T → list Z → exec (list Z).
Class SampleTypeSilence (T : Type) := SILENCE : T.
Arguments SIZE T {_}.
Arguments SILENCE T {_}.

(** ** The implementations *)

#[export] Instance SampleSize_u8 : SampleSize u8 := 1.
#[export] Instance SampleFromBytes_u8 : SampleFromBytes u8 := fun slice =>
  arr ← slice_try_into 1 slice; Ret (uint_from_le_bytes arr).
#[export] Instance SampleToBytes_u8 : SampleToBytes u8 := fun self slice =>
  store_array 1 slice (uint_to_le_bytes self).
#[export] Instance SampleTypeSilence_u8 : SampleTypeSilence u8 :=
  MkUint ((2 ^ 8 - 1) / 2 + 1).

#[export] Instance SampleSize_u16 : SampleSize u16 := 2.
#[export] Instance SampleFromBytes_u16 : SampleFromBytes u16 := fun slice =>
  arr ← slice_try_into 2 slice; Ret (uint_from_le_bytes arr).
#[export] Instance SampleToBytes_u16 : SampleToBytes u16 := fun self slice =>
  store_array 2 slice (uint_to_le_bytes self).
#[export] Instance SampleTypeSilence_u16 : SampleTypeSilence u16 :=
  MkUint ((2 ^ 16 - 1) / 2 + 1).

#[export] Instance SampleSize_u32 : SampleSize u32 := 4.
#[export] Instance SampleFromBytes_u32 : SampleFromBytes u32 := fun slice =>
  arr ← slice_try_into 4 slice; Ret (uint_from_le_bytes arr).
#[export] Instance SampleToBytes_u32 : SampleToBytes u32 := fun self slice =>
  store_array 4 slice (uint_to_le_bytes self).
#[export] Instance SampleTypeSilence_u32 : SampleTypeSilence u32 :=
  MkUint ((2 ^ 32 - 1) / 2 + 1).

#[export] Instance SampleSize_u64 : SampleSize u64 := 8.
#[export] Instance SampleFromBytes_u64 : SampleFromBytes u64 := fun slice =>
  arr ← slice_try_into 8 slice; Ret (uint_from_le_bytes arr).
#[export] Instance SampleToBytes_u64 : SampleToBytes u64 := fun self slice =>
  store_array 8 slice (uint_to_le_bytes self).
#[export] Instance SampleTypeSilence_u64 : SampleTypeSilence u64 :=
  MkUint ((2 ^ 64 - 1) / 2 + 1).

#[export] Instance SampleSize_i8 : SampleSize i8 := 1.
#[export] Instance SampleFromBytes_i8 : SampleFromBytes i8 := fun slice =>
  arr ← slice_try_into 1 slice; Ret (sint_from_le_bytes arr).
#[export] Instance SampleToBytes_i8 : SampleToBytes i8 := fun self slice =>
  store_array 1 slice (sint_to_le_bytes self).
#[export] Instance SampleTypeSilence_i8 : SampleTypeSilence i8 :=
  MkSint 0.

#[export] Instance SampleSize_i16 : SampleSize i16 := 2.
#[export] Instance SampleFromBytes_i16 : SampleFromBytes i16 := fun slice =>
  arr ← slice_try_into 2 slice; Ret (sint_from_le_bytes arr).
#[export] Instance SampleToBytes_i16 : SampleToBytes i16 := fun self slice =>
  store_array 2 slice (sint_to_le_bytes self).
#[export] Instance SampleTypeSilence_i16 : SampleTypeSilence i16 :=
  MkSint 0.

#[export] Instance SampleSize_i32 : SampleSize i32 := 4.
#[export] Instance SampleFromBytes_i32 : SampleFromBytes i32 := fun slice =>
  arr ← slice_try_into 4 slice; Ret (sint_from_le_bytes arr).
#[export] Instance SampleToBytes_i32 : SampleToBytes i32 := fun self slice =>
  store_array 4 slice (sint_to_le_bytes self).
#[export] Instance SampleTypeSilence_i32 : SampleTypeSilence i32 :=
  MkSint 0.

#[export] Instance SampleSize_i64 : SampleSize i64 := 8.
#[export] Instance SampleFromBytes_i64 : SampleFromBytes i64 := fun slice =>
  arr ← slice_try_into 8 slice; Ret (sint_from_le_bytes arr).
#[export] Instance SampleToBytes_i64 : SampleToBytes i64 := fun self slice =>
  store_array 8 slice (sint_to_le_bytes self).
#[export] Instance SampleTypeSilence_i64 : SampleTypeSilence i64 :=
  MkSint 0.

#[export] Instance SampleSize_f32 : SampleSize f32 := 4.
#[export] Instance SampleFromBytes_f32 : SampleFromBytes f32 := fun slice =>
  arr ← slice_try_into 4 slice; Ret (float_from_le_bytes arr).
#[export] Instance SampleToBytes_f32 : SampleToBytes f32 := fun self slice =>
  store_array 4 slice (float_to_le_bytes self).
#[export] Instance SampleTypeSilence_f32 : SampleTypeSilence f32 :=
  MkFloat 0.

#[export] Instance SampleSize_f64 : SampleSize f64 := 8.
#[export] Instance SampleFromBytes_f64 : SampleFromBytes f64 := fun slice =>
  arr ← slice_try_into 8 slice; Ret (float_from_le_bytes arr).
#[export] Instance SampleToBytes_f64 : SampleToBytes f64 := fun self slice =>
  store_array 8 slice (float_to_le_bytes self).
#[export] Instance SampleTypeSilence_f64 : SampleTypeSilence f64 :=
  MkFloat 0.

(** ** What a sample type promises to the byte adapters *)

(** A type whose samples occupy [SIZE] bytes and survive the trip through
    them; [sample_valid] holds of the values the Rust type has. *)
Class SampleValid (T : Type) := sample_valid : T → Prop.
#[export] Instance SampleValid_uint w : SampleValid (uint w) := uint_valid.
#[export] Instance SampleValid_sint w : SampleValid (sint w) := sint_valid.
#[export] Instance SampleValid_float w : SampleValid (float w) := float_valid.

Class Sample (T : Type)
    `{!SampleSize T, !SampleFromBytes T, !SampleToBytes T, !SampleValid T} : Prop := {
  sample_size_range : 0 < SIZE T <= u8_MAX;
  to_bytes_ok x slice :
    Z.of_nat (length slice) = SIZE T →
    ∃ bs, to_bytes x slice = Ret bs ∧
      Z.of_nat (length bs) = SIZE T ∧ Forall is_u8 bs ∧
      (sample_valid x → from_bytes bs = Ret x);
  to_bytes_panics (x : T) slice :
    Z.of_nat (length slice) ≠ SIZE T → to_bytes x slice = Panic;
  from_bytes_ok bs :
    Z.of_nat (length bs) = SIZE T → Forall is_u8 bs →
    ∃ x : T, from_bytes bs = Ret x ∧ sample_valid x ∧
      ∀ slice, length slice = length bs → to_bytes x slice = Ret bs;
  from_bytes_panics bs :
    Z.of_nat (length bs) ≠ SIZE T → from_bytes (T := T) bs = Panic;
}.

(** ** Lemmas *)

Lemma slice_try_into_ok n slice :
  Z.of_nat (length slice) = n → slice_try_into n slice = Ret slice.
Proof. intros <-. unfold slice_try_into. by rewrite Z.eqb_refl. Qed.

Lemma slice_try_into_panics n slice :
  Z.of_nat (length slice) ≠ n → slice_try_into n slice = Panic.
Proof. intros H. unfold slice_try_into. by rewrite (proj2 (Z.eqb_neq _ _)). Qed.

Lemma store_array_ok n slice arr :
  Z.of_nat (length slice) = n → store_array n slice arr = Ret arr.
Proof. intros <-. unfold store_array. by rewrite Z.eqb_refl. Qed.

Lemma store_array_panics n slice arr :
  Z.of_nat (length slice) ≠ n → store_array n slice arr = Panic.
Proof. intros H. unfold store_array. by rewrite (proj2 (Z.eqb_neq _ _)). Qed.

#[export] Hint Resolve slice_try_into_ok slice_try_into_panics
  store_array_ok store_array_panics to_le_bytes : syfala.

Section codecs.
Context (w : Z) (n : nat) (Hw : w = 8 * Z.of_nat n) (Hn : (0 < n)%nat).

Lemma width_bytes : Z.to_nat (w / 8) = n.
Proof using Hw Hn. rewrite Hw, Z.mul_comm, Z.div_mul by lia. lia. Qed.

Lemma uint_from_to (x : uint w) :
  uint_valid x → uint_from_le_bytes (uint_to_le_bytes x) = x.
Proof using Hw Hn.
  destruct x as [x]. unfold uint_from_le_bytes, uint_to_le_bytes, uint_valid.
  simpl. intros. rewrite width_bytes, from_to_le_id; [done|by subst w].
Qed.

Lemma uint_to_from bs :
  length bs = n → Forall is_u8 bs →
  uint_valid (uint_from_le_bytes (w := w) bs) ∧
  uint_to_le_bytes (uint_from_le_bytes (w := w) bs) = bs.
Proof using Hw Hn.
  intros Hl Hb. unfold uint_to_le_bytes, uint_valid. simpl.
  rewrite width_bytes, <- Hl, to_from_le by done. split; [|done].
  subst. by apply from_le_bound.
Qed.

Lemma float_from_to (x : float w) :
  float_valid x → float_from_le_bytes (float_to_le_bytes x) = x.
Proof using Hw Hn.
  destruct x as [x]. unfold float_from_le_bytes, float_to_le_bytes, float_valid.
  simpl. intros. rewrite width_bytes, from_to_le_id; [done|by subst w].
Qed.

Lemma float_to_from bs :
  length bs = n → Forall is_u8 bs →
  float_valid (float_from_le_bytes (w := w) bs) ∧
  float_to_le_bytes (float_from_le_bytes (w := w) bs) = bs.
Proof using Hw Hn.
  intros Hl Hb. unfold float_to_le_bytes, float_valid. simpl.
  rewrite width_bytes, <- Hl, to_from_le by done. split; [|done].
  subst. by apply from_le_bound.
Qed.

Lemma two_power_split : 2 ^ w = 2 ^ (w - 1) + 2 ^ (w - 1) ∧ 0 < 2 ^ (w - 1).
Proof using Hw Hn.
  replace w with (1 + (w - 1)) at 1 by lia.
  rewrite Z.pow_add_r by lia. lia.
Qed.

Lemma sint_from_to (x : sint w) :
  sint_valid x → sint_from_le_bytes (sint_to_le_bytes x) = x.
Proof using Hw Hn.
  destruct two_power_split as [Hp ?].
  destruct x as [x]. unfold sint_from_le_bytes, sint_to_le_bytes, sint_valid.
  simpl. intros Hx. rewrite width_bytes, from_to_le_id.
  2: { rewrite <- Hw. apply Z.mod_pos_bound. lia. }
  f_equal. destruct (decide (0 <= x)).
  - rewrite Z.mod_small by lia. by rewrite (proj2 (Z.ltb_lt _ _)) by lia.
  - assert (x mod 2 ^ w = x + 2 ^ w) as ->.
    { symmetry. apply (Z.mod_unique _ _ (-1)); lia. }
    rewrite (proj2 (Z.ltb_ge _ _)); lia.
Qed.

Lemma sint_to_from bs :
  length bs = n → Forall is_u8 bs →
  sint_valid (sint_from_le_bytes (w := w) bs) ∧
  sint_to_le_bytes (sint_from_le_bytes (w := w) bs) = bs.
Proof using Hw Hn.
  intros Hl Hb. destruct two_power_split as [Hp ?].
  pose proof (from_le_bound bs Hb) as Hu. rewrite Hl, <- Hw in Hu.
  unfold sint_to_le_bytes, sint_from_le_bytes, sint_valid. simpl.
  assert (∀ u, 0 <= u < 2 ^ w →
    (if u <? 2 ^ (w - 1) then u else u - 2 ^ w) mod 2 ^ w = u) as Hm.
  { intros u Hur. destruct (Z.ltb_spec u (2 ^ (w - 1))).
    - apply Z.mod_small; lia.
    - symmetry. apply (Z.mod_unique _ _ (-1)); lia. }
  rewrite Hm by done. rewrite width_bytes, <- Hl, to_from_le by done.
  split; [|done]. destruct (Z.ltb_spec (from_le bs) (2 ^ (w - 1))); lia.
Qed.
End codecs.

(** An encoder and a decoder of [n] bytes that are inverse to each other make
    a [Sample], whatever the trait implementations that wrap them. *)
Lemma Sample_of_codec (T : Type) (n : nat) (valid : T → Prop)
    (enc : T → list Z) (dec : list Z → T) :
  0 < Z.of_nat n <= u8_MAX →
  (∀ x, length (enc x) = n ∧ Forall is_u8 (enc x)) →
  (∀ x, valid x → dec (enc x) = x) →
  (∀ bs, length bs = n → Forall is_u8 bs → valid (dec bs) ∧ enc (dec bs) = bs) →
  @Sample T (Z.of_nat n)
    (fun slice => arr ← slice_try_into (Z.of_nat n) slice; Ret (dec arr))
    (fun self slice => store_array (Z.of_nat n) slice (enc self))
    valid.
Proof.
  intros Hn Henc Hdec Hinv.
  split; [done|..]; unfold to_bytes, from_bytes, sample_valid, SIZE.
  - intros x slice Hs. destruct (Henc x) as [Hl Hb].
    exists (enc x). split_and!; [auto with syfala|by rewrite Hl|done|].
    intros Hv. rewrite slice_try_into_ok by (by rewrite Hl).
    rewrite bind_Ret. by rewrite Hdec.
  - auto with syfala.
  - intros bs Hl Hb. assert (length bs = n) as Hl' by lia.
    destruct (Hinv bs Hl' Hb) as [Hv He].
    exists (dec bs). rewrite slice_try_into_ok by done.
    split_and!; [done..|]. intros slice Hs.
    rewrite store_array_ok by congruence. by rewrite He.
  - intros bs Hl. by rewrite slice_try_into_panics.
Qed.

Ltac solve_sample n from_to to_from :=
  apply (Sample_of_codec _ n);
  [ bounds
  | intros x; split; [apply length_to_le | apply to_le_bytes]
  | apply (from_to _ n); [reflexivity | lia]
  | apply (to_from _ n); [reflexivity | lia] ].

#[export] Instance Sample_u8 : Sample u8.
Proof. solve_sample 1%nat uint_from_to uint_to_from. Qed.
#[export] Instance Sample_u16 : Sample u16.
Proof. solve_sample 2%nat uint_from_to uint_to_from. Qed.
#[export] Instance Sample_u32 : Sample u32.
Proof. solve_sample 4%nat uint_from_to uint_to_from. Qed.
#[export] Instance Sample_u64 : Sample u64.
Proof. solve_sample 8%nat uint_from_to uint_to_from. Qed.
#[export] Instance Sample_i8 : Sample i8.
Proof. solve_sample 1%nat sint_from_to sint_to_from. Qed.
#[export] Instance Sample_i16 : Sample i16.
Proof. solve_sample 2%nat sint_from_to sint_to_from. Qed.
#[export] Instance Sample_i32 : Sample i32.
Proof. solve_sample 4%nat sint_from_to sint_to_from. Qed.
#[export] Instance Sample_i64 : Sample i64.
Proof. solve_sample 8%nat sint_from_to sint_to_from. Qed.
#[export] Instance Sample_f32 : Sample f32.
Proof. solve_sample 4%nat float_from_to float_to_from. Qed.
#[export] Instance Sample_f64 : Sample f64.
Proof. solve_sample 8%nat float_from_to float_to_from. Qed.

(** ** Properties *)

(** Encoding then decoding, decoding then encoding, and the panics on a slice
    of the wrong length, for one sample type. *)
Definition sample_roundtrips (T : Type)
    `{!SampleSize T, !SampleFromBytes T, !SampleToBytes T, !SampleValid T} : Prop :=
  (∀ (x : T) slice, sample_valid x → Z.of_nat (length slice) = SIZE T →
     (bs ← to_bytes x slice; from_bytes bs) = Ret x) ∧
  (∀ bs slice, Forall is_u8 bs → Z.of_nat (length bs) = SIZE T →
     length slice = length bs →
     (x ← from_bytes (T := T) bs; to_bytes x slice) = Ret bs) ∧
  (∀ (x : T) slice, Z.of_nat (length slice) ≠ SIZE T →
     to_bytes x slice = Panic ∧ from_bytes (T := T) slice = Panic).

Lemma Sample_roundtrips T `{Sample T} : sample_roundtrips T.
Proof.
  split_and!.
  - intros x slice Hv Hs. destruct (to_bytes_ok x slice Hs) as (bs & -> & _ & _ & Hd).
    rewrite bind_Ret. auto.
  - intros bs slice Hb Hl Hs. destruct (from_bytes_ok bs Hl Hb) as (x & -> & _ & He).
    rewrite bind_Ret. auto.
  - eauto using to_bytes_panics, from_bytes_panics.
Qed.

(** C35: every sample type of the program, the eight integers and the two
    floats, round-trips through its little-endian bytes in both directions
    (two's complement for the signed ones), and both conversions panic on a
    slice whose length is not [SIZE]. *)
Theorem sample_types_roundtrip :
  sample_roundtrips u8 ∧ sample_roundtrips u16 ∧ sample_roundtrips u32 ∧
  sample_roundtrips u64 ∧ sample_roundtrips i8 ∧ sample_roundtrips i16 ∧
  sample_roundtrips i32 ∧ sample_roundtrips i64 ∧ sample_roundtrips f32 ∧
  sample_roundtrips f64.
Proof. split_and!; apply Sample_roundtrips, _. Qed.

Lemma sample_types_roundtrip_witness :
  (bs ← to_bytes (MkSint (-2) : i16) [0; 0]; from_bytes bs) = Ret (MkSint (-2) : i16) ∧
  to_bytes (MkSint (-2) : i16) [0; 0] = Ret [254; 255].
Proof.
  split; [|reflexivity].
  destruct sample_types_roundtrip as (_ & _ & _ & _ & _ & [H _] & _).
  apply H; [unfold sample_valid, SampleValid_sint, sint_valid; simpl; lia|reflexivity].
Defined.
