(* ===== verification/Float32.v ===== *)
(** * Binary32 arithmetic: what the driver uses of Rust's [f32]

    The decibel conversions of the CoreAudio driver compute with [f32].  Here a
    float that is being computed with is a [spec_float] (the Standard Library's
    executable IEEE-754 specification, at 24 bits of precision), and a float in
    memory is its bit pattern; [from_bits] and [to_bits] relate the two.  The
    basic operations, [sqrt] and [mul_add] are correctly rounded, as Rust
    promises.  What the platform chooses is the class [FloatPlatform]: [powf]
    and [log10], whose precision Rust leaves open, and which of two equal
    arguments [min] and [max] return.

    The lemmas bound rounding: a result whose exact value is at most a float
    [b] is at most [b]. *)

From Stdlib Require Export Floats.SpecFloat.
From S2P Require Import Prelude SampleType.

Definition prec : Z := 24.
Definition emax : Z := 128.

Class FloatPlatform := {
  f32_powf : spec_float → spec_float → spec_float;
  f32_log10 : spec_float → spec_float;
  min_takes_first : spec_float → spec_float → bool;
  max_takes_first : spec_float → spec_float → bool;
}.

(** ** Bit patterns *)

Definition from_bits (x : f32) : spec_float :=
  let b := float_bits x in
  let s := Z.testbit b 31 in
  let e := Z.land (Z.shiftr b 23) 0xFF in
  let m := Z.land b 0x7FFFFF in
  if e =? 0xFF then (if m =? 0 then S754_infinity s else S754_nan)
  else match (if e =? 0 then m else m + 2 ^ 23) with
       | Zpos p => S754_finite s p (Z.max e 1 - 150)
       | _ => S754_zero s
       end.

(** Rust does not say which bit pattern a computed NaN has: this is the one
    hardware prefers. *)
Definition to_bits (x : spec_float) : f32 :=
  let sign (s : bool) := if s then 2 ^ 31 else 0 in
  MkFloat match x with
          | S754_zero s => sign s
          | S754_infinity s => sign s + 0x7F800000
          | S754_nan => 0x7FC00000
          | S754_finite s m e => sign s + (e + 149) * 2 ^ 23 + Zpos m
          end.

(** ** Operations *)

Definition f32_mul : spec_float → spec_float → spec_float := SFmul prec emax.
Definition f32_sub : spec_float → spec_float → spec_float := SFsub prec emax.
Definition f32_div : spec_float → spec_float → spec_float := SFdiv prec emax.
Definition f32_sqrt : spec_float → spec_float := SFsqrt prec emax.
Definition f32_eqb (x y : spec_float) : bool := SFeqb x y.
Definition f32_leb (x y : spec_float) : bool := SFleb x y.
Definition f32_ltb (x y : spec_float) : bool := SFltb x y.
Definition is_nan (x : spec_float) : bool :=
  match x with S754_nan => true | _ => false end.

(** The integer with the float's sign and mantissa at exponent [e], for an [e]
    not above the float's. *)
Definition scaled (s : bool) (m : positive) (em e : Z) : Z :=
  cond_Zopp s (Zpos m * 2 ^ (em - e)).

(** [x.mul_add(a, b)]: [x * a + b], rounded once. *)
Definition f32_mul_add (x a b : spec_float) : spec_float :=
  match x, a with
  | S754_finite sx mx ex, S754_finite sa ma ea =>
      match b with
      | S754_finite sb mb eb =>
          let e := Z.min (ex + ea) eb in
          binary_normalize prec emax
            (scaled (xorb sx sa) (mx * ma) (ex + ea) e + scaled sb mb eb e) e false
      | S754_zero _ => f32_mul x a
      | _ => b
      end
  | _, _ => SFadd prec emax (f32_mul x a) b
  end.

(** [f32::min] and [f32::max] ignore a NaN when the other argument is none. *)
Section minmax.
Context `{FloatPlatform}.

Definition f32_min (x y : spec_float) : spec_float :=
  if is_nan x then y else if is_nan y then x else
  if f32_ltb x y then x else if f32_ltb y x then y else
  if min_takes_first x y then x else y.

Definition f32_max (x y : spec_float) : spec_float :=
  if is_nan x then y else if is_nan y then x else
  if f32_ltb x y then y else if f32_ltb y x then x else
  if max_takes_first x y then x else y.
End minmax.

(** ** The order *)

Lemma pos_compare_cont_swap p q :
  Pos.compare_cont Eq q p = CompOpp (Pos.compare_cont Eq p q).
Proof. change (Pos.compare q p = CompOpp (Pos.compare p q)). apply Pos.compare_antisym. Qed.

Lemma SFcompare_swap x y : SFcompare y x = CompOpp <$> SFcompare x y.
Proof.
  destruct x as [[]|[]| |[] m e], y as [[]|[]| |[] m' e']; try reflexivity; cbn -[Pos.compare_cont].
  all: rewrite (Z.compare_antisym e e'), (pos_compare_cont_swap m m').
  all: by destruct (e ?= e'), (Pos.compare_cont Eq m m').
Qed.

Lemma SFcompare_None x y : SFcompare x y = None ↔ is_nan x = true ∨ is_nan y = true.
Proof. destruct x, y; cbn; intuition congruence. Qed.


Lemma f32_leb_or_gtb x y :
  is_nan x = false → is_nan y = false → f32_leb x y = negb (f32_ltb y x).
Proof.
  intros Hx Hy. unfold f32_leb, f32_ltb, SFleb, SFltb. rewrite (SFcompare_swap x y).
  destruct (SFcompare x y) as [[]|] eqn:E; [done..|].
  apply SFcompare_None in E. destruct E; congruence.
Qed.

Lemma f32_ltb_leb x y : f32_ltb x y = true → f32_leb x y = true.
Proof. unfold f32_leb, f32_ltb, SFleb, SFltb. by destruct (SFcompare x y) as [[]|]. Qed.

Lemma f32_leb_refl x : is_nan x = false → f32_leb x x = true.
Proof.
  intros Hx. unfold f32_leb, SFleb. pose proof (SFcompare_swap x x) as Hs.
  destruct (SFcompare x x) as [[]|] eqn:E; try done.
  apply SFcompare_None in E. destruct E; congruence.
Qed.

(** Positive floats are ordered by exponent, then mantissa. *)
Lemma f32_leb_finite m e m' e' :
  f32_leb (S754_finite false m e) (S754_finite false m' e') = true ↔
  e < e' ∨ e = e' ∧ Zpos m <= Zpos m'.
Proof.
  unfold f32_leb, SFleb, SFcompare.
  change (Pos.compare_cont Eq m m') with (Pos.compare m m').
  destruct (Z.compare_spec e e'), (Pos.compare_spec m m'); intuition (done || lia).
Qed.

(** ** Minimum, maximum and clamping *)

Section minmax_lemmas.
Context `{FloatPlatform}.

Lemma f32_min_spec x y :
  is_nan y = false →
  f32_leb (f32_min x y) y = true ∧ (f32_min x y = x ∧ is_nan x = false ∨ f32_min x y = y).
Proof.
  intros Hy. unfold f32_min. rewrite Hy.
  destruct (is_nan x) eqn:Hx; [auto using f32_leb_refl|].
  destruct (f32_ltb x y) eqn:E; [auto using f32_ltb_leb|].
  destruct (f32_ltb y x) eqn:E'; [auto using f32_leb_refl|].
  destruct (min_takes_first x y); [|auto using f32_leb_refl].
  rewrite f32_leb_or_gtb, E' by done. auto.
Qed.

Lemma f32_max_spec x y :
  is_nan y = false →
  f32_leb y (f32_max x y) = true ∧ (f32_max x y = x ∧ is_nan x = false ∨ f32_max x y = y).
Proof.
  intros Hy. unfold f32_max. rewrite Hy.
  destruct (is_nan x) eqn:Hx; [auto using f32_leb_refl|].
  destruct (f32_ltb x y) eqn:E; [auto using f32_leb_refl|].
  destruct (f32_ltb y x) eqn:E'; [auto using f32_ltb_leb|].
  destruct (max_takes_first x y); [|auto using f32_leb_refl].
  rewrite f32_leb_or_gtb, E by done. auto.
Qed.

(** Clamping: also for a NaN. *)
Lemma f32_clamp_spec x lo hi :
  f32_leb lo hi = true →
  let y := f32_max (f32_min x hi) lo in
  f32_leb lo y = true ∧ f32_leb y hi = true ∧ (y = x ∨ y = lo ∨ y = hi).
Proof.
  intros Hlh y.
  assert (is_nan lo = false ∧ is_nan hi = false) as [Hlo Hhi] by (by destruct lo, hi).
  destruct (f32_min_spec x hi Hhi) as [Hm Hm'].
  destruct (f32_max_spec (f32_min x hi) lo Hlo) as [HM HM'].
  split; [done|]. subst y. destruct HM' as [[-> _]| ->]; [|auto].
  split; [done|]. destruct Hm' as [[-> _]| ->]; auto.
Qed.
End minmax_lemmas.

(** ** Rounding does not cross a float *)

Lemma Zdigits2_log2 p : Zdigits2 (Zpos p) = Z.log2 (Zpos p) + 1.
Proof.
  cbn [Zdigits2].
  induction p as [p IH|p IH|]; cbn [digits2_pos]; [..|reflexivity];
    rewrite Pos2Z.inj_succ, IH.
  - rewrite Pos2Z.inj_xI, Z.log2_succ_double; lia.
  - rewrite Pos2Z.inj_xO, Z.log2_double; lia.
Qed.

(** [k] right shifts divide by [2^k], and a bit that was shifted out is
    remembered. *)
Definition inexact (a : shr_record) : bool := shr_r a || shr_s a.
Definition shifted (k : Z) (a b : shr_record) : Prop :=
  shr_m b = shr_m a / 2 ^ k ∧
  (inexact b = true → shr_m b * 2 ^ k < shr_m a ∨ inexact a = true).

Lemma shr_1_shifted a : 0 <= shr_m a → shifted 1 a (shr_1 a).
Proof.
  destruct a as [m r s]. cbn. intros Hm. unfold shifted, inexact.
  destruct m as [|[p|p|]|]; [| | | |lia]; cbn [shr_1 shr_m shr_r shr_s]; change (2 ^ 1) with 2.
  - split; [reflexivity|]. cbn. auto.
  - rewrite Pos2Z.inj_xI, Z.mul_comm, Z.div_add_l by lia. split; [|lia].
    change (1 / 2) with 0. lia.
  - rewrite Pos2Z.inj_xO, Z.mul_comm, Z.div_mul by lia. split; [reflexivity|]. cbn. auto.
  - split; [reflexivity|]. lia.
Qed.

Lemma shifted_trans j k a b c :
  0 <= j → 0 <= k → shifted j a b → shifted k b c → shifted (j + k) a c.
Proof.
  intros Hj Hk [Hb Hbi] [Hc Hci]. pose proof (Z.pow_pos_nonneg 2 j). pose proof (Z.pow_pos_nonneg 2 k).
  split.
  - rewrite Hc, Hb, Z.pow_add_r, Z.div_div by lia. reflexivity.
  - intros Hi. rewrite Z.pow_add_r by lia.
    pose proof (Z.mul_div_le (shr_m a) (2 ^ j)). pose proof (Z.mul_div_le (shr_m b) (2 ^ k)).
    rewrite <- Hb in *. rewrite <- Hc in *. destruct (Hci Hi) as [Hlt|Hbx]; [left; nia|].
    destruct (Hbi Hbx) as [Hlt|Hax]; [left; nia|by right].
Qed.

Lemma iter_shr_shifted p a : 0 <= shr_m a → shifted (Zpos p) a (SpecFloat.iter_pos shr_1 p a).
Proof.
  assert (∀ j a b, 0 <= j → shifted j a b → 0 <= shr_m a → 0 <= shr_m b) as Hpos.
  { intros j a' b' Hj [-> _] Ha. apply Z.div_pos; [done|]. by apply Z.pow_pos_nonneg. }
  revert a. induction p as [p IH|p IH|]; intros a Ha; cbn [SpecFloat.iter_pos].
  - replace (Zpos p~1) with (1 + (Zpos p + Zpos p)) by lia.
    pose proof (shr_1_shifted a Ha) as H1. eapply shifted_trans; [lia..|exact H1|].
    pose proof (Hpos 1 _ _ ltac:(lia) H1 Ha) as Ha1. pose proof (IH _ Ha1) as H2.
    eapply shifted_trans; [lia..|exact H2|]. eauto using Pos2Z.is_nonneg.
  - replace (Zpos p~0) with (Zpos p + Zpos p) by lia. pose proof (IH _ Ha) as H2.
    eapply shifted_trans; [lia..|exact H2|]. eauto using Pos2Z.is_nonneg.
  - by apply shr_1_shifted.
Qed.

Lemma iter_xO m k : Zpos (Pos.iter xO m k) = Zpos m * 2 ^ Zpos k.
Proof.
  induction k as [|k IH] using Pos.peano_ind; [by rewrite Z.mul_comm|].
  rewrite Pos.iter_succ, Pos2Z.inj_xO, IH, Pos2Z.inj_succ, Z.pow_succ_r by lia. lia.
Qed.

Section rounding.
(** The bound: a float of full precision or a subnormal one. *)
Context (mb : positive) (eb : Z).
Hypothesis bound_canonical : fexp prec emax (Zdigits2 (Zpos mb) + eb) <= eb.

(** [m * 2^e], plus something that is not nothing when [l] is inexact, is at
    most the bound. *)
Definition below (m e : Z) (l : location) : Prop :=
  0 <= m ∧ e <= eb ∧ m <= Zpos mb * 2 ^ (eb - e) ∧
  (l ≠ loc_Exact → m < Zpos mb * 2 ^ (eb - e)).

Lemma below_digits m e l : below m e l → fexp prec emax (Zdigits2 m + e) <= eb.
Proof.
  intros (Hm & He & Hle & _). etransitivity; [|exact bound_canonical].
  assert (Zdigits2 m + e <= Zdigits2 (Zpos mb) + eb) as Hd; [|unfold fexp; lia].
  rewrite (Zdigits2_log2 mb). pose proof (Z.log2_nonneg (Zpos mb)).
  destruct m as [|p|p]; [change (Zdigits2 0) with 0; lia| |lia]. rewrite (Zdigits2_log2 p).
  apply Z.log2_le_mono in Hle. rewrite Z.log2_mul_pow2 in Hle by lia. lia.
Qed.

Lemma shr_record_of_loc_spec m l :
  shr_m (shr_record_of_loc m l) = m ∧
  (inexact (shr_record_of_loc m l) = true → l ≠ loc_Exact).
Proof. by destruct l as [|[]]. Qed.

Lemma loc_of_shr_record_inexact a : loc_of_shr_record a ≠ loc_Exact → inexact a = true.
Proof. by destruct a as [m [] []]. Qed.

Lemma shr_fexp_below m e l :
  below m e l →
  let '(a, e') := shr_fexp prec emax m e l in below (shr_m a) e' (loc_of_shr_record a).
Proof.
  intros Hb. pose proof (below_digits _ _ _ Hb) as Hd. destruct Hb as (Hm & He & Hle & Hlt).
  destruct (shr_record_of_loc_spec m l) as [Hr Hri].
  unfold shr_fexp, shr. destruct (fexp prec emax (Zdigits2 m + e) - e) as [|k|k] eqn:Ek.
  1, 3: unfold below; rewrite Hr; split_and!; auto using loc_of_shr_record_inexact.
  destruct (iter_shr_shifted k (shr_record_of_loc m l)) as [Hq Hi]; [by rewrite Hr|].
  rewrite Hr in Hq, Hi. set (a := SpecFloat.iter_pos shr_1 k _) in *.
  pose proof (Z.pow_pos_nonneg 2 (Zpos k)). pose proof (Z.mul_div_le m (2 ^ Zpos k)).
  assert (Zpos mb * 2 ^ (eb - e) = Zpos mb * 2 ^ (eb - (e + Zpos k)) * 2 ^ Zpos k) as Hs.
  { rewrite <- Z.mul_assoc, <- Z.pow_add_r by lia. do 2 f_equal. lia. }
  rewrite Hs in Hle, Hlt. split_and!.
  - rewrite Hq. apply Z.div_pos; lia.
  - lia.
  - rewrite Hq. apply Z.div_le_upper_bound; lia.
  - intros Hl. apply loc_of_shr_record_inexact in Hl. rewrite Hq in *.
    destruct (Hi Hl) as [Hx|Hx]; [nia|]. apply Hri, Hlt in Hx. apply Z.div_lt_upper_bound; lia.
Qed.

Lemma round_nearest_even_below m e l : below m e l → below (round_nearest_even m l) e loc_Exact.
Proof.
  intros (Hm & He & Hle & Hlt). unfold below, round_nearest_even.
  destruct l as [|[]]; [|destruct (Z.even m)|..]; split_and!; try done; try lia;
    by assert (m < Zpos mb * 2 ^ (eb - e)) by (by apply Hlt); lia.
Qed.

(** A rounded number is of the given sign and not beyond the bound. *)
Definition within (s : bool) (x : spec_float) : Prop :=
  x = S754_zero s ∨
  ∃ m e, x = S754_finite s m e ∧ e <= eb ∧ Zpos m <= Zpos mb * 2 ^ (eb - e).

Lemma binary_round_aux_within s m e l :
  eb <= emax - prec → below m e l → within s (binary_round_aux prec emax s m e l).
Proof.
  intros Heb Hb. unfold binary_round_aux. apply shr_fexp_below in Hb.
  destruct (shr_fexp prec emax m e l) as [a e'].
  apply round_nearest_even_below, shr_fexp_below in Hb.
  destruct (shr_fexp prec emax _ e' loc_Exact) as [b e''].
  destruct Hb as (Hm & He & Hle & _).
  destruct (shr_m b) as [|p|p]; [by left| |lia].
  rewrite (proj2 (Z.leb_le e'' _)) by lia. right. eauto.
Qed.

Lemma binary_round_within s m e :
  eb <= emax - prec → e <= eb → Zpos m <= Zpos mb * 2 ^ (eb - e) →
  within s (binary_round prec emax s m e).
Proof.
  intros Heb He Hm. unfold binary_round, shl_align.
  destruct (fexp prec emax (Zpos (digits2_pos m) + e) - e) as [|k|k] eqn:Ek;
    apply binary_round_aux_within; try done; split_and!; try done; try lia.
  rewrite iter_xO.
  replace (eb - _) with (eb - e + Zpos k) by lia.
  rewrite Z.pow_add_r, Z.mul_assoc by lia. apply Z.mul_le_mono_nonneg_r; lia.
Qed.

Lemma within_geb x :
  within true x → f32_leb (S754_finite true mb eb) x = true ∧ f32_leb x (S754_zero false) = true.
Proof.
  intros [->|(m & e & -> & He & Hm)]; [done|]. split; [|done].
  unfold f32_leb, SFleb, SFcompare.
  destruct (Z.compare_spec eb e) as [->| |]; [|lia|done].
  rewrite Z.sub_diag, Z.mul_1_r in Hm.
  change (Pos.compare_cont Eq mb m) with (Pos.compare mb m).
  by destruct (Pos.compare_spec mb m); [|lia|].
Qed.
End rounding.

(** ** Square roots and sums of numbers of the unit interval *)

Lemma from_bits_finite v s m e : from_bits v = S754_finite s m e → Zpos m < 2 ^ 24.
Proof.
  unfold from_bits. set (b := float_bits v).
  assert (0 <= Z.land b 0x7FFFFF < 2 ^ 23).
  { change 0x7FFFFF with (Z.ones 23). rewrite Z.land_ones by lia. by apply Z.mod_pos_bound. }
  destruct (_ =? 0xFF); [by destruct (_ =? 0)|].
  destruct (_ =? 0); [destruct (Z.land b _) eqn:E|destruct (Z.land b _ + _) eqn:E];
    intros [= <- <- <-]; lia.
Qed.

(** The bit pattern of a float of the format fits in 32 bits. *)
Lemma to_bits_valid x : valid_binary prec emax x = true → float_valid (to_bits x).
Proof.
  unfold float_valid. destruct x as [[]|[]| |sg m e]; try done.
  cbn [valid_binary to_bits float_bits]. unfold bounded, canonical_mantissa, fexp, emin, prec, emax.
  rewrite andb_true_iff, Z.eqb_eq, Z.leb_le. change (Zpos (digits2_pos m)) with (Zdigits2 (Zpos m)).
  rewrite Zdigits2_log2. intros [He Hmax]. pose proof (Z.log2_spec (Zpos m) ltac:(lia)) as [_ Hm].
  assert (Z.succ (Z.log2 (Zpos m)) <= 24) by lia.
  assert (Zpos m < 2 ^ 24) by (eapply Z.lt_le_trans; [exact Hm|]; apply Z.pow_le_mono_r; lia).
  assert (-149 <= e) by lia. destruct sg; lia.
Qed.

(** [1.0], as a bound. *)
Abbreviation within_1 := (within (2 ^ 23) (-23)).

Lemma f32_sqrt_within_1 m e :
  e <= 0 → Zpos m <= 2 ^ (- e) → within_1 false (f32_sqrt (S754_finite false m e)).
Proof.
  intros He Hm. unfold f32_sqrt, SFsqrt, SFsqrt_core_binary.
  set (e' := Z.min _ _). set (m' := match e - 2 * e' with Z0 => _ | _ => _ end).
  assert (Zdigits2 (Zpos m) + e <= 1) as Hd.
  { rewrite Zdigits2_log2. apply Z.log2_le_mono in Hm. rewrite Z.log2_pow2 in Hm; lia. }
  assert (Z.div2 (Zdigits2 (Zpos m) + e + 1) <= 1) by (rewrite Z.div2_div; apply Z.div_le_upper_bound; lia).
  assert (e' <= -23) as He' by (subst e'; unfold fexp, emin, prec, emax; lia).
  assert (e' <= e / 2) as Hs by (rewrite <- Z.div2_div; apply Z.le_min_r).
  assert (2 * e' <= e) by (pose proof (Z.mul_div_le e 2); lia).
  assert (m' = Zpos m * 2 ^ (e - 2 * e')) as Hm'.
  { subst m'. destruct (e - 2 * e') eqn:E; [lia| |lia]. rewrite Z.shiftl_mul_pow2; lia. }
  assert (m' <= 2 ^ (- e') * 2 ^ (- e')) as Hsq.
  { rewrite Hm', <- Z.pow_add_r by lia.
    replace (- e' + - e') with (- e + (e - 2 * e')) by lia.
    rewrite (Z.pow_add_r 2 (- e)) by lia. apply Z.mul_le_mono_nonneg_r; lia. }
  pose proof (Z.sqrtrem_spec m' ltac:(lia)) as Hq. destruct (Z.sqrtrem m') as [q r].
  destruct Hq as [Hq Hr]. pose proof (Z.pow_pos_nonneg 2 (- e')).
  apply binary_round_aux_within; [done..|].
  unfold below. replace (Zpos (2 ^ 23) * 2 ^ (-23 - e')) with (2 ^ (- e')).
  2:{ change (Zpos (2 ^ 23)) with (2 ^ 23). rewrite <- Z.pow_add_r by lia. f_equal. lia. }
  split_and!; [lia|done|nia|]. destruct (Z.eqb_spec r 0); [done|]. intros _. nia.
Qed.

(** [x * b - b] lies between [-b] and zero. *)
Lemma f32_mul_add_neg mb eb mx ex :
  fexp prec emax (Zdigits2 (Zpos mb) + eb) <= eb → eb <= emax - prec →
  ex <= 0 → Zpos mx <= 2 ^ (- ex) →
  let b s := S754_finite s mb eb in
  let y := f32_mul_add (S754_finite false mx ex) (b false) (b true) in
  f32_leb (b true) y = true ∧ f32_leb y (S754_zero false) = true.
Proof.
  intros Hb Heb Hex Hmx b y. subst y b. unfold f32_mul_add, scaled. cbn [xorb].
  rewrite Z.min_l by lia. rewrite Z.sub_diag, Z.mul_1_r. cbn [cond_Zopp].
  replace (eb - (ex + eb)) with (- ex) by lia.
  destruct (Zpos (mx * mb) + _) as [|p|p] eqn:E; cbn [binary_normalize].
  - done.
  - nia.
  - apply within_geb, binary_round_within; [done..|lia|].
    replace (eb - (ex + eb)) with (- ex) by lia. nia.
Qed.
