(* ===== verification/Format.v ===== *)
(** * Stream formats: [syfala_proto/src/format.rs]

    The sample formats a stream can be declared with, validated sample rates
    (an [f64] by its bit pattern), channel counts and buffer sizes, and the
    buffer-size arithmetic on [u32]. *)

From S2P Require Import Prelude SampleType.

(** ** Sample formats *)

Inductive SampleType : Set :=
  | U8 | U16 | U24 | U32 | U64
  | I8 | I16 | I24 | I32 | I64
  | IEEF32 | IEEF64.

#[export] Instance SampleType_eq_dec : EqDecision SampleType.
Proof. solve_decision. Defined.

Definition is_signed (self : SampleType) : bool :=
  match self with
  | I8 | I16 | I24 | I32 | IEEF32 | IEEF64 => true
  | _ => false
  end.

Definition is_float (self : SampleType) : bool :=
  match self with IEEF32 | IEEF64 => true | _ => false end.

Definition sample_size (self : SampleType) : Z :=
  match self with
  | U8 | I8 => 1
  | U16 | I16 => 2
  | U24 | I24 => 3
  | U32 | I32 | IEEF32 => 4
  | U64 | I64 | IEEF64 => 8
  end.

(** ** Sample rates *)

(** [f64::is_normal] and [f64::is_sign_positive] on the bit pattern: the
    exponent field is neither all zeros nor all ones, the sign bit is clear. *)
Definition f64_exponent (bits : Z) : Z := Z.land (Z.shiftr bits 52) 0x7FF.
Definition f64_is_normal (bits : Z) : bool :=
  negb (f64_exponent bits =? 0) && negb (f64_exponent bits =? 0x7FF).
Definition f64_is_sign_positive (bits : Z) : bool := negb (Z.testbit bits 63).

Record SampleRate := MkSampleRate { SampleRate_get : f64 }.

Definition SampleRate_new (val : f64) : option SampleRate :=
  if f64_is_normal (float_bits val) && f64_is_sign_positive (float_bits val)
  then Some (MkSampleRate val)
  else None.

Inductive SampleRateError : Set := MkSampleRateError.

Definition SampleRate_try_from (value : f64) : Result SampleRate SampleRateError :=
  match SampleRate_new value with
  | Some r => Ok r
  | None => Err MkSampleRateError
  end.

(** ** Formats *)

(** [ChannelCount] wraps a [NonZeroU32], [BufferSize] a [u32]. *)
Record ChannelCount := MkChannelCount { ChannelCount_0 : Z }.
Record BufferSize := MkBufferSize { BufferSize_0 : Z }.

Record Format := MkFormat {
  sample_rate : SampleRate;
  channel_count : ChannelCount;
  buffer_size : BufferSize;
  sample_type : SampleType;
}.

(** [NonZeroU32::new] and [NonZeroU32::checked_mul]. *)
Definition NonZeroU32_new (n : Z) : option Z := if n =? 0 then None else Some n.
Definition NonZeroU32_checked_mul (a b : Z) : option Z :=
  if a * b <=? u32_MAX then Some (a * b) else None.

(** The bit pattern of [48e3]. *)
Definition f64_48e3 : f64 := MkFloat 0x40E7700000000000.

Definition Format_standard : exec Format :=
  rate ← unwrap (SampleRate_new f64_48e3);
  channels ← unwrap (NonZeroU32_new 2);
  Ret {| sample_rate := rate;
         channel_count := MkChannelCount channels;
         buffer_size := MkBufferSize 32;
         sample_type := IEEF32 |}.

Definition Format_default : exec Format := Format_standard.

Definition chunk_size_samples (self : Format) : exec (option Z) :=
  match NonZeroU32_new (BufferSize_0 (buffer_size self)) with
  | None => Ret None
  | Some n =>
      m ← unwrap (NonZeroU32_checked_mul n (ChannelCount_0 (channel_count self)));
      Ret (Some m)
  end.

Definition chunk_size_bytes (self : Format) : exec (option Z) :=
  samples ← chunk_size_samples self;
  match samples with
  | None => Ret None
  | Some n =>
      m ← unwrap (NonZeroU32_checked_mul n (sample_size (sample_type self)));
      Ret (Some m)
  end.

Record StreamFormats := MkStreamFormats {
  inputs : list Format;
  outputs : list Format;
}.

(** [StreamFormats::default()] and [AsRef<StreamFormats>]. *)
Definition StreamFormats_default : StreamFormats := MkStreamFormats [] [].
Definition StreamFormats_as_ref (self : StreamFormats) : StreamFormats := self.

(** The values the Rust types admit. *)
Definition SampleRate_valid (r : SampleRate) : Prop :=
  float_valid (SampleRate_get r) ∧ SampleRate_new (SampleRate_get r) = Some r.
Definition Format_valid (f : Format) : Prop :=
  SampleRate_valid (sample_rate f) ∧
  0 < ChannelCount_0 (channel_count f) <= u32_MAX ∧
  is_u32 (BufferSize_0 (buffer_size f)).

#[export] Instance float_eq_dec w : EqDecision (float w).
Proof. solve_decision. Defined.
#[export] Instance SampleRate_eq_dec : EqDecision SampleRate.
Proof. solve_decision. Defined.
#[export] Instance ChannelCount_eq_dec : EqDecision ChannelCount.
Proof. solve_decision. Defined.
#[export] Instance BufferSize_eq_dec : EqDecision BufferSize.
Proof. solve_decision. Defined.
#[export] Instance Format_eq_dec : EqDecision Format.
Proof. solve_decision. Defined.
#[export] Instance StreamFormats_eq_dec : EqDecision StreamFormats.
Proof. solve_decision. Defined.

(** ** Lemmas *)

Lemma sample_size_range t : 1 <= sample_size t <= 8.
Proof. destruct t; simpl; lia. Qed.

Lemma f64_exponent_div bits :
  0 <= bits → f64_exponent bits = (bits / 2 ^ 52) mod 2 ^ 11.
Proof.
  intros. unfold f64_exponent. change 0x7FF with (Z.ones 11).
  rewrite Z.land_ones, Z.shiftr_div_pow2 by lia. done.
Qed.

Lemma f64_sign_bit bits :
  0 <= bits < 2 ^ 64 → Z.testbit bits 63 = (2 ^ 63 <=? bits).
Proof.
  intros. rewrite Z.testbit_eqb by lia.
  destruct (Z.leb_spec (2 ^ 63) bits).
  - assert (bits / 2 ^ 63 = 1) as ->; [|done].
    symmetry. apply (Z.div_unique _ _ _ (bits - 2 ^ 63)); lia.
  - by rewrite Z.div_small by lia.
Qed.

(** ** Properties *)

(** The positive normal [f64]s are the bit patterns from the smallest
    normal number up to, not including, infinity: [SampleRate::new] accepts
    exactly those and stores the value it was given, so zero, the
    subnormals, the infinities, the NaNs and every negative rate are refused. *)
Theorem SampleRate_new_accepts (v : f64) :
  float_valid v →
  SampleRate_new v =
    if decide (0x0010000000000000 <= float_bits v < 0x7FF0000000000000)
    then Some (MkSampleRate v) else None.
Proof.
  destruct v as [b]. unfold SampleRate_new, f64_is_normal, f64_is_sign_positive, float_valid.
  cbn [float_bits]. intros Hb. rewrite f64_exponent_div, f64_sign_bit by lia.
  assert (b / 2 ^ 52 < 2 ^ 12) by (apply Z.div_lt_upper_bound; lia).
  assert (0 <= b / 2 ^ 52) by (apply Z.div_pos; lia).
  pose proof (Z.div_mod b (2 ^ 52)). pose proof (Z.mod_pos_bound b (2 ^ 52)).
  pose proof (Z.div_mod (b / 2 ^ 52) (2 ^ 11)).
  pose proof (Z.mod_pos_bound (b / 2 ^ 52) (2 ^ 11)).
  destruct (Z.eqb_spec ((b / 2 ^ 52) mod 2 ^ 11) 0),
    (Z.eqb_spec ((b / 2 ^ 52) mod 2 ^ 11) 0x7FF), (Z.leb_spec (2 ^ 63) b);
    cbn [negb andb]; case_decide; first [reflexivity | exfalso; lia].
Qed.

Lemma SampleRate_new_accepts_witness :
  SampleRate_new f64_48e3 = Some (MkSampleRate f64_48e3) ∧
  SampleRate_new (MkFloat (2 ^ 63 + 0x40E7700000000000)) = None.
Proof.
  split.
  - rewrite (SampleRate_new_accepts f64_48e3); [reflexivity|].
    unfold float_valid; simpl; lia.
  - rewrite (SampleRate_new_accepts (MkFloat (2 ^ 63 + 0x40E7700000000000)));
      [reflexivity|]. unfold float_valid; simpl; lia.
Defined.

(** C36: for a well-formed format the buffer size in bytes is frames times
    channels times sample size; it is absent exactly when the format declares
    no buffer size, and the method panics exactly when the product does not
    fit in a [u32] (whichever of the two multiplications overflows). *)
Theorem chunk_size_bytes_spec (f : Format) :
  Format_valid f →
  chunk_size_bytes f =
    let frames := BufferSize_0 (buffer_size f) in
    let total := frames * ChannelCount_0 (channel_count f)
                 * sample_size (sample_type f) in
    if frames =? 0 then Ret None
    else if total <=? u32_MAX then Ret (Some total) else Panic.
Proof.
  intros (_ & Hc & Hb). pose proof (sample_size_range (sample_type f)).
  unfold chunk_size_bytes, chunk_size_samples, NonZeroU32_new, NonZeroU32_checked_mul.
  set (b := BufferSize_0 _) in *. set (c := ChannelCount_0 _) in *.
  destruct (Z.eqb_spec b 0); [done|]. assert (0 < b) by bounds.
  destruct (Z.leb_spec (b * c) u32_MAX); simpl.
  - by destruct (Z.leb_spec (b * c * sample_size (sample_type f)) u32_MAX).
  - by rewrite (proj2 (Z.leb_gt _ _)) by nia.
Qed.

Lemma chunk_size_bytes_spec_witness :
  ∃ f, Format_standard = Ret f ∧ chunk_size_bytes f = Ret (Some 256).
Proof.
  eexists. split; [reflexivity|].
  rewrite chunk_size_bytes_spec; [reflexivity|].
  unfold Format_valid, SampleRate_valid, float_valid; simpl.
  split_and!; (reflexivity || bounds).
Defined.

(** Whether a variant names a signed or floating-point format. *)
Definition variant_signed (t : SampleType) : bool :=
  match t with U8 | U16 | U24 | U32 | U64 => false | _ => true end.

(** [is_signed] tells the signed and floating-point formats from the
    unsigned ones for every format except [I64], which it reports as
    unsigned. *)
Theorem is_signed_correct_except_I64 (t : SampleType) :
  is_signed t = variant_signed t ↔ t ≠ I64.
Proof. destruct t; split; simpl; congruence. Qed.
