(* ===== verification/Message.v ===== *)
(** * Protocol messages: [syfala_proto/src/message.rs] and [syfala_proto/src/lib.rs]

    Audio message headers with their index arithmetic, and the messages
    clients and servers exchange.  [Result] is the prelude's; the Rust modules
    [client] and [server] are the modules [client] and [server] here. *)

From S2P Require Import Prelude Format.

(** ** Audio message headers *)

Record AudioStreamMessageHeader := MkAudioStreamMessageHeader {
  byte_idx : Z; (* u64 *)
  n_bytes : Z;  (* u32 *)
}.

Definition next_byte_idx (self : AudioStreamMessageHeader) : exec Z :=
  strict_add u64_MAX (byte_idx self) (n_bytes self).

Record AudioMessageHeader := MkAudioMessageHeader {
  stream_idx : Z; (* u32 *)
  stream_msg : AudioStreamMessageHeader;
}.

(** ** Shared enums *)

Inductive IOState (T U : Type) : Type :=
  | Start (t : T)
  | Stop (u : U).
Arguments Start {T U} t.
Arguments Stop {T U} u.

Inductive Error : Set :=
  | Failure
  | Refusal.

(** ** Client to server *)

Module client.
Inductive Control : Type :=
  | RequestIOStateChange (s : IOState unit unit)
  | Heartbeat.

Inductive Connected : Type :=
  | Control_ (c : Control)
  | Audio (header : AudioMessageHeader).
End client.

Inductive Client : Type :=
  | Client_Discovery
  | Client_ConnectionResult (r : Result unit Error)
  | Client_Connected (c : client.Connected)
  | Client_Disconnect.

Definition Client_HEARTBEAT : Client :=
  Client_Connected (client.Control_ client.Heartbeat).
Definition Client_START_IO : Client :=
  Client_Connected (client.Control_ (client.RequestIOStateChange (Start tt))).
Definition Client_STOP_IO : Client :=
  Client_Connected (client.Control_ (client.RequestIOStateChange (Stop tt))).
Definition Client_CONN_SUCCESS : Client := Client_ConnectionResult (Ok tt).
Definition Client_CONN_FAILED : Client := Client_ConnectionResult (Err Failure).
Definition Client_CONN_REFUSED : Client := Client_ConnectionResult (Err Refusal).
Definition Client_audio (header : AudioMessageHeader) : Client :=
  Client_Connected (client.Audio header).

(** ** Server to client *)

Module server.
Inductive Control : Type :=
  | IOStateChangeResult (s : IOState (Result unit Error) (Result unit Error))
  | Heartbeat.

Inductive Connected : Type :=
  | Control_ (c : Control)
  | Audio (header : AudioMessageHeader).
End server.

Inductive Server : Type :=
  | Server_Connect (formats : StreamFormats)
  | Server_Connected (c : server.Connected)
  | Server_Disconnect.

Definition Server_HEARTBEAT : Server :=
  Server_Connected (server.Control_ server.Heartbeat).
Definition Server_START_IO_OK : Server :=
  Server_Connected (server.Control_ (server.IOStateChangeResult (Start (Ok tt)))).
Definition Server_START_IO_FAILED : Server :=
  Server_Connected (server.Control_ (server.IOStateChangeResult (Start (Err Failure)))).
Definition Server_START_IO_REFUSED : Server :=
  Server_Connected (server.Control_ (server.IOStateChangeResult (Start (Err Refusal)))).
Definition Server_STOP_IO_OK : Server :=
  Server_Connected (server.Control_ (server.IOStateChangeResult (Stop (Ok tt)))).
Definition Server_STOP_IO_FAILED : Server :=
  Server_Connected (server.Control_ (server.IOStateChangeResult (Stop (Err Failure)))).
Definition Server_STOP_IO_REFUSED : Server :=
  Server_Connected (server.Control_ (server.IOStateChangeResult (Stop (Err Refusal)))).
Definition Server_audio (header : AudioMessageHeader) : Server :=
  Server_Connected (server.Audio header).

(** ** Decidable equality *)

#[export] Instance AudioStreamMessageHeader_eq_dec : EqDecision AudioStreamMessageHeader.
Proof. solve_decision. Defined.
#[export] Instance AudioMessageHeader_eq_dec : EqDecision AudioMessageHeader.
Proof. solve_decision. Defined.
#[export] Instance Error_eq_dec : EqDecision Error.
Proof. solve_decision. Defined.
#[export] Instance Result_eq_dec T E `{EqDecision T, EqDecision E} :
  EqDecision (Result T E).
Proof. solve_decision. Defined.
#[export] Instance IOState_eq_dec T U `{EqDecision T, EqDecision U} :
  EqDecision (IOState T U).
Proof. solve_decision. Defined.
#[export] Instance client_Control_eq_dec : EqDecision client.Control.
Proof. solve_decision. Defined.
#[export] Instance client_Connected_eq_dec : EqDecision client.Connected.
Proof. solve_decision. Defined.
#[export] Instance Client_eq_dec : EqDecision Client.
Proof. solve_decision. Defined.
#[export] Instance server_Control_eq_dec : EqDecision server.Control.
Proof. solve_decision. Defined.
#[export] Instance server_Connected_eq_dec : EqDecision server.Connected.
Proof. solve_decision. Defined.
#[export] Instance Server_eq_dec : EqDecision Server.
Proof. solve_decision. Defined.

(** The values the Rust types of a header admit. *)
Definition header_valid (h : AudioMessageHeader) : Prop :=
  is_u32 (stream_idx h) ∧ is_u64 (byte_idx (stream_msg h)) ∧
  is_u32 (n_bytes (stream_msg h)).
