(* ===== verification/Wire.v ===== *)
(** * Wire format: [syfala_network/src/lib.rs]

    The flat enums that are serialised in place of the nested protocol
    messages, the conversions between the two, the encoding and decoding entry
    points, the error mapping, and the socket trait.  [postcard] and the
    [serde] code derived for the flat enums are not part of the repository:
    they are the parameter [Postcard] and its laws [PostcardLaws]. *)

From S2P Require Import Prelude Format Message.

(** ** Flat messages *)

Inductive ClientMessageFlat : Type :=
  | CF_Discovery
  | CF_ConnectionSuccess
  | CF_ConnectionFailed
  | CF_ConnectionRefused
  | CF_StartIO
  | CF_StopIO
  | CF_AudioHeader (stream_idx byte_idx n_bytes : Z)
  | CF_Disconnect
  | CF_Heartbeat.

Inductive ServerMessageFlat : Type :=
  | SF_Connect (f : StreamFormats)
  | SF_StartIOFailed
  | SF_StartIORefused
  | SF_StartIOSuccess
  | SF_StopIOFailed
  | SF_StopIORefused
  | SF_StopIOSuccess
  | SF_AudioHeader (stream_idx byte_idx n_bytes : Z)
  | SF_Disconnect
  | SF_Heartbeat.

#[export] Instance ClientMessageFlat_eq_dec : EqDecision ClientMessageFlat.
Proof. solve_decision. Defined.
#[export] Instance ServerMessageFlat_eq_dec : EqDecision ServerMessageFlat.
Proof. solve_decision. Defined.

(** [u32::from_le_bytes] of a four-byte ASCII tag: the declared
    discriminants. *)
Definition tag (a b c d : Z) : Z := from_le [a; b; c; d].

Definition ClientMessageFlat_discriminant (m : ClientMessageFlat) : Z :=
  match m with
  | CF_Discovery => tag 99 100 115 99             (* cdsc *)
  | CF_ConnectionSuccess => tag 99 99 111 107     (* ccok *)
  | CF_ConnectionFailed => tag 99 99 101 114      (* ccer *)
  | CF_ConnectionRefused => tag 99 99 114 102     (* ccrf *)
  | CF_StartIO => tag 99 115 116 97               (* csta *)
  | CF_StopIO => tag 99 115 116 111               (* csto *)
  | CF_AudioHeader _ _ _ => tag 99 97 117 100     (* caud *)
  | CF_Disconnect => tag 99 100 101 100           (* cded *)
  | CF_Heartbeat => tag 99 108 105 118            (* cliv *)
  end.

Definition ServerMessageFlat_discriminant (m : ServerMessageFlat) : Z :=
  match m with
  | SF_Connect _ => tag 115 99 111 110            (* scon *)
  | SF_StartIOFailed => tag 115 97 105 102        (* saif *)
  | SF_StartIORefused => tag 115 97 105 114       (* sair *)
  | SF_StartIOSuccess => tag 115 97 105 115       (* sais *)
  | SF_StopIOFailed => tag 115 111 105 102        (* soif *)
  | SF_StopIORefused => tag 115 111 105 114       (* soir *)
  | SF_StopIOSuccess => tag 115 111 105 115       (* sois *)
  | SF_AudioHeader _ _ _ => tag 115 97 117 100    (* saud *)
  | SF_Disconnect => tag 115 100 101 100          (* sded *)
  | SF_Heartbeat => tag 115 108 105 118           (* sliv *)
  end.

(** ** Conversions *)

Definition Client_from_flat (v : ClientMessageFlat) : Client :=
  match v with
  | CF_Discovery => Client_Discovery
  | CF_StartIO => Client_START_IO
  | CF_StopIO => Client_STOP_IO
  | CF_AudioHeader stream_idx byte_idx n_bytes =>
      Client_audio {| stream_idx := stream_idx;
                      stream_msg := {| byte_idx := byte_idx; n_bytes := n_bytes |} |}
  | CF_ConnectionSuccess => Client_CONN_SUCCESS
  | CF_ConnectionFailed => Client_CONN_FAILED
  | CF_ConnectionRefused => Client_CONN_REFUSED
  | CF_Disconnect => Client_Disconnect
  | CF_Heartbeat => Client_HEARTBEAT
  end.

Definition ClientMessageFlat_from (v : Client) : ClientMessageFlat :=
  match v with
  | Client_Discovery => CF_Discovery
  | Client_Connected c =>
      match c with
      | client.Control_ ctrl =>
          match ctrl with
          | client.RequestIOStateChange s =>
              match s with
              | Start tt => CF_StartIO
              | Stop tt => CF_StopIO
              end
          | client.Heartbeat => CF_Heartbeat
          end
      | client.Audio (MkAudioMessageHeader stream_idx
                        (MkAudioStreamMessageHeader byte_idx n_bytes)) =>
          CF_AudioHeader stream_idx byte_idx n_bytes
      end
  | Client_ConnectionResult r =>
      match r with
      | Ok tt => CF_ConnectionSuccess
      | Err Failure => CF_ConnectionFailed
      | Err Refusal => CF_ConnectionRefused
      end
  | Client_Disconnect => CF_Disconnect
  end.

Definition Server_from_flat (v : ServerMessageFlat) : Server :=
  match v with
  | SF_Connect f => Server_Connect f
  | SF_StartIOFailed => Server_START_IO_FAILED
  | SF_StartIORefused => Server_START_IO_REFUSED
  | SF_StartIOSuccess => Server_START_IO_OK
  | SF_StopIOFailed => Server_STOP_IO_FAILED
  | SF_StopIORefused => Server_STOP_IO_REFUSED
  | SF_StopIOSuccess => Server_STOP_IO_OK
  | SF_AudioHeader stream_idx byte_idx n_bytes =>
      Server_audio {| stream_idx := stream_idx;
                      stream_msg := {| byte_idx := byte_idx; n_bytes := n_bytes |} |}
  | SF_Disconnect => Server_Disconnect
  | SF_Heartbeat => Server_HEARTBEAT
  end.

Definition ServerMessageFlat_from (v : Server) : ServerMessageFlat :=
  match v with
  | Server_Connect f => SF_Connect f
  | Server_Connected c =>
      match c with
      | server.Control_ ctrl =>
          match ctrl with
          | server.IOStateChangeResult s =>
              match s with
              | Start r =>
                  match r with
                  | Ok tt => SF_StartIOSuccess
                  | Err Failure => SF_StartIOFailed
                  | Err Refusal => SF_StartIORefused
                  end
              | Stop r =>
                  match r with
                  | Ok tt => SF_StopIOSuccess
                  | Err Failure => SF_StopIOFailed
                  | Err Refusal => SF_StopIORefused
                  end
              end
          | server.Heartbeat => SF_Heartbeat
          end
      | server.Audio (MkAudioMessageHeader stream_idx
                        (MkAudioStreamMessageHeader byte_idx n_bytes)) =>
          SF_AudioHeader stream_idx byte_idx n_bytes
      end
  | Server_Disconnect => SF_Disconnect
  end.

(** ** [std::io] *)

(** The error kinds the code names; [OtherKind] stands for the others. *)
Inductive ErrorKind : Set :=
  | UnexpectedEof
  | Other
  | WouldBlock
  | TimedOut
  | FileTooLarge
  | WriteZero
  | InvalidInput
  | OtherKind (code : nat).

#[export] Instance ErrorKind_eq_dec : EqDecision ErrorKind.
Proof. solve_decision. Defined.

(** [std::io::Write], as far as [write_all] and [flush] go. *)
Class Write (W : Type) := {
  write_all : W → list Z → Result W ErrorKind;
  flush : W → Result W ErrorKind;
}.

(** Writers for which it does not matter in how many pieces something is
    written, and which have nothing to flush: the two writers the code uses,
    not any writer at all. *)
Class LawfulWrite (W : Type) `{Write W} : Prop := {
  write_all_nil (w : W) : write_all w [] = Ok w;
  write_all_app (w : W) a b :
    write_all w (a ++ b) =
      match write_all w a with Ok w' => write_all w' b | Err e => Err e end;
  flush_ok (w : W) : flush w = Ok w;
}.

(** [impl Write for &mut [u8]]: writing copies into the slice and moves its
    start past what was written, so the slice always denotes the part that is
    not written yet ([sw_rest]); [sw_written] is the part of the buffer it has
    left behind. *)
Record SliceWriter := MkSliceWriter { sw_written : list Z; sw_rest : list Z }.

#[export] Instance SliceWriter_write : Write SliceWriter := {
  write_all w data :=
    if (length data <=? length (sw_rest w))%nat
    then Ok {| sw_written := sw_written w ++ data;
               sw_rest := drop (length data) (sw_rest w) |}
    else Err WriteZero;
  flush w := Ok w;
}.

(** A fresh [&mut buf[..]]. *)
Definition slice_writer (buf : list Z) : SliceWriter := MkSliceWriter [] buf.

(** [std::io::Cursor] over a fixed array: writes at [position]. *)
Record Cursor := MkCursor { cursor_inner : list Z; cursor_position : nat }.

#[export] Instance Cursor_write : Write Cursor := {
  write_all w data :=
    let pos := Nat.min (cursor_position w) (length (cursor_inner w)) in
    if (pos + length data <=? length (cursor_inner w))%nat
    then Ok {| cursor_inner := take pos (cursor_inner w) ++ data
                               ++ drop (pos + length data) (cursor_inner w);
               cursor_position := cursor_position w + length data |}
    else Err WriteZero;
  flush w := Ok w;
}.

(** ** [postcard] *)

Class Postcard := {
  postcard_Error : Type;
  (* [matches!(e, postcard::Error::DeserializeUnexpectedEnd)] *)
  is_DeserializeUnexpectedEnd : postcard_Error → bool;
}.

(** What the code uses of [postcard] at a message type: [postcard::to_io] and
    deserialising from a slice with [Deserializer::from_bytes], the rest of
    the input being what [finalize] returns. *)
Class PostcardSerde `{Postcard} (M : Type) := {
  to_io : ∀ {W} `{Write W}, M → W → Result W postcard_Error;
  deserialize : list Z → Result (M * list Z) postcard_Error;
}.

(** One [write_all] after the other, stopping at the first error. *)
Fixpoint write_chunks {W} `{Write W} (w : W) (chunks : list (list Z))
    : Result W ErrorKind :=
  match chunks with
  | [] => Ok w
  | c :: chunks =>
      match write_all w c with Ok w => write_chunks w chunks | Err e => Err e end
  end.

(** The documented behaviour: [to_io] writes the message's encoding piece by
    piece (into what pieces it is cut depends on the message only), flushes
    the writer and hands it back so that more can be written after it, or
    reports a serialisation error when the writer refuses something;
    deserialising an encoding gives the message and what follows it. *)
Class PostcardLaws (M : Type) `{PostcardSerde M} (valid : M → Prop) := {
  encoding : M → list Z;
  to_io_spec m :
    ∃ chunks, concat chunks = encoding m ∧
      ∀ W (HW : Write W) (w : W),
        match write_chunks w chunks with
        | Ok w' =>
            match flush w' with
            | Ok w'' => to_io m w = Ok w''
            | Err _ => ∃ e, to_io m w = Err e ∧ is_DeserializeUnexpectedEnd e = false
            end
        | Err _ => ∃ e, to_io m w = Err e ∧ is_DeserializeUnexpectedEnd e = false
        end;
  deserialize_spec m rest :
    valid m → deserialize (encoding m ++ rest) = Ok (m, rest);
}.

Section codec.
Context `{Postcard} `{!PostcardSerde ClientMessageFlat} `{!PostcardSerde ServerMessageFlat}.

Definition client_message_encode {W} `{Write W} (m : Client) (w : W)
    : Result W postcard_Error :=
  to_io (ClientMessageFlat_from m) w.

Definition client_message_decode (slice : list Z)
    : Result (Client * list Z) postcard_Error :=
  match deserialize slice with
  | Ok (m, rest) => Ok (Client_from_flat m, rest)
  | Err e => Err e
  end.

Definition server_message_encode {W} `{Write W} (m : Server) (w : W)
    : Result W postcard_Error :=
  to_io (ServerMessageFlat_from m) w.

Definition server_message_decode (slice : list Z)
    : Result (Server * list Z) postcard_Error :=
  match deserialize slice with
  | Ok (m, rest) => Ok (Server_from_flat m, rest)
  | Err e => Err e
  end.

Definition postcard_to_io_err (e : postcard_Error) : ErrorKind :=
  if is_DeserializeUnexpectedEnd e then UnexpectedEof else Other.
End codec.

Definition io_err_is_timeout (e : ErrorKind) : bool :=
  match e with WouldBlock | TimedOut => true | _ => false end.

(** [size_of::<u64>() + size_of::<u32>()], and one more [u32]. *)
Definition AUDIO_STREAM_MESSAGE_HEADER_SIZE : Z := 8 + 4.
Definition AUDIO_MESSAGE_HEADER_SIZE : Z := AUDIO_STREAM_MESSAGE_HEADER_SIZE + 4.

(** ** Sockets *)

(** Addresses are opaque; instants and durations are in nanoseconds. *)
Abbreviation SocketAddr := N (only parsing).
Abbreviation Instant := Z (only parsing).
Abbreviation Duration := Z (only parsing).

(** The trait.  Operations take [&self], but what a socket does depends on and
    changes the world behind it, which is the state [S]; [recv] fills the
    buffer it is given. *)
Class SyncUdpSock (S : Type) := {
  sock_send : S → list Z → SocketAddr → Result unit ErrorKind * S;
  sock_recv : S → list Z → Result (Z * SocketAddr * Instant) ErrorKind * list Z * S;
  sock_set_recv_timeout : S → option Duration → Result unit ErrorKind * S;
}.

(** What the code uses of [std::net::UdpSocket] and of the clock. *)
Class UdpSocket (S : Type) := {
  udp_send_to : S → list Z → SocketAddr → Result Z ErrorKind * S;
  udp_recv_from : S → list Z → Result (Z * SocketAddr) ErrorKind * list Z * S;
  udp_set_read_timeout : S → option Duration → Result unit ErrorKind * S;
  Instant_now : S → Instant;
}.

#[export] Instance SyncUdpSock_UdpSocket S `{UdpSocket S} : SyncUdpSock S := {
  sock_send sock bytes dest_addr :=
    let (r, sock) := udp_send_to sock bytes dest_addr in
    (match r with
     | Ok n => if n =? Z.of_nat (length bytes) then Ok tt else Err FileTooLarge
     | Err e => Err e
     end, sock);
  sock_recv sock bytes :=
    let '(r, bytes, sock) := udp_recv_from sock bytes in
    (match r with
     | Ok (bytes_read, peer_addr) => Ok (bytes_read, peer_addr, Instant_now sock)
     | Err e => Err e
     end, bytes, sock);
  sock_set_recv_timeout sock timeout := udp_set_read_timeout sock timeout;
}.

(** ** Lemmas *)

#[export] Instance SliceWriter_lawful : LawfulWrite SliceWriter.
Proof.
  split; [| |done].
  - intros [wr rest]. simpl. by rewrite app_nil_r.
  - intros [wr rest] a b. simpl. rewrite length_app.
    destruct (Nat.leb_spec (length a) (length rest)); simpl.
    + rewrite length_drop. repeat case_match; rewrite ?Nat.leb_le, ?Nat.leb_gt in *; try lia.
      * by rewrite <- app_assoc, drop_drop.
      * done.
    + by rewrite (proj2 (Nat.leb_gt _ _)) by lia.
Qed.

#[export] Instance Cursor_lawful : LawfulWrite Cursor.
Proof.
  split; [| |done].
  - intros [inner pos]. simpl. rewrite !Nat.add_0_r.
    rewrite (proj2 (Nat.leb_le _ _)) by lia. by rewrite take_drop.
  - intros [inner pos] a b. simpl. rewrite length_app.
    set (p := Nat.min pos (length inner)).
    destruct (Nat.leb_spec (p + length a) (length inner)); simpl.
    + assert (length (take p inner ++ a ++ drop (p + length a) inner) = length inner) as ->
        by (rewrite !length_app, length_take, length_drop; lia).
      destruct a as [|x a].
      * simpl. by rewrite !Nat.add_0_r, take_drop.
      * simpl length in *.
        replace (Nat.min (pos + S (length a)) (length inner)) with (p + S (length a))%nat by lia.
        rewrite Nat.add_assoc. destruct (_ <=? _)%nat eqn:Hb; [|done].
        do 2 f_equal; [|lia].
        change (S (length a)) with (length (x :: a)).
        assert (length (take p inner) = p) as Hp by (rewrite length_take; lia).
        rewrite (app_assoc (take p inner) (x :: a) (drop _ _)).
        rewrite take_app_length' by (rewrite length_app, Hp; done).
        rewrite drop_app_add' by (rewrite length_app, Hp; done).
        by rewrite drop_drop, <- !app_assoc.
    + by rewrite (proj2 (Nat.leb_gt _ _)) by lia.
Qed.

(** With a lawful writer [to_io] writes the encoding as if in one piece. *)
Lemma write_chunks_concat {W} `{LawfulWrite W} (w : W) chunks :
  write_chunks w chunks = write_all w (concat chunks).
Proof.
  revert w; induction chunks as [|c chunks IH]; intros w; simpl.
  - by rewrite write_all_nil.
  - rewrite write_all_app. by destruct (write_all w c).
Qed.

Lemma to_io_lawful {M} `{PostcardLaws M valid} {W} `{LawfulWrite W} (m : M) (w : W) :
  match write_all w (encoding m) with
  | Ok w' => to_io m w = Ok w'
  | Err _ => ∃ e, to_io m w = Err e ∧ is_DeserializeUnexpectedEnd e = false
  end.
Proof.
  destruct (to_io_spec m) as (chunks & <- & Hs). specialize (Hs W _ w).
  rewrite write_chunks_concat in Hs. destruct (write_all w _) as [w'|]; [|done].
  by rewrite flush_ok in Hs.
Qed.

Lemma slice_writer_fits buf data :
  (length data <= length buf)%nat →
  write_all (slice_writer buf) data = Ok (MkSliceWriter data (drop (length data) buf)).
Proof.
  intros. simpl.
  by rewrite (proj2 (Nat.leb_le _ _)).
Qed.

Lemma slice_writer_full buf data :
  (length buf < length data)%nat → write_all (slice_writer buf) data = Err WriteZero.
Proof.
  intros. simpl.
  by rewrite (proj2 (Nat.leb_gt _ _)).
Qed.

Lemma cursor_fits buf data :
  (length data <= length buf)%nat →
  write_all (MkCursor buf 0) data =
    Ok (MkCursor (data ++ drop (length data) buf) (length data)).
Proof.
  intros. simpl.
  by rewrite (proj2 (Nat.leb_le _ _)).
Qed.

Lemma to_io_slice {M} `{PostcardLaws M valid} (m : M) buf :
  (length (encoding m) <= length buf)%nat →
  to_io m (slice_writer buf) =
    Ok (MkSliceWriter (encoding m) (drop (length (encoding m)) buf)).
Proof.
  intros Hl. pose proof (to_io_lawful m (slice_writer buf)) as Hs.
  by rewrite slice_writer_fits in Hs.
Qed.

Lemma to_io_slice_full {M} `{PostcardLaws M valid} (m : M) buf :
  (length buf < length (encoding m))%nat →
  ∃ e, to_io m (slice_writer buf) = Err e ∧ is_DeserializeUnexpectedEnd e = false.
Proof.
  intros Hl. pose proof (to_io_lawful m (slice_writer buf)) as Hs.
  by rewrite slice_writer_full in Hs.
Qed.

(** The messages whose fields are values of the Rust types. *)
Definition ClientMessageFlat_valid (m : ClientMessageFlat) : Prop :=
  match m with
  | CF_AudioHeader s b n => is_u32 s ∧ is_u64 b ∧ is_u32 n
  | _ => True
  end.
Definition ServerMessageFlat_valid (m : ServerMessageFlat) : Prop :=
  match m with
  | SF_Connect f => Forall Format_valid (inputs f) ∧ Forall Format_valid (outputs f)
  | SF_AudioHeader s b n => is_u32 s ∧ is_u64 b ∧ is_u32 n
  | _ => True
  end.

Lemma Client_flat_roundtrip m : Client_from_flat (ClientMessageFlat_from m) = m.
Proof. by destruct m as [|[[]|[]]|[[[[]|[]]|]|[? [??]]]|]. Qed.

Lemma Server_flat_roundtrip m : Server_from_flat (ServerMessageFlat_from m) = m.
Proof. by destruct m as [f|[[[[[]|[]]|[[]|[]]]|]|[? [??]]]|]. Qed.

(** ** A codec that satisfies the laws

    Any countable type has one: the bits of the message's number, one per
    byte, closed by a [2].  It shows the laws can hold, nothing more. *)
Module CountableCodec.
#[local] Instance postcard : Postcard :=
  {| postcard_Error := bool; is_DeserializeUnexpectedEnd e := e |}.

Fixpoint bits (p : positive) : list Z :=
  match p with xH => [2] | xO p => 0 :: bits p | xI p => 1 :: bits p end.

Fixpoint unbits (bs : list Z) : option (positive * list Z) :=
  match bs with
  | 2 :: bs => Some (xH, bs)
  | 0 :: bs => '(p, rest) ← unbits bs; Some (xO p, rest)
  | 1 :: bs => '(p, rest) ← unbits bs; Some (xI p, rest)
  | _ => None
  end.

Lemma unbits_bits p rest : unbits (bits p ++ rest) = Some (p, rest).
Proof. induction p as [p IH|p IH|]; simpl; by rewrite ?IH. Qed.

Section serde.
Context (M : Type) `{Countable M}.

#[local] Instance serde : PostcardSerde M := {
  to_io W _ m w :=
    match write_all w (bits (encode m)) with
    | Ok w' => match flush w' with Ok w'' => Ok w'' | Err _ => Err false end
    | Err _ => Err false
    end;
  deserialize bs :=
    match unbits bs with
    | Some (p, rest) =>
        match decode p with Some m => Ok (m, rest) | None => Err false end
    | None => Err true
    end;
}.

Lemma laws valid : PostcardLaws M valid.
Proof.
  apply (Build_PostcardLaws _ _ _ valid (λ m, bits (encode m))).
  - intros m. exists [bits (encode m)]. split; [by apply app_nil_r|].
    intros W HW w. simpl. destruct (write_all w _) as [w'|]; [|eauto].
    destruct (flush w'); eauto.
  - intros m rest _. simpl. by rewrite unbits_bits, decode_encode.
Defined.
End serde.
End CountableCodec.

#[export] Instance ClientMessageFlat_countable : Countable ClientMessageFlat.
Proof.
  refine (inj_countable'
    (λ m, match m with
          | CF_Discovery => inl 0%nat | CF_ConnectionSuccess => inl 1%nat
          | CF_ConnectionFailed => inl 2%nat | CF_ConnectionRefused => inl 3%nat
          | CF_StartIO => inl 4%nat | CF_StopIO => inl 5%nat
          | CF_Disconnect => inl 6%nat | CF_Heartbeat => inl 7%nat
          | CF_AudioHeader s b n => inr (s, b, n)
          end)
    (λ x, match x with
          | inl 0%nat => CF_Discovery | inl 1%nat => CF_ConnectionSuccess
          | inl 2%nat => CF_ConnectionFailed | inl 3%nat => CF_ConnectionRefused
          | inl 4%nat => CF_StartIO | inl 5%nat => CF_StopIO
          | inl 6%nat => CF_Disconnect | inl _ => CF_Heartbeat
          | inr (s, b, n) => CF_AudioHeader s b n
          end) _).
  by intros [].
Defined.

#[export] Instance SampleType_countable : Countable SampleType.
Proof.
  refine (inj_countable
    (λ t, match t with
          | U8 => 0%nat | U16 => 1%nat | U24 => 2%nat | U32 => 3%nat | U64 => 4%nat
          | I8 => 5%nat | I16 => 6%nat | I24 => 7%nat | I32 => 8%nat | I64 => 9%nat
          | IEEF32 => 10%nat | IEEF64 => 11%nat
          end)
    (λ n, [U8; U16; U24; U32; U64; I8; I16; I24; I32; I64; IEEF32; IEEF64] !! n) _).
  by intros [].
Defined.

#[export] Instance Format_countable : Countable Format.
Proof.
  refine (inj_countable'
    (λ f, (SampleType.float_bits (SampleRate_get (sample_rate f)),
           ChannelCount_0 (channel_count f), BufferSize_0 (buffer_size f), sample_type f))
    (λ '(r, c, b, t),
       MkFormat (MkSampleRate (SampleType.MkFloat r)) (MkChannelCount c)
         (MkBufferSize b) t) _).
  by intros [[[]] [] [] ?].
Defined.

#[export] Instance ServerMessageFlat_countable : Countable ServerMessageFlat.
Proof.
  refine (inj_countable'
    (λ m, match m with
          | SF_StartIOFailed => inl 0%nat | SF_StartIORefused => inl 1%nat
          | SF_StartIOSuccess => inl 2%nat | SF_StopIOFailed => inl 3%nat
          | SF_StopIORefused => inl 4%nat | SF_StopIOSuccess => inl 5%nat
          | SF_Disconnect => inl 6%nat | SF_Heartbeat => inl 7%nat
          | SF_Connect f => inr (inl (inputs f, outputs f))
          | SF_AudioHeader s b n => inr (inr (s, b, n))
          end)
    (λ x, match x with
          | inl 0%nat => SF_StartIOFailed | inl 1%nat => SF_StartIORefused
          | inl 2%nat => SF_StartIOSuccess | inl 3%nat => SF_StopIOFailed
          | inl 4%nat => SF_StopIORefused | inl 5%nat => SF_StopIOSuccess
          | inl 6%nat => SF_Disconnect | inl _ => SF_Heartbeat
          | inr (inl (i, o)) => SF_Connect (MkStreamFormats i o)
          | inr (inr (s, b, n)) => SF_AudioHeader s b n
          end) _).
  by intros [[]| | | | | | | | |].
Defined.

(** ** Properties *)

(** C37: flattening loses nothing.  The conversions between the protocol
    messages and the wire enums are inverse to each other, for both
    directions of the protocol, so every message has exactly one wire form
    and every wire form exactly one message. *)
Theorem flat_messages_isomorphic :
  (∀ m, Client_from_flat (ClientMessageFlat_from m) = m) ∧
  (∀ f, ClientMessageFlat_from (Client_from_flat f) = f) ∧
  (∀ m, Server_from_flat (ServerMessageFlat_from m) = m) ∧
  (∀ f, ServerMessageFlat_from (Server_from_flat f) = f).
Proof.
  split_and!; [apply Client_flat_roundtrip|by intros []|apply Server_flat_roundtrip|].
  by intros [].
Qed.

(** The declared discriminants are [u32]s that tell the variants apart:
    two client messages with the same tag are the same variant (audio headers
    differ in their fields only), likewise for the server, and no client tag
    is a server tag. *)
Theorem discriminants_distinct :
  (∀ m m', ClientMessageFlat_discriminant m = ClientMessageFlat_discriminant m' →
     m = m' ∨ (∃ s b n s' b' n', m = CF_AudioHeader s b n ∧ m' = CF_AudioHeader s' b' n')) ∧
  (∀ m m', ServerMessageFlat_discriminant m = ServerMessageFlat_discriminant m' →
     m = m' ∨ (∃ f f', m = SF_Connect f ∧ m' = SF_Connect f') ∨
     (∃ s b n s' b' n', m = SF_AudioHeader s b n ∧ m' = SF_AudioHeader s' b' n')) ∧
  (∀ m m', ClientMessageFlat_discriminant m ≠ ServerMessageFlat_discriminant m') ∧
  (∀ m, is_u32 (ClientMessageFlat_discriminant m)) ∧
  (∀ m, is_u32 (ServerMessageFlat_discriminant m)).
Proof.
  split_and!.
  - intros [] []; try (intros ?; discriminate); intros _; eauto 10.
  - intros [] []; try (intros ?; discriminate); intros _; eauto 12.
  - intros [] []; discriminate.
  - intros []; split; discriminate.
  - intros []; split; discriminate.
Qed.

Lemma discriminants_distinct_witness :
  ClientMessageFlat_discriminant CF_StartIO ≠ ClientMessageFlat_discriminant CF_StopIO ∧
  ClientMessageFlat_discriminant CF_Discovery = 0x63736463.
Proof.
  split; [|reflexivity]. intros E.
  destruct discriminants_distinct as [H _].
  destruct (H CF_StartIO CF_StopIO E) as [?|(? & ? & ? & ? & ? & ? & ? & _)]; discriminate.
Defined.

Section roundtrip.
Context `{Postcard} `{!PostcardSerde ClientMessageFlat} `{!PostcardSerde ServerMessageFlat}.
Context `{!PostcardLaws ClientMessageFlat ClientMessageFlat_valid}.
Context `{!PostcardLaws ServerMessageFlat ServerMessageFlat_valid}.

(** C17: what [client_message_encode] writes at the start of a buffer that
    is large enough is decoded by [client_message_decode] to the same
    message, with whatever bytes follow it (the audio payload) returned
    untouched. *)
Theorem client_message_roundtrip (m : Client) (buf payload : list Z) :
  ClientMessageFlat_valid (ClientMessageFlat_from m) →
  (length (encoding (ClientMessageFlat_from m)) <= length buf)%nat →
  ∃ w, client_message_encode m (slice_writer buf) = Ok w ∧
    client_message_decode (sw_written w ++ payload) = Ok (m, payload).
Proof.
  intros Hv Hl. eexists. split; [by apply to_io_slice|]. simpl.
  unfold client_message_decode. rewrite deserialize_spec by done.
  by rewrite Client_flat_roundtrip.
Qed.

(** C18: the same for [server_message_encode] and [server_message_decode],
    stream formats included. *)
Theorem server_message_roundtrip (m : Server) (buf payload : list Z) :
  ServerMessageFlat_valid (ServerMessageFlat_from m) →
  (length (encoding (ServerMessageFlat_from m)) <= length buf)%nat →
  ∃ w, server_message_encode m (slice_writer buf) = Ok w ∧
    server_message_decode (sw_written w ++ payload) = Ok (m, payload).
Proof.
  intros Hv Hl. eexists. split; [by apply to_io_slice|]. simpl.
  unfold server_message_decode. rewrite deserialize_spec by done.
  by rewrite Server_flat_roundtrip.
Qed.
End roundtrip.

Lemma client_message_roundtrip_witness :
  let _ := CountableCodec.postcard in
  let _ := CountableCodec.serde ClientMessageFlat in
  ∃ w, client_message_encode (Client_audio (MkAudioMessageHeader 1 (MkAudioStreamMessageHeader 5 3)))
         (slice_writer (replicate 2000 0)) = Ok w ∧
    client_message_decode (sw_written w ++ [7; 8; 9]) =
      Ok (Client_audio (MkAudioMessageHeader 1 (MkAudioStreamMessageHeader 5 3)), [7; 8; 9]).
Proof.
  intros P S.
  apply (@client_message_roundtrip P S
           (CountableCodec.laws ClientMessageFlat ClientMessageFlat_valid)).
  - simpl. bounds.
  - apply Nat.leb_le. vm_compute. reflexivity.
Defined.

Lemma server_message_roundtrip_witness :
  let _ := CountableCodec.postcard in
  let _ := CountableCodec.serde ServerMessageFlat in
  ∃ w, server_message_encode Server_START_IO_FAILED (slice_writer (replicate 2000 0)) = Ok w ∧
    server_message_decode (sw_written w ++ []) = Ok (Server_START_IO_FAILED, []).
Proof.
  intros P S.
  apply (@server_message_roundtrip P S
           (CountableCodec.laws ServerMessageFlat ServerMessageFlat_valid)).
  - exact I.
  - apply Nat.leb_le. vm_compute. reflexivity.
Defined.
