(* ===== verification/Udp.v ===== *)
(** * UDP transport: [syfala_network/src/udp/client/mod.rs] and
      [syfala_network/src/udp/server/mod.rs]

    The thin socket wrappers of clients and servers (sending an encoded
    message, receiving and decoding a datagram), the discovery beacon and the
    two blocking receive loops.  A loop runs for a number of iterations given
    by a fuel argument: it either has returned an error or is still running,
    which is all an endless loop can do. *)

From S2P Require Import Prelude Format Message Wire.

(** The state of a loop of type [io::Result<Infallible>]. *)
Inductive Loop (St : Type) : Type :=
  | Running (st : St)
  | Returned (e : ErrorKind) (st : St).
Arguments Running {St} st.
Arguments Returned {St} e st.

(** [std::thread::sleep], as it acts on the world behind a socket. *)
Class Sleep (S : Type) := thread_sleep : S → Duration → S.

(** [&buf[..n]]. *)
Definition slice_to (buf : list Z) (n : Z) : exec (list Z) :=
  if (0 <=? n) && (n <=? Z.of_nat (length buf))
  then Ret (take (Z.to_nat n) buf) else Panic.

Definition RECV_BUF_LEN : nat := 5000.
Definition BEACON_BUF_LEN : nat := 2000.

Section udp.
Context `{Postcard} `{!PostcardSerde ClientMessageFlat} `{!PostcardSerde ServerMessageFlat}.

(** ** Client sockets *)

Section client_socket.
Context {S : Type} `{SyncUdpSock S}.

Record ClientSocket := MkClientSocket { ClientSocket_sock : S }.

Definition ClientSocket_new (sock : S) : ClientSocket := MkClientSocket sock.

Definition ClientSocket_send_raw_packet (self : ClientSocket) (bytes : list Z)
    (dest_addr : SocketAddr) : Result unit ErrorKind * ClientSocket :=
  let (r, sock) := sock_send (ClientSocket_sock self) bytes dest_addr in
  (r, MkClientSocket sock).

(** [buf] is a [&mut [u8]]: encoding consumes it as a writer, and the
    writer that comes back is what is sent.  The second component is the
    contents of the buffer afterwards (as it was, after an encoding
    error: no caller looks at it again). *)
Definition ClientSocket_send_msg (self : ClientSocket) (message : Client)
    (server_addr : SocketAddr) (buf : list Z)
    : Result unit ErrorKind * list Z * ClientSocket :=
  match client_message_encode message (slice_writer buf) with
  | Err e => (Err (postcard_to_io_err e), buf, self)
  | Ok s =>
      let (r, self) := ClientSocket_send_raw_packet self (sw_rest s) server_addr in
      (r, sw_written s ++ sw_rest s, self)
  end.

Definition ClientSocket_set_recv_timeout (self : ClientSocket)
    (timeout : option Duration) : Result unit ErrorKind * ClientSocket :=
  let (r, sock) := sock_set_recv_timeout (ClientSocket_sock self) timeout in
  (r, MkClientSocket sock).

Definition ClientSocket_recv (self : ClientSocket) (buf : list Z)
    : exec (Result (SocketAddr * Instant * option (Server * list Z)) ErrorKind
            * list Z * ClientSocket) :=
  let '(r, buf, sock) := sock_recv (ClientSocket_sock self) buf in
  match r with
  | Err e => Ret (Err e, buf, MkClientSocket sock)
  | Ok (n, server, timestamp) =>
      b ← slice_to buf n;
      Ret (Ok (server, timestamp, ok (server_message_decode b)), buf,
           MkClientSocket sock)
  end.

(** ** The discovery beacon *)

(** The packet that is encoded once, before the loop. *)
Definition discovery_packet : Result (list Z) ErrorKind :=
  match client_message_encode Client_Discovery (MkCursor (replicate BEACON_BUF_LEN 0) 0) with
  | Err e => Err (postcard_to_io_err e)
  | Ok c => Ok (take (cursor_position c) (cursor_inner c))
  end.

Fixpoint discovery_loop `{Sleep S} (fuel : nat) (self : ClientSocket)
    (buf : list Z) (period : Duration) (dest_addr : SocketAddr) : Loop ClientSocket :=
  match fuel with
  | O => Running self
  | Datatypes.S fuel =>
      let (res, self) := ClientSocket_send_raw_packet self buf dest_addr in
      match res with
      | Err e =>
          if io_err_is_timeout e
          then discovery_loop fuel self buf period dest_addr
          else Returned e self
      | Ok _ =>
          discovery_loop fuel
            (MkClientSocket (thread_sleep (ClientSocket_sock self) period))
            buf period dest_addr
      end
  end.

Definition start_discovery_beacon `{Sleep S} (fuel : nat) (self : ClientSocket)
    (period : Duration) (dest_addr : SocketAddr) : Loop ClientSocket :=
  match discovery_packet with
  | Err e => Returned e self
  | Ok buf => discovery_loop fuel self buf period dest_addr
  end.

(** ** The client receive loop *)

(** The [Client] trait's required methods, for a client state [C]. *)
Class ClientTrait (C : Type) := {
  client_on_message : C → ClientSocket → SocketAddr → Instant →
    option (Server * list Z) → exec (Result unit ErrorKind * C * ClientSocket);
  client_on_timeout : C → ClientSocket →
    exec (Result unit ErrorKind * C * ClientSocket);
}.

Fixpoint Client_loop {C} `{ClientTrait C} (fuel : nat) (self : C)
    (client : ClientSocket) (buf : list Z) : exec (Loop (C * ClientSocket)) :=
  match fuel with
  | O => Ret (Running (self, client))
  | Datatypes.S fuel =>
      '(res, buf, client) ← ClientSocket_recv client buf;
      '(res, self, client) ←
        match res with
        | Ok (addr, timestamp, maybe_msg) =>
            client_on_message self client addr timestamp maybe_msg
        | Err e =>
            if io_err_is_timeout e then client_on_timeout self client
            else Ret (Err e, self, client)
        end;
      match res with
      | Ok _ => Client_loop fuel self client buf
      | Err e => Ret (Returned e (self, client))
      end
  end.

Definition Client_start {C} `{ClientTrait C} (fuel : nat) (self : C)
    (client : ClientSocket) : exec (Loop (C * ClientSocket)) :=
  Client_loop fuel self client (replicate RECV_BUF_LEN 0).
End client_socket.
Arguments ClientSocket : clear implicits.

(** ** Server sockets *)

Section server_socket.
Context {S : Type} `{UdpSocket S}.

Record ServerSocket := MkServerSocket { ServerSocket_sock : S }.

Definition ServerSocket_new (sock : S) : ServerSocket := MkServerSocket sock.

Definition ServerSocket_send_packet (self : ServerSocket) (bytes : list Z)
    (dest_addr : SocketAddr) : Result unit ErrorKind * ServerSocket :=
  let (res, sock) := udp_send_to (ServerSocket_sock self) bytes dest_addr in
  (match res with
   | Ok n => if n =? Z.of_nat (length bytes) then Ok tt else Err FileTooLarge
   | Err e => Err e
   end, MkServerSocket sock).

Definition ServerSocket_send_msg (self : ServerSocket) (message : Server)
    (client_addr : SocketAddr) (buf : list Z)
    : Result unit ErrorKind * list Z * ServerSocket :=
  match server_message_encode message (slice_writer buf) with
  | Err e => (Err (postcard_to_io_err e), buf, self)
  | Ok s =>
      let (r, self) := ServerSocket_send_packet self (sw_rest s) client_addr in
      (r, sw_written s ++ sw_rest s, self)
  end.

Definition ServerSocket_recv (self : ServerSocket) (buf : list Z)
    : exec (Result (SocketAddr * option (Client * list Z)) ErrorKind
            * list Z * ServerSocket) :=
  let '(r, buf, sock) := udp_recv_from (ServerSocket_sock self) buf in
  match r with
  | Err e => Ret (Err e, buf, MkServerSocket sock)
  | Ok (n, client_addr) =>
      b ← slice_to buf n;
      Ret (Ok (client_addr, ok (client_message_decode b)), buf, MkServerSocket sock)
  end.

(** The [ServerState] trait's required method. *)
Class ServerState (C : Type) :=
  server_on_message : C → ServerSocket → SocketAddr →
    option (Client * list Z) → exec (Result unit ErrorKind * C * ServerSocket).

Fixpoint ServerState_loop {C} `{ServerState C} (fuel : nat) (self : C)
    (server : ServerSocket) (buf : list Z) : exec (Loop (C * ServerSocket)) :=
  match fuel with
  | O => Ret (Running (self, server))
  | Datatypes.S fuel =>
      '(res, buf, server) ← ServerSocket_recv server buf;
      match res with
      | Err e =>
          if io_err_is_timeout e then ServerState_loop fuel self server buf
          else Ret (Returned e (self, server))
      | Ok (peer_addr, maybe_msg) =>
          '(res, self, server) ← server_on_message self server peer_addr maybe_msg;
          match res with
          | Ok _ => ServerState_loop fuel self server buf
          | Err e => Ret (Returned e (self, server))
          end
      end
  end.

Definition ServerState_start {C} `{ServerState C} (fuel : nat) (self : C)
    (server : ServerSocket) : exec (Loop (C * ServerSocket)) :=
  ServerState_loop fuel self server (replicate RECV_BUF_LEN 0).
End server_socket.
Arguments ServerSocket : clear implicits.
End udp.
Arguments ClientSocket : clear implicits.
Arguments ServerSocket : clear implicits.

(** ** What a socket promises *)

(** [recv] keeps the length of the buffer and never reports more bytes than it
    holds, as documented for [UdpSocket::recv_from]. *)
Class SockRecvLaws (S : Type) `{SyncUdpSock S} : Prop :=
  sock_recv_len : ∀ (s : S) buf r buf' s', sock_recv s buf = (r, buf', s') →
    length buf' = length buf ∧
    (∀ n a t, r = Ok (n, a, t) → 0 <= n <= Z.of_nat (length buf)).

Class UdpRecvLaws (S : Type) `{UdpSocket S} : Prop :=
  udp_recv_len : ∀ (s : S) buf r buf' s', udp_recv_from s buf = (r, buf', s') →
    length buf' = length buf ∧
    (∀ n a, r = Ok (n, a) → 0 <= n <= Z.of_nat (length buf)).

(** The standard socket discharges the trait's promise. *)
#[export] Instance SockRecvLaws_UdpSocket S `{UdpRecvLaws S} : SockRecvLaws S.
Proof.
  intros s buf r buf' s' Hr. simpl in Hr.
  destruct (udp_recv_from s buf) as [[r0 b0] s0] eqn:E.
  destruct (udp_recv_len _ _ _ _ _ E) as [Hl Hn].
  split; [congruence|]. intros n a t ->. injection Hr as Hr _ _.
  destruct r0 as [[n0 a0]|]; [|discriminate]. injection Hr as -> -> _. eauto.
Qed.

(** A recording socket: it accepts every datagram, and receives the datagrams
    of a list before timing out for ever. *)
Module LogSocket.
Record t := Mk {
  sent : list (list Z * SocketAddr);
  inbox : list (list Z * SocketAddr * Instant);
  timeout : option Duration;
}.
Definition empty : t := Mk [] [] None.

#[export] Instance udp : UdpSocket t := {
  udp_send_to s bytes addr :=
    (Ok (Z.of_nat (length bytes)), Mk (sent s ++ [(bytes, addr)]) (inbox s) (timeout s));
  udp_recv_from s buf :=
    match inbox s with
    | [] => (Err TimedOut, buf, s)
    | (bytes, addr, _) :: rest =>
        let got := take (length buf) bytes in
        (Ok (Z.of_nat (length got), addr), got ++ drop (length got) buf,
         Mk (sent s) rest (timeout s))
    end;
  udp_set_read_timeout s d := (Ok tt, Mk (sent s) (inbox s) d);
  Instant_now s := 0;
}.

#[export] Instance sleep : Sleep t := λ s _, s.

#[export] Instance laws : UdpRecvLaws t.
Proof.
  intros s buf r buf' s' E. simpl in E. destruct (inbox s) as [|[[b a] ts] rest].
  - by simplify_eq.
  - injection E as <- <- <-. split.
    + lengths.
    + intros n a' [= <- <-]. rewrite length_take. lia.
Qed.
End LogSocket.

(** ** Recording what a socket is asked to do

    Any socket, with a log beside it of the datagrams it was given (bytes,
    destination and the result it reported) and of the sleeps, in order.  The
    log is only written: the socket underneath behaves as it would alone. *)

Inductive SockEvent : Type :=
  | Sends (bytes : list Z) (dest_addr : SocketAddr) (res : Result unit ErrorKind)
  | Sleeps (d : Duration).

Record Recorded (S : Type) := MkRecorded { rec_sock : S; rec_log : list SockEvent }.
Arguments MkRecorded {S} _ _.
Arguments rec_sock {S} _.
Arguments rec_log {S} _.

#[export] Instance Recorded_sock {S} `{SyncUdpSock S} : SyncUdpSock (Recorded S) := {
  sock_send s bytes addr :=
    let (res, sock) := sock_send (rec_sock s) bytes addr in
    (res, MkRecorded sock (rec_log s ++ [Sends bytes addr res]));
  sock_recv s buf :=
    let '(res, buf, sock) := sock_recv (rec_sock s) buf in
    (res, buf, MkRecorded sock (rec_log s));
  sock_set_recv_timeout s d :=
    let (res, sock) := sock_set_recv_timeout (rec_sock s) d in
    (res, MkRecorded sock (rec_log s));
}.

#[export] Instance Recorded_sleep {S} `{Sleep S} : Sleep (Recorded S) := λ s d,
  MkRecorded (thread_sleep (rec_sock s) d) (rec_log s ++ [Sleeps d]).

(** The socket a loop has got to, with its log. *)
Definition loop_sock {S} (l : Loop (ClientSocket S)) : S :=
  match l with Running c | Returned _ c => ClientSocket_sock c end.

(** The same outcome without the log. *)
Definition unrecorded {S} (l : Loop (ClientSocket (Recorded S))) : Loop (ClientSocket S) :=
  match l with
  | Running c => Running (MkClientSocket (rec_sock (ClientSocket_sock c)))
  | Returned e c => Returned e (MkClientSocket (rec_sock (ClientSocket_sock c)))
  end.

(** One turn of a beacon that sends [packet] to [addr] every [period]: the
    datagram, and then the sleep if it went out. *)
Definition beacon_turn (packet : list Z) (addr : SocketAddr) (period : Duration)
    (res : Result unit ErrorKind) : list SockEvent :=
  Sends packet addr res :: match res with Ok _ => [Sleeps period] | Err _ => [] end.

(** The results after which the beacon goes on. *)
Definition beacon_goes_on (res : Result unit ErrorKind) : Prop :=
  match res with Ok _ => True | Err e => io_err_is_timeout e = true end.

(** ** Lemmas *)

Lemma slice_to_Ret buf n :
  0 <= n <= Z.of_nat (length buf) → slice_to buf n = Ret (take (Z.to_nat n) buf).
Proof.
  intros []. unfold slice_to.
  rewrite (proj2 (Z.leb_le 0 n)), (proj2 (Z.leb_le n _)); done.
Qed.
#[export] Hint Resolve slice_to_Ret : syfala.

Section facts.
Context `{Postcard} `{!PostcardSerde ClientMessageFlat} `{!PostcardSerde ServerMessageFlat}.

Lemma ClientSocket_recv_Ret {S : Type} `{SockRecvLaws S} (c : ClientSocket S) buf :
  ∃ r buf' c', ClientSocket_recv c buf = Ret (r, buf', c') ∧
    length buf' = length buf ∧
    (∀ e, r = Err e →
       ∃ sb, sock_recv (ClientSocket_sock c) buf = (Err e, buf', sb)).
Proof.
  unfold ClientSocket_recv. destruct (sock_recv _ buf) as [[r b] s] eqn:E.
  destruct (sock_recv_len _ _ _ _ _ E) as [Hl Hn].
  destruct r as [[[n a] t]|e]; [|].
  2: { do 3 eexists. split_and!; [done|done|]. intros ? [= <-]. eauto. }
  rewrite slice_to_Ret by (rewrite Hl; eauto). rewrite bind_Ret.
  do 3 eexists. split_and!; [done|done|]. intros ? [=].
Qed.

Lemma ServerSocket_recv_Ret {S : Type} `{UdpRecvLaws S} (c : ServerSocket S) buf :
  ∃ r buf' c', ServerSocket_recv c buf = Ret (r, buf', c') ∧
    length buf' = length buf ∧
    (∀ e, r = Err e →
       ∃ sb, udp_recv_from (ServerSocket_sock c) buf = (Err e, buf', sb)).
Proof.
  unfold ServerSocket_recv. destruct (udp_recv_from _ buf) as [[r b] s] eqn:E.
  destruct (udp_recv_len _ _ _ _ _ E) as [Hl Hn].
  destruct r as [[n a]|e]; [|].
  2: { do 3 eexists. split_and!; [done|done|]. intros ? [= <-]. eauto. }
  rewrite slice_to_Ret by (rewrite Hl; eauto). rewrite bind_Ret.
  do 3 eexists. split_and!; [done|done|]. intros ? [=].
Qed.
End facts.

(** ** The beacon *)

Section beacon.
Context `{Postcard} `{!PostcardSerde ClientMessageFlat}.
Context `{!PostcardLaws ClientMessageFlat ClientMessageFlat_valid}.

Lemma discovery_packet_encoding :
  (length (encoding CF_Discovery) <= BEACON_BUF_LEN)%nat →
  discovery_packet = Ok (encoding CF_Discovery).
Proof.
  intros Hl. unfold discovery_packet, client_message_encode.
  pose proof (to_io_lawful CF_Discovery (MkCursor (replicate BEACON_BUF_LEN 0) 0)) as Hs.
  rewrite cursor_fits in Hs by (by rewrite length_replicate).
  simpl ClientMessageFlat_from. rewrite Hs. simpl. by rewrite take_app_length.
Qed.

Context {S : Type} `{SyncUdpSock S} `{!Sleep S}.

(** The trace of the loop, whatever packet it is given, after a log [log]. *)
Lemma discovery_loop_recorded fuel (s : S) log buf period addr :
  ∃ results : list (Result unit ErrorKind),
    let out := discovery_loop fuel (MkClientSocket (MkRecorded s log)) buf period addr in
    rec_log (loop_sock out) = log ++ (results ≫= beacon_turn buf addr period) ∧
    unrecorded out = discovery_loop fuel (MkClientSocket s) buf period addr ∧
    match out with
    | Running _ => length results = fuel ∧ Forall beacon_goes_on results
    | Returned e _ => io_err_is_timeout e = false ∧
        ∃ before, results = before ++ [Err e] ∧ Forall beacon_goes_on before
    end.
Proof.
  revert s log; induction fuel as [|fuel IH]; intros s log.
  { exists []. simpl. by rewrite app_nil_r. }
  cbn [discovery_loop]. unfold ClientSocket_send_raw_packet. simpl.
  destruct (sock_send s buf addr) as [res s'] eqn:E. simpl.
  assert (∀ s1 log1, beacon_goes_on res →
    log1 = log ++ beacon_turn buf addr period res →
    ∃ results : list (Result unit ErrorKind),
      let out := discovery_loop fuel (MkClientSocket (MkRecorded s1 log1)) buf period addr in
      rec_log (loop_sock out) = log ++ (results ≫= beacon_turn buf addr period) ∧
      unrecorded out = discovery_loop fuel (MkClientSocket s1) buf period addr ∧
      match out with
      | Running _ => length results = Datatypes.S fuel ∧ Forall beacon_goes_on results
      | Returned e _ => io_err_is_timeout e = false ∧
          ∃ before, results = before ++ [Err e] ∧ Forall beacon_goes_on before
      end) as Hnext.
  { intros s1 log1 Hg ->. destruct (IH s1 (log ++ beacon_turn buf addr period res))
      as (results & Hlog & Hun & Hout). exists (res :: results).
    split_and!; [by rewrite Hlog, <- app_assoc|done|].
    destruct (discovery_loop _ _ _ _ _).
    - destruct Hout as [<- ?]. split; [done|]. apply Forall_cons; done.
    - destruct Hout as (? & before & -> & ?). split; [done|].
      exists (res :: before). split; [done|]. apply Forall_cons; done. }
  destruct res as [[]|e].
  - apply Hnext; [done|]. simpl. by rewrite <- app_assoc.
  - destruct (io_err_is_timeout e) eqn:Ht; [by apply Hnext|].
    exists [Err e]. split_and!; [done..|]. by exists [].
Qed.

Lemma discovery_loop_runs fuel (s : S) buf period addr :
  (∀ (s : S) bytes a e s', sock_send s bytes a = (Err e, s') → io_err_is_timeout e = true) →
  ∃ c', discovery_loop fuel (MkClientSocket s) buf period addr = Running c'.
Proof.
  intros Hsend. revert s; induction fuel as [|fuel IH]; intros s; simpl; [eauto|].
  unfold ClientSocket_send_raw_packet. simpl.
  destruct (sock_send s buf addr) as [[|e] s'] eqn:E; [apply IH|].
  rewrite (Hsend _ _ _ _ _ E). apply IH.
Qed.
End beacon.

(** ** Properties *)

Section properties.
Context `{Postcard} `{!PostcardSerde ClientMessageFlat} `{!PostcardSerde ServerMessageFlat}.
Context `{!PostcardLaws ClientMessageFlat ClientMessageFlat_valid}.
Context `{!PostcardLaws ServerMessageFlat ServerMessageFlat_valid}.

(** C29: [send_msg], of the client socket and of the server socket, leaves the
    encoded message at the start of the caller's buffer and sends the rest
    of the buffer: the datagram is the part of the buffer the encoder did
    not write. *)
Theorem send_msg_sends_unwritten_tail {S T} `{SyncUdpSock S} `{UdpSocket T}
    (c : ClientSocket S) (s : ServerSocket T) (m : Client) (m' : Server)
    (addr : SocketAddr) (buf : list Z) :
  let enc := encoding (ClientMessageFlat_from m) in
  let enc' := encoding (ServerMessageFlat_from m') in
  (length enc <= length buf)%nat → (length enc' <= length buf)%nat →
  ClientSocket_send_msg c m addr buf =
    (let (r, c) := ClientSocket_send_raw_packet c (drop (length enc) buf) addr in
     (r, enc ++ drop (length enc) buf, c)) ∧
  ServerSocket_send_msg s m' addr buf =
    (let (r, s) := ServerSocket_send_packet s (drop (length enc') buf) addr in
     (r, enc' ++ drop (length enc') buf, s)).
Proof.
  intros enc enc' Hl Hl'. unfold ClientSocket_send_msg, ServerSocket_send_msg,
    client_message_encode, server_message_encode.
  by rewrite !to_io_slice.
Qed.

(** A message whose encoding does not fit in the caller's buffer is not
    sent: [send_msg] reports an [Other] error and the socket is untouched. *)
Theorem send_msg_buffer_too_small {S : Type} `{SyncUdpSock S} (c : ClientSocket S)
    (m : Client) (addr : SocketAddr) (buf : list Z) :
  (length buf < length (encoding (ClientMessageFlat_from m)))%nat →
  ClientSocket_send_msg c m addr buf = (Err Other, buf, c).
Proof.
  intros Hl. unfold ClientSocket_send_msg, client_message_encode.
  destruct (to_io_slice_full _ _ Hl) as (e & -> & He).
  unfold postcard_to_io_err. by rewrite He.
Qed.

(** C31: the beacon, on any socket and for any number of turns.  Every
    datagram it hands to the socket is exactly the encoding of [Discovery],
    which a server decodes to [Discovery] with nothing left over, and goes to
    the address the beacon was given; after each one that went out the beacon
    sleeps for exactly its period, after a timeout it sends again at once, and
    nothing else happens.  It returns only with an error that is not a
    timeout, the result of the last datagram; otherwise, after [fuel] turns,
    it has handed over [fuel] datagrams and is still running: for ever, if
    sending never fails with anything but a timeout. *)
Theorem discovery_beacon_correct {S : Type} `{SyncUdpSock S} `{!Sleep S} (s : S)
    (period : Duration) (addr : SocketAddr) :
  (length (encoding CF_Discovery) <= BEACON_BUF_LEN)%nat →
  client_message_decode (encoding CF_Discovery) = Ok (Client_Discovery, []) ∧
  (∀ fuel, ∃ results : list (Result unit ErrorKind),
     let out := start_discovery_beacon fuel (MkClientSocket (MkRecorded s [])) period addr in
     rec_log (loop_sock out) = results ≫= beacon_turn (encoding CF_Discovery) addr period ∧
     unrecorded out = start_discovery_beacon fuel (MkClientSocket s) period addr ∧
     match out with
     | Running _ => length results = fuel ∧ Forall beacon_goes_on results
     | Returned e _ => io_err_is_timeout e = false ∧
         ∃ before, results = before ++ [Err e] ∧ Forall beacon_goes_on before
     end) ∧
  ((∀ (s : S) bytes a e s', sock_send s bytes a = (Err e, s') → io_err_is_timeout e = true) →
   ∀ fuel, ∃ c', start_discovery_beacon fuel (MkClientSocket s) period addr = Running c').
Proof.
  intros Hl. split_and!.
  - unfold client_message_decode.
    rewrite <- (app_nil_r (encoding _)), deserialize_spec by done. done.
  - intros fuel. unfold start_discovery_beacon. rewrite discovery_packet_encoding by done.
    apply (discovery_loop_recorded fuel s [] (encoding CF_Discovery) period addr).
  - intros Hsend fuel. unfold start_discovery_beacon.
    rewrite discovery_packet_encoding by done. by apply discovery_loop_runs.
Qed.
End properties.

Section loops.
Context `{Postcard} `{!PostcardSerde ClientMessageFlat} `{!PostcardSerde ServerMessageFlat}.

(** C30: with a handler whose callbacks return normally, the client receive
    loop never panics, never returns a timeout error, and keeps running
    through any number of iterations as long as the socket reports nothing
    but datagrams and timeouts. *)
Theorem client_loop_returns_only_hard_errors {S : Type} `{SockRecvLaws S} {C} `{!ClientTrait (S := S) C}
    (self : C) (client : ClientSocket S) (fuel : nat) :
  (∀ self c a t m, ∃ self' c', client_on_message self c a t m = Ret (Ok tt, self', c')) →
  (∀ self c, ∃ self' c', client_on_timeout self c = Ret (Ok tt, self', c')) →
  ∃ out, Client_start fuel self client = Ret out ∧
    match out with
    | Running _ => True
    | Returned e _ => io_err_is_timeout e = false ∧
        ∃ (s : S) buf buf' s', sock_recv s buf = (Err e, buf', s')
    end.
Proof.
  intros Hmsg Hto. unfold Client_start.
  generalize (replicate RECV_BUF_LEN 0).
  revert self client; induction fuel as [|fuel IH]; intros self client buf;
    cbn [Client_loop]; [by eexists|].
  destruct (ClientSocket_recv_Ret client buf) as (r & buf' & c' & -> & _ & He).
  rewrite bind_Ret. destruct r as [[[a t] m]|e].
  - destruct (Hmsg self c' a t m) as (self' & c'' & ->). rewrite bind_Ret. apply IH.
  - destruct (io_err_is_timeout e) eqn:Et.
    + destruct (Hto self c') as (self' & c'' & ->). rewrite bind_Ret. apply IH.
    + rewrite bind_Ret. eexists. split; [done|]. simpl.
      destruct (He e eq_refl). eauto 6.
Qed.

(** The same for the server receive loop, which goes on silently after a
    timeout. *)
Theorem server_loop_returns_only_hard_errors {S : Type} `{UdpRecvLaws S} {C} `{!ServerState (S := S) C}
    (self : C) (server : ServerSocket S) (fuel : nat) :
  (∀ self s a m, ∃ self' s', server_on_message self s a m = Ret (Ok tt, self', s')) →
  ∃ out, ServerState_start fuel self server = Ret out ∧
    match out with
    | Running _ => True
    | Returned e _ => io_err_is_timeout e = false ∧
        ∃ (s : S) buf buf' s', udp_recv_from s buf = (Err e, buf', s')
    end.
Proof.
  intros Hmsg. unfold ServerState_start.
  generalize (replicate RECV_BUF_LEN 0).
  revert self server; induction fuel as [|fuel IH]; intros self server buf;
    cbn [ServerState_loop]; [by eexists|].
  destruct (ServerSocket_recv_Ret server buf) as (r & buf' & s' & -> & _ & He).
  rewrite bind_Ret. destruct r as [[a m]|e].
  - destruct (Hmsg self s' a m) as (self' & s'' & ->). rewrite bind_Ret. apply IH.
  - destruct (io_err_is_timeout e) eqn:Et; [apply IH|].
    eexists. split; [done|]. destruct (He e eq_refl). eauto 6.
Qed.
End loops.

(** ** Witnesses *)

Section witnesses.
#[local] Existing Instance CountableCodec.postcard.
#[local] Existing Instance CountableCodec.serde.
#[local] Existing Instances LogSocket.udp LogSocket.sleep LogSocket.laws.
#[local] Instance client_laws : PostcardLaws ClientMessageFlat ClientMessageFlat_valid :=
  CountableCodec.laws _ _.
#[local] Instance server_laws : PostcardLaws ServerMessageFlat ServerMessageFlat_valid :=
  CountableCodec.laws _ _.

(** A handler that counts what it is called for. *)
#[local] Instance counting_client : ClientTrait (S := LogSocket.t) nat := {
  client_on_message n c _ _ _ := Ret (Ok tt, Datatypes.S n, c);
  client_on_timeout n c := Ret (Ok tt, Datatypes.S n, c);
}.
#[local] Instance counting_server : ServerState (S := LogSocket.t) nat :=
  λ n s _ _, Ret (Ok tt, Datatypes.S n, s).

(** Asking a server to start IO from a zeroed buffer sends zeros. *)
Lemma send_msg_sends_unwritten_tail_witness :
  LogSocket.sent (ClientSocket_sock
    (snd (ClientSocket_send_msg (MkClientSocket LogSocket.empty) Client_START_IO 9%N (replicate 2000 0))))
  = [(replicate (2000 - length (encoding CF_StartIO)) 0, 9%N)].
Proof.
  destruct (send_msg_sends_unwritten_tail (MkClientSocket LogSocket.empty) (MkServerSocket LogSocket.empty)
              Client_START_IO Server_HEARTBEAT 9%N (replicate 2000 0)) as [-> _];
    [apply Nat.leb_le; vm_compute; reflexivity..|].
  vm_compute. reflexivity.
Defined.

Lemma send_msg_buffer_too_small_witness :
  ClientSocket_send_msg (MkClientSocket LogSocket.empty) Client_START_IO 9%N [0; 0]
  = (Err Other, [0; 0], MkClientSocket LogSocket.empty).
Proof.
  apply send_msg_buffer_too_small. apply Nat.ltb_lt. vm_compute. reflexivity.
Defined.

(** Seven turns broadcast seven [Discovery] messages. *)
Lemma discovery_beacon_correct_witness :
  (∃ c, start_discovery_beacon 7 (MkClientSocket LogSocket.empty) 1000 255%N = Running c) ∧
  (∃ results,
     rec_log (loop_sock (start_discovery_beacon 7
       (MkClientSocket (MkRecorded LogSocket.empty [])) 1000 255%N)) =
       results ≫= beacon_turn (encoding CF_Discovery) 255%N 1000 ∧ length results = 7%nat) ∧
  rec_log (loop_sock (start_discovery_beacon 2
    (MkClientSocket (MkRecorded LogSocket.empty [])) 1000 255%N)) =
    [Sends (encoding CF_Discovery) 255%N (Ok tt); Sleeps 1000;
     Sends (encoding CF_Discovery) 255%N (Ok tt); Sleeps 1000].
Proof.
  destruct (discovery_beacon_correct LogSocket.empty 1000 255%N) as (_ & Hlog & Hrun).
  { apply Nat.leb_le. vm_compute. reflexivity. }
  split_and!.
  - apply Hrun. intros s bytes a e s' Hs. simpl in Hs. rewrite Z.eqb_refl in Hs. discriminate.
  - destruct (Hlog 7%nat) as (results & Hl & _ & Ho). exists results. split; [exact Hl|].
    exact (proj1 Ho).
  - vm_compute. reflexivity.
Defined.

Lemma client_loop_returns_only_hard_errors_witness :
  ∃ out, Client_start 3 0%nat (MkClientSocket (LogSocket.Mk [] [([2], 4%N, 0)] None)) = Ret out ∧
    match out with Running _ => True | Returned _ _ => False end.
Proof.
  destruct (client_loop_returns_only_hard_errors 0%nat
              (MkClientSocket (LogSocket.Mk [] [([2], 4%N, 0)] None)) 3) as (out & Ho & Hc).
  - intros. do 2 eexists. reflexivity.
  - intros. do 2 eexists. reflexivity.
  - exists out. split; [exact Ho|]. vm_compute in Ho. injection Ho as <-. exact I.
Defined.

Lemma server_loop_returns_only_hard_errors_witness :
  ∃ out, ServerState_start 3 0%nat (MkServerSocket (LogSocket.Mk [] [([2], 4%N, 0)] None)) = Ret out ∧
    match out with Running (n, _) => n = 1%nat | Returned _ _ => False end.
Proof.
  destruct (server_loop_returns_only_hard_errors 0%nat
              (MkServerSocket (LogSocket.Mk [] [([2], 4%N, 0)] None)) 3) as (out & Ho & Hc).
  - intros. do 2 eexists. reflexivity.
  - exists out. split; [exact Ho|]. vm_compute in Ho. injection Ho as <-. reflexivity.
Defined.
End witnesses.
