(* ===== verification/Iter.v ===== *)
(** * Rust iterators

    What the crates use of [core::iter]: an iterator is a state with [next]
    and [nth], either of which may panic.  [LawfulIterator] is the promise an
    iterator makes to the code that consumes it: it yields the items of a
    list, in order, and then [None]. *)

From S2P Require Import Prelude.

(** ** Operations *)

Class Iterator (I A : Type) := {
  iter_next : I → exec (option A * I);
  iter_nth : Z → I → exec (option A * I);
}.

(** The provided [Iterator::nth]: [n] calls of [next], then one more. *)
Section default_nth.
Context {I A : Type} (next : I → exec (option A * I)).

Fixpoint default_nth (n : nat) (it : I) : exec (option A * I) :=
  match n with
  | O => next it
  | S n =>
      '(o, it) ← next it;
      match o with
      | None => Ret (None, it)
      | Some _ => default_nth n it
      end
  end.
End default_nth.

(** Pull at most [n] items, stopping at the first [None]: what a consumer
    with [n] places left does. *)
Fixpoint take_upto {I A} `{Iterator I A} (n : nat) (it : I) : exec (list A * I) :=
  match n with
  | O => Ret ([], it)
  | S n =>
      '(o, it) ← iter_next it;
      match o with
      | None => Ret ([], it)
      | Some x => '(xs, it) ← take_upto n it; Ret (x :: xs, it)
      end
  end.

(** The iterator of a slice, an array or a [Vec] is the list of the items that
    are left; [nth] counts down a [usize]. *)
Fixpoint list_nth {A} (n : Z) (l : list A) : option A * list A :=
  match l with
  | [] => (None, [])
  | x :: l => if n <=? 0 then (Some x, l) else list_nth (n - 1) l
  end.

#[export] Instance Iterator_list A : Iterator (list A) A := {
  iter_next l := match l with [] => Ret (None, []) | x :: l => Ret (Some x, l) end;
  iter_nth n l := Ret (list_nth n l);
}.

(** ** The promise *)

Class IterItems (I A : Type) := iter_items : I → list A.

(** [inv] holds of the states the iterator goes through; it can pin down what
    consuming items does not change. *)
Class LawfulIterator (I A : Type) `{Iterator I A, IterItems I A} (inv : I → Prop) : Prop := {
  iter_next_spec it : inv it →
    ∃ it', iter_next it = Ret (head (iter_items it), it') ∧
      iter_items it' = tail (iter_items it) ∧ inv it';
  iter_nth_spec it n : inv it → 0 <= n →
    ∃ it', iter_nth n it = Ret (iter_items it !! Z.to_nat n, it') ∧
      iter_items it' = drop (S (Z.to_nat n)) (iter_items it) ∧ inv it';
}.

#[export] Instance IterItems_list A : IterItems (list A) A := id.

Lemma list_nth_spec {A} n (l : list A) :
  0 <= n → list_nth n l = (l !! Z.to_nat n, drop (S (Z.to_nat n)) l).
Proof.
  revert n; induction l as [|x l IH]; intros n Hn; simpl.
  { done. }
  destruct (Z.leb_spec n 0).
  - by replace n with 0 by lia.
  - rewrite IH by lia. by replace (Z.to_nat n) with (S (Z.to_nat (n - 1))) by lia.
Qed.

#[export] Instance LawfulIterator_list A : LawfulIterator (list A) A (λ _, True).
Proof.
  split.
  - intros [|x l] _; eexists; split_and!; done.
  - intros l n _ Hn. simpl. rewrite list_nth_spec by done. eauto.
Qed.

(** The provided [nth] is as good as the [next] it calls. *)
Lemma default_nth_lawful {I A} (next : I → exec (option A * I)) (items : I → list A)
    (inv : I → Prop) :
  (∀ it, inv it → ∃ it', next it = Ret (head (items it), it') ∧
     items it' = tail (items it) ∧ inv it') →
  ∀ n it, inv it → ∃ it', default_nth next n it = Ret (items it !! n, it') ∧
    items it' = drop (S n) (items it) ∧ inv it'.
Proof.
  intros Hnext. induction n as [|n IH]; intros it Hi; cbn [default_nth];
    destruct (Hnext it Hi) as (it' & -> & Hit & Hi').
  - exists it'. by rewrite head_lookup, Hit, <- (tail_drop 0).
  - rewrite bind_Ret. destruct (items it) as [|x l] eqn:E; cbn in Hit |- *; [eauto|].
    destruct (IH it' Hi') as (it'' & -> & Hd & ?). exists it''. by rewrite Hd, Hit.
Qed.

Section facts.
Context {I A : Type} `{LawfulIterator I A inv}.

Lemma take_upto_spec n it :
  inv it →
  ∃ it', take_upto n it = Ret (take n (iter_items it), it') ∧
    iter_items it' = drop n (iter_items it) ∧ inv it'.
Proof.
  revert it; induction n as [|n IH]; intros it Hi; simpl; [eauto|].
  destruct (iter_next_spec it Hi) as (it' & -> & Hit & Hi').
  rewrite bind_Ret. destruct (iter_items it) as [|x l] eqn:E; simpl in *; [eauto|].
  destruct (IH it' Hi') as (it'' & -> & Hd & ?). rewrite bind_Ret.
  exists it''. by rewrite Hd, Hit.
Qed.
End facts.

(** ** Iterators that count

    An iterator whose state after [k] of its [N] items is [st k]. *)
Section counted.
Context {I A : Type} (st : nat → I) (item : nat → A) (N : nat).

(** [n] calls of [next] from state [st k], then one more. *)
Definition counted_result (n k : nat) : option A * I :=
  if decide (k + n < N)%nat then (Some (item (k + n)), st (S (k + n))) else (None, st N).

Lemma counted_nth (next : I → exec (option A * I)) n k :
  (∀ k, (k <= N)%nat → next (st k) = Ret (counted_result 0 k)) → (k <= N)%nat →
  default_nth next n (st k) = Ret (counted_result n k).
Proof.
  intros Hnext. revert k; induction n as [|n IH]; intros k Hk; cbn [default_nth]; [auto|].
  rewrite Hnext by done. unfold counted_result at 1. case_decide; rewrite bind_Ret.
  - rewrite Nat.add_0_r, IH by lia. unfold counted_result. f_equal.
    by replace (S k + n)%nat with (k + S n)%nat by lia.
  - unfold counted_result. by rewrite decide_False by lia.
Qed.

Context (pos : I → nat).
Definition counted_items (it : I) : list A := item <$> seq (pos it) (N - pos it).
Definition counted_inv (it : I) : Prop := ∃ k, (k <= N)%nat ∧ it = st k.

Lemma counted_items_result n k :
  (∀ k, (k <= N)%nat → pos (st k) = k) → (k <= N)%nat →
  let r := counted_result n k in
  r.1 = counted_items (st k) !! n ∧
  counted_items r.2 = drop (S n) (counted_items (st k)) ∧ counted_inv r.2.
Proof.
  intros Hpos Hk. unfold counted_items, counted_result. rewrite (Hpos k Hk).
  rewrite list_lookup_fmap, <- fmap_drop, drop_seq. case_decide; simpl.
  - rewrite lookup_seq_lt, Hpos by lia. split_and!; [done| |by exists (S (k + n))].
    f_equal. f_equal; lia.
  - rewrite (lookup_ge_None_2 (seq _ _)), Hpos by (rewrite ?length_seq; lia).
    replace (N - N)%nat with 0%nat by lia.
    replace (N - k - S n)%nat with 0%nat by lia. split_and!; [done..|by exists N].
Qed.

Lemma counted_lawful `{Iterator I A} :
  (∀ k, (k <= N)%nat → pos (st k) = k) →
  (∀ k, (k <= N)%nat → iter_next (st k) = Ret (counted_result 0 k)) →
  (∀ n k, (k <= N)%nat → 0 <= n → iter_nth n (st k) = Ret (counted_result (Z.to_nat n) k)) →
  LawfulIterator (H0 := counted_items) I A counted_inv.
Proof.
  intros Hpos Hnext Hnth. split.
  - intros it (k & Hk & ->).
    destruct (counted_items_result 0 k Hpos Hk) as (Hi & Hd & ?).
    exists (counted_result 0 k).2. rewrite Hnext, (surjective_pairing (counted_result 0 k)) by done.
    split_and!; [|by rewrite <- (tail_drop 0) in Hd|done]. rewrite Hi. unfold iter_items.
    by rewrite <- head_lookup.
  - intros it n (k & Hk & ->) Hn.
    destruct (counted_items_result (Z.to_nat n) k Hpos Hk) as (Hi & Hd & ?).
    exists (counted_result (Z.to_nat n) k).2.
    rewrite Hnth, (surjective_pairing (counted_result _ k)) by done.
    split_and!; [by rewrite Hi|done..].
Qed.
End counted.
