(* ===== verification/Queue.v ===== *)
(** * Queues and counters: [syfala_utils/src/queue.rs]

    Counters and periodic wake-ups, the shifting of a stream by a signed
    deviation, and the two adapters that align a ring buffer with a logical
    timeline ([IndexedTx], [IndexedRx]).  The ring buffer itself, [rtrb], is
    not part of the repository: its two ends are the classes [RtrbProducer]
    and [RtrbConsumer], with the documented behaviour as their laws.  A [&mut]
    reference is the value it points to, handed back by the operation. *)

From S2P Require Import Prelude Iter.

(** ** Counters *)

Class Counter (C : Type) := {
  advance : C → Z → exec C;
  current : C → Z;
}.

Record GenericCounter := MkGenericCounter { GenericCounter_0 : Z }.

Definition GenericCounter_new : GenericCounter := MkGenericCounter 0.

#[export] Instance Counter_GenericCounter : Counter GenericCounter := {
  advance self delta :=
    d ← try_into u64_MAX delta;
    n ← strict_add u64_MAX (GenericCounter_0 self) d;
    Ret (MkGenericCounter n);
  current self := GenericCounter_0 self;
}.

(** What the trait's documentation promises: a counter goes up by exactly the
    amount asked for; the code panics rather than wrap around. *)
Class CounterLaws (C : Type) `{Counter C} : Prop := {
  advance_spec c d :
    is_u64 (current c) → 0 <= d <= usize_MAX → current c + d <= u64_MAX →
    ∃ c', advance c d = Ret c' ∧ current c' = current c + d;
  advance_overflow c d :
    is_u64 (current c) → 0 <= d <= usize_MAX → u64_MAX < current c + d →
    advance c d = Panic;
}.

(** ** Wakers *)

Class Waker (W : Type) := wake : W → Z → W.

#[export] Instance Waker_unit : Waker unit := λ self _times, self.

(** [std::thread::Thread]: [unpark] makes the thread's token available. *)
Record Thread := MkThread { thread_token : bool }.
Definition unpark (t : Thread) : Thread := MkThread true.
#[export] Instance Waker_Thread : Waker Thread := λ self _times, unpark self.

(** ** Periodic counters *)

Record PeriodicCounter (C W : Type) := MkPeriodicCounter {
  pc_counter : C;
  pc_waker : W;
  pc_period : Z; (* NonZeroUsize *)
}.
Arguments MkPeriodicCounter {C W}.
Arguments pc_counter {C W}.
Arguments pc_waker {C W}.
Arguments pc_period {C W}.

Definition PeriodicCounter_new {C W} (period : Z) (counter : C) (waker : W)
    : PeriodicCounter C W :=
  {| pc_counter := counter; pc_waker := waker; pc_period := period |}.

Definition PeriodicCounter_period {C W} (self : PeriodicCounter C W) : Z :=
  pc_period self.

Definition boundaries_crossed {C W} `{Counter C} (self : PeriodicCounter C W) : Z :=
  current (pc_counter self) / PeriodicCounter_period self.

#[export] Instance Counter_PeriodicCounter {C W} `{Counter C, Waker W}
    : Counter (PeriodicCounter C W) := {
  advance self n :=
    let b := boundaries_crossed self in
    counter ← advance (pc_counter self) n;
    let self := {| pc_counter := counter; pc_waker := pc_waker self;
                   pc_period := pc_period self |} in
    crossed ← strict_sub (boundaries_crossed self) b;
    n ← try_into usize_MAX crossed;
    if n =? 0 then Ret self
    else Ret {| pc_counter := pc_counter self; pc_waker := wake (pc_waker self) n;
                pc_period := pc_period self |};
  current self := current (pc_counter self);
}.

(** ** Shifting a stream *)

(** [iter::chain(repeat_with(pad_fn).take(padding), it.skip(skipping))].  The
    closure [pad_fn] may be stateful: [pad_fn k] is the result of its [k]-th
    call, and [si_calls] counts the calls made so far. *)
Record ShiftIter (I A : Type) := MkShiftIter {
  si_padding : Z;
  si_calls : nat;
  si_pad_fn : nat → A;
  si_skipping : Z;
  si_iter : I;
}.
Arguments MkShiftIter {I A}.
Arguments si_padding {I A}.
Arguments si_calls {I A}.
Arguments si_pad_fn {I A}.
Arguments si_skipping {I A}.
Arguments si_iter {I A}.

Definition ShiftIter_next {I A} `{Iterator I A} (self : ShiftIter I A)
    : exec (option A * ShiftIter I A) :=
  if 0 <? si_padding self then
    Ret (Some (si_pad_fn self (si_calls self)),
         {| si_padding := si_padding self - 1; si_calls := S (si_calls self);
            si_pad_fn := si_pad_fn self; si_skipping := si_skipping self;
            si_iter := si_iter self |})
  else
    '(o, it) ← (if 0 <? si_skipping self
                then iter_nth (si_skipping self) (si_iter self)
                else iter_next (si_iter self));
    Ret (o, {| si_padding := si_padding self; si_calls := si_calls self;
               si_pad_fn := si_pad_fn self; si_skipping := 0; si_iter := it |}).

#[export] Instance Iterator_ShiftIter I A `{Iterator I A} : Iterator (ShiftIter I A) A := {
  iter_next := ShiftIter_next;
  iter_nth n := default_nth ShiftIter_next (Z.to_nat n);
}.

Definition shift_iter {I A} (it : I) (deviation : Z) (pad_fn : nat → A) : ShiftIter I A :=
  let padding := if deviation <? 0 then Z.abs deviation else 0 in
  let skipping := if deviation <? 0 then 0 else Z.abs deviation in
  {| si_padding := padding; si_calls := 0; si_pad_fn := pad_fn;
     si_skipping := skipping; si_iter := it |}.

(** ** The ring buffer *)

Inductive ChunkError : Set := TooFewSlots (slots : Z).

Class RtrbProducer (P T : Type) := {
  WriteChunkUninit : Type;
  producer_slots : P → Z;
  producer_is_abandoned : P → bool;
  write_chunk_uninit : P → Z → Result WriteChunkUninit ChunkError;
  fill_from_iter : ∀ {I} `{Iterator I T}, WriteChunkUninit → I → exec (Z * I * P);
}.

(** [written p] is everything pushed through the producer, in order, and
    [commit p xs] the producer after a chunk holding [xs] was committed.  A
    chunk of at most [slots] items can be had, and [fill_from_iter] moves
    items into it until the iterator or the chunk is exhausted. *)
Class RtrbProducerLaws (P T : Type) `{RtrbProducer P T} := {
  written : P → list T;
  commit : P → list T → P;
  written_commit p xs : written (commit p xs) = written p ++ xs;
  producer_slots_nonneg p : 0 <= producer_slots p;
  write_chunk_uninit_spec p n : 0 <= n <= producer_slots p →
    ∃ c, write_chunk_uninit p n = Ok c ∧
      ∀ I (HI : Iterator I T) (it : I), fill_from_iter c it =
        ('(xs, it) ← take_upto (Z.to_nat n) it; Ret (Z.of_nat (length xs), it, commit p xs));
}.

Class RtrbConsumer (R T : Type) := {
  ReadChunk : Type;
  ReadChunkIntoIter : Type;
  consumer_slots : R → Z;
  consumer_is_abandoned : R → bool;
  read_chunk : R → Z → Result ReadChunk ChunkError;
  chunk_len : ReadChunk → Z;
  chunk_into_iter : ReadChunk → ReadChunkIntoIter;
  #[global] chunk_iterator :: Iterator ReadChunkIntoIter T;
  chunk_iter_len : ReadChunkIntoIter → Z;
  (* dropping the iterator gives the consumer back *)
  chunk_iter_drop : ReadChunkIntoIter → R;
}.
Arguments ReadChunk R T {_}.
Arguments ReadChunkIntoIter R T {_}.

(** [contents r] is what can be read.  A chunk iterator yields the first items
    of the ring buffer; [chunk_beyond] is what lies after the chunk.  Dropping
    the iterator leaves the items that were not iterated. *)
Class RtrbConsumerLaws (R T : Type) `{RtrbConsumer R T} := {
  contents : R → list T;
  chunk_beyond : ReadChunkIntoIter R T → list T;
  #[global] chunk_items :: IterItems (ReadChunkIntoIter R T) T;
  chunk_lawful b : LawfulIterator (ReadChunkIntoIter R T) T (λ it, chunk_beyond it = b);
  consumer_slots_spec r : consumer_slots r = Z.of_nat (length (contents r));
  read_chunk_spec r n : 0 <= n <= consumer_slots r →
    ∃ c, read_chunk r n = Ok c ∧ chunk_len c = n ∧
      iter_items (chunk_into_iter c) = take (Z.to_nat n) (contents r) ∧
      chunk_beyond (chunk_into_iter c) = drop (Z.to_nat n) (contents r);
  chunk_iter_len_spec it : chunk_iter_len it = Z.of_nat (length (iter_items it));
  chunk_iter_drop_spec it : contents (chunk_iter_drop it) = iter_items it ++ chunk_beyond it;
}.

Definition producer_get_all {P T} `{RtrbProducer P T} (tx : P) : exec (WriteChunkUninit) :=
  unwrap_ok (write_chunk_uninit tx (producer_slots tx)).

Definition consumer_get_all {R T} `{RtrbConsumer R T} (rx : R) : exec (ReadChunk R T) :=
  unwrap_ok (read_chunk rx (consumer_slots rx)).

(** ** Counting iterator over a read chunk *)

Section read_chunks.
Context {C R T : Type} `{Counter C, RtrbConsumer R T}.

Record ReadChunksIterCounter := MkReadChunksIterCounter {
  ri_ticker : C;
  ri_iter : ReadChunkIntoIter R T;
  ri_initial_len : Z;
}.

Definition ReadChunksIterCounter_new (chunk : ReadChunk R T) (ticker : C)
    : ReadChunksIterCounter :=
  {| ri_initial_len := chunk_len chunk; ri_iter := chunk_into_iter chunk;
     ri_ticker := ticker |}.

Definition ReadChunksIterCounter_next (self : ReadChunksIterCounter)
    : exec (option T * ReadChunksIterCounter) :=
  '(o, it) ← iter_next (ri_iter self);
  Ret (o, MkReadChunksIterCounter (ri_ticker self) it (ri_initial_len self)).

Definition ReadChunksIterCounter_nth (n : Z) (self : ReadChunksIterCounter)
    : exec (option T * ReadChunksIterCounter) :=
  '(o, it) ← iter_nth n (ri_iter self);
  Ret (o, MkReadChunksIterCounter (ri_ticker self) it (ri_initial_len self)).

Definition ReadChunksIterCounter_len (self : ReadChunksIterCounter) : Z :=
  chunk_iter_len (ri_iter self).

(** Advances the ticker by the number of items consumed, then drops the
    fields: the counter and the consumer go back to their owner. *)
Definition ReadChunksIterCounter_drop (self : ReadChunksIterCounter) : exec (R * C) :=
  n ← strict_sub (ri_initial_len self) (chunk_iter_len (ri_iter self));
  ticker ← advance (ri_ticker self) n;
  Ret (chunk_iter_drop (ri_iter self), ticker).

#[export] Instance Iterator_ReadChunksIterCounter : Iterator ReadChunksIterCounter T := {
  iter_next := ReadChunksIterCounter_next;
  iter_nth := ReadChunksIterCounter_nth;
}.
End read_chunks.
Arguments ReadChunksIterCounter C R T {_}.

(** ** Receiving on a timeline *)

Record IndexedRx (C R : Type) := MkIndexedRx { irx_rx : R; irx_counter : C }.
Arguments MkIndexedRx {C R}.
Arguments irx_rx {C R}.
Arguments irx_counter {C R}.

Section indexed_rx.
Context {C R T : Type} `{Counter C, RtrbConsumer R T}.

Definition IndexedRx_new (rx : R) (counter : C) : IndexedRx C R :=
  MkIndexedRx rx counter.

(** The returned iterator borrows the receiver until it is dropped. *)
Definition IndexedRx_recv (self : IndexedRx C R) (idx : Z) (pad_fn : nat → T)
    : exec (ShiftIter (ReadChunksIterCounter C R T) T) :=
  deviation ← signed_diff idx (current (irx_counter self));
  in_samples ← consumer_get_all (irx_rx self);
  Ret (shift_iter (ReadChunksIterCounter_new in_samples (irx_counter self))
         deviation pad_fn).

(** The end of the borrow. *)
Definition IndexedRx_release (it : ShiftIter (ReadChunksIterCounter C R T) T)
    : exec (IndexedRx C R) :=
  '(rx, counter) ← ReadChunksIterCounter_drop (si_iter it);
  Ret (MkIndexedRx rx counter).

Definition IndexedRx_current (self : IndexedRx C R) : Z := current (irx_counter self).
Definition IndexedRx_available_slots (self : IndexedRx C R) : Z :=
  consumer_slots (irx_rx self).
Definition IndexedRx_is_abandoned (self : IndexedRx C R) : bool :=
  consumer_is_abandoned (irx_rx self).
End indexed_rx.

(** ** Sending on a timeline *)

Record IndexedTx (C P : Type) := MkIndexedTx { itx_counter : C; itx_tx : P }.
Arguments MkIndexedTx {C P}.
Arguments itx_counter {C P}.
Arguments itx_tx {C P}.

Section indexed_tx.
Context {C P T : Type} `{Counter C, RtrbProducer P T}.

Definition IndexedTx_new (tx : P) (counter : C) : IndexedTx C P :=
  MkIndexedTx counter tx.

(** Also returns what is left of the caller's iterator. *)
Definition IndexedTx_send {I} `{Iterator I T} (self : IndexedTx C P) (idx : Z)
    (values : I) (pad_fn : nat → T) : exec (IndexedTx C P * I) :=
  deviation ← signed_diff (current (itx_counter self)) idx;
  let out_iter := shift_iter values deviation pad_fn in
  chunk ← producer_get_all (itx_tx self);
  '(n_pushed_samples, out_iter, tx) ← fill_from_iter chunk out_iter;
  counter ← advance (itx_counter self) n_pushed_samples;
  Ret (MkIndexedTx counter tx, si_iter out_iter).

Definition IndexedTx_current (self : IndexedTx C P) : Z := current (itx_counter self).
Definition IndexedTx_available_slots (self : IndexedTx C P) : Z :=
  producer_slots (itx_tx self).
Definition IndexedTx_is_abandoned (self : IndexedTx C P) : bool :=
  producer_is_abandoned (itx_tx self).
End indexed_tx.

(** ** Counters keep their promise *)

#[export] Instance CounterLaws_GenericCounter : CounterLaws GenericCounter.
Proof.
  split; intros [c] d; simpl; intros Hc Hd Hs;
    rewrite try_into_Ret by bounds; rewrite bind_Ret.
  - rewrite strict_add_Ret by done. eexists. split; reflexivity.
  - unfold strict_add. by rewrite (proj2 (Z.leb_gt _ _)).
Qed.

Section periodic.
Context {C W : Type} `{CounterLaws C, Waker W}.

(** One advance: the waker is called once, with the number of boundaries
    crossed, or not at all when there is none. *)
Lemma PeriodicCounter_advance (pc : PeriodicCounter C W) d :
  0 < pc_period pc <= usize_MAX → is_u64 (current pc) → 0 <= d <= usize_MAX →
  current pc + d <= u64_MAX →
  let k := (current pc + d) / pc_period pc - current pc / pc_period pc in
  ∃ c', current c' = current pc + d ∧ 0 <= k ∧
    advance pc d =
      Ret {| pc_counter := c';
             pc_waker := if k =? 0 then pc_waker pc else wake (pc_waker pc) k;
             pc_period := pc_period pc |}.
Proof.
  intros Hp Hc Hd Hs k. change (current pc) with (current (pc_counter pc)) in *.
  destruct (advance_spec (pc_counter pc) d Hc Hd Hs) as (c' & Ha & Hc').
  assert (current (pc_counter pc) / pc_period pc
          <= (current (pc_counter pc) + d) / pc_period pc) by (apply Z.div_le_mono; lia).
  assert (0 <= current (pc_counter pc) / pc_period pc) by (apply Z.div_pos; bounds).
  assert ((current (pc_counter pc) + d) / pc_period pc <= current (pc_counter pc) + d).
  { apply Z.div_le_upper_bound; unfold is_u64 in *; nia. }
  exists c'. split; [done|]. split; [lia|]. simpl. rewrite Ha, bind_Ret.
  unfold boundaries_crossed, PeriodicCounter_period. simpl. rewrite Hc'.
  rewrite strict_sub_Ret, bind_Ret by lia.
  rewrite try_into_Ret, bind_Ret by bounds. fold k. by destruct (k =? 0).
Qed.

(** Repeated advances. *)
Fixpoint advance_all (pc : PeriodicCounter C W) (ds : list Z) : exec (PeriodicCounter C W) :=
  match ds with
  | [] => Ret pc
  | d :: ds => pc ← advance pc d; advance_all pc ds
  end.

(** C16: however a run of the counter is cut into calls of [advance], the
    waker is notified of exactly the period boundaries the counter has
    crossed: the notifications are all positive and add up to the number of
    boundaries between the first and the last position.  No call panics
    while the position fits in a [u64]. *)
Theorem PeriodicCounter_wakes_every_boundary (pc : PeriodicCounter C W) (ds : list Z) :
  0 < pc_period pc <= usize_MAX → is_u64 (current pc) →
  Forall (λ d, 0 <= d <= usize_MAX) ds →
  current pc + foldr Z.add 0 ds <= u64_MAX →
  ∃ pc' ws, advance_all pc ds = Ret pc' ∧
    current pc' = current pc + foldr Z.add 0 ds ∧
    pc_waker pc' = foldl wake (pc_waker pc) ws ∧
    Forall (λ w, 0 < w) ws ∧
    foldr Z.add 0 ws = boundaries_crossed pc' - boundaries_crossed pc.
Proof.
  intros Hp Hc Hds. revert pc Hp Hc.
  induction Hds as [|d ds Hd Hds IH]; intros pc Hp Hc Hs; cbn [advance_all foldr] in *.
  { exists pc, []. cbn [foldr foldl]. split_and!; (done || lia || by constructor). }
  assert (0 <= foldr Z.add 0 ds).
  { apply foldr_add_nonneg. eapply Forall_impl; [exact Hds|]. by intros ? []. }
  destruct (PeriodicCounter_advance pc d) as (c' & Hc' & Hk & ->); [done..|lia|].
  rewrite bind_Ret. set (k := _ - _) in *. set (pc1 := MkPeriodicCounter c' _ _).
  assert (current pc1 = current pc + d) as Hcur by done.
  destruct (IH pc1) as (pc' & ws & Hall & Hcur' & Hw & Hpos & Hsum);
    [done|unfold is_u64 in *; rewrite Hcur; lia|lia|].
  assert (boundaries_crossed pc1 - boundaries_crossed pc = k).
  { unfold boundaries_crossed, PeriodicCounter_period. simpl. by rewrite Hc'. }
  exists pc'. simpl in Hw. destruct (Z.eqb_spec k 0).
  - exists ws. split_and!; (done || lia).
  - exists (k :: ws). cbn [foldl foldr].
    split_and!; [done|lia|done|constructor; [lia|done]|lia].
Qed.
End periodic.

Lemma PeriodicCounter_wakes_every_boundary_witness :
  ∃ pc' ws, advance_all (PeriodicCounter_new 4 GenericCounter_new tt) [3; 0; 9; 1] = Ret pc' ∧
    current pc' = 13 ∧ Forall (λ w, 0 < w) ws ∧ foldr Z.add 0 ws = 3.
Proof.
  destruct (PeriodicCounter_wakes_every_boundary
              (PeriodicCounter_new 4 GenericCounter_new tt) [3; 0; 9; 1])
    as (pc' & ws & Ha & Hc & _ & Hp & Hs).
  - simpl; bounds.
  - simpl; bounds.
  - repeat constructor; bounds.
  - simpl; bounds.
  - exists pc', ws. split; [exact Ha|]. split; [exact Hc|]. split; [exact Hp|].
    vm_compute in Ha. injection Ha as <-. exact Hs.
Defined.

(** ** Shifting keeps an iterator lawful *)

(** The remaining padding, then what is left of the stream after the skip. *)
Definition ShiftIter_items {I A} `{IterItems I A} (self : ShiftIter I A) : list A :=
  (si_pad_fn self <$> seq (si_calls self) (Z.to_nat (si_padding self)))
  ++ drop (Z.to_nat (si_skipping self)) (iter_items (si_iter self)).

#[export] Instance IterItems_ShiftIter I A `{IterItems I A} : IterItems (ShiftIter I A) A :=
  ShiftIter_items.

(** The items of a stream shifted by [dev]: padded when [dev] is negative,
    its head skipped when it is positive. *)
Definition shifted {A} (dev : Z) (pad : nat → A) (l : list A) : list A :=
  (pad <$> seq 0 (Z.to_nat (- dev))) ++ drop (Z.to_nat dev) l.

Ltac shift_simpl :=
  unfold ShiftIter_items; cbn [si_padding si_calls si_pad_fn si_skipping si_iter].

Section shift.
Context {I A : Type} `{LawfulIterator I A inv}.

Lemma ShiftIter_next_spec (self : ShiftIter I A) :
  inv (si_iter self) →
  ∃ self', ShiftIter_next self = Ret (head (ShiftIter_items self), self') ∧
    ShiftIter_items self' = tail (ShiftIter_items self) ∧ inv (si_iter self').
Proof.
  intros Hi. unfold ShiftIter_next. destruct (Z.ltb_spec 0 (si_padding self)).
  - eexists. shift_simpl.
    replace (Z.to_nat (si_padding self)) with (S (Z.to_nat (si_padding self - 1))) by lia.
    split_and!; done.
  - assert (ShiftIter_items self = drop (Z.to_nat (si_skipping self))
              (iter_items (si_iter self))) as Hit.
    { unfold ShiftIter_items. by replace (Z.to_nat (si_padding self)) with 0%nat by lia. }
    rewrite Hit. destruct (Z.ltb_spec 0 (si_skipping self)).
    + destruct (iter_nth_spec (si_iter self) (si_skipping self)) as (it & -> & Hd & ?);
        [done|lia|]. rewrite bind_Ret, head_drop, tail_drop.
      eexists. split; [reflexivity|]. shift_simpl.
      replace (Z.to_nat (si_padding self)) with 0%nat by lia. by split.
    + destruct (iter_next_spec (si_iter self)) as (it & -> & Hd & ?); [done|].
      replace (Z.to_nat (si_skipping self)) with 0%nat by lia.
      rewrite bind_Ret. eexists. split; [reflexivity|]. shift_simpl.
      replace (Z.to_nat (si_padding self)) with 0%nat by lia. by split.
Qed.

(** How far into the wrapped iterator [n] pulls reach. *)
Lemma ShiftIter_next_inner (self : ShiftIter I A) :
  si_padding self <= 0 → 0 <= si_skipping self → inv (si_iter self) →
  let items := iter_items (si_iter self) in
  ∃ it, ShiftIter_next self =
      Ret (items !! Z.to_nat (si_skipping self),
           MkShiftIter (si_padding self) (si_calls self) (si_pad_fn self) 0 it) ∧
    iter_items it = drop (S (Z.to_nat (si_skipping self))) items ∧ inv it.
Proof.
  intros Hp Hs Hi items. unfold ShiftIter_next.
  rewrite (proj2 (Z.ltb_ge 0 (si_padding self))) by lia.
  destruct (Z.ltb_spec 0 (si_skipping self)).
  - destruct (iter_nth_spec (si_iter self) (si_skipping self)) as (it & -> & ? & ?); eauto.
  - destruct (iter_next_spec (si_iter self)) as (it & -> & Hd & ?); [done|].
    replace (Z.to_nat (si_skipping self)) with 0%nat by lia.
    exists it. rewrite <- tail_drop, drop_0, <- head_lookup. eauto.
Qed.

Lemma take_upto_shift_inner n (self : ShiftIter I A) :
  0 <= si_padding self → 0 <= si_skipping self → inv (si_iter self) →
  let items := iter_items (si_iter self) in
  ∃ self', take_upto n self = Ret (take n (ShiftIter_items self), self') ∧
    inv (si_iter self') ∧
    iter_items (si_iter self') =
      if Z.of_nat n <=? si_padding self then items
      else drop (Z.to_nat (si_skipping self + (Z.of_nat n - si_padding self))) items.
Proof.
  revert self; induction n as [|n IH]; intros self Hp Hs Hi items.
  { exists self. simpl. by rewrite (proj2 (Z.leb_le _ _)). }
  cbn [take_upto iter_next Iterator_ShiftIter].
  destruct (decide (0 < si_padding self)).
  - set (self1 := MkShiftIter (si_padding self - 1) (S (si_calls self)) (si_pad_fn self)
                    (si_skipping self) (si_iter self)).
    unfold ShiftIter_next. rewrite (proj2 (Z.ltb_lt _ _)), bind_Ret by lia. fold self1.
    destruct (IH self1) as (self' & -> & Hi' & Hit); [simpl; lia..|done|].
    rewrite bind_Ret. exists self'. split_and!; [|done|].
    + f_equal. f_equal. unfold ShiftIter_items.
      by replace (Z.to_nat (si_padding self)) with (S (Z.to_nat (si_padding self - 1))) by lia.
    + rewrite Hit. cbn [self1 si_padding si_skipping si_iter].
      destruct (Z.leb_spec (Z.of_nat n) (si_padding self - 1)),
        (Z.leb_spec (Z.of_nat (S n)) (si_padding self)); try lia; [done|].
      f_equal. lia.
  - assert (ShiftIter_items self = drop (Z.to_nat (si_skipping self)) items) as Hits.
    { unfold ShiftIter_items. by replace (Z.to_nat (si_padding self)) with 0%nat by lia. }
    rewrite Hits, (proj2 (Z.leb_gt _ _)) by lia.
    destruct (ShiftIter_next_inner self) as (it & -> & Hit & Hit'); [lia|done..|].
    rewrite bind_Ret. fold items. fold items in Hit.
    destruct (items !! Z.to_nat (si_skipping self)) as [x|] eqn:E.
    + set (self1 := MkShiftIter _ _ _ 0 it).
      destruct (IH self1) as (self' & -> & Hi' & Hd); [simpl; lia..|done|].
      rewrite bind_Ret. exists self'. split_and!; [|done|].
      * rewrite (drop_S _ _ _ E). f_equal. f_equal. cbn [take]. f_equal.
        unfold ShiftIter_items. cbn [self1 si_padding si_skipping si_iter].
        replace (Z.to_nat (si_padding self)) with 0%nat by lia. by rewrite Hit.
      * rewrite Hd. cbn [self1 si_padding si_skipping si_iter]. rewrite Hit.
        destruct (Z.leb_spec (Z.of_nat n) (si_padding self)); rewrite ?drop_drop; f_equal; lia.
    + eexists. apply lookup_ge_None in E. rewrite (drop_ge items) by lia.
      split_and!; [by rewrite take_nil|done|].
      cbn [si_iter]. rewrite Hit, !drop_ge by lia. done.
Qed.

Lemma shift_iter_items (it : I) dev pad :
  iter_items (shift_iter it dev pad) = shifted dev pad (iter_items it).
Proof using Type.
  unfold shifted, shift_iter, iter_items at 1, IterItems_ShiftIter. shift_simpl. destruct (Z.ltb_spec dev 0).
  - by replace (Z.abs dev) with (- dev) by lia;
      replace (Z.to_nat 0) with (Z.to_nat dev) by lia.
  - by replace (Z.abs dev) with dev by lia;
      replace (Z.to_nat 0) with (Z.to_nat (- dev)) by lia.
Qed.

#[export] Instance LawfulIterator_ShiftIter :
  LawfulIterator (ShiftIter I A) A (λ s, inv (si_iter s)).
Proof.
  split.
  - intros s Hi. apply ShiftIter_next_spec, Hi.
  - intros s n Hi _. by apply (default_nth_lawful _ _ _ ShiftIter_next_spec).
Qed.
End shift.

(** ** Shifted streams, element by element *)

Lemma length_shifted {A} dev (pad : nat → A) l :
  Z.of_nat (length (shifted dev pad l)) = Z.max 0 (- dev + Z.of_nat (length l)).
Proof.
  unfold shifted. lengths.
Qed.

(** Seen from a timeline: a stream that starts at index [idx], read from
    position [pos] on. *)
Lemma shifted_timeline {A} pos idx (pad : nat → A) l (j : nat) :
  shifted (pos - idx) pad l !! j =
    if pos + Z.of_nat j <? idx then Some (pad j)
    else l !! Z.to_nat (pos + Z.of_nat j - idx).
Proof.
  unfold shifted. destruct (Z.ltb_spec (pos + Z.of_nat j) idx).
  - rewrite lookup_app_l by lengths.
    rewrite list_lookup_fmap, lookup_seq_lt by lia. done.
  - rewrite lookup_app_r by lengths.
    rewrite length_fmap, length_seq, lookup_drop. f_equal. lia.
Qed.

(** ** Sending *)

Section tx_facts.
Context {C P T : Type} `{CounterLaws C, RtrbProducerLaws P T}.

Lemma producer_get_all_spec (p : P) :
  ∃ c, producer_get_all p = Ret c ∧
    ∀ I (HI : Iterator I T) (it : I), fill_from_iter c it =
      ('(xs, it) ← take_upto (Z.to_nat (producer_slots p)) it;
       Ret (Z.of_nat (length xs), it, commit p xs)).
Proof.
  destruct (write_chunk_uninit_spec p (producer_slots p)) as (c & Hc & Hf).
  { pose proof (producer_slots_nonneg p). lia. }
  exists c. unfold producer_get_all. by rewrite Hc.
Qed.

Lemma IndexedTx_send_written {I} `{LawfulIterator I T inv} (tx : IndexedTx C P)
    (idx : Z) (values : I) (pad : nat → T) :
  let c := IndexedTx_current tx in
  let out := take (Z.to_nat (IndexedTx_available_slots tx))
               (shifted (c - idx) pad (iter_items values)) in
  inv values → is_u64 c → i64_MIN <= c - idx <= i64_MAX →
  c + Z.of_nat (length out) <= u64_MAX →
  ∃ tx' values', IndexedTx_send tx idx values pad = Ret (tx', values') ∧
    written (itx_tx tx') = written (itx_tx tx) ++ out ∧
    IndexedTx_current tx' = c + Z.of_nat (length out) ∧ inv values'.
Proof.
  intros c out Hi Hc Hd Hs. unfold IndexedTx_send.
  unfold IndexedTx_current, IndexedTx_available_slots in *.
  rewrite signed_diff_Ret, bind_Ret by done.
  destruct (producer_get_all_spec (itx_tx tx)) as (ch & -> & Hf). rewrite bind_Ret, Hf.
  destruct (take_upto_spec (Z.to_nat (producer_slots (itx_tx tx)))
              (shift_iter values (current (itx_counter tx) - idx) pad))
    as (it' & -> & _ & Hi'); [done|].
  rewrite !bind_Ret, shift_iter_items. change (take _ _) with out.
  destruct (advance_spec (itx_counter tx) (Z.of_nat (length out))) as (c' & -> & Hc');
    [done| |done|].
  { bounds. }
  rewrite bind_Ret. do 2 eexists. split_and!; [done|apply written_commit|done|exact Hi'].
Qed.

Lemma IndexedTx_send_at {I} `{LawfulIterator I T inv} (tx : IndexedTx C P)
    (idx : Z) (values : I) (pad : nat → T) :
  let c := IndexedTx_current tx in
  let k := Z.min (IndexedTx_available_slots tx)
             (Z.max 0 (idx - c + Z.of_nat (length (iter_items values)))) in
  inv values → is_u64 c → i64_MIN <= c - idx <= i64_MAX → c + k <= u64_MAX →
  ∃ tx' values', IndexedTx_send tx idx values pad = Ret (tx', values') ∧
    IndexedTx_current tx' = c + k ∧ inv values' ∧
    (∃ out, written (itx_tx tx') = written (itx_tx tx) ++ out ∧
       Z.of_nat (length out) = k ∧
       ∀ j : nat, Z.of_nat j < k →
         out !! j = if c + Z.of_nat j <? idx then Some (pad j)
                    else iter_items values !! Z.to_nat (c + Z.of_nat j - idx)).
Proof.
  intros c k Hi Hc Hd Hs. pose proof (producer_slots_nonneg (itx_tx tx)).
  set (out := take (Z.to_nat (IndexedTx_available_slots tx))
                (shifted (c - idx) pad (iter_items values))).
  assert (Z.of_nat (length out) = k) as Hk.
  { unfold out. rewrite length_Z_take by (unfold IndexedTx_available_slots; lia).
    rewrite length_shifted. unfold k. f_equal. lia. }
  destruct (IndexedTx_send_written tx idx values pad) as (tx' & v' & ? & Hw & Hcur & ?);
    [done..| |].
  { fold c. fold out. lia. }
  fold c in Hw, Hcur. fold out in Hw, Hcur.
  exists tx', v'. split_and!; [done|lia|done|]. exists out. split_and!; [done..|].
  intros j Hj. unfold out. rewrite lookup_take_lt by (unfold IndexedTx_available_slots in *; lia).
  apply shifted_timeline.
Qed.

(** Sending keeps the ring buffer aligned with the timeline.  When the
    sender stands at position [c] and is handed values that start at logical
    index [idx], what it appends at position [c + j] is the value for that
    very index, or padding where the values have not started yet; it stops
    only when the ring buffer is full or the values run out, and its counter
    has advanced by the number of elements written.  What is left of the
    values still obeys its iterator's invariant. *)
Theorem IndexedTx_send_aligned {I} `{LawfulIterator I T inv} (tx : IndexedTx C P)
    (idx : Z) (values : I) (pad : nat → T) :
  let c := IndexedTx_current tx in
  let k := Z.min (IndexedTx_available_slots tx)
             (Z.max 0 (idx - c + Z.of_nat (length (iter_items values)))) in
  inv values → is_u64 c → i64_MIN <= c - idx <= i64_MAX → c + k <= u64_MAX →
  ∃ tx' values', IndexedTx_send tx idx values pad = Ret (tx', values') ∧
    IndexedTx_current tx' = c + k ∧ inv values' ∧
    (∃ out, written (itx_tx tx') = written (itx_tx tx) ++ out ∧
       Z.of_nat (length out) = k ∧
       ∀ j : nat, Z.of_nat j < k →
         out !! j = if c + Z.of_nat j <? idx then Some (pad j)
                    else iter_items values !! Z.to_nat (c + Z.of_nat j - idx)).
Proof. apply (IndexedTx_send_at (inv := inv)). Qed.
End tx_facts.

(** A run of sends.  Each one submits the values of a reference stream [f] for
    the indices from [idx] on, [n] of them: a window of the stream. *)
Section tx_runs.
Context {C P T : Type} `{CounterLaws C, RtrbProducerLaws P T}.
Context (f : Z → T) (silence : T).

Fixpoint send_windows (tx : IndexedTx C P) (ws : list (Z * Z)) : exec (IndexedTx C P) :=
  match ws with
  | [] => Ret tx
  | (idx, n) :: ws =>
      '(tx, _) ← IndexedTx_send tx idx (f <$> seqZ idx n) (λ _, silence);
      send_windows tx ws
  end.

(** Position [i] of the ring buffer's history holds the stream's element
    number [i], or silence. *)
Definition tx_aligned (tx : IndexedTx C P) : Prop :=
  IndexedTx_current tx = Z.of_nat (length (written (itx_tx tx))) ∧
  ∀ i x, written (itx_tx tx) !! i = Some x → x = f (Z.of_nat i) ∨ x = silence.

(** An iterator over a window of the stream. *)
Lemma tx_aligned_send_iter {I} `{LawfulIterator I T inv} tx idx n (it : I) :
  tx_aligned tx → IndexedTx_current tx <= i64_MAX →
  0 <= idx → 0 <= n → idx + n <= i64_MAX →
  inv it → iter_items it = f <$> seqZ idx n →
  ∃ tx' rest, IndexedTx_send tx idx it (λ _, silence) = Ret (tx', rest) ∧
    tx_aligned tx' ∧ IndexedTx_current tx' <= i64_MAX ∧ inv rest.
Proof.
  intros [Hc Hal] Hmax Hidx Hn Hend Hinv Hits. pose proof (producer_slots_nonneg (itx_tx tx)).
  assert (Z.of_nat (length (iter_items it)) = n) as Hlen.
  { rewrite Hits. lengths. }
  destruct (IndexedTx_send_at (inv := inv) tx idx it (λ _, silence))
    as (tx' & rest & Hs & Hcur & Hrest & out & Hw & Hout & Hj); [done|bounds|bounds| |].
  { rewrite Hlen. bounds. }
  rewrite Hlen in *.
  exists tx', rest. split; [done|]. split; [|split; [bounds|done]]. split.
  { rewrite Hw, length_app. lia. }
  intros i x. rewrite Hw, lookup_app. intros Hi. case_match eqn:E; [naive_solver|].
  apply lookup_ge_None in E. pose proof (lookup_lt_Some _ _ _ Hi).
  rewrite Hj in Hi by lia. destruct (Z.ltb_spec (IndexedTx_current tx
    + Z.of_nat (i - length (written (itx_tx tx)))) idx); [naive_solver|].
  rewrite Hits in Hi. apply list_lookup_fmap_Some in Hi as (y & -> & Hy).
  apply lookup_seqZ in Hy as [-> _]. left. f_equal. lia.
Qed.

Lemma tx_aligned_send tx idx n :
  tx_aligned tx → IndexedTx_current tx <= i64_MAX →
  0 <= idx → 0 <= n → idx + n <= i64_MAX →
  ∃ tx' rest, IndexedTx_send tx idx (f <$> seqZ idx n) (λ _, silence) = Ret (tx', rest) ∧
    tx_aligned tx' ∧ IndexedTx_current tx' <= i64_MAX.
Proof.
  intros. destruct (tx_aligned_send_iter (inv := λ _, True) (I := list T) tx idx n
    (f <$> seqZ idx n)) as (? & ? & ? & ? & ? & _); eauto 6.
Qed.

(** C1: whatever windows of a stream a caller submits, early, late,
    overlapping or with gaps between them, and however full the ring buffer
    is at each call, the sequence of elements that went into the ring buffer
    stays aligned with the stream: element [i] is the stream's element [i]
    or silence, never an element of another index; and no send panics while
    the indices stay in the range of an [i64]. *)
Theorem IndexedTx_timeline (tx : IndexedTx C P) (ws : list (Z * Z)) :
  IndexedTx_current tx = 0 → written (itx_tx tx) = [] →
  Forall (λ '(idx, n), 0 <= idx ∧ 0 <= n ∧ idx + n <= i64_MAX) ws →
  ∃ tx', send_windows tx ws = Ret tx' ∧ tx_aligned tx'.
Proof.
  intros H0' Hw Hws.
  assert (tx_aligned tx ∧ IndexedTx_current tx <= i64_MAX) as [Hal Hmax].
  { split; [|bounds]. split; rewrite Hw; [done|]. by intros i x ?%lookup_nil_Some || set_solver. }
  clear H0' Hw. revert tx Hal Hmax.
  induction Hws as [|[idx n] ws (? & ? & ?) _ IH]; intros tx Hal Hmax; cbn [send_windows].
  { eauto. }
  destruct (tx_aligned_send tx idx n) as (tx' & rest & -> & ? & ?); [done..|].
  rewrite bind_Ret. eauto.
Qed.
End tx_runs.

(** ** Receiving *)

#[export] Instance IterItems_ReadChunksIterCounter {C R T} `{RtrbConsumerLaws R T}
    : IterItems (ReadChunksIterCounter C R T) T := λ self, iter_items (ri_iter self).

Section rx_facts.
Context {C R T : Type} `{CounterLaws C, RtrbConsumerLaws R T}.

Definition chunk_inv (c : C) (len : Z) (b : list T) (self : ReadChunksIterCounter C R T) : Prop :=
  chunk_beyond (ri_iter self) = b ∧ ri_ticker self = c ∧ ri_initial_len self = len.

#[export] Instance LawfulIterator_ReadChunksIterCounter c len b :
  LawfulIterator (ReadChunksIterCounter C R T) T (chunk_inv c len b).
Proof.
  pose proof (chunk_lawful b). split.
  - intros self (Hb & Hc & Hl).
    destruct (iter_next_spec (ri_iter self) Hb) as (it & Hn & Hi & Hb').
    exists (MkReadChunksIterCounter (ri_ticker self) it (ri_initial_len self)).
    split_and!; [|exact Hi|done..]. simpl. unfold ReadChunksIterCounter_next. by rewrite Hn.
  - intros self n (Hb & Hc & Hl) ?.
    destruct (iter_nth_spec (ri_iter self) n Hb) as (it & Hn & Hi & Hb'); [done|].
    exists (MkReadChunksIterCounter (ri_ticker self) it (ri_initial_len self)).
    split_and!; [|exact Hi|done..]. simpl. unfold ReadChunksIterCounter_nth. by rewrite Hn.
Qed.

Lemma consumer_get_all_spec (r : R) :
  ∃ ch, consumer_get_all r = Ret ch ∧
    chunk_len ch = Z.of_nat (length (contents r)) ∧
    iter_items (chunk_into_iter ch) = contents r ∧
    chunk_beyond (chunk_into_iter ch) = [].
Proof.
  destruct (read_chunk_spec r (consumer_slots r)) as (ch & Hr & Hl & Hi & Hb).
  { rewrite consumer_slots_spec. lia. }
  exists ch. unfold consumer_get_all. rewrite Hr. rewrite consumer_slots_spec, Nat2Z.id in *.
  rewrite firstn_all in Hi. rewrite drop_all in Hb. done.
Qed.

(** The number of elements of a ring buffer of [len] elements, the first one
    of index [c], that [k] pulls from index [idx] on use up. *)
Definition pulled (c idx len : Z) (k : nat) : Z :=
  if Z.of_nat k <=? Z.max 0 (c - idx) then 0
  else Z.min len (Z.max 0 (idx - c) + (Z.of_nat k - Z.max 0 (c - idx))).

Lemma pulled_range c idx len k : 0 <= len → 0 <= pulled c idx len k <= len.
Proof.
  unfold pulled. destruct (Z.leb_spec (Z.of_nat k) (Z.max 0 (c - idx))); lia.
Qed.

Lemma IndexedRx_recv_pull (rx : IndexedRx C R) idx (pad : nat → T) (k : nat) :
  let c := IndexedRx_current rx in
  let ring := contents (irx_rx rx) in
  let m := pulled c idx (Z.of_nat (length ring)) k in
  i64_MIN <= idx - c <= i64_MAX →
  ∃ it it', IndexedRx_recv rx idx pad = Ret it ∧
    take_upto k it = Ret (take k (shifted (idx - c) pad ring), it') ∧
    chunk_inv (irx_counter rx) (Z.of_nat (length ring)) [] (si_iter it') ∧
    iter_items (ri_iter (si_iter it')) = drop (Z.to_nat m) ring.
Proof.
  intros c ring m Hd.
  destruct (consumer_get_all_spec (irx_rx rx)) as (ch & Hch & Hlen & Hits & Hbey).
  set (rc := ReadChunksIterCounter_new ch (irx_counter rx)).
  set (it := shift_iter rc (idx - c) pad).
  assert (si_padding it = Z.max 0 (c - idx) ∧ si_skipping it = Z.max 0 (idx - c)) as [Hp Hs].
  { simpl. destruct (Z.ltb_spec (idx - c) 0); lia. }
  destruct (take_upto_shift_inner (inv := chunk_inv (irx_counter rx) (Z.of_nat (length ring)) [])
              k it) as (it' & Ht & Hinv & Hrest); [lia..|done|].
  change (ShiftIter_items it) with (iter_items it) in Ht.
  unfold it at 2 in Ht. rewrite shift_iter_items in Ht.
  change (iter_items rc) with (iter_items (chunk_into_iter ch)) in Ht.
  change (iter_items (si_iter it)) with (iter_items (chunk_into_iter ch)) in Hrest.
  rewrite Hits in Ht, Hrest. fold ring in Ht, Hrest. rewrite Hp, Hs in Hrest.
  exists it, it'. split_and!; [|exact Ht|exact Hinv|].
  - unfold IndexedRx_recv. fold c. rewrite signed_diff_Ret, bind_Ret by done.
    by rewrite Hch, bind_Ret.
  - change (iter_items (si_iter it') = drop (Z.to_nat m) ring). rewrite Hrest.
    unfold m, pulled. destruct (Z.of_nat k <=? _); [done|].
    destruct (decide (Z.of_nat (length ring) <=
      Z.max 0 (idx - c) + (Z.of_nat k - Z.max 0 (c - idx)))).
    + rewrite !drop_ge by lia. done.
    + f_equal. lia.
Qed.

Lemma IndexedRx_recv_at (rx : IndexedRx C R) (idx : Z) (pad : nat → T) (k : nat) :
  let c := IndexedRx_current rx in
  let ring := contents (irx_rx rx) in
  let m := pulled c idx (Z.of_nat (length ring)) k in
  is_u64 c → i64_MIN <= idx - c <= i64_MAX → c + m <= u64_MAX →
  ∃ it out it' rx', IndexedRx_recv rx idx pad = Ret it ∧
    take_upto k it = Ret (out, it') ∧
    IndexedRx_release it' = Ret rx' ∧
    IndexedRx_current rx' = c + m ∧
    contents (irx_rx rx') = drop (Z.to_nat m) ring ∧
    Z.of_nat (length out) =
      Z.min (Z.of_nat k) (Z.max 0 (c - idx + Z.of_nat (length ring))) ∧
    ∀ j : nat, (j < length out)%nat →
      out !! j = if idx + Z.of_nat j <? c then Some (pad j)
                 else ring !! Z.to_nat (idx + Z.of_nat j - c).
Proof.
  intros c ring m Hc Hd Hm.
  destruct (IndexedRx_recv_pull rx idx pad k Hd) as (it & it' & ? & Ht & (Hb & Htk & Hil) & Hinner).
  fold c ring in Ht, Hinner, Hil. fold m in Hinner.
  assert (0 <= m <= Z.of_nat (length ring)) by (apply pulled_range; lia).
  destruct (advance_spec (irx_counter rx) m) as (c' & Hadv & Hc'); [done|bounds|done|].
  exists it, (take k (shifted (idx - c) pad ring)), it',
    (MkIndexedRx (chunk_iter_drop (ri_iter (si_iter it'))) c').
  split_and!; [done|exact Ht| |done|..].
  - unfold IndexedRx_release, ReadChunksIterCounter_drop.
    rewrite chunk_iter_len_spec, Hinner, Hil, Htk, length_drop.
    rewrite strict_sub_Ret, bind_Ret by lia.
    replace (_ - _) with m by lia. by rewrite Hadv.
  - simpl. rewrite chunk_iter_drop_spec, Hb, app_nil_r. exact Hinner.
  - rewrite length_take. pose proof (length_shifted (idx - c) pad ring). lia.
  - intros j Hj. rewrite length_take in Hj. rewrite lookup_take_lt by lia.
    apply shifted_timeline.
Qed.

(** C12: receiving keeps the consumer aligned with the timeline.  When the
    first element of the ring buffer has logical index [c] and a caller asks
    for the stream from index [idx] and pulls [k] elements, the [j]-th one is
    the ring buffer's element of index [idx + j], or padding where that
    index lies before [c]; when the iterator is dropped the elements that
    were pulled or skipped, and only those, are gone from the ring buffer
    and the counter has advanced by their number, so it is again the index
    of the first element left. *)
Theorem IndexedRx_recv_aligned (rx : IndexedRx C R) (idx : Z) (pad : nat → T) (k : nat) :
  let c := IndexedRx_current rx in
  let ring := contents (irx_rx rx) in
  let m := pulled c idx (Z.of_nat (length ring)) k in
  is_u64 c → i64_MIN <= idx - c <= i64_MAX → c + m <= u64_MAX →
  ∃ it out it' rx', IndexedRx_recv rx idx pad = Ret it ∧
    take_upto k it = Ret (out, it') ∧
    IndexedRx_release it' = Ret rx' ∧
    IndexedRx_current rx' = c + m ∧
    contents (irx_rx rx') = drop (Z.to_nat m) ring ∧
    Z.of_nat (length out) =
      Z.min (Z.of_nat k) (Z.max 0 (c - idx + Z.of_nat (length ring))) ∧
    ∀ j : nat, (j < length out)%nat →
      out !! j = if idx + Z.of_nat j <? c then Some (pad j)
                 else ring !! Z.to_nat (idx + Z.of_nat j - c).
Proof. apply IndexedRx_recv_at. Qed.
End rx_facts.

(** ** A ring buffer that satisfies the laws

    A producer with room for so many more items, and a consumer that holds a
    list: enough to run the adapters on concrete streams. *)
Module ListRing.
Section ring.
Context {T : Type}.

Record producer := MkProducer { room : Z; log : list T }.
Definition slots (p : producer) : Z := Z.max 0 (room p).
Definition push (p : producer) (xs : list T) : producer :=
  MkProducer (room p - Z.of_nat (length xs)) (log p ++ xs).

#[export] Instance producer_ops : RtrbProducer producer T := {
  WriteChunkUninit := producer * Z;
  producer_slots := slots;
  producer_is_abandoned _ := false;
  write_chunk_uninit p n := if n <=? slots p then Ok (p, n) else Err (TooFewSlots (slots p));
  fill_from_iter I _ c it :=
    '(xs, it) ← take_upto (Z.to_nat (snd c)) it;
    Ret (Z.of_nat (length xs), it, push (fst c) xs);
}.

#[export] Instance producer_laws : RtrbProducerLaws producer T.
Proof.
  refine {| written := log; commit := push |}.
  - done.
  - simpl. unfold slots. lia.
  - intros p n [_ Hn]. simpl. rewrite (proj2 (Z.leb_le _ _)) by done. eauto.
Defined.

Record chunk_iter := MkChunkIter { left : list T; beyond : list T }.

#[export] Instance chunk_iter_iterator : Iterator chunk_iter T := {
  iter_next c := Ret (head (left c), MkChunkIter (tail (left c)) (beyond c));
  iter_nth n c := Ret ((list_nth n (left c)).1, MkChunkIter (list_nth n (left c)).2 (beyond c));
}.

#[export] Instance consumer_ops : RtrbConsumer (list T) T := {
  ReadChunk := list T * list T;
  ReadChunkIntoIter := chunk_iter;
  consumer_slots r := Z.of_nat (length r);
  consumer_is_abandoned _ := false;
  read_chunk r n :=
    if n <=? Z.of_nat (length r) then Ok (take (Z.to_nat n) r, drop (Z.to_nat n) r)
    else Err (TooFewSlots (Z.of_nat (length r)));
  chunk_len c := Z.of_nat (length c.1);
  chunk_into_iter c := MkChunkIter c.1 c.2;
  chunk_iter_len c := Z.of_nat (length (left c));
  chunk_iter_drop c := left c ++ beyond c;
}.

#[export] Instance consumer_laws : RtrbConsumerLaws (list T) T.
Proof.
  refine {| contents := λ r : list T, r; chunk_beyond := beyond; chunk_items := left |}.
  - intros b. split.
    + intros c Hc. eexists. split; [reflexivity|]. done.
    + intros c n Hc Hn. simpl. rewrite list_nth_spec by done.
      eexists. split; [reflexivity|]. done.
  - done.
  - intros r n Hn. simpl in *. rewrite (proj2 (Z.leb_le _ _)) by lia.
    eexists. split_and!; [done| |done..]. simpl. rewrite length_take. lia.
  - done.
  - done.
Defined.
End ring.
Arguments producer : clear implicits.
End ListRing.

Section witnesses.
#[local] Existing Instances ListRing.producer_ops ListRing.producer_laws
  ListRing.consumer_ops ListRing.consumer_laws.

(** A sender at position 4 is handed values for index 6 on. *)
Lemma IndexedTx_send_aligned_witness :
  ∃ tx' rest out,
    IndexedTx_send (MkIndexedTx (MkGenericCounter 4) (ListRing.MkProducer 8 [1; 2; 3; 4]))
      6 [7; 8; 9] (λ _, 0) = Ret (tx', rest) ∧
    written (itx_tx tx') = [1; 2; 3; 4] ++ out ∧ IndexedTx_current tx' = 9 ∧
    out !! 1%nat = Some 0 ∧ out !! 2%nat = Some 7.
Proof.
  destruct (IndexedTx_send_aligned
              (MkIndexedTx (MkGenericCounter 4) (ListRing.MkProducer 8 [1; 2; 3; 4]))
              6 [7; 8; 9] (λ _, 0)) as (tx' & rest & Hs & Hc & _ & out & Hw & Hl & Hj).
  - exact I.
  - vm_compute; split; discriminate.
  - vm_compute; split; discriminate.
  - vm_compute; discriminate.
  - exists tx', rest, out. split; [exact Hs|]. split; [exact Hw|]. split; [exact Hc|].
    split; rewrite Hj by reflexivity; reflexivity.
Defined.

Lemma IndexedTx_timeline_witness :
  ∃ tx', send_windows (λ i, i) 0
      (MkIndexedTx GenericCounter_new (ListRing.MkProducer 100 []))
      [(0, 3); (5, 2); (1, 4); (6, 4)] = Ret tx' ∧ tx_aligned (λ i, i) 0 tx'.
Proof.
  apply IndexedTx_timeline; [reflexivity..|].
  repeat constructor; vm_compute; discriminate.
Defined.

(** A receiver whose first element has index 10 is asked for index 8 on, and
    four elements are pulled. *)
Lemma IndexedRx_recv_aligned_witness :
  ∃ it out it' rx',
    IndexedRx_recv (MkIndexedRx [5; 6; 7] (MkGenericCounter 10)) 8 (λ _, 0) = Ret it ∧
    take_upto 4 it = Ret (out, it') ∧ IndexedRx_release it' = Ret rx' ∧
    IndexedRx_current rx' = 12 ∧ contents (irx_rx rx') = [7] ∧ out !! 2%nat = Some 5.
Proof.
  destruct (IndexedRx_recv_aligned (MkIndexedRx [5; 6; 7] (MkGenericCounter 10)) 8 (λ _, 0) 4)
    as (it & out & it' & rx' & Hr & Ht & Hd & Hc & Hcont & Hl & Hj).
  - vm_compute; split; discriminate.
  - vm_compute; split; discriminate.
  - vm_compute; discriminate.
  - exists it, out, it', rx'. split_and!; [exact Hr|exact Ht|exact Hd|exact Hc|exact Hcont|].
    rewrite Hj; [reflexivity|]. apply Nat2Z.inj_lt. rewrite Hl. reflexivity.
Defined.
End witnesses.
