(* ===== verification/ByteProducer.v ===== *)
(** * Samples to bytes: [syfala_utils/src/byte_producer.rs]

    The adapter that turns a stream of samples into a continuous stream of
    bytes, resuming in the middle of a sample when its output was consumed
    only in part, and the packet producer that feeds it from a ring buffer. *)

From S2P Require Import Prelude SampleType Iter Queue.

(** ** Sources *)

(** [SampleSource]: [get_samples] borrows the source for the life of the
    iterator it returns; [source_release] is the end of that borrow. *)
Class SampleSource (S T : Type) := {
  source_iter : Type;
  #[global] source_iterator :: Iterator source_iter T;
  get_samples : S → exec source_iter;
  source_release : source_iter → S;
}.
Arguments source_iter S T {_}.

#[export] Instance SampleSource_Consumer {R T} `{RtrbConsumer R T} : SampleSource R T := {
  source_iter := ReadChunkIntoIter R T;
  get_samples rx := chunk ← consumer_get_all rx; Ret (chunk_into_iter chunk);
  source_release it := chunk_iter_drop it;
}.

(** ** The byte iterator *)

Record SampleByteStreamIter (I : Type) := MkSampleByteStreamIter {
  bi_iter : I;
  bi_current_byte_idx : Z;
  bi_current_sample_bytes : list Z;
}.
Arguments MkSampleByteStreamIter {I}.
Arguments bi_iter {I}.
Arguments bi_current_byte_idx {I}.
Arguments bi_current_sample_bytes {I}.

Record SampleByteStream (T : Type) := MkSampleByteStream {
  sbs_current_sample_bytes : list Z;
  sbs_current_byte_idx : Z;
}.
Arguments MkSampleByteStream {T}.
Arguments sbs_current_sample_bytes {T}.
Arguments sbs_current_byte_idx {T}.

Section byte_stream.
Context {T : Type} `{!SampleSize T, !SampleToBytes T}.

Definition SampleByteStreamIter_next {I} `{Iterator I T} (self : SampleByteStreamIter I)
    : exec (option Z * SampleByteStreamIter I) :=
  let current_spl_byte_idx := bi_current_byte_idx self mod SIZE T in
  (* the early return of [self.iter.next()?] is the [None] below *)
  '(bytes, it) ←
    (if current_spl_byte_idx =? 0 then
       '(o, it) ← iter_next (bi_iter self);
       match o with
       | None => Ret (None, it)
       | Some spl =>
           bs ← to_bytes spl (bi_current_sample_bytes self); Ret (Some bs, it)
       end
     else Ret (Some (bi_current_sample_bytes self), bi_iter self));
  match bytes with
  | None =>
      Ret (None, MkSampleByteStreamIter it (bi_current_byte_idx self)
                   (bi_current_sample_bytes self))
  | Some bs =>
      idx ← strict_add u64_MAX (bi_current_byte_idx self) 1;
      i ← try_into usize_MAX current_spl_byte_idx;
      b ← unwrap (bs !! Z.to_nat i);
      Ret (Some b, MkSampleByteStreamIter it idx bs)
  end.

#[export] Instance Iterator_SampleByteStreamIter I `{Iterator I T}
    : Iterator (SampleByteStreamIter I) Z := {
  iter_next := SampleByteStreamIter_next;
  iter_nth n := default_nth SampleByteStreamIter_next (Z.to_nat n);
}.

(** ** The stream *)

Definition SampleByteStream_new : SampleByteStream T :=
  MkSampleByteStream (replicate (Z.to_nat (SIZE T)) 0) 0.

Definition SampleByteStream_current_byte_idx (self : SampleByteStream T) : Z :=
  sbs_current_byte_idx self.

Definition feed_samples {I} (self : SampleByteStream T) (samples : I)
    : SampleByteStreamIter I :=
  MkSampleByteStreamIter samples (sbs_current_byte_idx self) (sbs_current_sample_bytes self).

(** The end of the iterator's borrow of the stream. *)
Definition feed_samples_release {I} (it : SampleByteStreamIter I) : SampleByteStream T :=
  MkSampleByteStream (bi_current_sample_bytes it) (bi_current_byte_idx it).

Definition frame_samples {I} (self : SampleByteStream T) (samples : I)
    : Z * SampleByteStreamIter I :=
  (SampleByteStream_current_byte_idx self, feed_samples self samples).
End byte_stream.

(** ** Packets *)

Record IndexedAudioSampleStreamReceiver (S T : Type) := MkReceiver {
  rcv_source : S;
  rcv_framer : SampleByteStream T;
}.
Arguments MkReceiver {S T}.
Arguments rcv_source {S T}.
Arguments rcv_framer {S T}.

Section packets.
Context {S T : Type} `{!SampleSize T, !SampleToBytes T, !SampleSource S T}.

Definition produce_packet (self : IndexedAudioSampleStreamReceiver S T)
    : exec (Z * SampleByteStreamIter (source_iter S T)) :=
  samples ← get_samples (rcv_source self);
  Ret (frame_samples (rcv_framer self) samples).

Definition produce_packet_release (it : SampleByteStreamIter (source_iter S T))
    : IndexedAudioSampleStreamReceiver S T :=
  MkReceiver (source_release (bi_iter it)) (feed_samples_release it).

(** A caller that asks for one packet after another and takes at most so
    many bytes of each. *)
Fixpoint produce_packets (self : IndexedAudioSampleStreamReceiver S T) (ks : list nat)
    : exec (list (Z * list Z) * IndexedAudioSampleStreamReceiver S T) :=
  match ks with
  | [] => Ret ([], self)
  | k :: ks =>
      '(idx, it) ← produce_packet self;
      '(bytes, it) ← take_upto k it;
      '(packets, self) ← produce_packets (produce_packet_release it) ks;
      Ret ((idx, bytes) :: packets, self)
  end.
End packets.

(** ** Lemmas *)

(** The bytes of a sample. *)
Definition sample_bytes {T} `{!SampleSize T, !SampleToBytes T} (x : T) : list Z :=
  match to_bytes x (replicate (Z.to_nat (SIZE T)) 0) with Ret bs => bs | _ => [] end.

Section stream_facts.
Context {T : Type} `{Sample T}.

Lemma to_bytes_sample_bytes (x : T) slice :
  sample_valid x → Z.of_nat (length slice) = SIZE T →
  to_bytes x slice = Ret (sample_bytes x) ∧
  Z.of_nat (length (sample_bytes x)) = SIZE T.
Proof.
  intros Hv Hs. pose proof sample_size_range.
  destruct (to_bytes_ok x (replicate (Z.to_nat (SIZE T)) 0)) as (bs & Hb & Hl & Hu & Hd).
  { rewrite length_replicate. lia. }
  destruct (from_bytes_ok bs Hl Hu) as (y & Hy & _ & He).
  rewrite (Hd Hv) in Hy. injection Hy as <-.
  unfold sample_bytes. rewrite Hb. split; [apply He; lia|done].
Qed.

(** What a stream has fetched and not yet handed out. *)
Definition pending_bytes (idx : Z) (bytes : list Z) : list Z :=
  if idx mod SIZE T =? 0 then [] else drop (Z.to_nat (idx mod SIZE T)) bytes.

(** The bytes a byte iterator will yield. *)
#[export] Instance IterItems_SampleByteStreamIter I `{IterItems I T}
    : IterItems (SampleByteStreamIter I) Z := λ self,
  pending_bytes (bi_current_byte_idx self) (bi_current_sample_bytes self)
  ++ concat (sample_bytes <$> iter_items (bi_iter self)).

Section lawful.
Context {I : Type} `{LawfulIterator I T inv}.

(** Well-formed states of the byte iterator: the buffer has the size of a
    sample, the samples to come are valid, and the stream, which ends at
    byte [e], fits in a [u64]. *)
Definition byte_iter_inv (e : Z) (self : SampleByteStreamIter I) : Prop :=
  inv (bi_iter self) ∧ Forall sample_valid (iter_items (bi_iter self)) ∧
  Z.of_nat (length (bi_current_sample_bytes self)) = SIZE T ∧
  0 <= bi_current_byte_idx self ∧
  bi_current_byte_idx self + Z.of_nat (length (iter_items self)) = e ∧ e <= u64_MAX.

(** Handing out byte [i] of the current sample leaves the bytes after it
    pending. *)
Lemma pending_bytes_step idx bs b :
  0 <= idx → Z.of_nat (length bs) = SIZE T →
  bs !! Z.to_nat (idx mod SIZE T) = Some b →
  b :: pending_bytes (idx + 1) bs = drop (Z.to_nat (idx mod SIZE T)) bs.
Proof.
  intros Hi Hl Hb. pose proof sample_size_range as [Hs _].
  pose proof (Z.mod_pos_bound idx (SIZE T) Hs). rewrite (drop_S _ _ _ Hb). f_equal.
  unfold pending_bytes. rewrite <- Zplus_mod_idemp_l.
  destruct (decide (idx mod SIZE T + 1 = SIZE T)) as [E|].
  - rewrite E, Z.mod_same by lia. simpl. symmetry. apply drop_ge. lia.
  - rewrite (Z.mod_small (idx mod SIZE T + 1)) by lia.
    rewrite (proj2 (Z.eqb_neq _ _)) by lia. f_equal. lia.
Qed.

(** The second half of [next], once the buffer [bs] holds the sample that
    contains the current byte. *)
Lemma byte_iter_yield e (self : SampleByteStreamIter I) it bs :
  inv it → Forall sample_valid (iter_items it) → Z.of_nat (length bs) = SIZE T →
  0 <= bi_current_byte_idx self →
  bi_current_byte_idx self + Z.of_nat (length (iter_items self)) = e → e <= u64_MAX →
  iter_items self = drop (Z.to_nat (bi_current_byte_idx self mod SIZE T)) bs
                    ++ concat (sample_bytes <$> iter_items it) →
  ∃ self', (idx ← strict_add u64_MAX (bi_current_byte_idx self) 1;
            i ← try_into usize_MAX (bi_current_byte_idx self mod SIZE T);
            b ← unwrap (bs !! Z.to_nat i);
            Ret (Some b, MkSampleByteStreamIter it idx bs))
           = Ret (head (iter_items self), self') ∧
    iter_items self' = tail (iter_items self) ∧ byte_iter_inv e self'.
Proof.
  intros Hit Hvi Hlb H0' He Hmax Hitems. pose proof sample_size_range as [Hs Hsm].
  pose proof (Z.mod_pos_bound (bi_current_byte_idx self) (SIZE T) Hs) as Hm.
  destruct (lookup_lt_is_Some_2 bs (Z.to_nat (bi_current_byte_idx self mod SIZE T)))
    as [b Hb]; [lia|].
  rewrite <- (pending_bytes_step _ _ _ H0' Hlb Hb) in Hitems.
  set (self' := MkSampleByteStreamIter it (bi_current_byte_idx self + 1) bs).
  change (iter_items self = b :: iter_items self') in Hitems.
  exists self'. rewrite Hitems in *. cbn [length] in He.
  rewrite strict_add_Ret, bind_Ret by lia. rewrite try_into_Ret, bind_Ret by bounds.
  rewrite Hb. split_and!; [done|done|]. split_and!; cbn; (done || lia).
Qed.

Lemma SampleByteStreamIter_next_spec e (self : SampleByteStreamIter I) :
  byte_iter_inv e self →
  ∃ self', SampleByteStreamIter_next self = Ret (head (iter_items self), self') ∧
    iter_items self' = tail (iter_items self) ∧ byte_iter_inv e self'.
Proof.
  intros (Hi & Hv & Hl & H0' & He & Hmax). unfold SampleByteStreamIter_next.
  destruct (Z.eqb_spec (bi_current_byte_idx self mod SIZE T) 0) as [E|E].
  - assert (iter_items self = concat (sample_bytes <$> iter_items (bi_iter self))) as Hits.
    { unfold iter_items at 1, IterItems_SampleByteStreamIter, pending_bytes.
      by rewrite E. }
    destruct (iter_next_spec (bi_iter self) Hi) as (it & -> & Htl & Hi'). rewrite bind_Ret.
    destruct (iter_items (bi_iter self)) as [|x xs] eqn:Ex; cbn [head tail] in *.
    + rewrite Hits in *. rewrite bind_Ret. eexists. split; [reflexivity|].
      assert (iter_items (MkSampleByteStreamIter it (bi_current_byte_idx self)
                (bi_current_sample_bytes self)) = []) as Hnil.
      { unfold iter_items at 1, IterItems_SampleByteStreamIter, pending_bytes. simpl.
        by rewrite E, Htl. }
      split; [done|]. split_and!; cbn; rewrite ?Htl, ?Hnil; done.
    + apply Forall_cons in Hv as [Hx Hv].
      destruct (to_bytes_sample_bytes x (bi_current_sample_bytes self) Hx Hl) as [-> Hlx].
      rewrite !bind_Ret.
      apply byte_iter_yield; rewrite ?Htl; try done. by rewrite Hits, E.
  - rewrite bind_Ret. apply byte_iter_yield; try done.
    unfold iter_items at 1, IterItems_SampleByteStreamIter, pending_bytes.
    by rewrite (proj2 (Z.eqb_neq _ _)).
Qed.

#[export] Instance LawfulIterator_SampleByteStreamIter e :
  LawfulIterator (SampleByteStreamIter I) Z (byte_iter_inv e).
Proof.
  split.
  - intros self Hi. by apply SampleByteStreamIter_next_spec.
  - intros self n Hi _.
    by apply (default_nth_lawful _ _ _ (SampleByteStreamIter_next_spec e)).
Qed.
End lawful.

(** ** Properties *)

(** The bytes a stream would hand out if it were fed [samples] now. *)
Definition stream_bytes (self : SampleByteStream T) (samples : list T) : list Z :=
  pending_bytes (sbs_current_byte_idx self) (sbs_current_sample_bytes self)
  ++ concat (sample_bytes <$> samples).

Definition SampleByteStream_wf (self : SampleByteStream T) : Prop :=
  Z.of_nat (length (sbs_current_sample_bytes self)) = SIZE T ∧
  0 <= sbs_current_byte_idx self.

Lemma SampleByteStream_new_wf : SampleByteStream_wf SampleByteStream_new.
Proof.
  pose proof sample_size_range. split; cbn; [|lia]. rewrite length_replicate. lia.
Qed.

Lemma frame_samples_spec {I} `{LawfulIterator I T inv} (self : SampleByteStream T)
    (samples : I) (k : nat) :
  let stream := stream_bytes self (iter_items samples) in
  SampleByteStream_wf self → inv samples → Forall sample_valid (iter_items samples) →
  sbs_current_byte_idx self + Z.of_nat (length stream) <= u64_MAX →
  ∃ it, take_upto k (frame_samples self samples).2 = Ret (take k stream, it) ∧
    (frame_samples self samples).1 = sbs_current_byte_idx self ∧
    let self' := feed_samples_release it in
    SampleByteStream_wf self' ∧ inv (bi_iter it) ∧
    Forall sample_valid (iter_items (bi_iter it)) ∧
    sbs_current_byte_idx self' = sbs_current_byte_idx self + Z.of_nat (length (take k stream)) ∧
    stream_bytes self' (iter_items (bi_iter it)) = drop k stream.
Proof.
  intros stream [Hl H0'] Hi Hv Hmax.
  destruct (take_upto_spec (inv := byte_iter_inv
              (sbs_current_byte_idx self + Z.of_nat (length stream)))
              k (feed_samples self samples)) as (it & Ht & Hd & Hi' & Hv' & Hl' & H0'' & He & _).
  { by split_and!. }
  exists it. split; [exact Ht|]. split; [done|]. cbv zeta.
  split_and!; [done..| |exact Hd].
  change (iter_items (feed_samples self samples)) with stream in Hd.
  rewrite Hd in He. cbn. lengths.
Qed.

(** Feeding samples and taking some of the bytes loses and repeats
    nothing.  The index reported is the position of the first byte; the
    bytes taken are the rest of the sample that was interrupted by the
    previous call, then the little-endian bytes of the samples in order;
    what was not taken is exactly what the stream yields next, together with
    the samples the caller's iterator still holds; the position advances by
    the number of bytes taken.  No panic while the position fits in a
    [u64]. *)
Theorem frame_samples_resumes {I} `{LawfulIterator I T inv} (self : SampleByteStream T)
    (samples : I) (k : nat) :
  let stream := stream_bytes self (iter_items samples) in
  SampleByteStream_wf self → inv samples → Forall sample_valid (iter_items samples) →
  sbs_current_byte_idx self + Z.of_nat (length stream) <= u64_MAX →
  ∃ it, take_upto k (frame_samples self samples).2 = Ret (take k stream, it) ∧
    (frame_samples self samples).1 = sbs_current_byte_idx self ∧
    let self' := feed_samples_release it in
    SampleByteStream_wf self' ∧ inv (bi_iter it) ∧
    Forall sample_valid (iter_items (bi_iter it)) ∧
    sbs_current_byte_idx self' = sbs_current_byte_idx self + Z.of_nat (length (take k stream)) ∧
    stream_bytes self' (iter_items (bi_iter it)) = drop k stream.
Proof. apply frame_samples_spec. Qed.
End stream_facts.

(** Packets drawn one after another from a ring buffer. *)
Section packet_facts.
Context {R T : Type} `{Sample T} `{RtrbConsumerLaws R T}.

Definition receiver_stream (self : IndexedAudioSampleStreamReceiver R T) : list Z :=
  stream_bytes (rcv_framer self) (contents (rcv_source self)).

(** Packet [(idx, bytes)] follows position [pos] of the stream [s], and so
    does the rest after it. *)
Fixpoint packets_partition (pos : Z) (s : list Z) (packets : list (Z * list Z)) : Prop :=
  match packets with
  | [] => True
  | (idx, bytes) :: packets =>
      idx = pos ∧ bytes = take (length bytes) s ∧
      packets_partition (pos + Z.of_nat (length bytes)) (drop (length bytes) s) packets
  end.

Lemma produce_packet_spec (self : IndexedAudioSampleStreamReceiver R T) k :
  let stream := receiver_stream self in
  SampleByteStream_wf (rcv_framer self) →
  Forall sample_valid (contents (rcv_source self)) →
  sbs_current_byte_idx (rcv_framer self) + Z.of_nat (length stream) <= u64_MAX →
  ∃ it it', produce_packet self = Ret (sbs_current_byte_idx (rcv_framer self), it) ∧
    take_upto k it = Ret (take k stream, it') ∧
    let self' := produce_packet_release it' in
    SampleByteStream_wf (rcv_framer self') ∧
    Forall sample_valid (contents (rcv_source self')) ∧
    sbs_current_byte_idx (rcv_framer self') =
      sbs_current_byte_idx (rcv_framer self) + Z.of_nat (length (take k stream)) ∧
    receiver_stream self' = drop k stream.
Proof.
  intros stream Hwf Hv Hmax.
  destruct (consumer_get_all_spec (rcv_source self)) as (ch & Hch & _ & Hits & Hbey).
  pose proof (chunk_lawful (R := R) (T := T) []).
  unfold stream, receiver_stream in *. rewrite <- Hits in *.
  destruct (frame_samples_spec (inv := λ it, chunk_beyond it = []) (rcv_framer self)
              (chunk_into_iter ch) k) as (it' & Ht & Hidx & Hwf' & Hb & Hv' & Hcur & Hrest);
    [done..|].
  exists (feed_samples (rcv_framer self) (chunk_into_iter ch)), it'.
  assert (contents (chunk_iter_drop (bi_iter it')) = iter_items (bi_iter it')) as Hcont.
  { by rewrite chunk_iter_drop_spec, Hb, app_nil_r. }
  split; [by unfold produce_packet; cbn; rewrite Hch|]. split; [exact Ht|].
  cbv zeta. split_and!; [done| |done|]; unfold produce_packet_release; cbn.
  - by rewrite Hcont.
  - by rewrite Hcont.
Qed.

(** C4: whatever amounts a caller takes of the packets it asks for, the
    packets cut the byte stream of the samples in the ring buffer into
    consecutive pieces: each one starts at the index where the previous one
    ended and carries the stream's bytes from there on, so nothing is lost,
    repeated or reordered between packets. *)
Theorem produce_packets_partition (self : IndexedAudioSampleStreamReceiver R T) (ks : list nat) :
  SampleByteStream_wf (rcv_framer self) →
  Forall sample_valid (contents (rcv_source self)) →
  sbs_current_byte_idx (rcv_framer self) + Z.of_nat (length (receiver_stream self)) <= u64_MAX →
  ∃ packets self', produce_packets self ks = Ret (packets, self') ∧
    packets_partition (sbs_current_byte_idx (rcv_framer self)) (receiver_stream self) packets ∧
    length packets = length ks ∧
    receiver_stream self' = drop (foldr Nat.add 0%nat ks) (receiver_stream self).
Proof.
  revert self; induction ks as [|k ks IH]; intros self Hwf Hv Hmax; cbn [produce_packets].
  { eexists [], self. by split_and!. }
  destruct (produce_packet_spec self k Hwf Hv Hmax)
    as (it & it' & -> & Ht & Hwf' & Hv' & Hcur & Hrest).
  rewrite bind_Ret, Ht, bind_Ret.
  destruct (IH (produce_packet_release it') Hwf' Hv') as (packets & self' & -> & Hp & Hl & Hend).
  { rewrite Hcur, Hrest. lengths. }
  rewrite bind_Ret. do 2 eexists. split; [reflexivity|]. cbn [packets_partition].
  rewrite take_length_take, drop_length_take, <- Hcur, <- Hrest.
  split_and!; [done..|by cbn; rewrite Hl|].
  by rewrite Hend, Hrest, drop_drop.
Qed.
End packet_facts.

Section witnesses.
#[local] Existing Instances ListRing.consumer_ops ListRing.consumer_laws.

(** Three bytes of two 16-bit samples. *)
Lemma frame_samples_resumes_witness :
  ∃ it, take_upto 3 (frame_samples (SampleByteStream_new : SampleByteStream i16)
                       [MkSint 258 : i16; MkSint (-1)]).2 = Ret ([2; 1; 255], it) ∧
    stream_bytes (feed_samples_release it : SampleByteStream i16) (iter_items (bi_iter it)) = [255].
Proof.
  destruct (frame_samples_resumes (T := i16) (inv := λ _ : list i16, True)
              SampleByteStream_new [MkSint 258; MkSint (-1)] 3)
    as (it & Ht & _ & _ & _ & _ & _ & Hr).
  - apply SampleByteStream_new_wf.
  - exact I.
  - repeat constructor; vm_compute; discriminate.
  - vm_compute; discriminate.
  - exists it. split; [exact Ht|exact Hr].
Defined.

Lemma produce_packets_partition_witness :
  ∃ packets self', produce_packets (MkReceiver [MkSint 258; MkSint (-1)] SampleByteStream_new
                      : IndexedAudioSampleStreamReceiver (list i16) i16) [3; 0; 5]%nat
      = Ret (packets, self') ∧
    packets = [(0, [2; 1; 255]); (3, []); (3, [255])] ∧
    packets_partition 0 [2; 1; 255; 255] packets.
Proof.
  destruct (produce_packets_partition (R := list i16) (T := i16)
              (MkReceiver [MkSint 258; MkSint (-1)] SampleByteStream_new) [3; 0; 5]%nat)
    as (packets & self' & Hp & Hpart & _ & _).
  - apply SampleByteStream_new_wf.
  - repeat constructor; vm_compute; discriminate.
  - vm_compute; discriminate.
  - exists packets, self'. split; [exact Hp|]. split; [|exact Hpart].
    vm_compute in Hp. injection Hp as <- _. reflexivity.
Defined.
End witnesses.
