(* ===== verification/ByteConsumer.v ===== *)
(** * Bytes to samples: [syfala_utils/src/byte_consumer.rs]

    The padder that reconstructs samples from packets of bytes and pads what
    was lost, and the packet consumer that forwards its output to a ring
    buffer.  The definitions follow the code as it is written, including the
    two index computations that do not do what the comments around them
    describe (see the properties). *)

From S2P Require Import Prelude SampleType Iter Queue.

(** ** Sinks *)

(** [SampleSink]: consuming pulls items from an iterator; the result carries
    the sink and the iterator as they are left. *)
Class SampleSink (S T : Type) :=
  consume_samples : ∀ {I} `{Iterator I T}, S → I → exec (S * I).

#[export] Instance SampleSink_Producer {P T} `{RtrbProducer P T} : SampleSink P T :=
  λ I _ self spls,
    chunk ← producer_get_all self;
    '(_, spls, self) ← fill_from_iter chunk spls;
    Ret (self, spls).

(** ** The padder *)

Record AudioPacketSamplePadder (T : Type) := MkPadder {
  pad_current_byte_idx : Z;
  pad_current_sample_bytes : list Z;
}.
Arguments MkPadder {T}.
Arguments pad_current_byte_idx {T}.
Arguments pad_current_sample_bytes {T}.

(** [bytes[i] = b] and [&bytes[a..b]] of a slice. *)
Definition slice_set (bs : list Z) (i : Z) (b : Z) : exec (list Z) :=
  if (0 <=? i) && (i <? Z.of_nat (length bs)) then Ret (<[Z.to_nat i := b]> bs) else Panic.
Definition slice_range (bs : list Z) (a b : Z) : exec (list Z) :=
  if (0 <=? a) && (a <=? b) && (b <=? Z.of_nat (length bs))
  then Ret (take (Z.to_nat (b - a)) (drop (Z.to_nat a) bs)) else Panic.

(** [Iterator::skip] on a list, counting a [usize] down. *)
Fixpoint skip_Z {A} (n : Z) (l : list A) : list A :=
  match l with
  | [] => []
  | x :: l' => if n <=? 0 then l else skip_Z (n - 1) l'
  end.

Section padder.
Context {T : Type} `{!SampleSize T, !SampleFromBytes T}.

Definition AudioPacketSamplePadder_new : AudioPacketSamplePadder T :=
  MkPadder 0 (replicate (Z.to_nat (SIZE T)) 0).

Definition AudioPacketSamplePadder_default : AudioPacketSamplePadder T :=
  AudioPacketSamplePadder_new.

(** The closure of [filter_map]: store one byte, and when it completes a
    sample, decode it. *)
Definition feed_byte (self : AudioPacketSamplePadder T) (byte : Z)
    : exec (option T * AudioPacketSamplePadder T) :=
  curr ← try_into usize_MAX (pad_current_byte_idx self mod SIZE T);
  bytes ← slice_set (pad_current_sample_bytes self) curr byte;
  idx ← strict_add u64_MAX (pad_current_byte_idx self) 1;
  let self := MkPadder idx bytes in
  if negb (idx mod SIZE T =? 0) then Ret (None, self)
  else
    start ← strict_sub curr (SIZE T);
    this_sample_bytes ← slice_range bytes start curr;
    spl ← from_bytes this_sample_bytes;
    Ret (Some spl, self).

(** [FilterMap::next] over the bytes that are left. *)
Fixpoint sample_iter_next (self : AudioPacketSamplePadder T) (bytes : list Z)
    : exec (option T * AudioPacketSamplePadder T * list Z) :=
  match bytes with
  | [] => Ret (None, self, [])
  | byte :: bytes =>
      '(o, self) ← feed_byte self byte;
      match o with
      | Some spl => Ret (Some spl, self, bytes)
      | None => sample_iter_next self bytes
      end
  end.

(** [chain(repeat_with(pad_fn).take(n_padding_spls), sample_iter)], where the
    sample iterator borrows the padder. *)
Record FeedIter := MkFeedIter {
  fi_padding : Z;
  fi_calls : nat;
  fi_pad_fn : nat → T;
  fi_skip : Z;
  fi_bytes : list Z;
  fi_padder : AudioPacketSamplePadder T;
}.

Definition FeedIter_next (self : FeedIter) : exec (option T * FeedIter) :=
  if 0 <? fi_padding self then
    Ret (Some (fi_pad_fn self (fi_calls self)),
         MkFeedIter (fi_padding self - 1) (S (fi_calls self)) (fi_pad_fn self)
           (fi_skip self) (fi_bytes self) (fi_padder self))
  else
    '(o, padder, bytes) ←
      sample_iter_next (fi_padder self) (skip_Z (fi_skip self) (fi_bytes self));
    Ret (o, MkFeedIter (fi_padding self) (fi_calls self) (fi_pad_fn self) 0 bytes padder).

#[export] Instance Iterator_FeedIter : Iterator FeedIter T := {
  iter_next := FeedIter_next;
  iter_nth n := default_nth FeedIter_next (Z.to_nat n);
}.

Definition feed_bytes (self : AudioPacketSamplePadder T) (byte_idx : Z) (bytes : list Z)
    (pad_fn : nat → T) : exec FeedIter :=
  let sample_size := SIZE T in
  (* assert_eq!(sample_size, self.current_sample_bytes.len()) *)
  if negb (sample_size =? Z.of_nat (length (pad_current_sample_bytes self))) then Panic
  else
    '(n_padding_spls, n_skipped_bytes, self) ←
      match Z.compare byte_idx (pad_current_byte_idx self) with
      | Lt => Ret (0, usize_MAX, self)
      | Eq => Ret (0, 0, self)
      | Gt =>
          let bps := SIZE T in
          let prev_spl_idx := pad_current_byte_idx self / bps in
          bps_1 ← strict_sub bps 1;
          sum ← strict_add u64_MAX byte_idx bps_1;
          let next_spl_idx := sum / bps in
          n_padding_samples ← strict_sub next_spl_idx prev_spl_idx;
          next_spl_byte_idx ← strict_mul u64_MAX next_spl_idx bps;
          n_skipped_bytes ← strict_sub next_spl_byte_idx (pad_current_byte_idx self);
          n_padding ← try_into usize_MAX n_padding_samples;
          n_skipped ← try_into usize_MAX n_skipped_bytes;
          Ret (n_padding, n_skipped,
               MkPadder next_spl_byte_idx (pad_current_sample_bytes self))
      end;
    Ret (MkFeedIter n_padding_spls 0 pad_fn n_skipped_bytes bytes self).

Definition frame_bytes `{!SampleTypeSilence T} (self : AudioPacketSamplePadder T)
    (byte_idx : Z) (bytes : list Z) : exec FeedIter :=
  feed_bytes self byte_idx bytes (λ _, SILENCE T).
End padder.
Arguments FeedIter : clear implicits.

(** ** Packet consumption *)

Record IndexedAudioByteStreamSender (S T : Type) := MkSender {
  snd_sink : S;
  snd_framer : AudioPacketSamplePadder T;
}.
Arguments MkSender {S T}.
Arguments snd_sink {S T}.
Arguments snd_framer {S T}.

Definition consume_packet {S T} `{!SampleSize T, !SampleFromBytes T, !SampleTypeSilence T}
    `{!SampleSink S T} (self : IndexedAudioByteStreamSender S T) (byte_idx : Z)
    (bytes : list Z) : exec (IndexedAudioByteStreamSender S T) :=
  it ← frame_bytes (snd_framer self) byte_idx bytes;
  '(sink, it) ← consume_samples (snd_sink self) it;
  Ret (MkSender sink (fi_padder it)).

(** ** Lemmas *)

Lemma skip_Z_drop {A} n (l : list A) : skip_Z n l = drop (Z.to_nat n) l.
Proof.
  revert n; induction l as [|x l IH]; intros n; cbn [skip_Z].
  { by rewrite drop_nil. }
  destruct (Z.leb_spec n 0).
  - by replace (Z.to_nat n) with 0%nat by lia.
  - rewrite IH. by replace (Z.to_nat n) with (Datatypes.S (Z.to_nat (n - 1))) by lia.
Qed.

Lemma slice_set_Ret bs i b :
  0 <= i < Z.of_nat (length bs) → slice_set bs i b = Ret (<[Z.to_nat i := b]> bs).
Proof.
  intros []. unfold slice_set. by rewrite (proj2 (Z.leb_le _ _)), (proj2 (Z.ltb_lt _ _)).
Qed.

Section padder_facts.
Context {T : Type} `{Sample T}.

(** The padder's invariant. *)
Definition padder_wf (self : AudioPacketSamplePadder T) : Prop :=
  Z.of_nat (length (pad_current_sample_bytes self)) = SIZE T ∧
  is_u64 (pad_current_byte_idx self).

Lemma AudioPacketSamplePadder_new_wf : padder_wf AudioPacketSamplePadder_new.
Proof.
  pose proof sample_size_range. split; cbn; [|bounds].
  rewrite length_replicate. lia.
Qed.

(** A byte that does not complete a sample is stored at its place. *)
Lemma feed_byte_partial (self : AudioPacketSamplePadder T) byte :
  padder_wf self → pad_current_byte_idx self < u64_MAX →
  (pad_current_byte_idx self + 1) mod SIZE T ≠ 0 →
  feed_byte self byte =
    Ret (None, MkPadder (pad_current_byte_idx self + 1)
           (<[Z.to_nat (pad_current_byte_idx self mod SIZE T) := byte]>
              (pad_current_sample_bytes self))).
Proof.
  intros [Hl Hu] Hmax Hm. pose proof sample_size_range as [Hs Hsm].
  pose proof (Z.mod_pos_bound (pad_current_byte_idx self) (SIZE T) Hs).
  unfold feed_byte. rewrite try_into_Ret, bind_Ret by bounds.
  rewrite slice_set_Ret, bind_Ret by lia.
  rewrite strict_add_Ret, bind_Ret by bounds. by rewrite (proj2 (Z.eqb_neq _ _)).
Qed.

(** A byte that completes a sample makes the closure panic: the slice it
    decodes would have to start [SIZE] bytes before the last byte. *)
Lemma feed_byte_complete (self : AudioPacketSamplePadder T) byte :
  padder_wf self → (pad_current_byte_idx self + 1) mod SIZE T = 0 →
  feed_byte self byte = Panic.
Proof.
  intros [Hl Hu] Hm. pose proof sample_size_range as [Hs Hsm].
  pose proof (Z.mod_pos_bound (pad_current_byte_idx self) (SIZE T) Hs).
  unfold feed_byte. rewrite try_into_Ret, bind_Ret by bounds.
  rewrite slice_set_Ret, bind_Ret by lia.
  unfold strict_add. destruct (_ <=? _); [|done]. rewrite bind_Ret, Hm. cbn [negb Z.eqb].
  rewrite strict_sub_Panic; [done|lia].
Qed.

Lemma feed_byte_wf (self : AudioPacketSamplePadder T) byte o self' :
  padder_wf self → feed_byte self byte = Ret (o, self') → o = None ∧ padder_wf self' ∧
    pad_current_byte_idx self' = pad_current_byte_idx self + 1.
Proof.
  intros Hwf Hf.
  destruct (decide ((pad_current_byte_idx self + 1) mod SIZE T = 0)) as [E|E].
  { by rewrite feed_byte_complete in Hf. }
  destruct (decide (pad_current_byte_idx self < u64_MAX)).
  - rewrite feed_byte_partial in Hf by done. injection Hf as <- <-.
    destruct Hwf as [Hl Hu]. split_and!; [done| |done].
    split; cbn; [by rewrite length_insert|bounds].
  - unfold feed_byte in Hf. destruct Hwf as [Hl Hu]. exec_inv. bounds.
Qed.

(** Feeding the bytes of a packet: if they reach the end of a sample the
    first such byte panics, otherwise they are all stored. *)
Lemma sample_iter_next_spec (self : AudioPacketSamplePadder T) bytes :
  let r := pad_current_byte_idx self mod SIZE T in
  let n := Z.of_nat (length bytes) in
  padder_wf self → pad_current_byte_idx self + n <= u64_MAX →
  sample_iter_next self bytes =
    if SIZE T <=? r + n then Panic
    else Ret (None,
           MkPadder (pad_current_byte_idx self + n)
             (take (Z.to_nat r) (pad_current_sample_bytes self) ++ bytes
              ++ drop (Z.to_nat (r + n)) (pad_current_sample_bytes self)), []).
Proof.
  pose proof sample_size_range as [Hs _].
  revert self; induction bytes as [|b bytes IH]; intros self r n Hwf Hmax;
    pose proof (Z.mod_pos_bound (pad_current_byte_idx self) (SIZE T) Hs) as Hr; fold r in Hr.
  { unfold n. cbn [length]. rewrite (proj2 (Z.leb_gt _ _)) by lia. cbn [sample_iter_next app].
    rewrite !Z.add_0_r, take_drop. by destruct self. }
  cbn [sample_iter_next length] in *. subst n.
  assert ((pad_current_byte_idx self + 1) mod SIZE T =
          if r + 1 =? SIZE T then 0 else r + 1) as Hnext.
  { rewrite <- Zplus_mod_idemp_l. fold r. destruct (Z.eqb_spec (r + 1) (SIZE T)) as [->|].
    - by apply Z.mod_same, not_eq_sym, Z.lt_neq.
    - apply Z.mod_small. lia. }
  destruct (Z.eqb_spec (r + 1) (SIZE T)).
  { rewrite feed_byte_complete by done. by rewrite (proj2 (Z.leb_le _ _)) by lia. }
  rewrite feed_byte_partial, bind_Ret by (done || lia). fold r. destruct Hwf as [Hl Hu].
  rewrite IH; cbn [pad_current_byte_idx pad_current_sample_bytes].
  2: { split; cbn; [by rewrite length_insert|bounds]. }
  2: { lia. }
  rewrite Hnext. replace (r + 1 + Z.of_nat (length bytes))
    with (r + Z.of_nat (Datatypes.S (length bytes))) by lia.
  destruct (SIZE T <=? _) eqn:E; [done|]. apply Z.leb_gt in E.
  do 4 f_equal; [lia|].
  replace (Z.to_nat (r + 1)) with (Datatypes.S (Z.to_nat r)) by lia.
  rewrite (take_S_r _ _ b) by (apply list_lookup_insert_eq; lia).
  rewrite take_insert_ge, drop_insert_lt by lia. by rewrite <- app_assoc.
Qed.

Lemma feed_bytes_expected (self : AudioPacketSamplePadder T) bytes pad :
  padder_wf self →
  feed_bytes self (pad_current_byte_idx self) bytes pad = Ret (MkFeedIter 0 0 pad 0 bytes self).
Proof.
  intros [Hl _]. unfold feed_bytes. rewrite Hl, Z.eqb_refl, Z.compare_refl. done.
Qed.

Lemma FeedIter_next_drained self pad n bytes :
  FeedIter_next (MkFeedIter 0 0 pad n bytes self : FeedIter T) =
    ('(o, padder, rest) ← sample_iter_next self (drop (Z.to_nat n) bytes);
     Ret (o, MkFeedIter 0 0 pad 0 rest padder)).
Proof. unfold FeedIter_next. cbn. by rewrite skip_Z_drop. Qed.

(** C27: a packet that starts where the stream stands is stored when it ends
    before the end of the current sample: nothing is yielded, the bytes are
    at their places in the sample buffer and the position has advanced by
    their number.  As soon as it contains the last byte of a sample, asking
    for the reconstructed sample panics. *)
Theorem feed_bytes_in_order (self : AudioPacketSamplePadder T) (bytes : list Z)
    (pad : nat → T) :
  let r := pad_current_byte_idx self mod SIZE T in
  let n := Z.of_nat (length bytes) in
  padder_wf self → pad_current_byte_idx self + n <= u64_MAX →
  (it ← feed_bytes self (pad_current_byte_idx self) bytes pad; FeedIter_next it) =
    if SIZE T <=? r + n then Panic
    else Ret (None,
           MkFeedIter 0 0 pad 0 []
             (MkPadder (pad_current_byte_idx self + n)
                (take (Z.to_nat r) (pad_current_sample_bytes self) ++ bytes
                 ++ drop (Z.to_nat (r + n)) (pad_current_sample_bytes self)))).
Proof.
  intros r n Hwf Hmax. rewrite feed_bytes_expected, bind_Ret by done.
  rewrite FeedIter_next_drained, drop_0, sample_iter_next_spec by done.
  fold r n. by destruct (SIZE T <=? r + n).
Qed.

(** After a gap (a packet that starts beyond the expected position) the
    padder resumes at the first sample boundary at or after the start of the
    packet and pads exactly the samples between the one it was in and that
    boundary.  The bytes it skips, however, are counted from its old
    position instead of from the start of the packet: the first byte it
    keeps is the one of stream index [byte_idx + fi_skip], which is never
    the boundary it resumes at. *)
Theorem feed_bytes_gap (self : AudioPacketSamplePadder T) (byte_idx : Z)
    (bytes : list Z) (pad : nat → T) :
  let cur := pad_current_byte_idx self in
  padder_wf self → cur < byte_idx → byte_idx + (SIZE T - 1) <= u64_MAX →
  ∃ it, feed_bytes self byte_idx bytes pad = Ret it ∧
    let next := pad_current_byte_idx (fi_padder it) in
    next mod SIZE T = 0 ∧ byte_idx <= next < byte_idx + SIZE T ∧
    SIZE T * (cur / SIZE T + fi_padding it) = next ∧ 0 < fi_padding it ∧
    fi_bytes it = bytes ∧ byte_idx + fi_skip it = next + (byte_idx - cur) ∧
    byte_idx + fi_skip it ≠ next.
Proof.
  intros cur [Hl Hu] Hgap Hmax. fold cur in Hu. pose proof sample_size_range as [Hs Hsm].
  set (q := (byte_idx + (SIZE T - 1)) / SIZE T).
  assert (byte_idx <= q * SIZE T < byte_idx + SIZE T) as Hq.
  { pose proof (Z.div_mod (byte_idx + (SIZE T - 1)) (SIZE T)) as Hd. fold q in Hd.
    pose proof (Z.mod_pos_bound (byte_idx + (SIZE T - 1)) (SIZE T) Hs). lia. }
  assert (SIZE T * (cur / SIZE T) <= cur < SIZE T * (cur / SIZE T) + SIZE T) as Hp.
  { pose proof (Z.div_mod cur (SIZE T)). pose proof (Z.mod_pos_bound cur (SIZE T) Hs). lia. }
  assert (cur / SIZE T < q) by nia.
  assert (0 <= cur / SIZE T) by (apply Z.div_pos; bounds).
  exists (MkFeedIter (q - cur / SIZE T) 0 pad (q * SIZE T - cur) bytes
            (MkPadder (q * SIZE T) (pad_current_sample_bytes self))).
  split.
  - unfold feed_bytes. fold cur. rewrite Hl, Z.eqb_refl, (proj2 (Z.compare_gt_iff _ _)) by done.
    cbn [negb]. rewrite (strict_sub_Ret (SIZE T)), bind_Ret by lia.
    rewrite strict_add_Ret, bind_Ret by done. fold q.
    rewrite strict_sub_Ret, bind_Ret by lia. rewrite strict_mul_Ret, bind_Ret by bounds.
    rewrite strict_sub_Ret, bind_Ret by lia.
    rewrite !try_into_Ret by (unfold is_u64, usize_MAX in *; nia). done.
  - cbn. split_and!; try (done || lia). by apply Z.mod_mul, not_eq_sym, Z.lt_neq.
Qed.

(** Whatever an iterator of the padder yields is padding. *)
Lemma sample_iter_next_None (self : AudioPacketSamplePadder T) bytes o self' rest :
  padder_wf self → sample_iter_next self bytes = Ret (o, self', rest) →
  o = None ∧ padder_wf self' ∧ rest = [].
Proof.
  revert self; induction bytes as [|b bytes IH]; intros self Hwf Hs;
    cbn [sample_iter_next] in Hs; [by simplify_eq|].
  apply bind_Ret_inv in Hs as ([o1 self1] & Hf & Hs).
  apply feed_byte_wf in Hf as (-> & Hwf1 & _); [|done]. eauto.
Qed.

Lemma FeedIter_next_pad (it : FeedIter T) x it' :
  padder_wf (fi_padder it) → FeedIter_next it = Ret (Some x, it') →
  x = fi_pad_fn it (fi_calls it) ∧ fi_pad_fn it' = fi_pad_fn it ∧ padder_wf (fi_padder it').
Proof.
  intros Hwf. unfold FeedIter_next. destruct (0 <? fi_padding it).
  - by intros [= <- <-].
  - intros Hs. apply bind_Ret_inv in Hs as ([[o p] bs] & Hs & Hr).
    apply sample_iter_next_None in Hs as (-> & _ & _); [|done]. discriminate.
Qed.

Lemma take_upto_pad n (it : FeedIter T) xs it' x :
  padder_wf (fi_padder it) → (∀ k, fi_pad_fn it k = x) →
  take_upto n it = Ret (xs, it') → ∃ m, xs = replicate m x.
Proof.
  revert it xs; induction n as [|n IH]; intros it xs Hwf Hx Ht; cbn [take_upto] in Ht.
  { exists 0%nat. by simplify_eq. }
  apply bind_Ret_inv in Ht as ([[y|] it1] & Hn & Ht).
  2: { exists 0%nat. by simplify_eq. }
  apply FeedIter_next_pad in Hn as (-> & Hp & Hwf1); [|done].
  apply bind_Ret_inv in Ht as ([ys it2] & Ht & Hr). simplify_eq.
  destruct (IH it1 ys) as [m ->]; [done|by intros; rewrite Hp|done|].
  exists (Datatypes.S m). by rewrite Hx.
Qed.

Lemma feed_bytes_wf (self : AudioPacketSamplePadder T) byte_idx bytes pad it :
  padder_wf self → is_u64 byte_idx → feed_bytes self byte_idx bytes pad = Ret it →
  padder_wf (fi_padder it) ∧ fi_pad_fn it = pad.
Proof.
  intros Hwf Hb Hf. destruct (Z.lt_trichotomy byte_idx (pad_current_byte_idx self)) as [?|[->|?]].
  - unfold feed_bytes in Hf. rewrite (proj2 (Z.compare_lt_iff _ _)) in Hf by done.
    destruct (negb _); [done|]. rewrite bind_Ret in Hf. by simplify_eq.
  - rewrite feed_bytes_expected in Hf by done. by simplify_eq.
  - unfold feed_bytes in Hf. rewrite (proj2 (Z.compare_gt_iff _ _)) in Hf by done.
    destruct (negb _); [done|]. destruct Hwf as [Hl Hu].
    pose proof sample_size_range as [Hs _]. exec_inv. simplify_eq/=.
    split; [|done]. split; [done|]. cbn. split; [|done].
    apply Z.mul_nonneg_nonneg; [|lia]. apply Z.div_pos; [bounds|lia].
Qed.
End padder_facts.

Section sender_facts.
Context {P T : Type} `{Sample T} `{!SampleTypeSilence T} `{RtrbProducerLaws P T}.

(** C26: no packet ever yields a decoded sample.  When a packet is consumed
    without a panic, what it adds to the ring buffer is silence only, and
    the padder's invariant is kept. *)
Theorem consume_packet_only_silence (self self' : IndexedAudioByteStreamSender P T)
    (byte_idx : Z) (bytes : list Z) :
  padder_wf (snd_framer self) → is_u64 byte_idx →
  consume_packet self byte_idx bytes = Ret self' →
  ∃ n, written (snd_sink self') = written (snd_sink self) ++ replicate n (SILENCE T).
Proof.
  intros Hwf Hb Hc. unfold consume_packet in Hc.
  apply bind_Ret_inv in Hc as (it & Hf & Hc). apply bind_Ret_inv in Hc as ([sink it'] & Hc & Hr).
  simplify_eq/=. apply feed_bytes_wf in Hf as [Hwf' Hpad]; [|done..].
  unfold consume_samples, SampleSink_Producer in Hc.
  destruct (producer_get_all_spec (snd_sink self)) as (ch & Hch & Hfill).
  rewrite Hch, bind_Ret, Hfill in Hc.
  apply bind_Ret_inv in Hc as ([[k it1] sink1] & Hc & Hr). simplify_eq.
  apply bind_Ret_inv in Hc as ([xs it2] & Ht & Hr). simplify_eq.
  destruct (take_upto_pad _ _ _ _ (SILENCE T) Hwf' ltac:(by rewrite Hpad) Ht) as [n ->].
  exists n. apply written_commit.
Qed.

(** C28: a reordered packet, one that starts before the expected position, is
    discarded whole: nothing is written to the ring buffer and the padder is
    unchanged. *)
Theorem consume_packet_reordered (self : IndexedAudioByteStreamSender P T) (byte_idx : Z)
    (bytes : list Z) :
  padder_wf (snd_framer self) → byte_idx < pad_current_byte_idx (snd_framer self) →
  Z.of_nat (length bytes) <= usize_MAX →
  ∃ self', consume_packet self byte_idx bytes = Ret self' ∧
    snd_framer self' = snd_framer self ∧
    written (snd_sink self') = written (snd_sink self).
Proof.
  intros [Hl _] Hlt Hlen. unfold consume_packet, frame_bytes, feed_bytes.
  rewrite Hl, Z.eqb_refl, (proj2 (Z.compare_lt_iff _ _)) by done.
  cbn [negb]. rewrite !bind_Ret. set (it := MkFeedIter _ _ _ _ _ _).
  destruct (producer_get_all_spec (snd_sink self)) as (ch & Hch & Hfill).
  assert (∀ n, ∃ it', take_upto n it = Ret ([], it') ∧ fi_padder it' = snd_framer self) as Ht.
  { intros [|n]; [by eexists|]. cbn [take_upto iter_next Iterator_FeedIter].
    unfold it. rewrite FeedIter_next_drained, drop_ge by bounds. cbn. by eexists. }
  destruct (Ht (Z.to_nat (producer_slots (snd_sink self)))) as (it' & Ht' & Hp).
  unfold consume_samples, SampleSink_Producer. rewrite Hch, bind_Ret, Hfill, Ht'. cbn.
  eexists. split_and!; [done|done|]. cbn. by rewrite written_commit, app_nil_r.
Qed.
End sender_facts.

Section witnesses.
#[local] Existing Instances ListRing.producer_ops ListRing.producer_laws.

(** Two bytes of a 16-bit stream from its start: the first sample is
    complete, and asking for it panics. *)
Lemma feed_bytes_in_order_witness :
  (it ← feed_bytes (AudioPacketSamplePadder_new : AudioPacketSamplePadder i16) 0 [1; 2]
          (λ _, MkSint 0); FeedIter_next it) = Panic.
Proof.
  exact (feed_bytes_in_order (AudioPacketSamplePadder_new : AudioPacketSamplePadder i16)
           [1; 2] (λ _, MkSint 0) AudioPacketSamplePadder_new_wf
           ltac:(vm_compute; discriminate)).
Defined.

Lemma feed_bytes_gap_witness :
  ∃ it, feed_bytes (AudioPacketSamplePadder_new : AudioPacketSamplePadder i16) 5 [9; 8; 7]
          (λ _, MkSint 0) = Ret it ∧
    pad_current_byte_idx (fi_padder it) = 6 ∧ 5 + fi_skip it ≠ 6.
Proof.
  destruct (feed_bytes_gap (AudioPacketSamplePadder_new : AudioPacketSamplePadder i16)
              5 [9; 8; 7] (λ _, MkSint 0)) as (it & Hf & _ & _ & _ & _ & _ & _ & Hne).
  - apply AudioPacketSamplePadder_new_wf.
  - reflexivity.
  - vm_compute; discriminate.
  - exists it. split; [exact Hf|]. vm_compute in Hf. injection Hf as <-. by split.
Defined.

Lemma consume_packet_only_silence_witness :
  ∃ self' n, consume_packet (MkSender (ListRing.MkProducer 9 [])
                (AudioPacketSamplePadder_new : AudioPacketSamplePadder i16)) 4 [9]
      = Ret self' ∧ written (snd_sink self') = [] ++ replicate n (SILENCE i16).
Proof.
  eexists.
  destruct (consume_packet_only_silence
              (MkSender (ListRing.MkProducer 9 [])
                 (AudioPacketSamplePadder_new : AudioPacketSamplePadder i16))
              (MkSender (ListRing.MkProducer 7 [MkSint 0; MkSint 0])
                 (MkPadder 4 [0; 0])) 4 [9]) as [n Hn].
  - apply AudioPacketSamplePadder_new_wf.
  - bounds.
  - vm_compute. reflexivity.
  - exists n. split; [vm_compute; reflexivity|exact Hn].
Defined.

Lemma consume_packet_reordered_witness :
  ∃ self', consume_packet (MkSender (ListRing.MkProducer 9 [])
              (MkPadder 6 [1; 2] : AudioPacketSamplePadder i16)) 4 [9; 9; 9] = Ret self' ∧
    snd_framer self' = MkPadder 6 [1; 2] ∧ written (snd_sink self') = [].
Proof.
  destruct (consume_packet_reordered (P := ListRing.producer i16) (T := i16)
              (MkSender (ListRing.MkProducer 9 []) (MkPadder 6 [1; 2])) 4 [9; 9; 9])
    as (x & A & B & C).
  - split; cbn; [reflexivity|bounds].
  - reflexivity.
  - vm_compute; discriminate.
  - exists x. split; [exact A|]. split; [exact B|exact C].
Defined.
End witnesses.
