(* ===== verification/Interleaver.v ===== *)
(** * Interleaving JACK ports: [syfala_jack/src/interleaver.rs]

    The interleaver walks the buffers of a set of ports frame by frame with
    raw pointers.  Memory is explicit: a pointer is a place in a buffer, a
    dereference or a pointer step outside of the buffer is undefined
    behaviour, and the theorems show that neither happens.  The [jack] crate
    is not part of the repository: class [Jack] stands for what is used of it. *)

From S2P Require Import Prelude Iter SampleType Format.

(** ** Memory *)

Inductive RawPtr : Set :=
  | Null
  | Dangling
  | Addr (buf : N) (off : Z).

#[export] Instance RawPtr_eq_dec : EqDecision RawPtr.
Proof. solve_decision. Defined.

(** The live [f32] buffers. *)
Abbreviation Mem := (gmap N (list f32)).

Definition NonNull_new (p : RawPtr) : option RawPtr :=
  match p with Null => None | p => Some p end.

(** [*p] *)
Definition ptr_read (m : Mem) (p : RawPtr) : exec f32 :=
  match p with
  | Addr b off =>
      match m !! b with
      | Some xs =>
          if 0 <=? off then
            match xs !! Z.to_nat off with Some x => Ret x | None => UB end
          else UB
      | None => UB
      end
  | _ => UB
  end.

(** [*p = x] *)
Definition ptr_write (m : Mem) (p : RawPtr) (x : f32) : exec Mem :=
  match p with
  | Addr b off =>
      match m !! b with
      | Some xs =>
          if (0 <=? off) && (off <? Z.of_nat (length xs))
          then Ret (<[b := <[Z.to_nat off := x]> xs]> m)
          else UB
      | None => UB
      end
  | _ => UB
  end.

(** [p.add(1)]: the result is within the allocation or one past its end. *)
Definition ptr_add1 (m : Mem) (p : RawPtr) : exec RawPtr :=
  match p with
  | Addr b off =>
      match m !! b with
      | Some xs =>
          if (0 <=? off) && (off + 1 <=? Z.of_nat (length xs))
          then Ret (Addr b (off + 1)) else UB
      | None => UB
      end
  | _ => UB
  end.

(** ** The [jack] crate *)

Inductive PortSpec : Set := AudioIn | AudioOut.

Record ProcessScope := MkProcessScope {
  n_frames : Z;        (* u32 *)
  last_frame_time : Z; (* u32 *)
}.

(** A slice of a port's buffer. *)
Record Slice := MkSlice { slice_ptr : RawPtr; slice_len : Z }.

Class Jack := {
  Port : PortSpec → Type;
  as_slice : Port AudioIn → ProcessScope → Slice;
  as_mut_slice : Port AudioOut → ProcessScope → Slice;
}.

Section interleaver.
Context `{Jack}.

(** ** The interleaver *)

Record Interleaver (Spec : PortSpec) := MkInterleaver {
  ptrs : list (Port Spec * RawPtr);
}.

Definition u32_try_from (n : Z) : option Z := if n <=? u32_MAX then Some n else None.

Definition Interleaver_new {Spec} (ports : list (Port Spec)) : option (Interleaver Spec) :=
  let boxed_slice := (λ port, (port, Dangling)) <$> ports in
  len ← u32_try_from (Z.of_nat (length boxed_slice));
  _ ← NonZeroU32_new len;
  Some (MkInterleaver Spec boxed_slice).

Definition n_ports {Spec} (self : Interleaver Spec) : exec Z :=
  n ← unwrap (u32_try_from (Z.of_nat (length (ptrs Spec self))));
  unwrap (NonZeroU32_new n).

(** [ToJackPointer] for both kinds of port. *)
Definition to_jack_buf_ptr {Spec} : Port Spec → ProcessScope → exec RawPtr :=
  match Spec with
  | AudioIn => λ port scope, unwrap (NonNull_new (slice_ptr (as_slice port scope)))
  | AudioOut => λ port scope, unwrap (NonNull_new (slice_ptr (as_mut_slice port scope)))
  end.

(** [FromJackPointer]: making a reference needs a place that can be read. *)
Definition get_ref (m : Mem) (p : RawPtr) : exec RawPtr :=
  _ ← ptr_read m p; Ret p.

(** ** The interleaving iterator *)

Record Interleaved (Spec : PortSpec) := MkInterleaved {
  remaining_frames : Z; (* usize *)
  current_index : Z;    (* usize *)
  il_ptrs : list (Port Spec * RawPtr);
}.
Arguments MkInterleaved {Spec}.
Arguments remaining_frames {Spec}.
Arguments current_index {Spec}.
Arguments il_ptrs {Spec}.
Arguments MkInterleaver {Spec}.
Arguments ptrs {Spec}.

Fixpoint refresh_ptrs {Spec} (ps : list (Port Spec * RawPtr)) (process_scope : ProcessScope)
    : exec (list (Port Spec * RawPtr)) :=
  match ps with
  | [] => Ret []
  | (port, _) :: ps =>
      p ← to_jack_buf_ptr port process_scope;
      ps ← refresh_ptrs ps process_scope;
      Ret ((port, p) :: ps)
  end.

Definition interleave {Spec} (self : Interleaver Spec) (process_scope : ProcessScope)
    : exec (Interleaved Spec) :=
  ps ← refresh_ptrs (ptrs self) process_scope;
  frames ← try_into usize_MAX (n_frames process_scope);
  Ret {| remaining_frames := frames; current_index := 0; il_ptrs := ps |}.

(** The end of the borrow: the pointers stay in the interleaver's list. *)
Definition Interleaved_release {Spec} (self : Interleaved Spec) : Interleaver Spec :=
  MkInterleaver (il_ptrs self).

Definition Interleaved_next {Spec} (m : Mem) (self : Interleaved Spec)
    : exec (option RawPtr * Interleaved Spec) :=
  if remaining_frames self =? 0 then Ret (None, self) else
  match il_ptrs self !! Z.to_nat (current_index self) with
  | None => UB
  | Some (port, ptr) =>
      ptr' ← ptr_add1 m ptr;
      let ps := <[Z.to_nat (current_index self) := (port, ptr')]> (il_ptrs self) in
      idx ← strict_add usize_MAX (current_index self) 1;
      '(idx, frames) ←
        (if idx =? Z.of_nat (length ps) then
           frames ← strict_sub (remaining_frames self) 1; Ret (0, frames)
         else Ret (idx, remaining_frames self));
      r ← get_ref m ptr;
      Ret (Some r, MkInterleaved frames idx ps)
  end.

#[export] Instance Iterator_Interleaved {Spec} (m : Mem)
    : Iterator (Interleaved Spec) RawPtr := {
  iter_next := Interleaved_next m;
  iter_nth n := default_nth (Interleaved_next m) (Z.to_nat n);
}.

(** [.copied()]: every reference is read as it is handed out. *)
Definition copied_item {Spec} (m : Mem) (r : option RawPtr * Interleaved Spec)
    : exec (option f32 * Interleaved Spec) :=
  match r with
  | (None, it) => Ret (None, it)
  | (Some p, it) => x ← ptr_read m p; Ret (Some x, it)
  end.

#[export] Instance Iterator_Copied {Spec} (m : Mem)
    : Iterator (Interleaved Spec) f32 := {
  iter_next it := r ← Interleaved_next m it; copied_item m r;
  iter_nth n it := r ← default_nth (Interleaved_next m) (Z.to_nat n) it; copied_item m r;
}.

(** [size_hint], whose multiplication wraps around in release builds. *)
Definition size_hint {Spec} (self : Interleaved Spec) : Z * option Z :=
  let len := (remaining_frames self * Z.of_nat (length (il_ptrs self))) mod 2 ^ 64 in
  (len, Some len).

Definition Interleaved_len {Spec} (self : Interleaved Spec) : Z := (size_hint self).1.
End interleaver.
Arguments MkInterleaved {_ Spec}.
Arguments remaining_frames {_ Spec}.
Arguments current_index {_ Spec}.
Arguments il_ptrs {_ Spec}.
Arguments MkInterleaver {_ Spec}.
Arguments ptrs {_ Spec}.

(** ** The order of the walk *)

Section divmod.
Context (n : nat) (Hn : n ≠ 0%nat).

Lemma div_mod_S_wrap k :
  S (k mod n) = n → (S k / n = S (k / n) ∧ S k mod n = 0)%nat.
Proof.
  intros Hw. pose proof (Nat.div_mod_eq k n).
  split; symmetry; [apply (Nat.div_unique _ _ _ 0)|apply (Nat.mod_unique _ _ (S (k / n)))]; lia.
Qed.

Lemma div_mod_S_next k :
  S (k mod n) ≠ n → (S k / n = k / n ∧ S k mod n = S (k mod n))%nat.
Proof.
  intros Hw. pose proof (Nat.div_mod_eq k n). pose proof (Nat.mod_upper_bound k n Hn).
  split; symmetry; [apply (Nat.div_unique _ _ _ (S (k mod n)))
                   |apply (Nat.mod_unique _ _ (k / n))]; lia.
Qed.
End divmod.

Section walk.
Context `{Jack} {Spec : PortSpec}.
(** The ports with their buffers, each of [F] frames. *)
Context (m : Mem) (base : list (Port Spec * N)) (F : nat).

Abbreviation n := (length base).

(** The place the [k]-th item of the walk refers to: port [k mod n], frame
    [k / n]. *)
Definition place (k : nat) : RawPtr :=
  match base !! (k mod n)%nat with
  | Some (_, b) => Addr b (Z.of_nat (k / n))
  | None => Dangling
  end.

Definition backed : Prop :=
  ∀ i port b, base !! i = Some (port, b) → ∃ xs, m !! b = Some xs ∧ length xs = F.

(** The iterator after [k] items. *)
Definition walked_ptr (k i : nat) (pb : Port Spec * N) : Port Spec * RawPtr :=
  (pb.1, Addr pb.2 (Z.of_nat (k / n + if decide (i < k mod n)%nat then 1 else 0))).
Definition walked (k : nat) : Interleaved Spec :=
  MkInterleaved (Z.of_nat (F - k / n)) (Z.of_nat (k mod n)) (imap (walked_ptr k) base).

Context (Hbacked : backed) (Hports : n ≠ 0%nat).

Lemma div_frames k : (k < F * n)%nat → (k / n < F)%nat.
Proof. intros. apply Nat.Div0.div_lt_upper_bound. lia. Qed.

Lemma walked_update k pb :
  base !! (k mod n)%nat = Some pb →
  <[(k mod n)%nat := (pb.1, Addr pb.2 (Z.of_nat (k / n) + 1))]> (imap (walked_ptr k) base)
  = imap (walked_ptr (S k)) base.
Proof.
  intros Hj. pose proof (Nat.mod_upper_bound k n Hports).
  apply list_eq. intros i. destruct (decide (i = k mod n)%nat) as [->|Hi].
  - rewrite list_lookup_insert_eq by (rewrite length_imap; lia).
    rewrite list_lookup_imap, Hj. simpl. unfold walked_ptr.
    destruct (decide (S (k mod n) = n)%nat) as [Hw|Hw].
    + destruct (div_mod_S_wrap n Hports k Hw) as [-> ->].
      rewrite decide_False by lia. do 3 f_equal. lia.
    + destruct (div_mod_S_next n Hports k Hw) as [-> ->].
      rewrite decide_True by lia. do 3 f_equal. lia.
  - rewrite list_lookup_insert_ne, !list_lookup_imap by done.
    destruct (base !! i) as [pb'|] eqn:E; [|done]. simpl. unfold walked_ptr.
    apply lookup_lt_Some in E.
    destruct (decide (S (k mod n) = n)%nat) as [Hw|Hw].
    + destruct (div_mod_S_wrap n Hports k Hw) as [-> ->].
      rewrite decide_True, decide_False by lia. do 3 f_equal. lia.
    + destruct (div_mod_S_next n Hports k Hw) as [-> ->].
      destruct (decide (i < k mod n)%nat); [rewrite decide_True by lia|rewrite decide_False by lia];
        done.
Qed.

Lemma walked_next k :
  (k < F * n)%nat → Z.of_nat n <= usize_MAX →
  Interleaved_next m (walked k) = Ret (Some (place k), walked (S k)).
Proof.
  intros Hk Hmax. pose proof (div_frames k Hk). pose proof (Nat.mod_upper_bound k n Hports).
  destruct (lookup_lt_is_Some_2 base (k mod n)) as [[port b] Hj]; [lia|].
  destruct (Hbacked _ _ _ Hj) as (xs & Hxs & Hlen).
  unfold Interleaved_next, walked. cbn [remaining_frames current_index il_ptrs].
  rewrite (proj2 (Z.eqb_neq _ _)), Nat2Z.id by lia.
  rewrite list_lookup_imap, Hj. cbn [fmap option_fmap option_map].
  assert (walked_ptr k (k mod n) (port, b) = (port, Addr b (Z.of_nat (k / n)))) as ->.
  { unfold walked_ptr. by rewrite decide_False, Nat.add_0_r by lia. }
  cbn [ptr_add1]. rewrite Hxs.
  rewrite (proj2 (Z.leb_le 0 _)), (proj2 (Z.leb_le _ (Z.of_nat (length xs)))) by lia.
  pose proof (walked_update k (port, b) Hj) as Hu. cbn [fst snd] in Hu.
  cbn [andb]. rewrite bind_Ret, Hu.
  rewrite strict_add_Ret, bind_Ret, length_imap by lia.
  unfold get_ref, ptr_read. rewrite Hxs, (proj2 (Z.leb_le 0 _)), Nat2Z.id by lia.
  destruct (lookup_lt_is_Some_2 xs (k / n)) as [x Hx]; [lia|]. rewrite Hx.
  unfold place. rewrite Hj.
  destruct (decide (S (k mod n) = n)%nat) as [Hw|Hw].
  - destruct (div_mod_S_wrap n Hports k Hw) as [Hd ->].
    rewrite (proj2 (Z.eqb_eq _ _)), strict_sub_Ret, !bind_Ret by lia.
    do 3 f_equal. rewrite Hd. lia.
  - destruct (div_mod_S_next n Hports k Hw) as [Hd ->].
    rewrite (proj2 (Z.eqb_neq _ _)), !bind_Ret by lia. do 3 f_equal; [by rewrite Hd|lia].
Qed.

Lemma walked_end : Interleaved_next m (walked (F * n)) = Ret (None, walked (F * n)).
Proof.
  unfold Interleaved_next, walked. cbn [remaining_frames].
  by rewrite Nat.div_mul, Nat.sub_diag.
Qed.

Lemma walked_ports k : (imap (walked_ptr k) base).*1 = base.*1.
Proof using Type.
  apply list_eq. intros i. rewrite !list_lookup_fmap, list_lookup_imap. by destruct (base !! i).
Qed.

(** How many items were handed out. *)
Definition position (it : Interleaved Spec) : nat :=
  (F - Z.to_nat (remaining_frames it)) * n + Z.to_nat (current_index it).

Lemma position_walked k : (k <= F * n)%nat → position (walked k) = k.
Proof.
  intros Hk. unfold position, walked. cbn [remaining_frames current_index].
  rewrite !Nat2Z.id. pose proof (Nat.div_mod_eq k n).
  assert (k / n <= F)%nat by (apply Nat.Div0.div_le_upper_bound; lia). nia.
Qed.

Context (Hmax : Z.of_nat n <= usize_MAX).

Lemma walked_step k :
  (k <= F * n)%nat →
  Interleaved_next m (walked k) = Ret (counted_result walked place (F * n) 0 k).
Proof.
  intros Hk. unfold counted_result. rewrite Nat.add_0_r. case_decide.
  - by apply walked_next.
  - replace k with (F * n)%nat by lia. apply walked_end.
Qed.

#[local] Instance IterItems_Interleaved : IterItems (Interleaved Spec) RawPtr :=
  counted_items place (F * n) position.

Lemma LawfulIterator_Interleaved :
  LawfulIterator (H := Iterator_Interleaved m) (Interleaved Spec) RawPtr
    (counted_inv walked (F * n)).
Proof.
  apply counted_lawful.
  - apply position_walked.
  - apply walked_step.
  - intros k j Hj Hk. apply counted_nth; [apply walked_step|done].
Qed.

(** The sample of port [k mod n] at frame [k / n]. *)
Definition sample_at (k : nat) : f32 :=
  match base !! (k mod n)%nat with
  | Some (_, b) => default (MkFloat 0) (m !! b ≫= lookup (k / n)%nat)
  | None => MkFloat 0
  end.

Lemma read_place k : (k < F * n)%nat → ptr_read m (place k) = Ret (sample_at k).
Proof.
  intros Hk. pose proof (div_frames k Hk). pose proof (Nat.mod_upper_bound k n Hports).
  destruct (lookup_lt_is_Some_2 base (k mod n)) as [[port b] Hj]; [lia|].
  destruct (Hbacked _ _ _ Hj) as (xs & Hxs & Hlen).
  destruct (lookup_lt_is_Some_2 xs (k / n)) as [x Hx]; [lia|].
  unfold place, sample_at, ptr_read. rewrite Hj, Hxs.
  rewrite (proj2 (Z.leb_le 0 _)), Nat2Z.id, Hx by lia. cbn. by rewrite Hx.
Qed.

Lemma copied_result j k :
  copied_item m (counted_result walked place (F * n) j k)
  = Ret (counted_result walked sample_at (F * n) j k).
Proof.
  unfold counted_result. case_decide; [|done]. cbn [copied_item]. by rewrite read_place.
Qed.

Definition IterItems_Copied : IterItems (Interleaved Spec) f32 :=
  counted_items sample_at (F * n) position.

Lemma LawfulIterator_Copied :
  LawfulIterator (H := Iterator_Copied m) (H0 := IterItems_Copied) (Interleaved Spec) f32
    (counted_inv walked (F * n)).
Proof.
  apply counted_lawful.
  - apply position_walked.
  - intros k Hk. cbn [iter_next Iterator_Copied]. rewrite walked_step by done. apply copied_result.
  - intros j k Hk Hj. cbn [iter_nth Iterator_Copied].
    rewrite (counted_nth walked place (F * n)); [|apply walked_step|done]. apply copied_result.
Qed.

Lemma size_hint_walked k :
  (k <= F * n)%nat → Z.of_nat F * Z.of_nat n <= u64_MAX →
  size_hint (walked k) =
    (let len := Z.of_nat (F * n - k) + Z.of_nat (k mod n) in (len, Some len)).
Proof.
  intros Hk Hb. unfold size_hint, walked. cbn [remaining_frames il_ptrs].
  assert (k / n <= F)%nat by (apply Nat.Div0.div_le_upper_bound; lia).
  pose proof (Nat.div_mod_eq k n). rewrite length_imap.
  assert (Z.of_nat (F - k / n) * Z.of_nat n = Z.of_nat (F * n - k) + Z.of_nat (k mod n)) as ->.
  { rewrite <- Nat2Z.inj_mul, <- Nat2Z.inj_add. f_equal. nia. }
  rewrite Z.mod_small; [done|]. split; [lia|]. unfold u64_MAX in Hb. nia.
Qed.
End walk.

(** ** Interleaving a cycle's buffers *)

Section cycle.
Context `{Jack} {Spec : PortSpec}.

Definition port_slice : Port Spec → ProcessScope → Slice :=
  match Spec with AudioIn => as_slice | AudioOut => as_mut_slice end.

(** What JACK promises during a process cycle: the port's slice is the whole
    of a live buffer of [n_frames] samples. *)
Definition live_port (m : Mem) (scope : ProcessScope) (pb : Port Spec * N) : Prop :=
  port_slice pb.1 scope = MkSlice (Addr pb.2 0) (n_frames scope) ∧
  ∃ xs, m !! pb.2 = Some xs ∧ Z.of_nat (length xs) = n_frames scope.

(** [base] lists the interleaver's ports with their buffers of this cycle. *)
Definition cycle_buffers (m : Mem) (scope : ProcessScope) (il : Interleaver Spec)
    (base : list (Port Spec * N)) : Prop :=
  (ptrs il).*1 = base.*1 ∧ Forall (live_port m scope) base ∧ is_u32 (n_frames scope).

Definition Interleaver_wf (il : Interleaver Spec) : Prop :=
  0 < Z.of_nat (length (ptrs il)) <= u32_MAX.

Abbreviation frames scope := (Z.to_nat (n_frames scope)).

Lemma n_ports_wf il : Interleaver_wf il → n_ports il = Ret (Z.of_nat (length (ptrs il))).
Proof.
  intros []. unfold n_ports, u32_try_from, NonZeroU32_new.
  rewrite (proj2 (Z.leb_le _ u32_MAX)) by done. cbn.
  by rewrite (proj2 (Z.eqb_neq _ 0)) by lia.
Qed.

Lemma to_jack_buf_ptr_live m scope pb :
  live_port m scope pb → to_jack_buf_ptr pb.1 scope = Ret (Addr pb.2 0).
Proof.
  intros [Hs _]. revert pb Hs. unfold port_slice, to_jack_buf_ptr.
  destruct Spec; intros pb ->; done.
Qed.

Lemma refresh_ptrs_live m scope ps base :
  ps.*1 = base.*1 → Forall (live_port m scope) base →
  refresh_ptrs ps scope = Ret ((λ pb, (pb.1, Addr pb.2 0)) <$> base).
Proof.
  intros Hp Hl. revert ps Hp.
  induction Hl as [|pb base Hpb _ IH]; intros [|[port p] ps]; try discriminate; [done|].
  cbn [refresh_ptrs fmap list_fmap fst]. injection 1 as -> Hps.
  rewrite (to_jack_buf_ptr_live m scope pb Hpb), bind_Ret, (IH ps Hps). done.
Qed.

Lemma interleave_start m scope il base :
  cycle_buffers m scope il base → base ≠ [] →
  interleave il scope = Ret (walked base (frames scope) 0) ∧ backed m base (frames scope).
Proof.
  intros (Hp & Hl & Hn) Hne. split.
  - unfold interleave. rewrite (refresh_ptrs_live m scope _ base), bind_Ret by done.
    rewrite try_into_Ret, bind_Ret by bounds. f_equal. unfold walked.
    assert (length base ≠ 0%nat) by (by destruct base).
    rewrite Nat.Div0.div_0_l, Nat.Div0.mod_0_l, Nat.sub_0_r, Z2Nat.id by bounds.
    f_equal. apply list_eq. intros i. rewrite list_lookup_fmap, list_lookup_imap.
    destruct (base !! i); [|done]. cbn. unfold walked_ptr.
    by rewrite Nat.Div0.div_0_l, Nat.Div0.mod_0_l, decide_False by lia.
  - intros i port b Hi. rewrite Forall_lookup in Hl.
    destruct (Hl i _ Hi) as [_ (xs & ? & ?)]. exists xs. split; [done|lia].
Qed.

Lemma cycle_buffers_length m scope il base :
  cycle_buffers m scope il base → length (ptrs il) = length base.
Proof. intros [E _]. apply (f_equal length) in E. by rewrite !length_fmap in E. Qed.

(** An interleaver exists for 1 to [u32::MAX] ports and no other number
    of them, and [n_ports] then reports that number without panicking. *)
Theorem Interleaver_new_accepts (ports : list (Port Spec)) :
  match Interleaver_new ports with
  | Some il =>
      0 < Z.of_nat (length ports) <= u32_MAX ∧ (ptrs il).*1 = ports ∧
      n_ports il = Ret (Z.of_nat (length ports))
  | None => ports = [] ∨ u32_MAX < Z.of_nat (length ports)
  end.
Proof.
  unfold Interleaver_new, u32_try_from, NonZeroU32_new. rewrite length_fmap.
  destruct (Z.leb_spec (Z.of_nat (length ports)) u32_MAX); cbn; [|auto].
  destruct (Z.eqb_spec (Z.of_nat (length ports)) 0); cbn; [left; by destruct ports|].
  split_and!; [lia|done| |].
  - rewrite <- list_fmap_compose. apply list_fmap_id.
  - rewrite n_ports_wf; [cbn; by rewrite length_fmap|].
    unfold Interleaver_wf. cbn. rewrite length_fmap. lia.
Qed.

(** C15: the walk over a cycle's buffers visits every frame of every port once,
    frame by frame and port by port: item [k] refers to port [k mod n],
    frame [k / n].  After the last item it ends, and no step reads, or moves
    a pointer, outside of a port's buffer, or panics. *)
Theorem interleave_walks_frames (m : Mem) (scope : ProcessScope) (il : Interleaver Spec)
    (base : list (Port Spec * N)) :
  let total := (frames scope * length base)%nat in
  Interleaver_wf il → cycle_buffers m scope il base →
  ∃ it it', interleave il scope = Ret it ∧
    take_upto (H := Iterator_Interleaved m) (S total) it
      = Ret (place base <$> seq 0 total, it') ∧
    Interleaved_next m it' = Ret (None, it').
Proof.
  intros total Hwf Hcb. unfold Interleaver_wf in Hwf.
  rewrite (cycle_buffers_length m scope il base Hcb) in Hwf.
  destruct (interleave_start m scope il base Hcb) as [Hs Hb]; [intros ->; cbn in Hwf; lia|].
  assert (length base ≠ 0%nat) as Hne by lia.
  assert (Z.of_nat (length base) <= usize_MAX) as Hmax by bounds.
  pose proof (LawfulIterator_Interleaved m base _ Hb Hne Hmax) as Hlaw.
  destruct (take_upto_spec (H1 := Hlaw) (S total) (walked base (frames scope) 0)) as (it' & Ht & Hd & Hi).
  { exists 0%nat. split; [lia|done]. }
  unfold iter_items, IterItems_Interleaved, counted_items in Ht, Hd.
  rewrite position_walked, Nat.sub_0_r in Ht, Hd by lia. fold total in Ht, Hd.
  rewrite take_ge in Ht by lengths.
  eexists _, it'. split_and!; [exact Hs|exact Ht|].
  destruct Hi as (k & Hk & ->). rewrite position_walked in Hd by done.
  fold total in Hk, Hd.
  rewrite drop_ge in Hd by lengths.
  apply (f_equal length) in Hd. rewrite length_fmap, length_seq in Hd. cbn in Hd.
  replace k with total by lia. by apply walked_end.
Qed.

(** The length that [size_hint] and [ExactSizeIterator::len] report is
    not the number of items left, except between frames: after [k] items it
    is larger by [k mod n], the number of ports already visited in the
    current frame. *)
Theorem Interleaved_len_overcounts (m : Mem) (scope : ProcessScope) (il : Interleaver Spec)
    (base : list (Port Spec * N)) (k : nat) :
  let total := (frames scope * length base)%nat in
  Interleaver_wf il → cycle_buffers m scope il base → (k <= total)%nat →
  ∃ it it', interleave il scope = Ret it ∧
    take_upto (H := Iterator_Interleaved m) k it
      = Ret (place base <$> seq 0 k, it') ∧
    Interleaved_len it' = Z.of_nat (total - k) + Z.of_nat (k mod length base).
Proof.
  intros total Hwf Hcb Hk. unfold Interleaver_wf in Hwf.
  rewrite (cycle_buffers_length m scope il base Hcb) in Hwf.
  destruct (interleave_start m scope il base Hcb) as [Hs Hb]; [intros ->; cbn in Hwf; lia|].
  assert (length base ≠ 0%nat) as Hne by lia.
  assert (Z.of_nat (length base) <= usize_MAX) as Hmax by bounds.
  exists (walked base (frames scope) 0), (walked base (frames scope) k). split_and!; [done| |].
  - replace (walked base (frames scope) k) with (walked base (frames scope) (0 + k)) by done.
    assert (0 + k <= total)%nat as Hj by lia. revert Hj. clear Hs Hk. generalize 0%nat.
    induction k as [|k IH]; intros j Hj; cbn [take_upto iter_next Iterator_Interleaved].
    { by rewrite Nat.add_0_r. }
    rewrite (walked_next m base (frames scope)), bind_Ret by (done || lia).
    rewrite (IH (S j)), bind_Ret by lia. by rewrite Nat.add_succ_comm.
  - unfold Interleaved_len. rewrite (size_hint_walked base (frames scope) Hne k); [done..|].
    destruct Hcb as (_ & _ & Hf). rewrite Z2Nat.id by bounds.
    unfold is_u32, u32_MAX, u64_MAX in *. nia.
Qed.
End cycle.

(** ** A JACK whose ports are their buffers *)
Module BufferJack.
#[export] Instance jack : Jack := {
  Port _ := N;
  as_slice p scope := MkSlice (Addr p 0) (n_frames scope);
  as_mut_slice p scope := MkSlice (Addr p 0) (n_frames scope);
}.

Definition interleaver {Spec} (ports : list N) : Interleaver Spec :=
  MkInterleaver (Spec := Spec) ((λ p, (p, Dangling)) <$> ports).
Definition float (n : Z) : f32 := MkFloat n.
Definition mem : Mem :=
  {[ 1%N := [float 1; float 2; float 3]; 2%N := [float 10; float 20; float 30] ]}.
Definition scope (t : Z) : ProcessScope := MkProcessScope 3 t.

Lemma buffers Spec t : cycle_buffers (Spec := Spec) mem (scope t) (interleaver [1%N; 2%N])
  [(1%N, 1%N); (2%N, 2%N)].
Proof.
  split; [reflexivity|]. split; [|split; vm_compute; discriminate].
  repeat constructor; try (by destruct Spec); cbn;
    eexists; split; reflexivity.
Qed.
End BufferJack.

Section witnesses.
#[local] Existing Instance BufferJack.jack.

Lemma interleave_walks_frames_witness :
  ∃ it it', interleave (BufferJack.interleaver (Spec := AudioOut) [1%N; 2%N])
              (BufferJack.scope 0) = Ret it ∧
    take_upto (H := Iterator_Interleaved BufferJack.mem) 7 it
      = Ret ([Addr 1 0; Addr 2 0; Addr 1 1; Addr 2 1; Addr 1 2; Addr 2 2], it') ∧
    Interleaved_next BufferJack.mem it' = Ret (None, it').
Proof.
  apply (interleave_walks_frames BufferJack.mem (BufferJack.scope 0)
           (BufferJack.interleaver [1%N; 2%N]) [(1%N, 1%N); (2%N, 2%N)]).
  - split; vm_compute; [reflexivity|discriminate].
  - apply BufferJack.buffers.
Defined.

(** After one of six items, [len] is still six. *)
Lemma Interleaved_len_overcounts_witness :
  ∃ it it', interleave (BufferJack.interleaver (Spec := AudioIn) [1%N; 2%N])
              (BufferJack.scope 0) = Ret it ∧
    take_upto (H := Iterator_Interleaved BufferJack.mem) 1 it
      = Ret ([Addr 1 0], it') ∧
    Interleaved_len it' = 6.
Proof.
  apply (Interleaved_len_overcounts BufferJack.mem (BufferJack.scope 0)
           (BufferJack.interleaver [1%N; 2%N]) [(1%N, 1%N); (2%N, 2%N)] 1).
  - split; vm_compute; [reflexivity|discriminate].
  - apply BufferJack.buffers.
  - vm_compute; lia.
Defined.
End witnesses.
