(* ===== verification/Jack.v ===== *)
(** * The JACK process handler: [syfala_jack/src/lib.rs]

    The duplex handler moves samples between JACK port buffers and the indexed
    queues, placing each cycle on the timeline with JACK's frame counter. *)

From S2P Require Import Prelude Iter SampleType Format Queue Interleaver.

Definition JACK_SAMPLE_TYPE : SampleType := IEEF32.
Abbreviation JackSample := f32.
(** [0.] *)
Definition zero : JackSample := MkFloat 0.

Inductive Control : Set := Continue | Quit.

Section jack.
Context {TxCounter RxCounter P R : Type} `{Jack, Counter TxCounter, Counter RxCounter,
  RtrbProducer P JackSample, RtrbConsumer R JackSample}.

Record JackTx := MkJackTx {
  tx_interleaver : Interleaver AudioIn;
  tx_tx : IndexedTx TxCounter P;
}.

Definition JackTx_new (ports : list (Port AudioIn)) (tx : IndexedTx TxCounter P) : option JackTx :=
  interleaver ← Interleaver_new ports;
  Some {| tx_interleaver := interleaver; tx_tx := tx |}.

Record JackRx := MkJackRx {
  rx_rx : IndexedRx RxCounter R;
  rx_interleaver : Interleaver AudioOut;
}.

Definition JackRx_new (ports : list (Port AudioOut)) (rx : IndexedRx RxCounter R) : option JackRx :=
  interleaver ← Interleaver_new ports;
  Some {| rx_rx := rx; rx_interleaver := interleaver |}.

Record DuplexProcessHandler := MkDuplexProcessHandler {
  txs : list JackTx;
  rxs : list JackRx;
  start_frame_idx : option Z; (* OnceCell<u64> *)
}.

Definition DuplexProcessHandler_new (inputs : list JackTx) (outputs : list JackRx)
    : DuplexProcessHandler :=
  {| txs := inputs; rxs := outputs; start_frame_idx := None |}.

(** [OnceCell::get_or_init]: the value, and the cell after the call. *)
Definition get_or_init (cell : option Z) (init : Z) : Z * option Z :=
  match cell with Some v => (v, cell) | None => (init, Some init) end.

(** The body of the loop over the senders. *)
Definition process_tx (m : Mem) (scope : ProcessScope) (frame_idx : Z) (self : JackTx)
    : exec JackTx :=
  n ← n_ports (tx_interleaver self);
  spl_idx ← strict_mul u64_MAX frame_idx n;
  it ← interleave (tx_interleaver self) scope;
  '(tx, it) ← IndexedTx_send (H1 := Iterator_Copied m) (tx_tx self) spl_idx it (λ _, zero);
  Ret {| tx_interleaver := Interleaved_release it; tx_tx := tx |}.

Fixpoint process_txs (m : Mem) (scope : ProcessScope) (frame_idx : Z) (l : list JackTx)
    : exec (list JackTx) :=
  match l with
  | [] => Ret []
  | tx :: l =>
      tx ← process_tx m scope frame_idx tx;
      l ← process_txs m scope frame_idx l;
      Ret (tx :: l)
  end.

(** [for (dest, src) in dst.zip(src) { *dest = src }]: [Zip] asks the
    destination first.  Running out of [fuel] is not an outcome of the code;
    [process_rx] gives one more than the destination has items. *)
Fixpoint write_zip (fuel : nat) (m : Mem) (dst : Interleaved AudioOut)
    (src : ShiftIter (ReadChunksIterCounter RxCounter R JackSample) JackSample)
    : exec (Mem * Interleaved AudioOut
            * ShiftIter (ReadChunksIterCounter RxCounter R JackSample) JackSample) :=
  match fuel with
  | O => UB
  | S fuel =>
      '(d, dst) ← Interleaved_next m dst;
      match d with
      | None => Ret (m, dst, src)
      | Some dest =>
          '(s, src) ← iter_next src;
          match s with
          | None => Ret (m, dst, src)
          | Some x =>
              m ← ptr_write m dest x;
              write_zip fuel m dst src
          end
      end
  end.

(** The body of the loop over the receivers. *)
Definition process_rx (m : Mem) (scope : ProcessScope) (frame_idx : Z) (self : JackRx)
    : exec (Mem * JackRx) :=
  n ← n_ports (rx_interleaver self);
  spl_idx ← strict_mul u64_MAX frame_idx n;
  dst ← interleave (rx_interleaver self) scope;
  src ← IndexedRx_recv (rx_rx self) spl_idx (λ _, zero);
  '(m, dst, src) ← write_zip (S (Z.to_nat (Interleaved_len dst))) m dst src;
  rx ← IndexedRx_release src;
  Ret (m, {| rx_rx := rx; rx_interleaver := Interleaved_release dst |}).

Fixpoint process_rxs (m : Mem) (scope : ProcessScope) (frame_idx : Z) (l : list JackRx)
    : exec (Mem * list JackRx) :=
  match l with
  | [] => Ret (m, [])
  | rx :: l =>
      '(m, rx) ← process_rx m scope frame_idx rx;
      '(m, l) ← process_rxs m scope frame_idx l;
      Ret (m, rx :: l)
  end.

Definition process (self : DuplexProcessHandler) (m : Mem) (scope : ProcessScope)
    : exec (Control * DuplexProcessHandler * Mem) :=
  let this_cycle_frame_idx := last_frame_time scope in
  let '(first_cycle_frame_idx, start) :=
    get_or_init (start_frame_idx self) this_cycle_frame_idx in
  frame_idx ← strict_sub this_cycle_frame_idx first_cycle_frame_idx;
  txs ← process_txs m scope frame_idx (txs self);
  '(m, rxs) ← process_rxs m scope frame_idx (rxs self);
  Ret (Continue, {| txs := txs; rxs := rxs; start_frame_idx := start |}, m).

Definition buffer_size (self : DuplexProcessHandler) (_size : Z)
    : Control * DuplexProcessHandler :=
  (Continue, self).
End jack.
Arguments JackTx TxCounter P {_}.
Arguments JackRx RxCounter R {_}.
Arguments DuplexProcessHandler TxCounter RxCounter P R {_}.

(** ** Sending a cycle *)

(** The most ports for which no index of a session leaves the range of [i64]:
    JACK's frame counter has 32 bits. *)
Definition MAX_PORTS : Z := 2 ^ 30.

Section tx_facts.
Context {TxCounter P : Type} `{Jack, CounterLaws TxCounter, RtrbProducerLaws P JackSample}.

(** What holds of a sender between cycles: the ring buffer's history is
    aligned with the interleaved stream [f] of its ports. *)
Definition tx_inv (jtx : JackTx TxCounter P) (f : Z → JackSample) : Prop :=
  0 < Z.of_nat (length (ptrs (tx_interleaver jtx))) <= MAX_PORTS ∧
  tx_aligned f zero (tx_tx jtx) ∧ IndexedTx_current (tx_tx jtx) <= i64_MAX.

(** What a cycle brings: buffers for the ports, which carry the frames of the
    stream from [frame_idx] on. *)
Definition tx_cycle (m : Mem) (scope : ProcessScope) (frame_idx : Z)
    (jtx : JackTx TxCounter P) (f : Z → JackSample) : Prop :=
  ∃ base, cycle_buffers m scope (tx_interleaver jtx) base ∧
    ∀ k : nat, (k < Z.to_nat (n_frames scope) * length base)%nat →
      sample_at m base k = f (frame_idx * Z.of_nat (length base) + Z.of_nat k).

Lemma counted_items_window (m : Mem) (base : list (Port AudioIn * N)) F idx f :
  length base ≠ 0%nat →
  (∀ k : nat, (k < F * length base)%nat → sample_at m base k = f (idx + Z.of_nat k)) →
  IterItems_Copied m base F (walked base F 0) = f <$> seqZ idx (Z.of_nat (F * length base)).
Proof.
  intros Hne Hf. unfold IterItems_Copied, counted_items.
  rewrite position_walked, Nat.sub_0_r by (done || lia). apply list_eq. intros i.
  rewrite !list_lookup_fmap. destruct (decide (i < F * length base)%nat).
  - rewrite lookup_seq_lt, lookup_seqZ_lt by lia. cbn. by rewrite Hf.
  - rewrite !(proj2 (lookup_ge_None _ _)); [done|lengths..].
Qed.

Lemma process_tx_aligned m scope frame_idx jtx f :
  tx_inv jtx f → tx_cycle m scope frame_idx jtx f → is_u32 frame_idx →
  ∃ jtx', process_tx m scope frame_idx jtx = Ret jtx' ∧ tx_inv jtx' f ∧
    (ptrs (tx_interleaver jtx')).*1 = (ptrs (tx_interleaver jtx)).*1.
Proof.
  intros (Hn & Hal & Hc) (base & Hcb & Hf) Hidx.
  pose proof (cycle_buffers_length _ _ _ _ Hcb) as Hlen. rewrite Hlen in Hn.
  assert (length base ≠ 0%nat) as Hne by lia.
  assert (Z.of_nat (length base) <= usize_MAX) as Hmax by (unfold MAX_PORTS in *; bounds).
  destruct (interleave_start m scope _ base Hcb) as [Hs Hb]; [by intros ->|].
  destruct Hcb as (Hports & _ & Hfr).
  unfold process_tx. rewrite n_ports_wf by (unfold Interleaver_wf, MAX_PORTS in *; bounds).
  rewrite bind_Ret, Hlen, strict_mul_Ret, bind_Ret
    by (unfold MAX_PORTS, is_u32, u32_MAX, u64_MAX in *; nia).
  rewrite Hs, bind_Ret.
  pose proof (LawfulIterator_Copied m base _ Hb Hne Hmax) as Hlaw.
  destruct (tx_aligned_send_iter f zero (H5 := Hlaw) (tx_tx jtx)
    (frame_idx * Z.of_nat (length base))
    (Z.of_nat (Z.to_nat (n_frames scope) * length base))
    (walked base (Z.to_nat (n_frames scope)) 0)) as (tx' & rest & -> & Hal' & Hc' & k & Hk & ->).
  - done.
  - done.
  - unfold is_u32 in Hidx. nia.
  - lia.
  - unfold MAX_PORTS, is_u32, u32_MAX, i64_MAX in *. rewrite Nat2Z.inj_mul, Z2Nat.id by lia. nia.
  - exists 0%nat. split; [lia|done].
  - by apply counted_items_window.
  - rewrite bind_Ret. eexists. split; [done|].
    split; [|cbn [tx_interleaver Interleaved_release ptrs il_ptrs walked]; by rewrite walked_ports]. split; [|done]. cbn. by rewrite length_imap.
Qed.

Lemma process_txs_aligned m scope frame_idx l fs :
  Forall2 tx_inv l fs → Forall2 (tx_cycle m scope frame_idx) l fs → is_u32 frame_idx →
  ∃ l', process_txs m scope frame_idx l = Ret l' ∧ Forall2 tx_inv l' fs ∧
    (λ j, (ptrs (tx_interleaver j)).*1) <$> l' = (λ j, (ptrs (tx_interleaver j)).*1) <$> l.
Proof.
  intros Hinv Hcyc Hidx. induction Hinv as [|jtx f l fs Hj _ IH]; [by eexists|].
  apply Forall2_cons_1 in Hcyc as [Hc Hcyc].
  destruct (process_tx_aligned m scope frame_idx jtx f) as (jtx' & Hp & ? & Hq); [done..|].
  destruct (IH Hcyc) as (l' & Hl & ? & Hqs). exists (jtx' :: l'). cbn.
  rewrite Hp, bind_Ret, Hl, Hq, Hqs. auto.
Qed.
End tx_facts.

(** ** Writing a cycle's output buffers *)

Definition mem_get (m : Mem) (p : RawPtr) : option JackSample :=
  match p with Addr b off => m !! b ≫= lookup (Z.to_nat off) | _ => None end.
Definition mem_set (m : Mem) (p : RawPtr) (x : JackSample) : Mem :=
  match p with Addr b off => alter <[Z.to_nat off := x]> b m | _ => m end.

(** Memories with the same buffers of the same lengths. *)
Definition same_shape (m m' : Mem) : Prop := ∀ b, length <$> m !! b = length <$> m' !! b.

#[export] Instance same_shape_equiv : Equivalence same_shape.
Proof.
  split; [by intros m b|by intros m m' E b|]. intros m m' m'' E E' b. by rewrite E, E'.
Qed.

Lemma mem_set_shape m p x : same_shape m (mem_set m p x).
Proof.
  intros b. destruct p as [| |b' off]; [done..|]. cbn [mem_set].
  destruct (decide (b = b')) as [->|].
  - rewrite lookup_alter_eq. destruct (m !! b'); cbn; [by rewrite length_insert|done].
  - by rewrite lookup_alter_ne.
Qed.

Section rx_writes.
Context `{Jack} {Spec : PortSpec} (base : list (Port Spec * N)) (F : nat).

Abbreviation n := (length base).

(** [out] written to the places from the [k]-th on. *)
Fixpoint write_places (m : Mem) (k : nat) (out : list JackSample) : Mem :=
  match out with
  | [] => m
  | x :: out => write_places (mem_set m (place base k) x) (S k) out
  end.

Lemma backed_shape m m' : same_shape m' m → backed m base F → backed m' base F.
Proof.
  intros E Hb i port b Hi. destruct (Hb i port b Hi) as (xs & Hxs & <-).
  specialize (E b). rewrite Hxs in E. destruct (m' !! b) as [ys|]; [|done].
  injection E as E. by exists ys.
Qed.

Lemma write_places_shape m k out : same_shape m (write_places m k out).
Proof.
  revert m k; induction out as [|x out IH]; intros m k; cbn; [done|].
  rewrite <- IH. apply mem_set_shape.
Qed.

Lemma write_places_other m k out b : b ∉ base.*2 → write_places m k out !! b = m !! b.
Proof.
  intros Hb. revert m k; induction out as [|x out IH]; intros m k; cbn; [done|].
  rewrite IH. unfold place. destruct (base !! _) as [[port b']|] eqn:E; [|done].
  cbn. rewrite lookup_alter_ne; [done|]. intros ->. apply Hb.
  apply list_elem_of_fmap. exists (port, b). split; [done|]. by eapply list_elem_of_lookup_2.
Qed.

Context (Hports : n ≠ 0%nat).

Lemma place_Addr m k :
  backed m base F → (k < F * n)%nat →
  ∃ port b xs, base !! (k mod n)%nat = Some (port, b) ∧
    place base k = Addr b (Z.of_nat (k / n)) ∧ m !! b = Some xs ∧ (k / n < length xs)%nat.
Proof.
  intros Hb Hk. pose proof (div_frames base F Hports k Hk). pose proof (Nat.mod_upper_bound k n Hports).
  destruct (lookup_lt_is_Some_2 base (k mod n)) as [[port b] Hj]; [lia|].
  destruct (Hb _ _ _ Hj) as (xs & Hxs & Hlen).
  exists port, b, xs. unfold place. rewrite Hj. split_and!; [done..|lia].
Qed.

Lemma ptr_write_place m k x :
  backed m base F → (k < F * n)%nat →
  ptr_write m (place base k) x = Ret (mem_set m (place base k) x).
Proof.
  intros Hb Hk. destruct (place_Addr m k Hb Hk) as (port & b & xs & _ & -> & Hxs & Hl).
  cbn [ptr_write mem_set]. rewrite Hxs, (proj2 (Z.leb_le 0 _)), (proj2 (Z.ltb_lt _ _)) by lia.
  f_equal. apply map_eq. intros b'. destruct (decide (b = b')) as [<-|].
  - by rewrite lookup_insert_eq, lookup_alter_eq, Hxs.
  - by rewrite lookup_insert_ne, lookup_alter_ne.
Qed.

Context (Hnd : NoDup base.*2).

Lemma mem_get_set m k i x :
  backed m base F → (k < F * n)%nat → (i < F * n)%nat →
  mem_get (mem_set m (place base k) x) (place base i)
  = if decide (i = k) then Some x else mem_get m (place base i).
Proof.
  intros Hb Hk Hi.
  destruct (place_Addr m k Hb Hk) as (port & b & xs & Hk' & -> & Hxs & Hl).
  destruct (place_Addr m i Hb Hi) as (port' & b' & xs' & Hi' & -> & Hxs' & Hl').
  cbn. rewrite !Nat2Z.id. destruct (decide (b = b')) as [<-|Hne].
  - rewrite lookup_alter_eq, Hxs. cbn.
    assert (k mod n = i mod n)%nat.
    { eapply (NoDup_lookup base.*2 _ _ b); [done|..]; rewrite list_lookup_fmap;
        [by rewrite Hk'|by rewrite Hi']. }
    pose proof (Nat.div_mod_eq k n). pose proof (Nat.div_mod_eq i n). case_decide as E.
    + subst i. by rewrite list_lookup_insert_eq.
    + rewrite list_lookup_insert_ne; [done|]. intros E'. apply E. rewrite E' in *. lia.
  - rewrite lookup_alter_ne by done. case_decide; [|done]. subst i. congruence.
Qed.

Lemma mem_get_write_places m k out i :
  backed m base F → (k + length out <= F * n)%nat → (i < F * n)%nat →
  mem_get (write_places m k out) (place base i)
  = if decide (k <= i < k + length out)%nat then out !! (i - k)%nat
    else mem_get m (place base i).
Proof.
  revert m k; induction out as [|x out IH]; intros m k Hb Hk Hi; cbn [write_places length] in *.
  { by rewrite decide_False by lia. }
  rewrite IH by (lia || by eapply backed_shape, Hb; symmetry; apply mem_set_shape). rewrite mem_get_set by (done || lia).
  destruct (decide (i = k)) as [->|].
  - rewrite decide_False, decide_True by lia. by rewrite Nat.sub_diag.
  - destruct (decide (k <= i < k + S (length out))%nat).
    + rewrite decide_True by lia. by replace (i - k)%nat with (S (i - S k)) by lia.
    + by rewrite decide_False by lia.
Qed.
End rx_writes.

(** ** Receiving a cycle *)

Section rx_facts.
Context {RxCounter R : Type} `{Jack, CounterLaws RxCounter, RtrbConsumerLaws R JackSample}.

(** The zipped loop pulls as many samples as there are places, or as many as
    there are samples, and stops within its fuel. *)
Lemma write_zip_spec (base : list (Port AudioOut * N)) F fuel m k
    (src : ShiftIter (ReadChunksIterCounter RxCounter R JackSample) JackSample) out src' :
  length base ≠ 0%nat → Z.of_nat (length base) <= usize_MAX →
  backed m base F → (k <= F * length base)%nat → (F * length base - k < fuel)%nat →
  take_upto (F * length base - k) src = Ret (out, src') →
  ∃ k', (k' <= F * length base)%nat ∧
    write_zip fuel m (walked base F k) src
    = Ret (write_places base m k out, walked base F k', src').
Proof.
  intros Hne Hmax. revert m k src out.
  induction fuel as [|fuel IH]; intros m k src out Hb Hk Hf Ht; [lia|]. cbn [write_zip].
  destruct (F * length base - k)%nat as [|d] eqn:Ed.
  { assert (k = F * length base)%nat as -> by lia. rewrite walked_end, bind_Ret by done.
    injection Ht as <- <-. by exists (F * length base)%nat. }
  rewrite (walked_next m base F), bind_Ret by (done || lia). cbn [take_upto] in Ht.
  apply bind_Ret_inv in Ht as ([o src1] & Hn & Ht). rewrite Hn, bind_Ret.
  destruct o as [x|]; cycle 1.
  { injection Ht as <- <-. exists (S k). split; [lia|done]. }
  apply bind_Ret_inv in Ht as ([xs src2] & Ht & E). injection E as <- <-.
  rewrite (ptr_write_place base F), bind_Ret by (done || lia). cbn [write_places]. apply IH.
  - eapply backed_shape, Hb. symmetry. apply mem_set_shape.
  - lia.
  - lia.
  - by replace (F * length base - S k)%nat with d by lia.
Qed.

Definition rx_inv (jrx : JackRx RxCounter R) : Prop :=
  0 < Z.of_nat (length (ptrs (rx_interleaver jrx))) <= MAX_PORTS ∧
  0 <= IndexedRx_current (rx_rx jrx) <= i64_MAX.

(** The sample that output place [i] holds after the cycle. *)
Definition rx_sample (ring : list JackSample) (c idx : Z) (old : option JackSample) (i : nat)
    : option JackSample :=
  if idx + Z.of_nat i <? c then Some zero
  else if idx + Z.of_nat i <? c + Z.of_nat (length ring)
       then ring !! Z.to_nat (idx + Z.of_nat i - c)
       else old.

Lemma process_rx_spec m scope frame_idx jrx base :
  rx_inv jrx → cycle_buffers m scope (rx_interleaver jrx) base → is_u32 frame_idx →
  let total := (Z.to_nat (n_frames scope) * length base)%nat in
  let idx := frame_idx * Z.of_nat (length base) in
  let c := IndexedRx_current (rx_rx jrx) in
  let ring := contents (irx_rx (rx_rx jrx)) in
  let taken := pulled c idx (Z.of_nat (length ring)) total in
  ∃ out jrx', process_rx m scope frame_idx jrx = Ret (write_places base m 0 out, jrx') ∧
    rx_inv jrx' ∧ (ptrs (rx_interleaver jrx')).*1 = (ptrs (rx_interleaver jrx)).*1 ∧
    IndexedRx_current (rx_rx jrx') = c + taken ∧
    contents (irx_rx (rx_rx jrx')) = drop (Z.to_nat taken) ring ∧
    Z.of_nat (length out) =
      Z.min (Z.of_nat total) (Z.max 0 (c - idx + Z.of_nat (length ring))) ∧
    ∀ j : nat, (j < length out)%nat →
      out !! j = if idx + Z.of_nat j <? c then Some zero
                 else ring !! Z.to_nat (idx + Z.of_nat j - c).
Proof.
  intros (Hn & Hc) Hcb Hidx total idx c ring taken.
  pose proof (cycle_buffers_length _ _ _ _ Hcb) as Hlen. rewrite Hlen in Hn.
  assert (length base ≠ 0%nat) as Hne by lia.
  assert (Z.of_nat (length base) <= usize_MAX) as Hmax by (unfold MAX_PORTS in *; bounds).
  destruct (interleave_start m scope _ base Hcb) as [Hs Hb]; [by intros ->|].
  destruct Hcb as (Hports & _ & Hfr).
  assert (0 <= idx ∧ idx + Z.of_nat total <= i64_MAX) as [Hi0 Hi1].
  { unfold idx, total, MAX_PORTS, is_u32, u32_MAX, i64_MAX in *.
    rewrite Nat2Z.inj_mul, Z2Nat.id by lia. nia. }
  assert (c + taken <= i64_MAX ∧ 0 <= taken) as [Ht1 Ht0].
  { unfold taken, pulled. fold c in Hc. destruct (Z.leb_spec (Z.of_nat total) (Z.max 0 (c - idx))); lia. }
  destruct (IndexedRx_recv_at (rx_rx jrx) idx (λ _, zero) total)
    as (it & out & it' & rx' & Hr & Ht & Hrel & Hcur & Hcont & Hlo & Hout);
    [fold c; bounds|fold c; bounds|fold c ring taken; bounds|].
  fold c ring taken in Hcur, Hcont, Hlo, Hout.
  unfold process_rx. rewrite n_ports_wf by (unfold Interleaver_wf, MAX_PORTS in *; bounds).
  rewrite bind_Ret, Hlen, strict_mul_Ret, bind_Ret by (fold idx; bounds). fold idx.
  rewrite Hs, bind_Ret, Hr, bind_Ret.
  assert (Interleaved_len (walked base (Z.to_nat (n_frames scope)) 0) = Z.of_nat total) as ->.
  { unfold Interleaved_len. rewrite (size_hint_walked base _ Hne 0).
    - cbn. rewrite Nat.Div0.mod_0_l. unfold total. lia.
    - lia.
    - unfold MAX_PORTS, is_u32, u32_MAX, u64_MAX in *. rewrite Z2Nat.id by lia. nia. }
  destruct (write_zip_spec base (Z.to_nat (n_frames scope)) (S (Z.to_nat (Z.of_nat total)))
              m 0 it out it') as (k' & Hk' & ->); [done..|lia|lia| |].
  { by rewrite Nat.sub_0_r. }
  rewrite bind_Ret, Hrel, bind_Ret. exists out. eexists. split; [done|].
  unfold rx_inv. cbn [rx_rx rx_interleaver Interleaved_release ptrs il_ptrs walked].
  rewrite length_imap, walked_ports, Hcur. split_and!; done || lia.
Qed.
End rx_facts.

(** ** The handler *)

Section handler_facts.
Context {TxCounter RxCounter P R : Type}
  `{Jack, CounterLaws TxCounter, CounterLaws RxCounter,
    RtrbProducerLaws P JackSample, RtrbConsumerLaws R JackSample}.

(** C5: what a cycle leaves in the output buffers of a receiver.  The place of
    port [i mod n] at frame [i / n] has index [idx + i] on the timeline: it
    holds the ring buffer's sample of that very index, silence where that
    index lies before the ring buffer's first sample, and where the ring
    buffer has run out it keeps its old content, which nothing overwrites.
    Other buffers are not touched, and the samples pulled or skipped are
    gone from the ring buffer and counted. *)
Theorem process_rx_outputs (m : Mem) (scope : ProcessScope) (frame_idx : Z)
    (jrx : JackRx RxCounter R) (base : list (Port AudioOut * N)) :
  rx_inv jrx → cycle_buffers m scope (rx_interleaver jrx) base → is_u32 frame_idx →
  NoDup base.*2 →
  let total := (Z.to_nat (n_frames scope) * length base)%nat in
  let idx := frame_idx * Z.of_nat (length base) in
  let c := IndexedRx_current (rx_rx jrx) in
  let ring := contents (irx_rx (rx_rx jrx)) in
  let taken := pulled c idx (Z.of_nat (length ring)) total in
  ∃ m' jrx', process_rx m scope frame_idx jrx = Ret (m', jrx') ∧ rx_inv jrx' ∧
    (∀ i, (i < total)%nat → mem_get m' (place base i)
       = rx_sample ring c idx (mem_get m (place base i)) i) ∧
    (∀ b, b ∉ base.*2 → m' !! b = m !! b) ∧
    IndexedRx_current (rx_rx jrx') = c + taken ∧
    contents (irx_rx (rx_rx jrx')) = drop (Z.to_nat taken) ring.
Proof.
  intros Hinv Hcb Hidx Hnd total idx c ring taken.
  destruct (process_rx_spec m scope frame_idx jrx base Hinv Hcb Hidx)
    as (out & jrx' & Hp & Hinv' & _ & Hc & Hr & Hl & Ho).
  assert (length base ≠ 0%nat) as Hne.
  { rewrite <- (cycle_buffers_length _ _ _ _ Hcb). destruct Hinv. lia. }
  destruct (interleave_start m scope _ base Hcb) as [_ Hb]; [by intros ->|].
  fold total idx c ring in Hl, Ho.
  exists (write_places base m 0 out), jrx'. split_and!; [done..| | |done|done].
  - intros i Hi. rewrite (mem_get_write_places base (Z.to_nat (n_frames scope)) Hne Hnd); [|done|unfold total in *; lia|done].
    unfold rx_sample. rewrite Nat.sub_0_r, Nat.add_0_l.
    destruct (Z.ltb_spec (idx + Z.of_nat i) c) as [Hlt|Hge].
    + rewrite decide_True, Ho by lia. by rewrite (proj2 (Z.ltb_lt _ _)).
    + destruct (Z.ltb_spec (idx + Z.of_nat i) (c + Z.of_nat (length ring))).
      * rewrite decide_True, Ho by lia. by rewrite (proj2 (Z.ltb_ge _ _)).
      * by rewrite decide_False by lia.
  - intros b. apply write_places_other.
Qed.

Definition rx_cycle (m : Mem) (scope : ProcessScope) (jrx : JackRx RxCounter R) : Prop :=
  ∃ base, cycle_buffers m scope (rx_interleaver jrx) base.

Lemma cycle_buffers_shape {Spec} m m' scope (il il' : Interleaver Spec) base :
  same_shape m m' → (ptrs il').*1 = (ptrs il).*1 →
  cycle_buffers m scope il base → cycle_buffers m' scope il' base.
Proof.
  intros E Hp (Hb & Hl & Hn). split_and!; [congruence| |apply Hn..].
  eapply Forall_impl; [exact Hl|]. intros pb (Hs & xs & Hxs & Hx). split; [done|].
  specialize (E pb.2). rewrite Hxs in E. destruct (m' !! pb.2) as [ys|]; [|done].
  injection E as E. exists ys. split; [done|lia].
Qed.

Abbreviation tx_ports jtx := ((ptrs (tx_interleaver jtx)).*1).
Abbreviation rx_ports jrx := ((ptrs (rx_interleaver jrx)).*1).

Lemma process_rxs_spec m scope frame_idx (l : list (JackRx RxCounter R)) :
  Forall rx_inv l → Forall (rx_cycle m scope) l → is_u32 frame_idx →
  ∃ m' l', process_rxs m scope frame_idx l = Ret (m', l') ∧ Forall rx_inv l' ∧
    (λ j, rx_ports j) <$> l' = (λ j, rx_ports j) <$> l.
Proof.
  intros Hinv. revert m. induction Hinv as [|jrx l Hj _ IH]; intros m Hcyc Hidx.
  { by exists m, []. }
  apply Forall_cons in Hcyc as [(base & Hcb) Hcyc]. cbn [process_rxs].
  destruct (process_rx_spec m scope frame_idx jrx base) as (out & jrx' & -> & ? & Hp & _);
    [done..|]. rewrite bind_Ret.
  destruct (IH (write_places base m 0 out)) as (m' & l' & -> & ? & Hps); [|done|].
  { eapply Forall_impl; [exact Hcyc|]. intros j (b & Hb). exists b.
    eapply cycle_buffers_shape, Hb; [apply write_places_shape|done]. }
  rewrite bind_Ret. exists m', (jrx' :: l'). split_and!; [done|by constructor|].
  cbn. by rewrite Hp, Hps.
Qed.

Abbreviation handler := (DuplexProcessHandler TxCounter RxCounter P R).

(** Every sender is aligned with the stream of its ports, and every receiver
    stands at an index in range. *)
Definition handler_inv (h : handler) (fs : list (Z → JackSample)) : Prop :=
  Forall2 tx_inv (txs h) fs ∧ Forall rx_inv (rxs h).

Definition handler_ports (h : handler) : list (list (Port AudioIn)) * list (list (Port AudioOut)) :=
  ((λ j, tx_ports j) <$> txs h, (λ j, rx_ports j) <$> rxs h).

(** A cycle of a session that began at frame [s]: JACK's frame counter has
    not gone below [s], every port has its buffer, and the input buffers
    carry the streams. *)
Definition cycle_ok (h : handler) (fs : list (Z → JackSample)) (s : Z)
    (cycle : Mem * ProcessScope) : Prop :=
  0 <= s <= last_frame_time cycle.2 ∧ last_frame_time cycle.2 <= u32_MAX ∧
  Forall2 (tx_cycle cycle.1 cycle.2 (last_frame_time cycle.2 - s)) (txs h) fs ∧
  Forall (rx_cycle cycle.1 cycle.2) (rxs h).

Lemma cycle_ok_ports h h' fs s cycle :
  handler_ports h' = handler_ports h → cycle_ok h fs s cycle → cycle_ok h' fs s cycle.
Proof.
  intros [= Ht Hr] (Hs & Hm & Htx & Hrx). split_and!; [lia..| |].
  - clear -Ht Htx. revert Ht. generalize (txs h'). induction Htx as [|j f l fs Hj _ IH];
      intros [|j' l']; try discriminate; [constructor|]. injection 1 as E El.
    constructor; [|auto]. destruct Hj as (b & Hb & Hf). exists b. split; [|done].
    by eapply cycle_buffers_shape, Hb.
  - clear -Hr Hrx. revert Hr. generalize (rxs h'). induction Hrx as [|j l Hj _ IH];
      intros [|j' l']; try discriminate; [constructor|]. injection 1 as E El.
    constructor; [|auto]. destruct Hj as (b & Hb). exists b. by eapply cycle_buffers_shape, Hb.
Qed.

Lemma process_cycle h fs s m scope :
  handler_inv h fs → (get_or_init (start_frame_idx h) (last_frame_time scope)).1 = s →
  cycle_ok h fs s (m, scope) →
  ∃ h' m', process h m scope = Ret (Continue, h', m') ∧ handler_inv h' fs ∧
    handler_ports h' = handler_ports h ∧ start_frame_idx h' = Some s.
Proof.
  intros [Htx Hrx] Hs ([Hs0 Hs1] & Hm & Hct & Hcr). cbn [fst snd] in *.
  assert (get_or_init (start_frame_idx h) (last_frame_time scope) = (s, Some s)) as Hg.
  { by destruct (start_frame_idx h); cbn in Hs |- *; subst. }
  unfold process. rewrite Hg, strict_sub_Ret, bind_Ret by done.
  destruct (process_txs_aligned m scope (last_frame_time scope - s) (txs h) fs)
    as (l & -> & Hl & Hp); [done..|bounds|]. rewrite bind_Ret.
  destruct (process_rxs_spec m scope (last_frame_time scope - s) (rxs h))
    as (m' & l' & -> & Hl' & Hp'); [done..|bounds|]. rewrite bind_Ret.
  eexists _, m'. split; [done|]. split; [by split|]. split; [|done].
  unfold handler_ports. cbn. by rewrite Hp, Hp'.
Qed.

(** The callback, called once per cycle. *)
Fixpoint run_cycles (h : handler) (cycles : list (Mem * ProcessScope)) : exec handler :=
  match cycles with
  | [] => Ret h
  | (m, scope) :: cycles =>
      '(_, h, _) ← process h m scope;
      run_cycles h cycles
  end.

Lemma run_cycles_started h fs s cycles :
  handler_inv h fs → start_frame_idx h = Some s → Forall (cycle_ok h fs s) cycles →
  ∃ h', run_cycles h cycles = Ret h' ∧ handler_inv h' fs ∧ start_frame_idx h' = Some s.
Proof.
  revert h. induction cycles as [|[m scope] cycles IH]; intros h Hinv Hs Hok; [by exists h|].
  apply Forall_cons in Hok as [Hc Hok]. cbn [run_cycles].
  destruct (process_cycle h fs s m scope Hinv) as (h' & m' & -> & Hinv' & Hp & Hs');
    [by rewrite Hs|done|].
  rewrite bind_Ret. apply IH; [done..|].
  eapply Forall_impl; [exact Hok|]. intros c. by apply cycle_ok_ports.
Qed.

(** C2: a whole session of the duplex handler.  Whatever cycles JACK runs,
    skipping frames, repeating them or changing the buffers and the cycle
    length, as long as its frame counter does not go below the first value
    seen: no call of [process] panics or touches memory outside of the port
    buffers, and in every sender's ring buffer the element number [i] is the
    sample of port [i mod n] at frame [i / n] since the session began, or
    silence. *)
Theorem duplex_session_aligned (h : handler) (fs : list (Z → JackSample)) (m : Mem)
    (scope : ProcessScope) (cycles : list (Mem * ProcessScope)) :
  handler_inv h fs → start_frame_idx h = None →
  Forall (cycle_ok h fs (last_frame_time scope)) ((m, scope) :: cycles) →
  ∃ h', run_cycles h ((m, scope) :: cycles) = Ret h' ∧ handler_inv h' fs ∧
    start_frame_idx h' = Some (last_frame_time scope).
Proof.
  intros Hinv Hs [Hc Hok]%Forall_cons. cbn [run_cycles].
  destruct (process_cycle h fs (last_frame_time scope) m scope Hinv)
    as (h' & m' & -> & Hinv' & Hp & Hs'); [by rewrite Hs|done|].
  rewrite bind_Ret. apply (run_cycles_started h' fs (last_frame_time scope)); [done..|].
  eapply Forall_impl; [exact Hok|]. intros c. by apply cycle_ok_ports.
Qed.

(** The callback panics, before it touches any queue or buffer, in every
    cycle whose frame counter is below that of the first one: the 32-bit
    counter need only wrap around, or jump back as the code's own remark
    says it does under PipeWire. *)
Theorem process_panics_on_earlier_frame (h : handler) (m : Mem) (scope : ProcessScope) (s : Z) :
  start_frame_idx h = Some s → last_frame_time scope < s → process h m scope = Panic.
Proof. intros Hs Hlt. unfold process. rewrite Hs. cbn. by rewrite strict_sub_Panic. Qed.
End handler_facts.

Section witnesses.
#[local] Existing Instances BufferJack.jack ListRing.producer_ops ListRing.producer_laws
  ListRing.consumer_ops ListRing.consumer_laws.
Abbreviation b1 := (1%N, 1%N).
Abbreviation b2 := (2%N, 2%N).

(** A receiver of two ports whose ring buffer starts at index 1 and holds
    three samples, in the first cycle of three frames: silence, the three
    samples, and the last two places are left alone. *)
Lemma process_rx_outputs_witness :
  ∃ m' jrx', process_rx BufferJack.mem (BufferJack.scope 0) 0
      (MkJackRx (MkIndexedRx [MkFloat 5; MkFloat 6; MkFloat 7] (MkGenericCounter 1))
         (BufferJack.interleaver [1%N; 2%N])) = Ret (m', jrx') ∧
    mem_get m' (Addr 1 0) = Some zero ∧ mem_get m' (Addr 2 0) = Some (MkFloat 5) ∧
    mem_get m' (Addr 2 1) = Some (MkFloat 7) ∧ mem_get m' (Addr 1 2) = Some (MkFloat 3).
Proof.
  destruct (process_rx_outputs BufferJack.mem (BufferJack.scope 0) 0
    (MkJackRx (MkIndexedRx [MkFloat 5; MkFloat 6; MkFloat 7] (MkGenericCounter 1))
       (BufferJack.interleaver [1%N; 2%N])) [b1; b2])
    as (m' & jrx' & Hp & _ & Hm & _).
  - repeat split; vm_compute; (reflexivity || discriminate).
  - apply BufferJack.buffers.
  - split; vm_compute; discriminate.
  - apply (bool_decide_unpack _). vm_compute. exact Logic.I.
  - exists m', jrx'. split; [exact Hp|]. split_and!.
    + apply (Hm 0%nat). vm_compute; lia.
    + apply (Hm 1%nat). vm_compute; lia.
    + apply (Hm 3%nat). vm_compute; lia.
    + apply (Hm 4%nat). vm_compute; lia.
Defined.

Definition example_handler
    : DuplexProcessHandler GenericCounter GenericCounter (ListRing.producer f32) (list f32) :=
  DuplexProcessHandler_new
    [MkJackTx (BufferJack.interleaver [1%N; 2%N])
       (IndexedTx_new (ListRing.MkProducer 10 []) GenericCounter_new)]
    [MkJackRx (IndexedRx_new [MkFloat 9] GenericCounter_new) (BufferJack.interleaver [1%N; 2%N])].

Definition example_stream (i : Z) : f32 :=
  sample_at (Spec := AudioIn) BufferJack.mem [b1; b2] (Z.to_nat (i mod 6)).

Lemma example_cycle_ok t :
  t = 100 ∨ t = 103 →
  cycle_ok example_handler [example_stream] 100 (BufferJack.mem, BufferJack.scope t).
Proof.
  intros Ht. split_and!.
  - lia.
  - cbn. lia.
  - cbn. bounds.
  - constructor; [|constructor]. exists [b1; b2]. split; [apply BufferJack.buffers|].
    intros k Hk. cbn in Hk.
    destruct Ht as [-> | ->]; do 6 (destruct k as [|k]; [reflexivity|]); lia.
  - constructor; [|constructor]. exists [b1; b2]. apply BufferJack.buffers.
Qed.

(** Two cycles of three frames, the second one with room for four of its six
    samples only. *)
Lemma duplex_session_aligned_witness :
  ∃ h', run_cycles example_handler
      [(BufferJack.mem, BufferJack.scope 100); (BufferJack.mem, BufferJack.scope 103)] = Ret h' ∧
    handler_inv h' [example_stream] ∧ start_frame_idx h' = Some 100.
Proof.
  apply (duplex_session_aligned example_handler [example_stream] BufferJack.mem
           (BufferJack.scope 100) [(BufferJack.mem, BufferJack.scope 103)]).
  - split; repeat constructor; vm_compute; (reflexivity || discriminate).
  - reflexivity.
  - constructor; [apply (example_cycle_ok 100); auto|].
    constructor; [apply (example_cycle_ok 103); auto|constructor].
Defined.

Lemma process_panics_on_earlier_frame_witness :
  process (MkDuplexProcessHandler (txs example_handler) (rxs example_handler) (Some 100))
    BufferJack.mem (BufferJack.scope 99) = Panic.
Proof. apply (process_panics_on_earlier_frame _ _ _ 100); reflexivity. Defined.
End witnesses.
