(* ===== verification/GenericClient.v ===== *)
(** * The generic client: [syfala_network/src/udp/client/generic/mod.rs] and
      [syfala_network/src/udp/client/generic/state.rs]

    A client that tracks any number of servers: per server the IO state
    machine, driven by the server's answers and the application's requests,
    and a deadline after which a silent server is dropped.  The application is
    the class [ClientContext] (the traits of [state.rs]); the [priority_queue]
    crate is the class [PriorityQueue] with its documented behaviour as laws;
    the order in which a [HashMap] is iterated is the class [MapOrder]. *)

From S2P Require Import Prelude Format Message Wire Udp.

(** ** Time: nanoseconds *)

Definition from_millis (ms : Z) : Duration := ms * 1000000.
Definition CONN_TIMEOUT : Duration := from_millis 600.
Definition REQUEST_POLL_PERIOD : Duration := from_millis 10.
Definition ENCODE_BUF_LEN : nat := 2000.

(** The last [Instant] (a signed 64-bit number of seconds). *)
Definition Instant_MAX : Instant := (2 ^ 63 - 1) * 1000000000 + 999999999.
Definition checked_add (t : Instant) (d : Duration) : option Instant :=
  if t + d <=? Instant_MAX then Some (t + d) else None.
Definition saturating_duration_since (t earlier : Instant) : Duration := Z.max 0 (t - earlier).

(** ** The application: [state.rs] *)

Class ClientContext (Cx : Type) := {
  IOInactive : Type;
  IOStartPending : Type;
  IOActive : Type;
  IOStopPending : Type;
  connect : Cx → SocketAddr → StreamFormats → Result IOInactive Error * Cx;
  unknown_message : Cx → SocketAddr → Cx;
  poll_start_io : IOInactive → Cx → Result IOStartPending IOInactive * Cx;
  start_io : IOStartPending → Cx → IOActive * Cx;
  start_io_refused : IOStartPending → Cx → IOInactive * Cx;
  start_io_failed : IOStartPending → Cx → IOStartPending * Cx;
  on_audio : IOActive → Cx → Instant → AudioMessageHeader → list Z → IOActive * Cx;
  poll_stop_io : IOActive → Cx → Result IOStopPending IOActive * Cx;
  stop_io : IOStopPending → Cx → IOInactive * Cx;
  stop_io_refused : IOStopPending → Cx → IOActive * Cx;
  stop_io_failed : IOStopPending → Cx → IOStopPending * Cx;
}.

(** ** Collections *)

(** [PriorityQueue<SocketAddr, Reverse<Instant>>]. *)
Record Reverse := MkReverse { Reverse_0 : Instant }.

Class PriorityQueue (Q : Type) := {
  pq_new : Q;
  pq_len : Q → nat;
  pq_push : Q → SocketAddr → Reverse → Q;
  pq_remove : Q → SocketAddr → option Reverse * Q;
  pq_peek : Q → option (SocketAddr * Reverse);
  pq_pop_if : Q → (SocketAddr → Reverse → bool) → option (SocketAddr * Reverse) * Q;
}.

(** A queue is a map from keys to priorities; [push] replaces the priority of a
    key that is there, [peek] shows a key of highest priority, which here is
    an earliest instant, and [pop_if] removes it if the predicate holds. *)
Class PriorityQueueLaws (Q : Type) `{PriorityQueue Q} := {
  pq_view : Q → gmap SocketAddr Instant;
  pq_new_view : pq_view pq_new = ∅;
  pq_len_view q : pq_len q = size (pq_view q);
  pq_push_view q a t : pq_view (pq_push q a t) = <[a := Reverse_0 t]> (pq_view q);
  pq_remove_view q a :
    Reverse_0 <$> (pq_remove q a).1 = pq_view q !! a ∧
    pq_view (pq_remove q a).2 = delete a (pq_view q);
  pq_peek_None q : pq_peek q = None → pq_view q = ∅;
  pq_peek_Some q a t : pq_peek q = Some (a, t) →
    pq_view q !! a = Some (Reverse_0 t) ∧
    ∀ a' t', pq_view q !! a' = Some t' → Reverse_0 t <= t';
  pq_pop_if_spec q p : pq_pop_if q p =
    match pq_peek q with
    | Some (a, t) => if p a t then (Some (a, t), (pq_remove q a).2) else (None, q)
    | None => (None, q)
    end;
}.

(** The order in which a hash map with these keys is iterated. *)
Class MapOrder := map_order : gset SocketAddr → list SocketAddr.
Class MapOrderLaws `{MapOrder} : Prop :=
  map_order_perm X : map_order X ≡ₚ elements X.

Section generic.
Context `{Postcard} `{!PostcardSerde ClientMessageFlat} `{!PostcardSerde ServerMessageFlat}.
Context {S : Type} `{SyncUdpSock S}.
Context {Cx : Type} `{ClientContext Cx}.

(** ** One server *)

Inductive ServerIOState : Type :=
  | Inactive (s : IOInactive)
  | PendingStart (s : IOStartPending)
  | Active (s : IOActive)
  | PendingStop (s : IOStopPending).

Definition on_msg (self : ServerIOState) (addr : SocketAddr) (cx : Cx)
    (sock : ClientSocket S) (msg : server.Connected * list Z) (timestamp : Instant)
    : Result unit ErrorKind * ServerIOState * Cx * ClientSocket S :=
  let (msg, rem_buf) := msg in
  let encode_buf := replicate 2000 0 in
  match msg with
  | server.Control_ (server.IOStateChangeResult (Start (Ok _))) =>
      match self with
      | PendingStart s => let (s, cx) := start_io s cx in (Ok tt, Active s, cx, sock)
      | a => (Ok tt, a, cx, sock)
      end
  | server.Control_ (server.IOStateChangeResult (Start (Err Failure))) =>
      match self with
      | PendingStart s =>
          let (s, cx) := start_io_failed s cx in
          let '(r, _, sock) := ClientSocket_send_msg sock
            (Client_Connected (client.Control_ (client.RequestIOStateChange (Start tt))))
            addr encode_buf in
          (r, PendingStart s, cx, sock)
      | a => (Ok tt, a, cx, sock)
      end
  | server.Control_ (server.IOStateChangeResult (Start (Err Refusal))) =>
      match self with
      | PendingStart s => let (s, cx) := start_io_refused s cx in (Ok tt, Inactive s, cx, sock)
      | a => (Ok tt, a, cx, sock)
      end
  | server.Control_ (server.IOStateChangeResult (Stop (Ok _))) =>
      match self with
      | PendingStop s => let (s, cx) := stop_io s cx in (Ok tt, Inactive s, cx, sock)
      | a => (Ok tt, a, cx, sock)
      end
  | server.Control_ (server.IOStateChangeResult (Stop (Err Failure))) =>
      match self with
      | PendingStop s =>
          let (s, cx) := stop_io_failed s cx in
          let '(r, _, sock) := ClientSocket_send_msg sock
            (Client_Connected (client.Control_ (client.RequestIOStateChange (Stop tt))))
            addr encode_buf in
          (r, PendingStop s, cx, sock)
      | a => (Ok tt, a, cx, sock)
      end
  | server.Control_ (server.IOStateChangeResult (Stop (Err Refusal))) =>
      match self with
      | PendingStop s => let (s, cx) := stop_io_refused s cx in (Ok tt, Active s, cx, sock)
      | a => (Ok tt, a, cx, sock)
      end
  | server.Control_ server.Heartbeat => (Ok tt, self, cx, sock)
  | server.Audio header =>
      match self with
      | Active s =>
          let (s, cx) := on_audio s cx timestamp header rem_buf in (Ok tt, Active s, cx, sock)
      | a => (Ok tt, a, cx, sock)
      end
  end.

(** ** The client *)

Context {Q : Type} `{PriorityQueue Q}.

Record GenericClient := MkGenericClient {
  deadlines : Q;
  servers : gmap SocketAddr ServerIOState;
  retry_deadline : option Instant;
  callbacks : Cx;
}.

Definition GenericClient_new (callbacks : Cx) : GenericClient :=
  {| callbacks := callbacks; deadlines := pq_new; servers := ∅; retry_deadline := None |}.

Definition set_servers (self : GenericClient) (m : gmap SocketAddr ServerIOState)
    : GenericClient :=
  MkGenericClient (deadlines self) m (retry_deadline self) (callbacks self).
Definition set_deadlines (self : GenericClient) (q : Q) : GenericClient :=
  MkGenericClient q (servers self) (retry_deadline self) (callbacks self).
Definition set_callbacks (self : GenericClient) (cx : Cx) : GenericClient :=
  MkGenericClient (deadlines self) (servers self) (retry_deadline self) cx.

Definition contains_key (self : GenericClient) (addr : SocketAddr) : bool :=
  match servers self !! addr with Some _ => true | None => false end.

Definition on_server_connect_request (self : GenericClient) (sock : ClientSocket S)
    (addr : SocketAddr) (formats : StreamFormats) (encode_buf : list Z)
    : Result unit ErrorKind * GenericClient * ClientSocket S :=
  if negb (contains_key self addr) then
    let (r, cx) := connect (callbacks self) addr formats in
    let self := set_callbacks self cx in
    match r with
    | Ok state =>
        let self := set_servers self (<[addr := Inactive state]> (servers self)) in
        let '(r, _, sock) :=
          ClientSocket_send_msg sock (Client_ConnectionResult (Ok tt)) addr encode_buf in
        (r, self, sock)
    | Err e =>
        let '(r, _, sock) :=
          ClientSocket_send_msg sock (Client_ConnectionResult (Err e)) addr encode_buf in
        (r, self, sock)
    end
  else (Ok tt, self, sock).

(** The refresh at the end of [on_decoded_message]. *)
Definition refresh_deadline (self : GenericClient) (addr : SocketAddr) (timestamp : Instant)
    : exec GenericClient :=
  if contains_key self addr then
    t ← unwrap (checked_add timestamp CONN_TIMEOUT);
    Ret (set_deadlines self (pq_push (deadlines self) addr (MkReverse t)))
  else Ret self.

(** The [match] of [on_decoded_message]. *)
Definition dispatch_message (self : GenericClient) (sock : ClientSocket S)
    (addr : SocketAddr) (timestamp : Instant) (msg : Server) (rem_buf buf : list Z)
    : exec (Result unit ErrorKind * GenericClient * ClientSocket S) :=
  match msg with
  | Server_Connect formats => Ret (on_server_connect_request self sock addr formats buf)
  | Server_Connected msg =>
      match servers self !! addr with
      | Some state =>
          let '(r, state, cx, sock) :=
            on_msg state addr (callbacks self) sock (msg, rem_buf) timestamp in
          Ret (r, set_servers (set_callbacks self cx) (<[addr := state]> (servers self)), sock)
      | None => Ret (Ok tt, self, sock)
      end
  | Server_Disconnect =>
      match servers self !! addr with
      | Some _ =>
          let self := set_servers self (delete addr (servers self)) in
          let (o, q) := pq_remove (deadlines self) addr in
          _ ← unwrap o;
          Ret (Ok tt, set_deadlines self q, sock)
      | None => Ret (Ok tt, self, sock)
      end
  end.

Definition on_decoded_message (self : GenericClient) (sock : ClientSocket S)
    (addr : SocketAddr) (timestamp : Instant) (msg : Server * list Z)
    : exec (Result unit ErrorKind * GenericClient * ClientSocket S) :=
  let buf := replicate ENCODE_BUF_LEN 0 in
  let (msg, rem_buf) := msg in
  '(r, self, sock) ← dispatch_message self sock addr timestamp msg rem_buf buf;
  match r with
  | Err e => Ret (Err e, self, sock)
  | Ok _ => self ← refresh_deadline self addr timestamp; Ret (Ok tt, self, sock)
  end.

Definition on_message (self : GenericClient) (sock : ClientSocket S) (addr : SocketAddr)
    (timestamp : Instant) (maybe_msg : option (Server * list Z))
    : exec (Result unit ErrorKind * GenericClient * ClientSocket S) :=
  match maybe_msg with
  | Some msg => on_decoded_message self sock addr timestamp msg
  | None => Ret (Ok tt, set_callbacks self (unknown_message (callbacks self) addr), sock)
  end.

(** The [while let] loop that expires servers.  Running out of [fuel] is not
    an outcome of the code; [on_timeout] gives one more than there are
    deadlines. *)
Fixpoint expire (fuel : nat) (self : GenericClient) (now : Instant) : exec GenericClient :=
  match fuel with
  | O => UB
  | Datatypes.S fuel =>
      let (o, q) := pq_pop_if (deadlines self) (λ _ '(MkReverse deadline), deadline <=? now) in
      let self := set_deadlines self q in
      match o with
      | None => Ret self
      | Some (addr, _) =>
          _ ← unwrap (servers self !! addr);
          expire fuel (set_servers self (delete addr (servers self))) now
      end
  end.

(** The body of the loop over the servers. *)
Definition poll_server (addr : SocketAddr) (s : ServerIOState) (cx : Cx)
    (sock : ClientSocket S) (encode_buf : list Z)
    : Result unit ErrorKind * ServerIOState * Cx * ClientSocket S * list Z :=
  match s with
  | Inactive s =>
      match poll_start_io s cx with
      | (Ok s, cx) =>
          let '(r, encode_buf, sock) :=
            ClientSocket_send_msg sock Client_START_IO addr encode_buf in
          (r, PendingStart s, cx, sock, encode_buf)
      | (Err s, cx) => (Ok tt, Inactive s, cx, sock, encode_buf)
      end
  | Active s =>
      match poll_stop_io s cx with
      | (Ok s, cx) =>
          let '(r, encode_buf, sock) :=
            ClientSocket_send_msg sock Client_START_IO addr encode_buf in
          (r, PendingStop s, cx, sock, encode_buf)
      | (Err s, cx) => (Ok tt, Active s, cx, sock, encode_buf)
      end
  | state => (Ok tt, state, cx, sock, encode_buf)
  end.

Fixpoint poll_servers (order : list SocketAddr) (self : GenericClient)
    (sock : ClientSocket S) (encode_buf : list Z)
    : Result unit ErrorKind * GenericClient * ClientSocket S :=
  match order with
  | [] => (Ok tt, self, sock)
  | addr :: order =>
      match servers self !! addr with
      | None => poll_servers order self sock encode_buf
      | Some state =>
          let '(r, state, cx, sock, encode_buf) :=
            poll_server addr state (callbacks self) sock encode_buf in
          let self := set_servers (set_callbacks self cx) (<[addr := state]> (servers self)) in
          match r with
          | Err e => (Err e, self, sock)
          | Ok _ => poll_servers order self sock encode_buf
          end
      end
  end.

(** The timeout that is set at the end of [on_timeout]. *)
Definition next_timeout (self : GenericClient) (now : Instant) : option Duration :=
  (λ t, Z.min (Z.min t REQUEST_POLL_PERIOD) CONN_TIMEOUT) <$>
    ((λ '(_, MkReverse next), saturating_duration_since next now) <$> pq_peek (deadlines self)).

(** [now] is the result of [Instant::now()]. *)
Definition on_timeout `{MapOrder} (self : GenericClient) (sock : ClientSocket S) (now : Instant)
    : exec (Result unit ErrorKind * GenericClient * ClientSocket S) :=
  self ← expire (Datatypes.S (pq_len (deadlines self))) self now;
  match poll_servers (map_order (dom (servers self))) self sock (replicate 200 0) with
  | (Err e, self, sock) => Ret (Err e, self, sock)
  | (Ok _, self, sock) =>
      let (r, sock) := ClientSocket_set_recv_timeout sock (next_timeout self now) in
      Ret (r, self, sock)
  end.
End generic.
Arguments ServerIOState Cx {_}.
Arguments GenericClient Cx {_} Q.

(** ** The abstract protocol

    What a server is to the client, with the application's data forgotten. *)
Inductive Phase : Set := PInactive | PPendingStart | PActive | PPendingStop.

#[export] Instance Phase_eq_dec : EqDecision Phase.
Proof. solve_decision. Defined.

(** How the protocol moves on a message of a connected server, ... *)
Definition answer_phase (p : Phase) (msg : server.Connected) : Phase :=
  match msg, p with
  | server.Control_ (server.IOStateChangeResult (Start (Ok _))), PPendingStart => PActive
  | server.Control_ (server.IOStateChangeResult (Start (Err Refusal))), PPendingStart => PInactive
  | server.Control_ (server.IOStateChangeResult (Stop (Ok _))), PPendingStop => PInactive
  | server.Control_ (server.IOStateChangeResult (Stop (Err Refusal))), PPendingStop => PActive
  | _, p => p
  end.

(** ... and the request it repeats: only the one that is pending, and only
    after a temporary failure. *)
Definition answer_request (p : Phase) (msg : server.Connected) : option Client :=
  match msg, p with
  | server.Control_ (server.IOStateChangeResult (Start (Err Failure))), PPendingStart =>
      Some Client_START_IO
  | server.Control_ (server.IOStateChangeResult (Stop (Err Failure))), PPendingStop =>
      Some Client_STOP_IO
  | _, _ => None
  end.

(** The life of a server, [None] while it is not connected. *)
Inductive server_step : option Phase → option Phase → Prop :=
  | step_connect : server_step None (Some PInactive)
  | step_request_start : server_step (Some PInactive) (Some PPendingStart)
  | step_request_stop : server_step (Some PActive) (Some PPendingStop)
  | step_answer p msg : server_step (Some p) (Some (answer_phase p msg))
  | step_drop p : server_step (Some p) None.

(** At most one step. *)
Definition server_step_opt (p q : option Phase) : Prop := p = q ∨ server_step p q.

#[export] Hint Constructors server_step : syfala.
#[export] Hint Unfold server_step_opt : syfala.

Section facts.
Context `{Postcard} `{!PostcardSerde ClientMessageFlat} `{!PostcardSerde ServerMessageFlat}.
Context {S : Type} `{SyncUdpSock S}.
Context {Cx : Type} `{ClientContext Cx}.
Context {Q : Type} `{PriorityQueueLaws Q}.

Definition phase_of (s : ServerIOState Cx) : Phase :=
  match s with
  | Inactive _ => PInactive
  | PendingStart _ => PPendingStart
  | Active _ => PActive
  | PendingStop _ => PPendingStop
  end.

Definition phase_at (c : GenericClient Cx Q) (a : SocketAddr) : option Phase :=
  phase_of <$> servers c !! a.

Definition deadline_at (c : GenericClient Cx Q) (a : SocketAddr) : option Instant :=
  pq_view (deadlines c) !! a.

(** Exactly the connected servers have deadlines. *)
Definition client_inv (c : GenericClient Cx Q) : Prop :=
  dom (pq_view (deadlines c)) = dom (servers c).

Lemma client_inv_lookup c a : client_inv c → deadline_at c a = None ↔ servers c !! a = None.
Proof.
  intros Hi. unfold deadline_at. rewrite <- !not_elem_of_dom. by rewrite Hi.
Qed.

(** *** Messages *)

Lemma on_msg_spec (s : ServerIOState Cx) addr cx (sock : ClientSocket S) msg rem t :
  ∃ r s' cx' sock', on_msg s addr cx sock (msg, rem) t = (r, s', cx', sock') ∧
    phase_of s' = answer_phase (phase_of s) msg ∧
    (r, sock') = match answer_request (phase_of s) msg with
                 | Some req =>
                     let '(r, _, sock) :=
                       ClientSocket_send_msg sock req addr (replicate 2000 0) in (r, sock)
                 | None => (Ok tt, sock)
                 end.
Proof.
  destruct msg as [[[[[]|[]]|[[]|[]]]|]|h], s; cbn -[replicate ClientSocket_send_msg];
    unfold Client_START_IO, Client_STOP_IO; repeat (case_match; simplify_eq);
    do 4 eexists; (split; [reflexivity|]); done.
Qed.

(** C14: a message of a connected server drives its IO state machine exactly as
    the protocol says: pending requests are settled by the matching answer
    and by no other, a refused start falls back to inactive and a refused
    stop to active, a temporary failure repeats the pending request to that
    server and keeps the state, and every other message leaves the state
    alone and sends nothing. *)
Theorem on_msg_refines_protocol (s : ServerIOState Cx) (addr : SocketAddr) (cx : Cx)
    (sock : ClientSocket S) (msg : server.Connected) (rem_buf : list Z) (t : Instant) :
  ∃ r s' cx' sock', on_msg s addr cx sock (msg, rem_buf) t = (r, s', cx', sock') ∧
    phase_of s' = answer_phase (phase_of s) msg ∧
    (r, sock') = match answer_request (phase_of s) msg with
                 | Some req =>
                     let '(r, _, sock) :=
                       ClientSocket_send_msg sock req addr (replicate 2000 0) in (r, sock)
                 | None => (Ok tt, sock)
                 end.
Proof. apply on_msg_spec. Qed.

Lemma refresh_deadline_spec (c : GenericClient Cx Q) addr t :
  t + CONN_TIMEOUT <= Instant_MAX →
  ∃ c', refresh_deadline c addr t = Ret c' ∧ servers c' = servers c ∧
    (servers c !! addr = None → pq_view (deadlines c') = pq_view (deadlines c)) ∧
    (is_Some (servers c !! addr) →
       pq_view (deadlines c') = <[addr := t + CONN_TIMEOUT]> (pq_view (deadlines c))).
Proof.
  intros Ht. unfold refresh_deadline, contains_key, checked_add.
  destruct (servers c !! addr) eqn:E.
  - rewrite (proj2 (Z.leb_le _ _)) by done. cbn [unwrap]. rewrite bind_Ret.
    eexists. split_and!; [done..|].
    intros _. cbn. by rewrite pq_push_view.
  - eexists. split_and!; [done..|]. by intros [? ?].
Qed.

(** What a handler for [addr] may do to the rest of the client. *)
Definition only_touches (addr : SocketAddr) (c c' : GenericClient Cx Q) : Prop :=
  ∀ a, a ≠ addr → servers c' !! a = servers c !! a ∧ deadline_at c' a = deadline_at c a.

(** After the [match], before the refresh. *)
Definition dispatched (c : GenericClient Cx Q) addr (r : Result unit ErrorKind)
    (c' : GenericClient Cx Q) : Prop :=
  only_touches addr c c' ∧ server_step_opt (phase_at c addr) (phase_at c' addr) ∧
  match r with
  | Ok _ => servers c' !! addr = None → deadline_at c' addr = None
  | Err _ => deadline_at c' addr = deadline_at c addr
  end.

Lemma dispatched_same (c : GenericClient Cx Q) addr cx :
  client_inv c → dispatched c addr (Ok tt) (set_callbacks c cx).
Proof. intros Hi. split_and!; [done|by left|]. apply (client_inv_lookup c addr Hi). Qed.

Lemma connect_dispatched (c : GenericClient Cx Q) (sock : ClientSocket S) addr formats buf :
  client_inv c →
  ∃ r c' sock', on_server_connect_request c sock addr formats buf = (r, c', sock') ∧
    dispatched c addr r c'.
Proof.
  intros Hi. unfold on_server_connect_request, contains_key.
  destruct (servers c !! addr) as [s|] eqn:E; cbn [negb].
  { do 3 eexists. split; [done|]. split_and!; [done|by left|by rewrite E]. }
  destruct (connect (callbacks c) addr formats) as [[st|e] cx];
    destruct (ClientSocket_send_msg _ _ _ _) as [[r b] sock'];
    do 3 eexists; (split; [done|]).
  - split_and!.
    + intros a Ha. cbn. by rewrite lookup_insert_ne.
    + right. unfold phase_at. cbn. rewrite E, lookup_insert_eq. constructor.
    + destruct r; [|done]. cbn. by rewrite lookup_insert_eq.
  - destruct r as [[]|]; [by apply dispatched_same|]. split_and!; [done|by left|done].
Qed.

Lemma connected_dispatched (c : GenericClient Cx Q) (sock : ClientSocket S) addr t msg rem buf :
  client_inv c →
  ∃ r c' sock', dispatch_message c sock addr t (Server_Connected msg) rem buf
      = Ret (r, c', sock') ∧ dispatched c addr r c'.
Proof.
  intros Hi. cbn [dispatch_message]. destruct (servers c !! addr) as [s|] eqn:E; cycle 1.
  { do 3 eexists. split; [done|]. by apply (dispatched_same c addr (callbacks c)). }
  destruct (on_msg_spec s addr (callbacks c) sock msg rem t)
    as (r & s' & cx & sock' & -> & Hp & _).
  do 3 eexists. split; [done|]. split_and!.
  - intros a Ha. cbn. by rewrite lookup_insert_ne.
  - right. unfold phase_at. cbn. rewrite E, lookup_insert_eq. cbn. rewrite Hp. constructor.
  - destruct r; [|done]. cbn. by rewrite lookup_insert_eq.
Qed.

Lemma disconnect_dispatched (c : GenericClient Cx Q) (sock : ClientSocket S) addr t rem buf :
  client_inv c →
  ∃ r c' sock', dispatch_message c sock addr t Server_Disconnect rem buf
      = Ret (r, c', sock') ∧ dispatched c addr r c'.
Proof.
  intros Hi. pose proof (client_inv_lookup c addr Hi) as Hdl. cbn [dispatch_message].
  destruct (servers c !! addr) as [s|] eqn:E; cycle 1.
  { do 3 eexists. split; [done|]. by apply (dispatched_same c addr (callbacks c)). }
  cbn [deadlines set_servers]. pose proof (pq_remove_view (deadlines c) addr) as [Hr1 Hr2].
  destruct (pq_remove (deadlines c) addr) as [o q]. cbn in Hr1, Hr2.
  fold (deadline_at c addr) in Hr1. destruct o as [d|]; cbn in Hr1; cycle 1.
  { by apply symmetry, Hdl in Hr1. }
  do 3 eexists. split; [done|]. split_and!.
  - intros a Ha. unfold deadline_at. cbn. rewrite Hr2. by rewrite !lookup_delete_ne.
  - right. unfold phase_at. cbn. rewrite E, lookup_delete_eq. constructor.
  - intros _. unfold deadline_at. cbn. rewrite Hr2. apply lookup_delete_eq.
Qed.

(** The whole handler: on success the sender's deadline has been set, or is
    gone with the sender. *)
Definition message_post (c : GenericClient Cx Q) addr t (r : Result unit ErrorKind)
    (c' : GenericClient Cx Q) : Prop :=
  only_touches addr c c' ∧ server_step_opt (phase_at c addr) (phase_at c' addr) ∧
  match r with
  | Ok _ => deadline_at c' addr =
              match servers c' !! addr with Some _ => Some (t + CONN_TIMEOUT) | None => None end
  | Err _ => deadline_at c' addr = deadline_at c addr
  end.

Lemma refreshed_post (c c1 : GenericClient Cx Q) addr t :
  t + CONN_TIMEOUT <= Instant_MAX → dispatched c addr (Ok tt) c1 →
  ∃ c', refresh_deadline c1 addr t = Ret c' ∧ message_post c addr t (Ok tt) c'.
Proof.
  intros Ht (Ho & Hs & Hn).
  destruct (refresh_deadline_spec c1 addr t Ht) as (c' & Hr & Hsv & HN & HS).
  exists c'. split; [done|]. split_and!.
  - intros a Ha. rewrite Hsv. destruct (Ho a Ha) as [-> Hd].
    split; [done|]. rewrite <- Hd. unfold deadline_at.
    destruct (servers c1 !! addr) eqn:E; [|by rewrite HN].
    by rewrite HS, lookup_insert_ne by eauto.
  - unfold phase_at in *. by rewrite Hsv.
  - unfold deadline_at in *. rewrite Hsv. destruct (servers c1 !! addr) eqn:E.
    + by rewrite HS, lookup_insert_eq by eauto.
    + rewrite HN by done. auto.
Qed.

Lemma on_message_spec (c : GenericClient Cx Q) (sock : ClientSocket S) addr t msg :
  client_inv c → t + CONN_TIMEOUT <= Instant_MAX →
  ∃ r c' sock', on_message c sock addr t (Some msg) = Ret (r, c', sock') ∧
    message_post c addr t r c'.
Proof.
  intros Hi Ht. destruct msg as [msg rem]. cbn [on_message]. unfold on_decoded_message.
  assert (∃ r c1 sock', dispatch_message c sock addr t msg rem (replicate ENCODE_BUF_LEN 0)
            = Ret (r, c1, sock') ∧ dispatched c addr r c1) as (r & c1 & sock' & -> & Hd).
  { destruct msg; [|by apply connected_dispatched|by apply disconnect_dispatched].
    cbn [dispatch_message]. destruct (connect_dispatched c sock addr formats
      (replicate ENCODE_BUF_LEN 0)) as (r & c1 & sock' & -> & ?); eauto. }
  rewrite bind_Ret. destruct r as [[]|e].
  - destruct (refreshed_post c c1 addr t Ht Hd) as (c' & -> & ?). rewrite bind_Ret. eauto.
  - do 3 eexists. split; [done|]. by destruct Hd as (? & ? & ?).
Qed.

Lemma message_post_inv c addr t c' :
  client_inv c → message_post c addr t (Ok tt) c' → client_inv c'.
Proof.
  intros Hi (Ho & _ & Hd). unfold client_inv. apply set_eq. intros a.
  rewrite !elem_of_dom. fold (deadline_at c' a). destruct (decide (a = addr)) as [->|Ha].
  - rewrite Hd. destruct (servers c' !! addr); split; intros [? ?]; eauto; discriminate.
  - destruct (Ho a Ha) as [-> ->]. unfold deadline_at. rewrite <- !elem_of_dom. by rewrite Hi.
Qed.

(** *** Timeouts *)

Definition expired (c : GenericClient Cx Q) (now : Instant) (a : SocketAddr) : bool :=
  match deadline_at c a with Some t => t <=? now | None => false end.

Definition drop_expired {A} (c : GenericClient Cx Q) (now : Instant) (a : SocketAddr)
    (o : option A) : option A := if expired c now a then None else o.

(** Exactly the overdue servers are gone, with their deadlines. *)
Definition expire_post (c : GenericClient Cx Q) (now : Instant) (c' : GenericClient Cx Q) : Prop :=
  callbacks c' = callbacks c ∧
  ∀ a, servers c' !! a = drop_expired c now a (servers c !! a) ∧
       deadline_at c' a = drop_expired c now a (deadline_at c a).

Lemma expire_none c now :
  (∀ a t, deadline_at c a = Some t → now < t) → expire_post c now c.
Proof.
  intros Hn. split; [done|]. intros a. unfold drop_expired, expired.
  destruct (deadline_at c a) as [t|] eqn:E; [|done].
  by rewrite (proj2 (Z.leb_gt _ _)) by eauto.
Qed.

Lemma expire_one c now a t q c' :
  deadline_at c a = Some t → t <= now → pq_view q = delete a (pq_view (deadlines c)) →
  expire_post (set_servers (set_deadlines c q) (delete a (servers c))) now c' →
  expire_post c now c'.
Proof.
  intros Ha Ht Hq [Hcb Hp]. split; [done|]. intros a'. destruct (Hp a') as [-> ->].
  unfold drop_expired, expired, deadline_at in *. cbn. rewrite Hq.
  destruct (decide (a = a')) as [<-|].
  - by rewrite !lookup_delete_eq, Ha, (proj2 (Z.leb_le _ _)).
  - by rewrite !lookup_delete_ne.
Qed.

Lemma expire_spec fuel c now :
  client_inv c → (size (pq_view (deadlines c)) < fuel)%nat →
  ∃ c', expire fuel c now = Ret c' ∧ expire_post c now c' ∧ client_inv c'.
Proof.
  revert c. induction fuel as [|fuel IH]; intros c Hi Hf; [lia|]. cbn [expire].
  rewrite pq_pop_if_spec. destruct (pq_peek (deadlines c)) as [[a [t]]|] eqn:E; cycle 1.
  { exists c. split; [by destruct c|]. split; [|done]. apply expire_none.
    intros a t. unfold deadline_at. rewrite (pq_peek_None _ E), lookup_empty. done. }
  apply pq_peek_Some in E as [Ha Hmin]. cbn in Ha, Hmin.
  destruct (Z.leb_spec t now) as [Ht|Ht]; cycle 1.
  { exists c. split; [by destruct c|]. split; [|done]. apply expire_none.
    intros a' t' H'. specialize (Hmin a' t' H'). lia. }
  destruct (pq_remove_view (deadlines c) a) as [_ Hq].
  destruct (servers c !! a) as [s|] eqn:Es; cycle 1.
  { apply client_inv_lookup in Es; [|done]. unfold deadline_at in Es. congruence. }
  cbn [servers set_deadlines]. rewrite Es. cbn [unwrap]. rewrite bind_Ret.
  destruct (IH (set_servers (set_deadlines c (pq_remove (deadlines c) a).2)
    (delete a (servers c)))) as (c' & -> & Hp & Hi').
  - unfold client_inv. cbn. by rewrite Hq, !dom_delete_L, Hi.
  - assert (size (pq_view (deadlines c)) ≠ 0%nat).
    { intros Hz%map_size_empty_inv. by rewrite Hz, lookup_empty in Ha. }
    cbn. rewrite Hq, map_size_delete_Some by eauto. lia.
  - exists c'. split; [done|]. split; [|done]. by eapply expire_one.
Qed.

(** How many servers are due at [now]. *)
Definition n_expired (c : GenericClient Cx Q) (now : Instant) : nat :=
  size (filter (λ at', at'.2 <= now) (pq_view (deadlines c))).

(** What the loop sees at the head of the queue: a server that is due, one
    fewer of them after it, or nothing that is due. *)
Lemma expire_head c now :
  client_inv c →
  match pq_pop_if (deadlines c) (λ _ '(MkReverse t), t <=? now) with
  | (None, q) => q = deadlines c ∧ n_expired c now = O
  | (Some (a, _), q) =>
      is_Some (servers c !! a) ∧
      let c' := set_servers (set_deadlines c q) (delete a (servers c)) in
      client_inv c' ∧ n_expired c now = Datatypes.S (n_expired c' now)
  end.
Proof.
  intros Hi. rewrite pq_pop_if_spec. unfold n_expired.
  destruct (pq_peek (deadlines c)) as [[a [t]]|] eqn:E; cycle 1.
  { split; [done|]. by rewrite (pq_peek_None _ E), map_filter_empty, map_size_empty. }
  apply pq_peek_Some in E as [Ha Hmin]. cbn in Ha, Hmin.
  destruct (Z.leb_spec t now) as [Ht|Ht]; cycle 1.
  { split; [done|]. rewrite (proj2 (map_empty_filter _ _)); [apply map_size_empty|].
    intros a' t' H' Hle. specialize (Hmin a' t' H'). cbn in Hle. lia. }
  destruct (pq_remove_view (deadlines c) a) as [_ Hq]. split_and!.
  - destruct (servers c !! a) as [s|] eqn:Es; [done|].
    apply client_inv_lookup in Es; [|done]. unfold deadline_at in Es. congruence.
  - unfold client_inv. cbn. by rewrite Hq, !dom_delete_L, Hi.
  - cbn. rewrite Hq, map_filter_delete.
    assert (filter (λ at', at'.2 <= now) (pq_view (deadlines c)) !! a = Some t) as Hf.
    { by apply map_lookup_filter_Some. }
    rewrite map_size_delete_Some by eauto.
    destruct (size _) eqn:Es; [|done].
    apply map_size_empty_inv in Es. by rewrite Es, lookup_empty in Hf.
Qed.

Lemma expire_iterations n c now :
  client_inv c → n_expired c now = n →
  ∃ c', ∀ fuel, expire fuel c now = if decide (n < fuel)%nat then Ret c' else UB.
Proof.
  revert c. induction n as [|n IH]; intros c Hi Hn; pose proof (expire_head c now Hi) as Hh.
  all: destruct (pq_pop_if (deadlines c) _) as [[[a r]|] q] eqn:E.
  - destruct Hh as (_ & _ & Hn'). congruence.
  - exists (set_deadlines c q). intros [|fuel]; cbn [expire]; [done|]. by rewrite E.
  - destruct Hh as ([s Hs] & Hi' & Hn'). edestruct IH as [c' Hc']; [exact Hi'|congruence|].
    exists c'. intros [|fuel]; cbn [expire]; [done|]. rewrite E. cbn [servers set_deadlines].
    rewrite Hs. cbn [unwrap]. rewrite bind_Ret, Hc'.
    destruct (decide (n < fuel)%nat), (decide (Datatypes.S n < Datatypes.S fuel)%nat); done || lia.
  - destruct Hh as [_ Hn']. congruence.
Qed.

(** C25: the loop that expires servers terminates: after exactly as many
    iterations as there are servers due, and one more to see that there is no
    further one.  With more iterations allowed the result is the same, with
    fewer there is none; the number that [on_timeout] allows is enough. *)
Theorem expire_terminates (c : GenericClient Cx Q) (now : Instant) :
  client_inv c →
  (∃ c', ∀ fuel,
     expire fuel c now = if decide (n_expired c now < fuel)%nat then Ret c' else UB) ∧
  (n_expired c now < Datatypes.S (pq_len (deadlines c)))%nat.
Proof.
  intros Hi. split; [by eapply expire_iterations|].
  rewrite pq_len_view. apply Nat.lt_succ_r. apply map_subseteq_size, map_filter_subseteq.
Qed.

(** What the poll of the application may do to a server. *)
Definition polled (p q : option Phase) : Prop :=
  p = q ∨ (p = Some PInactive ∧ q = Some PPendingStart) ∨
  (p = Some PActive ∧ q = Some PPendingStop).

Definition polled_all (c c' : GenericClient Cx Q) : Prop :=
  deadlines c' = deadlines c ∧ dom (servers c') = dom (servers c) ∧
  ∀ a, polled (phase_at c a) (phase_at c' a).

Lemma poll_server_phase addr (s : ServerIOState Cx) cx (sock : ClientSocket S) buf :
  ∃ r s' cx' sock' buf', poll_server addr s cx sock buf = (r, s', cx', sock', buf') ∧
    polled (Some (phase_of s)) (Some (phase_of s')).
Proof.
  unfold polled. destruct s; cbn [poll_server];
    repeat (case_match; simplify_eq); do 5 eexists; (split; [reflexivity|]); cbn; auto.
Qed.

Lemma poll_servers_spec order c (sock : ClientSocket S) buf :
  NoDup order →
  ∃ r c' sock', poll_servers order c sock buf = (r, c', sock') ∧ polled_all c c' ∧
    ∀ a, a ∉ order → servers c' !! a = servers c !! a.
Proof.
  intros Hnd. revert c sock buf. induction Hnd as [|addr order Hni _ IH]; intros c sock buf.
  { do 3 eexists. split; [done|]. split; [|done]. split; [done|]. split; [done|]. intros a. by left. }
  cbn [poll_servers]. destruct (servers c !! addr) as [s|] eqn:E; cycle 1.
  { destruct (IH c sock buf) as (r & c' & sock' & -> & ? & Hs). do 3 eexists.
    split_and!; [done..|]. intros a Ha. apply Hs. set_solver. }
  destruct (poll_server_phase addr s (callbacks c) sock buf)
    as (r & s' & cx & sock1 & buf1 & -> & Hp).
  set (c1 := set_servers _ _).
  assert (dom (servers c1) = dom (servers c)) as Hdom.
  { cbn. apply dom_insert_lookup_L. eauto. }
  destruct r as [[]|e]; cycle 1.
  { do 3 eexists. split; [done|]. split; [split; [done|split; [done|]]|].
    - intros a. unfold phase_at. cbn. destruct (decide (addr = a)) as [<-|].
      + rewrite E, lookup_insert_eq. exact Hp.
      + rewrite lookup_insert_ne by done. by left.
    - intros a Ha. cbn. apply lookup_insert_ne. clear Hdom; set_solver. }
  destruct (IH c1 sock1 buf1) as (r & c' & sock' & -> & (Hd & Hdom' & Hph) & Hs).
  do 3 eexists. split; [done|]. split; [split; [done|split; [congruence|]]|].
  - intros a. destruct (decide (addr = a)) as [<-|Ha].
    + unfold phase_at. rewrite (Hs addr Hni). cbn. rewrite E, lookup_insert_eq. exact Hp.
    + specialize (Hph a). unfold phase_at in Hph at 1. cbn in Hph.
      by rewrite lookup_insert_ne in Hph.
  - intros a Ha. rewrite Hs by (clear Hdom Hdom'; set_solver). cbn. apply lookup_insert_ne. clear Hdom Hdom'. set_solver.
Qed.

Context `{MapOrderLaws}.

Lemma polled_step p q : polled p q → server_step_opt p q.
Proof. intros [->|[[-> ->]|[-> ->]]]; [by left|right; constructor..]. Qed.

(** What a timeout at instant [now] does: overdue servers are dropped, and
    the others are polled. *)
Definition timeout_post (c : GenericClient Cx Q) (now : Instant) (c' : GenericClient Cx Q) : Prop :=
  client_inv c' ∧
  ∀ a, deadline_at c' a = drop_expired c now a (deadline_at c a) ∧
       polled (drop_expired c now a (phase_at c a)) (phase_at c' a).

(** The expiry and the poll, before the socket's timeout is set. *)
Lemma on_timeout_spec c (sock : ClientSocket S) now :
  client_inv c →
  ∃ c' (r : Result unit ErrorKind) sock', timeout_post c now c' ∧
    on_timeout c sock now =
      match r with
      | Err e => Ret (Err e, c', sock')
      | Ok _ => let (r, sock) := ClientSocket_set_recv_timeout sock' (next_timeout c' now) in
                Ret (r, c', sock)
      end.
Proof.
  intros Hi. unfold on_timeout.
  destruct (expire_spec (Datatypes.S (pq_len (deadlines c))) c now Hi) as (c1 & -> & [_ Hp] & Hi1).
  { rewrite pq_len_view. lia. }
  rewrite bind_Ret.
  destruct (poll_servers_spec (map_order (dom (servers c1))) c1 sock (replicate 200 0))
    as (r & c' & sock' & -> & (Hq & Hdom & Hph) & _).
  { rewrite map_order_perm. apply NoDup_elements. }
  exists c', r, sock'. split; [|by destruct r]. split.
  - unfold client_inv in *. by rewrite Hq, Hdom.
  - intros a. destruct (Hp a) as [Hs Hd]. unfold deadline_at. rewrite Hq.
    fold (deadline_at c1 a). split; [done|]. specialize (Hph a).
    unfold phase_at in Hph at 1. rewrite Hs in Hph. unfold drop_expired in *.
    by destruct (expired c now a).
Qed.

Lemma timeout_post_step c now c' a :
  timeout_post c now c' → server_step_opt (phase_at c a) (phase_at c' a).
Proof.
  intros [_ Hp]. destruct (Hp a) as [_ Ha]. unfold drop_expired in Ha.
  destruct (expired c now a); [|by apply polled_step].
  assert (phase_at c' a = None) as -> by (by destruct Ha as [<-|[[]|[]]]).
  destruct (phase_at c a); [right; constructor|by left].
Qed.

(** C13: a decoded message never panics the client, concerns its sender only,
    and moves the sender at most one step in the life of a server.  When it
    is handled without an IO error, the connected servers are again exactly
    those with a deadline, and the sender's deadline, if it is connected, is
    600 ms after the message. *)
Theorem on_message_keeps_deadlines (c : GenericClient Cx Q) (sock : ClientSocket S)
    (addr : SocketAddr) (t : Instant) (msg : Server * list Z) :
  client_inv c → t + CONN_TIMEOUT <= Instant_MAX →
  ∃ r c' sock', on_message c sock addr t (Some msg) = Ret (r, c', sock') ∧
    message_post c addr t r c' ∧ (r = Ok tt → client_inv c').
Proof.
  intros Hi Ht. destruct (on_message_spec c sock addr t msg Hi Ht) as (r & c' & sock' & ? & ?).
  exists r, c', sock'. split_and!; [done..|]. intros ->. by eapply message_post_inv.
Qed.

(** C11: a receive timeout never panics the client, terminates, drops exactly
    the servers whose deadline has passed, and leaves every other deadline
    alone; the servers that stay are where they were, or have a request of
    the application pending.  This holds even if the poll stops half way
    with an IO error. *)
Theorem on_timeout_expires_exactly (c : GenericClient Cx Q) (sock : ClientSocket S)
    (now : Instant) :
  client_inv c →
  ∃ r c' sock', on_timeout c sock now = Ret (r, c', sock') ∧ timeout_post c now c'.
Proof.
  intros Hi. destruct (on_timeout_spec c sock now Hi) as (c' & r & sock' & Hp & ->).
  destruct r; [destruct (ClientSocket_set_recv_timeout sock' (next_timeout c' now))|]; eauto.
Qed.

(** C32: the timeout that [on_timeout] arms the socket with is never zero,
    which [set_read_timeout] would refuse, and never longer than the 10 ms
    poll period; but when no server is left it is disarmed altogether, and
    as [on_message] never arms it again, no further timeout, and so no
    further poll or expiry, takes place. *)
Theorem on_timeout_arms_timer (c : GenericClient Cx Q) (sock : ClientSocket S) (now : Instant)
    (c' : GenericClient Cx Q) (sock' : ClientSocket S) :
  client_inv c → on_timeout c sock now = Ret (Ok tt, c', sock') →
  ∃ sock1 timeout, ClientSocket_set_recv_timeout sock1 timeout = (Ok tt, sock') ∧
    (timeout = None ↔ servers c' = ∅) ∧
    ∀ d, timeout = Some d → 0 < d <= REQUEST_POLL_PERIOD.
Proof.
  intros Hi Ht. destruct (on_timeout_spec c sock now Hi) as (c1 & r & sock1 & [Hi1 Hp] & E).
  rewrite Ht in E. destruct r as [[]|]; [|done].
  destruct (ClientSocket_set_recv_timeout sock1 _) as [r s1] eqn:Es.
  injection E as <- <- <-. exists sock1, (next_timeout c' now). split; [done|].
  unfold next_timeout. destruct (pq_peek (deadlines c')) as [[a [d]]|] eqn:Eq; cbn.
  - apply pq_peek_Some in Eq as [Ha _]. cbn in Ha. fold (deadline_at c' a) in Ha. split.
    + split; [done|]. intros E. apply (client_inv_lookup c' a) in Hi1.
      rewrite E, lookup_empty in Hi1. destruct Hi1 as [_ Hi1]. by rewrite Hi1 in Ha.
    + intros ? [= <-]. destruct (Hp a) as [Hd _]. rewrite Ha in Hd.
      unfold drop_expired, expired in Hd. destruct (deadline_at c a) as [t|]; [|done].
      destruct (Z.leb_spec t now); [done|]. injection Hd as ->.
      unfold saturating_duration_since, CONN_TIMEOUT, REQUEST_POLL_PERIOD, from_millis. lia.
  - apply pq_peek_None in Eq. split; [split; [intros _|done]|done].
    apply dom_empty_iff_L. rewrite <- Hi1, Eq. apply dom_empty_L.
Qed.

(** One successful call of a handler. *)
Inductive client_step : GenericClient Cx Q * ClientSocket S →
    GenericClient Cx Q * ClientSocket S → Prop :=
  | client_message c s addr t m c' s' :
      t + CONN_TIMEOUT <= Instant_MAX → on_message c s addr t m = Ret (Ok tt, c', s') →
      client_step (c, s) (c', s')
  | client_timeout c s now c' s' :
      on_timeout c s now = Ret (Ok tt, c', s') → client_step (c, s) (c', s').

Lemma client_step_sound c s c' s' :
  client_step (c, s) (c', s') → client_inv c →
  client_inv c' ∧ ∀ a, server_step_opt (phase_at c a) (phase_at c' a).
Proof.
  inversion 1 as [? ? addr t m ? ? Ht Hm|? ? now ? ? Hm]; subst; intros Hi.
  - destruct m as [m|]; cycle 1.
    { injection Hm as <- <-. split; [done|]. intros a. by left. }
    destruct (on_message_spec c s addr t m Hi Ht) as (r & c1 & s1 & E & Hp).
    rewrite Hm in E. injection E as <- <- <-. split; [by eapply message_post_inv|].
    intros a. destruct Hp as (Ho & Hst & _). destruct (decide (a = addr)) as [->|Ha]; [done|].
    left. unfold phase_at. by destruct (Ho a Ha) as [-> _].
  - destruct (on_timeout_spec c s now Hi) as (c1 & r & s1 & Hp & E). rewrite Hm in E.
    assert (c1 = c') as ->.
    { destruct r; [destruct (ClientSocket_set_recv_timeout s1 _)|]; congruence. }
    split; [apply Hp|]. intros a. by eapply timeout_post_step.
Qed.

Lemma client_steps_sound cs cs' :
  rtc client_step cs cs' → client_inv cs.1 →
  client_inv cs'.1 ∧ ∀ a, rtc server_step (phase_at cs.1 a) (phase_at cs'.1 a).
Proof.
  induction 1 as [cs|[c s] [c1 s1] [c2 s2] Hs _ IH]; intros Hi; [done|].
  apply client_step_sound in Hs as [Hi1 Hst]; [|done]. destruct (IH Hi1) as [? Hr].
  split; [done|]. intros a. destruct (Hst a) as [E|E]; cbn; [rewrite E; apply Hr|].
  eapply rtc_l; [exact E|apply Hr].
Qed.

(** C3: however messages and timeouts follow each other from a new client on,
    as long as the handlers meet no IO error: the connected servers are
    exactly those with a deadline, every server has gone through a life the
    protocol allows, and the next message or timeout, whatever it is, does
    not panic the client. *)
Theorem reachable_client_safe (cx : Cx) (s0 : ClientSocket S) (c : GenericClient Cx Q)
    (s : ClientSocket S) :
  rtc client_step (GenericClient_new cx, s0) (c, s) →
  client_inv c ∧ (∀ a, rtc server_step None (phase_at c a)) ∧
  (∀ addr t m, t + CONN_TIMEOUT <= Instant_MAX → ∃ out, on_message c s addr t m = Ret out) ∧
  (∀ now, ∃ out, on_timeout c s now = Ret out).
Proof.
  intros Hr. apply client_steps_sound in Hr as [Hi Hp]; cbn [fst] in *; cycle 1.
  { unfold client_inv. cbn. by rewrite pq_new_view, !dom_empty_L. }
  split_and!; [done| | |].
  - intros a. specialize (Hp a). unfold phase_at in Hp at 1. cbn in Hp.
    by rewrite lookup_empty in Hp.
  - intros addr t [m|] Ht; [|by eexists].
    destruct (on_message_spec c s addr t m Hi Ht) as (r & c1 & s1 & -> & _). by eexists.
  - intros now. destruct (on_timeout_spec c s now Hi) as (c1 & r & s1 & _ & ->).
    destruct r; [destruct (ClientSocket_set_recv_timeout s1 _)|]; by eexists.
Qed.


(** C33: when the answer to an accepted connection request cannot be sent, the
    server stays in the map without a deadline: it can no longer expire, and
    if it ever disconnects the client panics. *)
Theorem connect_send_error_loses_deadline (c : GenericClient Cx Q) (sock sock' : ClientSocket S)
    (addr : SocketAddr) (t : Instant) (formats : StreamFormats) (rem b : list Z)
    (st : IOInactive) (cx : Cx) (e : ErrorKind) :
  client_inv c → servers c !! addr = None →
  connect (callbacks c) addr formats = (Ok st, cx) →
  ClientSocket_send_msg sock (Client_ConnectionResult (Ok tt)) addr
    (replicate ENCODE_BUF_LEN 0) = (Err e, b, sock') →
  ∃ c', on_message c sock addr t (Some (Server_Connect formats, rem)) = Ret (Err e, c', sock') ∧
    phase_at c' addr = Some PInactive ∧ deadline_at c' addr = None ∧
    (∀ now, expired c' now addr = false) ∧
    ∀ sock t rem, on_message c' sock addr t (Some (Server_Disconnect, rem)) = Panic.
Proof.
  intros Hi Hn Hc Hs. pose proof Hn as Hd. apply client_inv_lookup in Hd; [|done].
  set (c' := set_servers (set_callbacks c cx) (<[addr := Inactive st]> (servers c))).
  exists c'. split_and!.
  - cbn -[replicate]. unfold on_decoded_message. cbn [dispatch_message].
    unfold on_server_connect_request, contains_key. rewrite Hn. cbn [negb].
    by rewrite Hc, Hs.
  - unfold phase_at. cbn. by rewrite lookup_insert_eq.
  - done.
  - intros now. unfold expired. change (deadline_at c' addr) with (deadline_at c addr). by rewrite Hd.
  - intros sock2 t2 rem2. cbn -[replicate]. unfold on_decoded_message. cbn [dispatch_message].
    cbn [servers c' set_servers]. rewrite lookup_insert_eq. cbn [deadlines set_servers set_callbacks].
    destruct (pq_remove_view (deadlines c) addr) as [Hr _].
    fold (deadline_at c addr) in Hr. rewrite Hd in Hr.
    by destruct (pq_remove (deadlines c) addr) as [[?|] q].
Qed.
End facts.

(** ** Instances that satisfy the laws *)

(** A priority queue that searches a map for its earliest deadline. *)
Module MapPQ.
Fixpoint earliest (l : list (SocketAddr * Instant)) : option (SocketAddr * Reverse) :=
  match l with
  | [] => None
  | (a, t) :: l =>
      match earliest l with
      | Some (a', MkReverse t') =>
          if t <=? t' then Some (a, MkReverse t) else Some (a', MkReverse t')
      | None => Some (a, MkReverse t)
      end
  end.

#[local] Instance ops : PriorityQueue (gmap SocketAddr Instant) := {
  pq_new := ∅;
  pq_len := size;
  pq_push q a t := <[a := Reverse_0 t]> q;
  pq_remove q a := (MkReverse <$> q !! a, delete a q);
  pq_peek q := earliest (map_to_list q);
  pq_pop_if q p :=
    match earliest (map_to_list q) with
    | Some (a, t) => if p a t then (Some (a, t), delete a q) else (None, q)
    | None => (None, q)
    end;
}.

Lemma earliest_None l : earliest l = None → l = [].
Proof. destruct l as [|[a t] l]; cbn; [done|]. repeat case_match; done. Qed.

Lemma earliest_Some l a t : earliest l = Some (a, t) →
  (a, Reverse_0 t) ∈ l ∧ ∀ a' t', (a', t') ∈ l → Reverse_0 t <= t'.
Proof.
  revert a t; induction l as [|[a0 t0] l IH]; cbn; intros a t; [done|].
  destruct (earliest l) as [[a1 [t1]]|] eqn:E.
  - destruct (IH a1 (MkReverse t1) eq_refl) as [Hin Hle]. cbn in Hin, Hle.
    destruct (Z.leb_spec t0 t1); intros [= <- <-]; cbn; (split; [apply elem_of_cons; by auto|]);
      intros a' t' [[= -> ->]|Hin']%elem_of_cons; try lia; specialize (Hle a' t' Hin'); lia.
  - apply earliest_None in E as ->. intros [= <- <-]. cbn. split; [by apply list_elem_of_singleton|].
    intros a' t' [= -> ->]%list_elem_of_singleton. lia.
Qed.

#[local] Instance laws : PriorityQueueLaws (gmap SocketAddr Instant).
Proof.
  refine {| pq_view := λ q : gmap SocketAddr Instant, q |}; try done.
  - intros q a. cbn. split; [|done]. by destruct (q !! a).
  - intros q Hq%earliest_None. by apply map_to_list_empty_iff in Hq.
  - intros q a t [Hin Hle]%earliest_Some. split; [by apply elem_of_map_to_list|].
    intros a' t' Ha'. by apply (Hle a'), elem_of_map_to_list.
Defined.
End MapPQ.

(** An application that counts callbacks, accepts every server and asks every
    server to start and then to stop. *)
Module EagerApp.
#[local] Instance app : ClientContext nat := {
  IOInactive := unit; IOStartPending := unit; IOActive := unit; IOStopPending := unit;
  connect n _ _ := (Ok tt, Datatypes.S n);
  unknown_message n _ := Datatypes.S n;
  poll_start_io _ n := (Ok tt, Datatypes.S n);
  start_io _ n := (tt, Datatypes.S n);
  start_io_refused _ n := (tt, Datatypes.S n);
  start_io_failed _ n := (tt, Datatypes.S n);
  on_audio _ n _ _ _ := (tt, Datatypes.S n);
  poll_stop_io _ n := (Ok tt, Datatypes.S n);
  stop_io _ n := (tt, Datatypes.S n);
  stop_io_refused _ n := (tt, Datatypes.S n);
  stop_io_failed _ n := (tt, Datatypes.S n);
}.
End EagerApp.

(** A socket on which every operation fails. *)
Module DeadSocket.
#[local] Instance udp : UdpSocket unit := {
  udp_send_to s _ _ := (Err Other, s);
  udp_recv_from s buf := (Err Other, buf, s);
  udp_set_read_timeout s _ := (Err Other, s);
  Instant_now _ := 0;
}.
End DeadSocket.

Section witnesses.
#[local] Existing Instances CountableCodec.postcard CountableCodec.serde LogSocket.udp
  MapPQ.ops MapPQ.laws EagerApp.app.
#[local] Instance order : MapOrder := elements.
#[local] Instance order_laws : MapOrderLaws.
Proof. by intros X. Qed.

Abbreviation client := (GenericClient nat (gmap SocketAddr Instant)).
Abbreviation log_sock := (MkClientSocket LogSocket.empty).

(** Server 7 has inactive IO and server 8 active IO. *)
Definition two_servers : client := MkGenericClient
  ({[ 7%N := 100; 8%N := 9000000 ]} : gmap SocketAddr Instant)
  ({[ 7%N := Inactive (tt : IOInactive); 8%N := Active (tt : IOActive) ]}) None 0%nat.

Lemma two_servers_inv : client_inv two_servers.
Proof. vm_compute. reflexivity. Qed.

(** At instant 100 server 7 is due: the loop makes two iterations. *)
Lemma expire_terminates_witness :
  ∃ c', expire 2 two_servers 100 = Ret c' ∧ expire 3 two_servers 100 = Ret c' ∧
    expire 1 two_servers 100 = UB.
Proof.
  destruct (proj1 (expire_terminates two_servers 100 two_servers_inv)) as [c' Hc].
  exists c'. split; [exact (Hc 2%nat)|]. split; [exact (Hc 3%nat)|exact (Hc 1%nat)].
Defined.

(** Server 7 sends a heartbeat at instant 50. *)
Lemma on_message_keeps_deadlines_witness :
  ∃ c' sock', on_message two_servers log_sock 7%N 50 (Some (Server_HEARTBEAT, []))
      = Ret (Ok tt, c', sock') ∧
    client_inv c' ∧ deadline_at c' 7%N = Some (50 + CONN_TIMEOUT) ∧
    deadline_at c' 8%N = Some 9000000.
Proof.
  destruct (on_message_keeps_deadlines two_servers log_sock 7%N 50 (Server_HEARTBEAT, []))
    as (r & c' & sock' & Hm & (Ho & _ & Hd) & Hi).
  - exact two_servers_inv.
  - vm_compute; discriminate.
  - pose proof Hm as Hr. vm_compute in Hr. injection Hr as Hr Hc _. subst r.
    exists c', sock'. split; [exact Hm|]. split; [apply Hi; reflexivity|].
    split; [rewrite Hd; by subst c'|]. apply (Ho 8%N). discriminate.
Defined.

(** At instant 100 server 7 is overdue and server 8 is asked to stop. *)
Lemma on_timeout_expires_exactly_witness :
  ∃ r c' sock', on_timeout two_servers log_sock 100 = Ret (r, c', sock') ∧
    client_inv c' ∧ phase_at c' 7%N = None ∧ deadline_at c' 8%N = Some 9000000.
Proof.
  destruct (on_timeout_expires_exactly two_servers log_sock 100) as (r & c' & sock' & Ht & Hi & Hp).
  - exact two_servers_inv.
  - exists r, c', sock'. split; [exact Ht|]. split; [exact Hi|]. split.
    + destruct (Hp 7%N) as [_ [E|[[E _]|[E _]]]]; [by rewrite <- E|discriminate E..].
    + by destruct (Hp 8%N) as [E _].
Defined.

Lemma on_timeout_arms_timer_witness :
  ∃ c' sock' sock1 d, on_timeout two_servers log_sock 100 = Ret (Ok tt, c', sock') ∧
    ClientSocket_set_recv_timeout sock1 (Some d) = (Ok tt, sock') ∧
    0 < d <= REQUEST_POLL_PERIOD.
Proof.
  destruct (on_timeout two_servers log_sock 100) as [[[r c'] sock']| |] eqn:E;
    [|vm_compute in E; discriminate..].
  assert (r = Ok tt) as -> by (vm_compute in E; congruence).
  destruct (on_timeout_arms_timer two_servers log_sock 100 c' sock' two_servers_inv E)
    as (sock1 & [d|] & Hs & Hn & Hd).
  - exists c', sock', sock1, d. split; [reflexivity|]. split; [exact Hs|]. by apply Hd.
  - exfalso. destruct Hn as [Hn _]. specialize (Hn eq_refl).
    vm_compute in E. injection E as <- _. by vm_compute in Hn.
Defined.

(** A new client, after a connection request. *)
Lemma reachable_client_safe_witness :
  ∃ c s, rtc client_step (GenericClient_new 0%nat : client, log_sock) (c, s) ∧
    client_inv c ∧ phase_at c 7%N = Some PInactive.
Proof.
  destruct (on_message (GenericClient_new 0%nat : client) log_sock 7%N 50
              (Some (Server_Connect StreamFormats_default, []))) as [[[r c] s]| |] eqn:E;
    [|vm_compute in E; discriminate..].
  assert (r = Ok tt) as -> by (vm_compute in E; congruence).
  assert (rtc client_step (GenericClient_new 0%nat : client, log_sock) (c, s)) as Hs.
  { apply rtc_once. eapply (client_message _ _ 7%N 50); [vm_compute; discriminate|exact E]. }
  exists c, s. split; [exact Hs|].
  destruct (reachable_client_safe 0%nat log_sock c s Hs) as (Hi & _). split; [exact Hi|].
  vm_compute in E. injection E as <- _. reflexivity.
Defined.
End witnesses.

Section dead_socket_witness.
#[local] Existing Instances CountableCodec.postcard CountableCodec.serde DeadSocket.udp
  MapPQ.ops MapPQ.laws EagerApp.app.

Lemma connect_send_error_loses_deadline_witness :
  ∃ c', on_message (GenericClient_new 0%nat : GenericClient nat (gmap SocketAddr Instant))
            (MkClientSocket tt) 7%N 50 (Some (Server_Connect StreamFormats_default, []))
          = Ret (Err Other, c', MkClientSocket tt) ∧
    on_message c' (MkClientSocket tt) 7%N 60 (Some (Server_Disconnect, [])) = Panic.
Proof.
  edestruct (connect_send_error_loses_deadline
    (GenericClient_new 0%nat : GenericClient nat (gmap SocketAddr Instant))
    (MkClientSocket tt) (MkClientSocket tt) 7%N 50 StreamFormats_default [])
    as (c' & Hm & _ & _ & _ & Hd).
  - vm_compute. reflexivity.
  - reflexivity.
  - reflexivity.
  - vm_compute. reflexivity.
  - exists c'. split; [exact Hm|]. apply Hd.
Defined.
End dead_socket_witness.
