(* ===== verification/CoreAudio.v ===== *)
(** * The CoreAudio driver: [syfala_coreaudio/src/lib.rs]

    The driver's objects and their numbers, its reference count, and the IO
    side of its device: counting the clients that do IO and the zero time
    stamps that are the device's clock.  The numbers of the [coreaudio_sys]
    bindings and of the Mach clock are not part of the repository: they are
    the classes [CoreAudioSys] and [MachClock].  A callback is called from C,
    so a panic in it aborts the process.  A run of the driver is modelled as a
    sequence of calls, each of which touches the IO state under its lock or the
    reference count by one atomic operation.  The one thing that happens before
    the lock is taken is that [get_zero_timestamp] reads the clock: its [now]
    may be older than the state it meets, since another call may come in
    between.  So [now] is an argument of its own, and that it is not older than
    the last time stamp is a hypothesis where a theorem needs it;
    [zero_timestamp_race] shows what happens otherwise. *)

From S2P Require Import Prelude SampleType.

(** ** Constants *)

Definition N_CHANNELS : Z := 16.
Definition SAMPLE_RATE : Z := 48000.
Definition N_CONTROLS : Z := (N_CHANNELS + 1) * 2.
Definition N_DEVICE_OWNED_OBJS : Z := N_CONTROLS + 1.

Definition DEVICE_ID : Z := 2.
Definition STREAM_ID : Z := 3.
Definition FIRST_CTRL_ID : Z := 4.
Definition LAST_CTRL_ID : Z := N_CONTROLS + 3.

Definition TIMESTAMP_PERIOD_NANOSECS : Z := 500000000.
(** [(PERIOD as f64 * SAMPLE_RATE / 1e9 + 0.5) as u32]; every step is exact in
    [f64] but the last, which truncates. *)
Definition FRAMES_PER_TIMESTAMP : Z :=
  (2 * (TIMESTAMP_PERIOD_NANOSECS * SAMPLE_RATE) + 1000000000) / (2 * 1000000000).

Definition AUDIO_SERVER_PLUGIN_TYPE_UUID : list Z :=
  [0x44; 0x3A; 0xBA; 0xB8; 0xE7; 0xB3; 0x49; 0x1A; 0xB9; 0x85; 0xBE; 0xB9; 0x18; 0x70; 0x30; 0xDB].
Definition I_UNKNOWN_UUID : list Z :=
  [0x00; 0x00; 0x00; 0x00; 0x00; 0x00; 0x00; 0x00; 0xC0; 0x00; 0x00; 0x00; 0x00; 0x00; 0x00; 0x46].
Definition ASP_DRIVER_INTERFACE_UUID : list Z :=
  [0xEE; 0xA5; 0x77; 0x3D; 0xCC; 0x43; 0x49; 0xF1; 0x8E; 0x00; 0x8F; 0x96; 0xE7; 0xD2; 0x3B; 0x17].
(** [0x80000004u32 as i32] *)
Definition E_NOINTERFACE : Z := 0x80000004 - 2 ^ 32.

Class CoreAudioSys := {
  kAudioHardwareNoError : Z;
  kAudioHardwareBadObjectError : Z;
  kAudioHardwareIllegalOperationError : Z;
  kAudioHardwareUnsupportedOperationError : Z;
  kAudioServerPlugInIOOperationWriteMix : Z;
}.

(** [mach_timebase_info]: ticks times [numer / denom] are nanoseconds. *)
Class MachClock := { timebase_numer : Z; timebase_denom : Z }.

(** ** Controls *)

Definition audio_object_is_control (id : Z) : bool :=
  (FIRST_CTRL_ID <=? id) && (id <=? LAST_CTRL_ID).

Definition control_is_volume (id : Z) : bool := negb (Z.land id 1 =? 0).

Definition control_channel_index (id : Z) : exec Z :=
  d ← strict_sub id FIRST_CTRL_ID; Ret (d / 2).

(** ** The driver's state: its [static]s *)

Record IOInfo := MkIOInfo {
  n_active_clients : option Z; (* Option<NonZeroU32> *)
  current_frame_timestamp : Z; (* u64 *)
  current_host_timestamp : Z;  (* u64 *)
}.

Record Driver := MkDriver {
  PLUGIN_REF_COUNT : Z;          (* AtomicU32 *)
  HOST : option Z;               (* OnceLock of the host's address *)
  IS_OUTPUT_STREAM_ACTIVE : bool;
  DEVICE_IO : IOInfo;
  OUTPUT_VOLUME : list f32;
  OUTPUT_MUTE : list bool;
}.

(** The state when the library is loaded: the master volume is zero. *)
Definition f32_one : f32 := MkFloat 0x3F800000.
Definition Driver_init : Driver := {|
  PLUGIN_REF_COUNT := 0;
  HOST := None;
  IS_OUTPUT_STREAM_ACTIVE := false;
  DEVICE_IO := {| n_active_clients := None; current_frame_timestamp := 0;
                  current_host_timestamp := 0 |};
  OUTPUT_VOLUME := <[0%nat := MkFloat 0]> (replicate (Z.to_nat (N_CHANNELS + 1)) f32_one);
  OUTPUT_MUTE := replicate (Z.to_nat (N_CHANNELS + 1)) false;
|}.

Definition set_ref_count (d : Driver) (n : Z) : Driver :=
  MkDriver n (HOST d) (IS_OUTPUT_STREAM_ACTIVE d) (DEVICE_IO d) (OUTPUT_VOLUME d) (OUTPUT_MUTE d).
Definition set_host (d : Driver) (h : option Z) : Driver :=
  MkDriver (PLUGIN_REF_COUNT d) h (IS_OUTPUT_STREAM_ACTIVE d) (DEVICE_IO d) (OUTPUT_VOLUME d)
    (OUTPUT_MUTE d).
Definition set_io (d : Driver) (io : IOInfo) : Driver :=
  MkDriver (PLUGIN_REF_COUNT d) (HOST d) (IS_OUTPUT_STREAM_ACTIVE d) io (OUTPUT_VOLUME d)
    (OUTPUT_MUTE d).

(** [u64 as f64]: round to nearest, ties to even. *)
Definition u64_as_f64 (n : Z) : f64 :=
  if n =? 0 then MkFloat 0 else
  let e := Z.log2 n in
  let sh := e - 52 in
  let q := Z.shiftr n sh in
  let r := n - Z.shiftl q sh in
  let half := Z.shiftl 1 (sh - 1) in
  let up := (0 <? sh) && ((half <? r) || ((r =? half) && Z.odd q)) in
  MkFloat ((e + 1022) * 2 ^ 52 + q + (if up then 1 else 0)).

Section driver.
Context `{CoreAudioSys, MachClock}.
(** The address of the static driver object. *)
Context (raw_driver_ptr : Z).

(** A null pointer is address 0. *)
Definition create (requested_type_uuid_bytes : list Z) : Z :=
  if decide (requested_type_uuid_bytes = AUDIO_SERVER_PLUGIN_TYPE_UUID) then raw_driver_ptr else 0.

Definition eq_driver_ptr (driver : Z) : bool := driver =? raw_driver_ptr.

(** ** The reference count *)

(** Atomic operations wrap around. *)
Definition fetch_add (n d : Z) : Z := (n + d) mod 2 ^ 32.

(** The third result is what is written to the place [interface] points to. *)
Definition query_interface (d : Driver) (driver : Z) (in_uuid_bytes : list Z) (interface : Z)
    : Z * Driver * option Z :=
  if negb (eq_driver_ptr driver) then (kAudioHardwareBadObjectError, d, None) else
  if interface =? 0 then (kAudioHardwareIllegalOperationError, d, None) else
  if decide (in_uuid_bytes ∈ [I_UNKNOWN_UUID; ASP_DRIVER_INTERFACE_UUID]) then
    (kAudioHardwareNoError, set_ref_count d (fetch_add (PLUGIN_REF_COUNT d) 1), Some raw_driver_ptr)
  else (E_NOINTERFACE, d, None).

Definition add_ref (d : Driver) (driver : Z) : exec (Z * Driver) :=
  if negb (eq_driver_ptr driver) then Ret (0, d) else
  let old := PLUGIN_REF_COUNT d in
  let d := set_ref_count d (fetch_add old 1) in
  res ← strict_add u32_MAX old 1;
  Ret (res, d).

Definition release (d : Driver) (driver : Z) : exec (Z * Driver) :=
  if negb (eq_driver_ptr driver) then Ret (0, d) else
  let old := PLUGIN_REF_COUNT d in
  let d := set_ref_count d (fetch_add old (-1)) in
  res ← strict_sub old 1;
  Ret (res, d).

(** ** Life cycle callbacks *)

(** [OnceLock::set] keeps the first value. *)
Definition initialize (d : Driver) (driver host : Z) : Z * Driver :=
  if negb (eq_driver_ptr driver) then (kAudioHardwareBadObjectError, d) else
  let d := if host =? 0 then d
           else match HOST d with None => set_host d (Some host) | Some _ => d end in
  (kAudioHardwareNoError, d).

Definition create_device (d : Driver) (driver : Z) : Z * Driver :=
  if negb (eq_driver_ptr driver) then (kAudioHardwareBadObjectError, d) else
  (kAudioHardwareUnsupportedOperationError, d).

Definition destroy_device (d : Driver) (driver _device_object_id : Z) : Z * Driver :=
  if negb (eq_driver_ptr driver) then (kAudioHardwareBadObjectError, d) else
  (kAudioHardwareUnsupportedOperationError, d).

(** The argument check the callbacks on a device share. *)
Definition checked_device (d : Driver) (driver device_object_id : Z) : Z * Driver :=
  if negb (eq_driver_ptr driver) then (kAudioHardwareBadObjectError, d) else
  if negb (device_object_id =? DEVICE_ID) then (kAudioHardwareBadObjectError, d) else
  (kAudioHardwareNoError, d).

Definition add_device_client (d : Driver) (driver device_object_id : Z) : Z * Driver :=
  checked_device d driver device_object_id.
Definition remove_device_client (d : Driver) (driver device_object_id : Z) : Z * Driver :=
  checked_device d driver device_object_id.
Definition perform_device_config_change (d : Driver) (driver device_object_id : Z) : Z * Driver :=
  checked_device d driver device_object_id.
Definition abort_device_config_change (d : Driver) (driver device_object_id : Z) : Z * Driver :=
  checked_device d driver device_object_id.

(** ** IO *)

(** [now] is the result of [mach_absolute_time()]. *)
Definition start_io (d : Driver) (driver device_id now : Z) : Z * Driver :=
  if negb (eq_driver_ptr driver) then (kAudioHardwareBadObjectError, d) else
  if negb (device_id =? DEVICE_ID) then (kAudioHardwareBadObjectError, d) else
  let device_io := DEVICE_IO d in
  match n_active_clients device_io with
  | Some n_clients =>
      if n_clients + 1 <=? u32_MAX then
        (kAudioHardwareNoError,
         set_io d (MkIOInfo (Some (n_clients + 1)) (current_frame_timestamp device_io)
                     (current_host_timestamp device_io)))
      else (kAudioHardwareIllegalOperationError, d)
  | None => (kAudioHardwareNoError, set_io d (MkIOInfo (Some 1) 0 now))
  end.

Definition stop_io (d : Driver) (driver device_id : Z) : exec (Z * Driver) :=
  if negb (eq_driver_ptr driver) then Ret (kAudioHardwareBadObjectError, d) else
  if negb (device_id =? DEVICE_ID) then Ret (kAudioHardwareBadObjectError, d) else
  let device_io := DEVICE_IO d in
  match n_active_clients device_io with
  | None => Ret (kAudioHardwareIllegalOperationError, d)
  | Some n_clients =>
      n ← strict_sub n_clients 1;
      Ret (kAudioHardwareNoError,
           set_io d (MkIOInfo (if n =? 0 then None else Some n) (current_frame_timestamp device_io)
                       (current_host_timestamp device_io)))
  end.

Definition TICKS_PER_TIMESTAMP : exec Z :=
  n ← strict_mul u64_MAX TIMESTAMP_PERIOD_NANOSECS timebase_numer;
  ticks ← (if timebase_denom =? 0 then Panic else Ret (n / timebase_denom));
  if ticks =? 0 then Panic else Ret ticks.

Record ZeroTimestamp := MkZeroTimestamp {
  sample_time : f64;
  host_time : Z;
  seed : Z;
}.

(** [now] is what [mach_absolute_time()] gave before the lock was taken.
    The places for the results must not be null: they are written to without a
    check.  The results are the third component. *)
Definition get_zero_timestamp (d : Driver) (driver device_id : Z)
    (sample_time_ptr host_time_ptr seed_ptr : Z) (now : Z)
    : exec (Z * Driver * option ZeroTimestamp) :=
  if negb (eq_driver_ptr driver) then Ret (kAudioHardwareBadObjectError, d, None) else
  if negb (device_id =? DEVICE_ID) then Ret (kAudioHardwareBadObjectError, d, None) else
  n_ticks_per_timestamp ← TICKS_PER_TIMESTAMP;
  let device_io := DEVICE_IO d in
  elapsed_time_ticks ← strict_sub now (current_host_timestamp device_io);
  let n_timestamps_advanced := elapsed_time_ticks / n_ticks_per_timestamp in
  delta ← strict_mul u64_MAX n_ticks_per_timestamp n_timestamps_advanced;
  host ← strict_add u64_MAX (current_host_timestamp device_io) delta;
  frames ← strict_mul u64_MAX FRAMES_PER_TIMESTAMP n_timestamps_advanced;
  frame ← strict_add u64_MAX (current_frame_timestamp device_io) frames;
  let d := set_io d (MkIOInfo (n_active_clients device_io) frame host) in
  if (sample_time_ptr =? 0) || (host_time_ptr =? 0) || (seed_ptr =? 0) then UB else
  Ret (kAudioHardwareNoError, d, Some (MkZeroTimestamp (u64_as_f64 frame) host 1)).

(** The last two components are what is written to the two places, if they are
    not null. *)
Definition will_do_io_operation (d : Driver) (driver device_id operation_id : Z)
    (will_do will_do_in_place : Z) : Z * Driver * option bool * option bool :=
  if negb (eq_driver_ptr driver) then (kAudioHardwareBadObjectError, d, None, None) else
  if negb (device_id =? DEVICE_ID) then (kAudioHardwareBadObjectError, d, None, None) else
  let will := operation_id =? kAudioServerPlugInIOOperationWriteMix in
  (kAudioHardwareNoError, d,
   if will_do =? 0 then None else Some will,
   if will_do_in_place =? 0 then None else Some will).

Definition begin_io_operation (d : Driver) (driver device_id : Z) : Z * Driver :=
  checked_device d driver device_id.

Definition do_io_operation (d : Driver) (driver device_id stream_id : Z) : Z * Driver :=
  if negb (eq_driver_ptr driver) then (kAudioHardwareBadObjectError, d) else
  if negb (device_id =? DEVICE_ID) then (kAudioHardwareBadObjectError, d) else
  if negb (stream_id =? STREAM_ID) then (kAudioHardwareBadObjectError, d) else
  (kAudioHardwareNoError, d).

Definition end_io_operation (d : Driver) (driver device_id : Z) : Z * Driver :=
  checked_device d driver device_id.
End driver.

(** ** Objects *)

(** The driver's control objects are numbered as its blueprint says.  A
    number is a control exactly when it is [4 + 2 * ch] (the mute control of
    channel [ch], the master being channel 0) or [5 + 2 * ch] (its volume
    control) for a channel up to [N_CHANNELS]; [control_is_volume] and
    [control_channel_index] recover the kind and the channel, which always is
    an index of the volume and mute tables; and controls, the plug-in (1), the
    device and the stream do not share numbers. *)
Theorem control_ids_bijective (id : Z) :
  (audio_object_is_control id = true ↔
   ∃ ch (vol : bool), 0 <= ch <= N_CHANNELS ∧ id = 4 + 2 * ch + (if vol then 1 else 0)) ∧
  (∀ ch (vol : bool), 0 <= ch <= N_CHANNELS → id = 4 + 2 * ch + (if vol then 1 else 0) →
     control_is_volume id = vol ∧ control_channel_index id = Ret ch ∧
     is_Some (OUTPUT_VOLUME Driver_init !! Z.to_nat ch) ∧
     is_Some (OUTPUT_MUTE Driver_init !! Z.to_nat ch)) ∧
  (audio_object_is_control id = true → id ∉ [1; DEVICE_ID; STREAM_ID]).
Proof.
  unfold audio_object_is_control, FIRST_CTRL_ID, LAST_CTRL_ID, N_CONTROLS, N_CHANNELS.
  rewrite andb_true_iff, !Z.leb_le. split_and!.
  - split.
    + intros [Hl Hh]. exists ((id - 4) / 2), (Z.odd id).
      pose proof (Z.div_mod (id - 4) 2). pose proof (Zmod_odd (id - 4)) as Ho.
      rewrite Z.odd_sub, xorb_false_r in Ho.
      pose proof (Z.mod_pos_bound (id - 4) 2). destruct (Z.odd id); lia.
    + intros (ch & vol & Hch & ->). destruct vol; lia.
  - intros ch vol Hch ->. split_and!.
    + unfold control_is_volume. rewrite (Z.land_ones _ 1) by lia. change (2 ^ 1) with 2.
      rewrite <- Z.add_mod_idemp_l by lia. replace (4 + 2 * ch) with ((2 + ch) * 2) by lia.
      rewrite Z.mod_mul by lia. by destruct vol.
    + unfold control_channel_index, FIRST_CTRL_ID. rewrite strict_sub_Ret by (destruct vol; lia).
      rewrite bind_Ret. f_equal. symmetry.
      apply (Z.div_unique _ _ _ (if vol then 1 else 0)); destruct vol; lia.
    + apply lookup_lt_is_Some. change (length _) with 17%nat. lia.
    + apply lookup_lt_is_Some. change (length _) with 17%nat. lia.
  - intros Hc Hin. rewrite !elem_of_cons in Hin. unfold DEVICE_ID, STREAM_ID in Hin.
    destruct Hin as [|[|[|Hin]]]; [lia..|]. by apply not_elem_of_nil in Hin.
Qed.

(** ** Counting the clients that do IO *)

Section io.
Context `{CoreAudioSys, MachClock}.
Context (raw_driver_ptr : Z).

(** Calls by the HAL, with whatever arguments. *)
Inductive io_call :=
  | CallStart (driver device_id now : Z)
  | CallStop (driver device_id : Z).

Definition do_call (d : Driver) (c : io_call) : exec (Z * Driver) :=
  match c with
  | CallStart driver device_id now => Ret (start_io raw_driver_ptr d driver device_id now)
  | CallStop driver device_id => stop_io raw_driver_ptr d driver device_id
  end.

Fixpoint do_calls (d : Driver) (cs : list io_call) : exec (list Z * Driver) :=
  match cs with
  | [] => Ret ([], d)
  | c :: cs =>
      '(st, d) ← do_call d c;
      '(sts, d) ← do_calls d cs;
      Ret (st :: sts, d)
  end.

(** The specification: a number between 0 and [u32::MAX]. *)
Definition call_valid (c : io_call) : bool :=
  match c with
  | CallStart driver device_id _ | CallStop driver device_id =>
      (driver =? raw_driver_ptr) && (device_id =? DEVICE_ID)
  end.

Definition spec_call (n : Z) (c : io_call) : Z * Z :=
  if negb (call_valid c) then (kAudioHardwareBadObjectError, n) else
  match c with
  | CallStart _ _ _ =>
      if n <? u32_MAX then (kAudioHardwareNoError, n + 1)
      else (kAudioHardwareIllegalOperationError, n)
  | CallStop _ _ =>
      if 0 <? n then (kAudioHardwareNoError, n - 1)
      else (kAudioHardwareIllegalOperationError, n)
  end.

Fixpoint spec_calls (n : Z) (cs : list io_call) : list Z * Z :=
  match cs with
  | [] => ([], n)
  | c :: cs =>
      let (st, n) := spec_call n c in
      let (sts, n) := spec_calls n cs in
      (st :: sts, n)
  end.

Definition clients (d : Driver) : Z := default 0 (n_active_clients (DEVICE_IO d)).

Definition io_wf (d : Driver) : Prop :=
  match n_active_clients (DEVICE_IO d) with Some n => 1 <= n <= u32_MAX | None => True end.

Lemma do_call_refines d c :
  io_wf d →
  ∃ d', do_call d c = Ret ((spec_call (clients d) c).1, d') ∧
    clients d' = (spec_call (clients d) c).2 ∧ io_wf d'.
Proof.
  intros Hwf. unfold io_wf, clients, spec_call in *.
  destruct c as [driver dev now|driver dev]; cbn [do_call call_valid];
    unfold start_io, stop_io, eq_driver_ptr;
    destruct (driver =? raw_driver_ptr), (dev =? DEVICE_ID); cbn [negb andb];
    try (by exists d);
    destruct (n_active_clients (DEVICE_IO d)) as [n|] eqn:E; cbn [default]; unfold id.
  - destruct (Z.leb_spec (n + 1) u32_MAX).
    + rewrite (proj2 (Z.ltb_lt _ _)) by lia. eexists. split_and!; [done..|]. cbn. bounds.
    + rewrite (proj2 (Z.ltb_ge _ _)) by lia. exists d. by rewrite E.
  - eexists. split_and!; [done..|]. cbn. bounds.
  - rewrite strict_sub_Ret, bind_Ret, (proj2 (Z.ltb_lt 0 n)) by lia. eexists. split; [done|].
    cbn. destruct (Z.eqb_spec (n - 1) 0); cbn; bounds.
  - exists d. by rewrite E.
Qed.

(** C39: the driver keeps count of the clients that do IO exactly as a counter
    between 0 and [u32::MAX] would.  For every sequence of start and stop
    calls, with right or wrong arguments, every call returns the status the
    counter prescribes: success while there is room to count up, or something
    to count down, an illegal-operation error otherwise, and a bad-object error,
    with nothing changed, for a wrong driver or device; and no call panics. *)
Theorem io_calls_refine_counter (d : Driver) (cs : list io_call) :
  io_wf d →
  ∃ d', do_calls d cs = Ret ((spec_calls (clients d) cs).1, d') ∧
    clients d' = (spec_calls (clients d) cs).2 ∧ io_wf d'.
Proof.
  revert d. induction cs as [|c cs IH]; intros d Hwf; cbn [do_calls spec_calls]; [by exists d|].
  destruct (do_call_refines d c Hwf) as (d1 & -> & Hn & Hwf1). rewrite bind_Ret.
  destruct (IH d1 Hwf1) as (d2 & -> & Hn2 & Hwf2). rewrite bind_Ret.
  destruct (spec_call (clients d) c) as [st n]. cbn in Hn. subst n. cbn [fst].
  destruct (spec_calls (clients d1) cs) as [sts n']. by exists d2.
Qed.

(** ** The clock *)

(** A run of time stamp queries at the given host times. *)
Fixpoint query_timestamps (d : Driver) (p : Z) (nows : list Z)
    : exec (list (option ZeroTimestamp) * Driver) :=
  match nows with
  | [] => Ret ([], d)
  | now :: nows =>
      '(_, d, ts) ← get_zero_timestamp raw_driver_ptr d raw_driver_ptr DEVICE_ID p p p now;
      '(rest, d) ← query_timestamps d p nows;
      Ret (ts :: rest, d)
  end.

Fixpoint nondecreasing (lo : Z) (l : list Z) : Prop :=
  match l with [] => True | x :: l => lo <= x ∧ nondecreasing x l end.

(** The time stamp that host time [now] calls for, with IO started at [t0]. *)
Definition ideal_timestamp (ticks t0 now : Z) : ZeroTimestamp :=
  let k := (now - t0) / ticks in
  MkZeroTimestamp (u64_as_f64 (FRAMES_PER_TIMESTAMP * k)) (t0 + ticks * k) 1.

(** The clock started at [t0] and has made [k] steps. *)
Definition clock_at (d : Driver) (ticks t0 k : Z) : Prop :=
  current_host_timestamp (DEVICE_IO d) = t0 + ticks * k ∧
  current_frame_timestamp (DEVICE_IO d) = FRAMES_PER_TIMESTAMP * k.

Lemma get_zero_timestamp_step d ticks t0 k p now :
  TICKS_PER_TIMESTAMP = Ret ticks → 0 < ticks → 0 <= t0 → 0 <= k → p ≠ 0 →
  clock_at d ticks t0 k → t0 + ticks * k <= now <= u64_MAX →
  FRAMES_PER_TIMESTAMP * ((now - t0) / ticks) <= u64_MAX →
  ∃ d', get_zero_timestamp raw_driver_ptr d raw_driver_ptr DEVICE_ID p p p now
      = Ret (kAudioHardwareNoError, d', Some (ideal_timestamp ticks t0 now)) ∧
    clock_at d' ticks t0 ((now - t0) / ticks) ∧ k <= (now - t0) / ticks.
Proof.
  intros Ht Hticks H0t Hk Hp [Hh Hf] Hnow Hmax.
  assert ((now - (t0 + ticks * k)) / ticks = (now - t0) / ticks - k) as Hq.
  { replace (now - (t0 + ticks * k)) with (now - t0 + (- k) * ticks) by lia.
    rewrite Z.div_add by lia. lia. }
  pose proof (Z.mul_div_le (now - t0) ticks Hticks).
  assert (k <= (now - t0) / ticks) by (apply Z.div_le_lower_bound; lia).
  set (j := (now - t0) / ticks) in *.
  unfold get_zero_timestamp, eq_driver_ptr. rewrite !Z.eqb_refl. cbn [negb].
  rewrite Ht, bind_Ret, Hh, strict_sub_Ret, bind_Ret, Hq by lia.
  assert (0 < FRAMES_PER_TIMESTAMP) by reflexivity.
  rewrite (strict_mul_Ret u64_MAX ticks), bind_Ret, strict_add_Ret, bind_Ret by lia.
  rewrite strict_mul_Ret, bind_Ret, Hf, strict_add_Ret, bind_Ret by nia.
  rewrite (proj2 (Z.eqb_neq p 0)) by done. cbn [orb]. eexists. split; [|split; [split|done]].
  - unfold ideal_timestamp. fold j. do 4 f_equal; [f_equal; lia|lia].
  - cbn. lia.
  - cbn. lia.
Qed.

Lemma query_timestamps_run ticks t0 p nows :
  TICKS_PER_TIMESTAMP = Ret ticks → 0 < ticks → p ≠ 0 → 0 <= t0 →
  Forall (λ now, now <= u64_MAX ∧ FRAMES_PER_TIMESTAMP * ((now - t0) / ticks) <= u64_MAX) nows →
  ∀ d k lo, 0 <= k → clock_at d ticks t0 k → nondecreasing lo nows → t0 + ticks * k <= lo →
  ∃ d', query_timestamps d p nows =
    Ret ((λ now, Some (ideal_timestamp ticks t0 now)) <$> nows, d').
Proof.
  intros Ht Hticks Hp H0t Hmax.
  induction Hmax as [|now nows [Hu Hf] _ IH]; intros d k lo Hk Hclk Hlo Hle; [by exists d|].
  destruct Hlo as [Hlo Hrest]. cbn [query_timestamps].
  destruct (get_zero_timestamp_step d ticks t0 k p now) as (d1 & -> & Hclk1 & Hk1); [done || lia..|].
  rewrite bind_Ret.
  destruct (IH d1 ((now - t0) / ticks) now) as (d2 & ->); [lia|done..| |by exists d2].
  pose proof (Z.mul_div_le (now - t0) ticks Hticks). lia.
Qed.

(** C38: the device's clock does not drift.  With IO started at host time [t0],
    whatever the (non-decreasing) host times at which the HAL asks for the
    zero time stamp, and however many periods pass between two queries, each
    answer is the last whole period since [t0]: host time
    [t0 + ticks * k] for sample time [FRAMES_PER_TIMESTAMP * k]; and no query
    panics as long as the frame count fits in a [u64]. *)
Theorem zero_timestamps_do_not_drift (d : Driver) (ticks t0 p : Z) (nows : list Z) :
  TICKS_PER_TIMESTAMP = Ret ticks → 0 < ticks → p ≠ 0 → is_u64 t0 →
  n_active_clients (DEVICE_IO d) = None → nondecreasing t0 nows →
  Forall (λ now, now <= u64_MAX ∧ FRAMES_PER_TIMESTAMP * ((now - t0) / ticks) <= u64_MAX) nows →
  let started := (start_io raw_driver_ptr d raw_driver_ptr DEVICE_ID t0).2 in
  ∃ d', query_timestamps started p nows =
    Ret ((λ now, Some (ideal_timestamp ticks t0 now)) <$> nows, d').
Proof.
  intros Ht Hticks Hp H0t Hc Hmono Hmax started.
  apply (query_timestamps_run ticks t0 p nows Ht Hticks Hp (proj1 H0t) Hmax started 0 t0);
    [done| |done|lia].
  unfold started, start_io, eq_driver_ptr, clock_at. rewrite !Z.eqb_refl, Hc. cbn. lia.
Qed.

(** Of two queries that read the clock at [a] and then at [b], the one with the
    later reading may be first to get the lock.  If a period ends between the
    two readings, the other one panics, with the lock held. *)
Lemma zero_timestamp_race (d : Driver) (ticks t0 p a b : Z) :
  TICKS_PER_TIMESTAMP = Ret ticks → 0 < ticks → p ≠ 0 → is_u64 t0 →
  n_active_clients (DEVICE_IO d) = None → t0 <= a <= b → b <= u64_MAX →
  FRAMES_PER_TIMESTAMP * ((b - t0) / ticks) <= u64_MAX → a < t0 + ticks * ((b - t0) / ticks) →
  query_timestamps (start_io raw_driver_ptr d raw_driver_ptr DEVICE_ID t0).2 p [b; a] = Panic.
Proof.
  intros Ht Hticks Hp [H0t _] Hc Hab Hb Hmax Ha. cbn [query_timestamps].
  destruct (get_zero_timestamp_step (start_io raw_driver_ptr d raw_driver_ptr DEVICE_ID t0).2
    ticks t0 0 p b) as (d1 & -> & [Hh _] & _); [done || lia..| |lia|done|].
  { unfold start_io, eq_driver_ptr, clock_at. rewrite !Z.eqb_refl, Hc. cbn. lia. }
  rewrite bind_Ret. unfold get_zero_timestamp, eq_driver_ptr. rewrite !Z.eqb_refl. cbn [negb].
  by rewrite Ht, bind_Ret, Hh, strict_sub_Panic by lia.
Qed.

(** C40: the period of the zero time stamps is wrong on every machine whose Mach
    clock does not tick in nanoseconds.  A tick lasts [numer / denom]
    nanoseconds, and the number of ticks is computed with the inverse factor:
    where a tick is longer than a nanosecond, the time stamps are further
    apart than the intended 500 ms. *)
Theorem ticks_per_timestamp_too_long :
  0 < timebase_denom < timebase_numer →
  TIMESTAMP_PERIOD_NANOSECS * timebase_numer <= u64_MAX →
  ∃ ticks, TICKS_PER_TIMESTAMP = Ret ticks ∧
    TIMESTAMP_PERIOD_NANOSECS * timebase_denom < ticks * timebase_numer.
Proof.
  intros Hd Hmax. unfold TICKS_PER_TIMESTAMP. rewrite strict_mul_Ret, bind_Ret by done.
  rewrite (proj2 (Z.eqb_neq timebase_denom 0)), bind_Ret by lia.
  assert (TIMESTAMP_PERIOD_NANOSECS <= TIMESTAMP_PERIOD_NANOSECS * timebase_numer / timebase_denom).
  { apply Z.div_le_lower_bound; [lia|]. unfold TIMESTAMP_PERIOD_NANOSECS. lia. }
  unfold TIMESTAMP_PERIOD_NANOSECS in *.
  rewrite (proj2 (Z.eqb_neq _ 0)) by lia. eexists. split; [done|]. nia.
Qed.
End io.

Section witnesses.
#[local] Instance sys : CoreAudioSys := {
  kAudioHardwareNoError := 0;
  kAudioHardwareBadObjectError := 0x216f626a;
  kAudioHardwareIllegalOperationError := 0x6e6f7065;
  kAudioHardwareUnsupportedOperationError := 0x756e6f70;
  kAudioServerPlugInIOOperationWriteMix := 0x72697465;
}.

(** A stop too many, and a call on another device. *)
Lemma io_calls_refine_counter_witness :
  ∃ d', do_calls 77 Driver_init
      [CallStart 77 2 1000; CallStart 77 2 2000; CallStop 77 2; CallStop 77 2; CallStop 77 2;
       CallStart 77 3 3000]
    = Ret ([0; 0; 0; 0; kAudioHardwareIllegalOperationError; kAudioHardwareBadObjectError], d') ∧
    clients d' = 0 ∧ io_wf d'.
Proof.
  destruct (io_calls_refine_counter 77 Driver_init
    [CallStart 77 2 1000; CallStart 77 2 2000; CallStop 77 2; CallStop 77 2; CallStop 77 2;
     CallStart 77 3 3000]) as (d' & Hc & Hn & Hwf).
  - exact Logic.I.
  - exists d'. split; [exact Hc|]. split; [exact Hn|exact Hwf].
Defined.

(** A clock that ticks in nanoseconds, queried late. *)
Lemma zero_timestamps_do_not_drift_witness :
  ∃ d', query_timestamps (H0 := {| timebase_numer := 1; timebase_denom := 1 |}) 77
      (start_io 77 Driver_init 77 DEVICE_ID 1000).2 4096 [1500; 1700001000; 9000000999]
    = Ret ([Some (MkZeroTimestamp (u64_as_f64 0) 1000 1);
            Some (MkZeroTimestamp (u64_as_f64 72000) 1500001000 1);
            Some (MkZeroTimestamp (u64_as_f64 408000) 8500001000 1)], d').
Proof.
  apply (zero_timestamps_do_not_drift (H0 := {| timebase_numer := 1; timebase_denom := 1 |})
           77 Driver_init 500000000 1000 4096 [1500; 1700001000; 9000000999]).
  - reflexivity.
  - reflexivity.
  - discriminate.
  - split; vm_compute; discriminate.
  - reflexivity.
  - repeat split; vm_compute; discriminate.
  - repeat constructor; vm_compute; discriminate.
Defined.

(** Readings on the two sides of the end of the first period. *)
Lemma zero_timestamp_race_witness :
  query_timestamps (H0 := {| timebase_numer := 1; timebase_denom := 1 |}) 77
      (start_io 77 Driver_init 77 DEVICE_ID 1000).2 4096 [500001000; 500000999] = Panic.
Proof.
  apply (zero_timestamp_race (H0 := {| timebase_numer := 1; timebase_denom := 1 |})
           77 Driver_init 500000000 1000 4096 500000999 500001000);
    (reflexivity || discriminate || (vm_compute; done) || (split; vm_compute; discriminate)).
Defined.

(** Apple silicon: a tick lasts 125/3 ns. *)
Lemma ticks_per_timestamp_too_long_witness :
  ∃ ticks, TICKS_PER_TIMESTAMP (H0 := {| timebase_numer := 125; timebase_denom := 3 |})
      = Ret ticks ∧ 500000000 * 3 < ticks * 125.
Proof.
  apply (ticks_per_timestamp_too_long (H0 := {| timebase_numer := 125; timebase_denom := 3 |})).
  - vm_compute. split; reflexivity.
  - vm_compute. discriminate.
Defined.
End witnesses.
