(* ===== verification/CoreAudioVolume.v ===== *)
(** * Volumes of the CoreAudio driver: [syfala_coreaudio/src/lib.rs], conversions

    A volume control keeps a gain.  The HAL sees it as decibels between
    [VOL_MIN_DB] and [VOL_MAX_DB], or as a normalised number between 0 and 1
    that is the square of the position in that range.  The arithmetic is that
    of [Float32.v]; volumes in memory are bit patterns. *)

From S2P Require Import Prelude SampleType Float32 CoreAudio.

(** Literals: integers, and [0.05], which is the quotient rounded once. *)
Definition f32_lit (n : Z) : spec_float := binary_normalize prec emax n 0 false.
Definition f32_0_05 : spec_float := f32_div (f32_lit 5) (f32_lit 100).

Definition VOL_MIN_DB : spec_float := f32_lit (-80).
Definition VOL_MAX_DB : spec_float := f32_lit 0.
Definition VOL_DB_RANGE : spec_float := f32_sub VOL_MAX_DB VOL_MIN_DB.

Definition sq (x : spec_float) : spec_float := f32_mul x x.

Definition linear_remap (x x_start x_len y_start y_len : spec_float) : spec_float :=
  if f32_eqb x_len (f32_lit 0) then x_start
  else f32_mul_add (f32_sub x x_start) (f32_div y_len x_len) y_start.

Section conversions.
Context `{FloatPlatform}.

Definition db_to_gain (db : spec_float) : spec_float :=
  f32_powf (f32_lit 10) (f32_mul db f32_0_05).

Definition gain_to_db (gain : spec_float) : spec_float :=
  f32_mul (f32_lit 10) (f32_log10 (sq gain)).

Definition volume_control_db_val (d : Driver) (index : Z) : option spec_float :=
  (λ v, f32_max (f32_min (gain_to_db (from_bits v)) VOL_MAX_DB) VOL_MIN_DB)
    <$> OUTPUT_VOLUME d !! Z.to_nat index.

Definition volume_control_norm_val (d : Driver) (index : Z) : option spec_float :=
  (λ db, sq (linear_remap db VOL_MIN_DB VOL_DB_RANGE (f32_lit 0) (f32_lit 1)))
    <$> volume_control_db_val d index.

Definition norm_to_db (v : spec_float) : spec_float :=
  let clamped := f32_max (f32_min v (f32_lit 1)) (f32_lit 0) in
  let skewed := f32_sqrt clamped in
  linear_remap skewed (f32_lit 0) (f32_lit 1) VOL_MIN_DB VOL_DB_RANGE.

Definition norm_to_gain (v : spec_float) : spec_float := db_to_gain (norm_to_db v).

Definition db_to_norm (db : spec_float) : spec_float :=
  let clamped := f32_max (f32_min db VOL_MIN_DB) VOL_MAX_DB in
  let gain := linear_remap clamped VOL_MIN_DB VOL_DB_RANGE (f32_lit 0) (f32_lit 1) in
  sq gain.
End conversions.

(** ** Ranges *)

Definition db_in_range (db : spec_float) : Prop :=
  f32_leb VOL_MIN_DB db = true ∧ f32_leb db VOL_MAX_DB = true.

Lemma literals :
  VOL_MIN_DB = S754_finite true 10485760 (-17) ∧ VOL_MAX_DB = S754_zero false ∧
  VOL_DB_RANGE = S754_finite false 10485760 (-17) ∧ f32_lit 1 = S754_finite false (2 ^ 23) (-23) ∧
  f32_lit 0 = S754_zero false ∧ f32_div VOL_DB_RANGE (f32_lit 1) = VOL_DB_RANGE.
Proof. repeat split; vm_compute; reflexivity. Qed.

Section range.
Context `{FloatPlatform}.

Lemma volume_control_db_val_range d index :
  match volume_control_db_val d index with Some db => db_in_range db | None => True end.
Proof.
  unfold volume_control_db_val. destruct (OUTPUT_VOLUME d !! _) as [v|]; cbn; [|done].
  destruct (f32_clamp_spec (gain_to_db (from_bits v)) VOL_MIN_DB VOL_MAX_DB) as (Hl & Hh & _);
    [vm_compute; reflexivity|by split].
Qed.

(** The square root of a clamped number: zero, or at most one. *)
Lemma skewed_cases v :
  let x := f32_sqrt (f32_max (f32_min (from_bits v) (f32_lit 1)) (f32_lit 0)) in
  (∃ s, x = S754_zero s) ∨
  (∃ m e, x = S754_finite false m e ∧ e <= 0 ∧ Zpos m <= 2 ^ (- e)).
Proof.
  destruct literals as (_ & _ & _ & H1 & H0 & _).
  destruct (f32_clamp_spec (from_bits v) (f32_lit 0) (f32_lit 1)) as (Hlo & Hhi & Hy);
    [by rewrite H0, H1|].
  set (y := f32_max _ _) in *. intros x.
  assert ((∃ s, y = S754_zero s) ∨
          (∃ m e, y = S754_finite false m e ∧ e <= 0 ∧ Zpos m <= 2 ^ (- e))) as Hc.
  { rewrite H0 in Hlo. rewrite H1 in Hhi. destruct Hy as [Hy|[->| ->]]; [|rewrite H0; by eauto|].
    2:{ right. rewrite H1. by eexists _, _. }
    destruct y as [s|[]| |[] m e] eqn:E; try done; [by eauto|].
    right. exists m, e. symmetry in Hy. apply from_bits_finite in Hy.
    apply f32_leb_finite in Hhi as [He|[-> Hle]]; split_and!; [done|lia| |done|lia|done].
    transitivity (2 ^ 24); [lia|]. apply Z.pow_le_mono_r; lia. }
  destruct Hc as [[s Hs]|(m & e & Hf & He & Hm)].
  - left. exists s. subst x. by rewrite Hs.
  - destruct (f32_sqrt_within_1 m e He Hm) as [Hz|(m' & e' & Hw & He' & Hm')].
    + left. exists false. subst x. by rewrite Hf.
    + right. exists m', e'. subst x. rewrite Hf. split_and!; [done|lia|].
      etransitivity; [exact Hm'|]. change (Zpos (2 ^ 23)) with (2 ^ 23).
      rewrite <- Z.pow_add_r by lia. apply Z.pow_le_mono_r; lia.
Qed.

Lemma norm_to_db_range v : db_in_range (norm_to_db (from_bits v)).
Proof.
  unfold norm_to_db, linear_remap. pose proof (skewed_cases v) as Hx. cbn zeta in Hx.
  set (x := f32_sqrt _) in *. destruct literals as (Hmin & Hmax & Hr & H1 & H0 & Hdiv).
  rewrite Hdiv. replace (f32_eqb (f32_lit 1) (f32_lit 0)) with false by (by rewrite H0, H1).
  unfold db_in_range. destruct Hx as [[s ->]|(m & e & -> & He & Hm)].
  - destruct s; by rewrite H0, Hmin, Hmax, Hr.
  - rewrite H0, Hmin, Hmax, Hr. change (f32_sub (S754_finite false m e) _) with (S754_finite false m e).
    by apply f32_mul_add_neg.
Qed.

(** C22: whatever gain a control holds and whatever number the HAL asks to
    convert, infinities and NaNs included, on every platform: the decibels the
    driver computes are between [VOL_MIN_DB] and [VOL_MAX_DB], and a control of
    the volume table always has them. *)
Theorem volumes_in_decibel_range (d : Driver) (index : Z) (v : f32) :
  0 <= index →
  (index < Z.of_nat (length (OUTPUT_VOLUME d)) ↔ is_Some (volume_control_db_val d index)) ∧
  (∀ db, volume_control_db_val d index = Some db → db_in_range db) ∧
  db_in_range (norm_to_db (from_bits v)).
Proof.
  intros Hi. split_and!.
  - unfold volume_control_db_val. rewrite fmap_is_Some, lookup_lt_is_Some. lia.
  - intros db Hdb. pose proof (volume_control_db_val_range d index) as Hr. by rewrite Hdb in Hr.
  - apply norm_to_db_range.
Qed.

(** C23: [db_to_norm], with which the driver answers the HAL's conversions from
    decibels, is constant: its clamp has the two bounds the wrong way round, so
    every volume is reported as 1, the maximum. *)
Theorem db_to_norm_constant (db : spec_float) : db_to_norm db = f32_lit 1.
Proof.
  unfold db_to_norm.
  destruct (f32_min_spec db VOL_MIN_DB eq_refl) as [Hle Hor].
  assert (f32_max (f32_min db VOL_MIN_DB) VOL_MAX_DB = VOL_MAX_DB) as ->; [|vm_compute; reflexivity].
  destruct literals as (Hmin & Hmax & _). rewrite Hmin, Hmax in *.
  set (c := f32_min _ _) in *. unfold f32_max.
  by destruct c as [|[]| |[] m e] eqn:E.
Qed.
End range.

Section witnesses.
#[local] Instance identity_platform : FloatPlatform :=
  Build_FloatPlatform (λ x _, x) (λ x, x) (λ _ _, true) (λ _ _, true).

(** The master volume after loading, and a NaN as the number to convert. *)
Lemma volumes_in_decibel_range_witness :
  (0 < 17 ↔ is_Some (volume_control_db_val Driver_init 0)) ∧
  (∀ db, volume_control_db_val Driver_init 0 = Some db → db_in_range db) ∧
  db_in_range (norm_to_db (from_bits (MkFloat 0x7FC00000))).
Proof.
  apply (volumes_in_decibel_range Driver_init 0 (MkFloat 0x7FC00000)).
  vm_compute. discriminate.
Defined.
End witnesses.
