(* ===== verification/CoreAudioMemory.v ===== *)
(** * Typed values in the HAL's memory: [syfala_coreaudio/src/lib.rs]

    The HAL passes untyped buffers to the property callbacks, and the driver
    reads and writes typed values there.  A buffer is the list of its bytes; an
    access outside of it is undefined behaviour.  A type's size and
    representation is the class [Repr]: little-endian for the primitive types;
    the structs of the [coreaudio_sys] bindings, whose layout the repository
    does not fix, are the class [CoreAudioLayout]. *)

From S2P Require Import Prelude SampleType Float32.

(** ** Representations *)

Class Repr (T : Type) := { size_of : Z; bytes_of : T → list Z }.
Arguments size_of T {_}.

#[export] Instance Repr_uint w : Repr (uint w) :=
  {| size_of := w / 8; bytes_of := uint_to_le_bytes |}.
#[export] Instance Repr_sint w : Repr (sint w) :=
  {| size_of := w / 8; bytes_of := sint_to_le_bytes |}.
#[export] Instance Repr_float w : Repr (float w) :=
  {| size_of := w / 8; bytes_of := float_to_le_bytes |}.
(** A computed [f32]. *)
#[export] Instance Repr_spec_float : Repr spec_float :=
  {| size_of := 4; bytes_of x := float_to_le_bytes (to_bits x) |}.
(** [Option<NonZeroU32>]: [None] is the zero. *)
#[export] Instance Repr_nonzero : Repr (option u32) :=
  {| size_of := 4; bytes_of x := uint_to_le_bytes (default (MkUint 0) x) |}.

(** An address of a CFString object. *)
Abbreviation CFStringRef := (uint 64).

(** ** Structs of the bindings *)

Record AudioObjectPropertyAddress := MkAddress {
  mSelector : Z;
  mScope : Z;
  mElement : Z;
}.

Record AudioValueRange := MkRange { mMinimum : f64; mMaximum : f64 }.

Record AudioStreamBasicDescription := MkBasicDescription {
  mSampleRate : f64;
  mFormatID : Z;
  mFormatFlags : Z;
  mBytesPerPacket : Z;
  mFramesPerPacket : Z;
  mBytesPerFrame : Z;
  mChannelsPerFrame : Z;
  mBitsPerChannel : Z;
  mReserved : Z;
}.

Record AudioStreamRangedDescription := MkRangedDescription {
  mFormat : AudioStreamBasicDescription;
  mSampleRateRange : AudioValueRange;
}.

Record AudioChannelDescription := MkChannelDescription {
  mChannelLabel : Z;
  mChannelFlags : Z;
  mCoordinates : list f32;
}.

(** [AudioChannelLayout] is a header of three numbers, then the descriptions. *)
Class CoreAudioLayout := {
  #[global] Repr_AudioValueRange :: Repr AudioValueRange;
  #[global] Repr_AudioStreamBasicDescription :: Repr AudioStreamBasicDescription;
  #[global] Repr_AudioStreamRangedDescription :: Repr AudioStreamRangedDescription;
  #[global] Repr_AudioChannelDescription :: Repr AudioChannelDescription;
  offset_of_mChannelDescriptions : Z;
  layout_header_bytes (mChannelLayoutTag mChannelBitmap mNumberChannelDescriptions : Z) : list Z;
}.

(** ** Accesses *)

Definition write_at (buf : list Z) (off : Z) (bs : list Z) : exec (list Z) :=
  if (0 <=? off) && (off + Z.of_nat (length bs) <=? Z.of_nat (length buf)) then
    Ret (take (Z.to_nat off) buf ++ bs ++ drop (Z.to_nat off + length bs) buf)
  else UB.

Definition read_at (buf : list Z) (off n : Z) : exec (list Z) :=
  if (0 <=? off) && (off + n <=? Z.of_nat (length buf)) then
    Ret (take (Z.to_nat n) (drop (Z.to_nat off) buf))
  else UB.

(** [ptr.cast::<UInt32>().read()] and the same for [Float32] and pointers. *)
Definition read_u32 (buf : list Z) : exec Z := bs ← read_at buf 0 4; Ret (from_le bs).
Definition read_f32 (buf : list Z) : exec f32 := bs ← read_at buf 0 4; Ret (MkFloat (from_le bs)).
Definition read_ptr (buf : list Z) : exec Z := bs ← read_at buf 0 8; Ret (from_le bs).

(** ** Writing values one after another *)

Section write.
Context {T : Type} `{Repr T}.

Fixpoint write_values (ptr : list Z) (count : Z) (values : list T) : exec (Z * list Z) :=
  match values with
  | [] => Ret (count, ptr)
  | v :: values =>
      ptr ← write_at ptr (count * size_of T) (bytes_of v);
      count ← strict_add usize_MAX count 1;
      write_values ptr count values
  end.

Definition write_get_size (ptr : list Z) (bytes_available : Z) (values : list T)
    : exec (Z * list Z) :=
  let item_size := size_of T in
  n ← (if item_size =? 0 then Panic else Ret (bytes_available / item_size));
  '(count, ptr) ← write_values ptr 0 (take (Z.to_nat n) values);
  size ← strict_mul usize_MAX count item_size;
  size ← try_into u32_MAX size;
  Ret (size, ptr).

Definition write_once_get_size (ptr : list Z) (value : T) : exec (Z * list Z) :=
  write_get_size ptr (size_of T) [value].
End write.

(** ** What a representation promises *)

Class LawfulRepr (T : Type) `{Repr T} : Prop := {
  size_of_range : 0 < size_of T <= u32_MAX;
  length_bytes_of v : Z.of_nat (length (bytes_of v)) = size_of T;
}.

Class LawfulLayout `{CoreAudioLayout} : Prop := {
  #[global] LawfulRepr_AudioValueRange :: LawfulRepr AudioValueRange;
  #[global] LawfulRepr_AudioStreamBasicDescription :: LawfulRepr AudioStreamBasicDescription;
  #[global] LawfulRepr_AudioStreamRangedDescription :: LawfulRepr AudioStreamRangedDescription;
  #[global] LawfulRepr_AudioChannelDescription :: LawfulRepr AudioChannelDescription;
  offset_of_range :
    0 <= offset_of_mChannelDescriptions ∧
    size_of AudioChannelDescription + offset_of_mChannelDescriptions <= u32_MAX;
  length_layout_header_bytes a b c :
    Z.of_nat (length (layout_header_bytes a b c)) = offset_of_mChannelDescriptions;
}.

#[export] Instance LawfulRepr_u32 : LawfulRepr u32.
Proof. split; [vm_compute; split; congruence|]. intros v. reflexivity. Qed.
#[export] Instance LawfulRepr_u64 : LawfulRepr u64.
Proof. split; [vm_compute; split; congruence|]. intros v. reflexivity. Qed.
#[export] Instance LawfulRepr_i32 : LawfulRepr i32.
Proof. split; [vm_compute; split; congruence|]. intros v. reflexivity. Qed.
#[export] Instance LawfulRepr_f32 : LawfulRepr f32.
Proof. split; [vm_compute; split; congruence|]. intros v. reflexivity. Qed.
#[export] Instance LawfulRepr_f64 : LawfulRepr f64.
Proof. split; [vm_compute; split; congruence|]. intros v. reflexivity. Qed.
#[export] Instance LawfulRepr_spec_float : LawfulRepr spec_float.
Proof. split; [vm_compute; split; congruence|]. intros v. reflexivity. Qed.
#[export] Instance LawfulRepr_nonzero : LawfulRepr (option u32).
Proof. split; [vm_compute; split; congruence|]. intros v. reflexivity. Qed.

(** ** Lemmas *)

Lemma write_at_Ret buf off bs :
  0 <= off → off + Z.of_nat (length bs) <= Z.of_nat (length buf) →
  write_at buf off bs = Ret (take (Z.to_nat off) buf ++ bs ++ drop (Z.to_nat off + length bs) buf).
Proof.
  intros. unfold write_at.
  by rewrite (proj2 (Z.leb_le 0 off)), (proj2 (Z.leb_le (off + _) _)) by lia.
Qed.

Lemma write_at_0 buf bs :
  Z.of_nat (length bs) <= Z.of_nat (length buf) →
  write_at buf 0 bs = Ret (bs ++ drop (length bs) buf).
Proof. intros. by rewrite write_at_Ret by lia. Qed.

Lemma read_at_Ret buf n :
  n <= Z.of_nat (length buf) → read_at buf 0 n = Ret (take (Z.to_nat n) buf).
Proof. intros. unfold read_at. by rewrite (proj2 (Z.leb_le (0 + n) _)) by lia. Qed.

Section write_lemmas.
Context {T : Type} `{LawfulRepr T}.

Lemma length_concat_bytes (values : list T) :
  Z.of_nat (length (values ≫= bytes_of)) = Z.of_nat (length values) * size_of T.
Proof.
  induction values as [|v values IH]; [done|].
  rewrite bind_cons, length_app, Nat2Z.inj_add, length_bytes_of, IH. cbn [length]. lia.
Qed.

(** The values end up one after another, and nothing else changes. *)
Lemma write_values_Ret (done rest : list Z) count (values : list T) :
  0 <= count → Z.of_nat (length done) = count * size_of T →
  Z.of_nat (length values) * size_of T <= Z.of_nat (length rest) →
  count + Z.of_nat (length values) <= usize_MAX →
  write_values (done ++ rest) count values =
    Ret (count + Z.of_nat (length values),
         done ++ (values ≫= bytes_of) ++ drop (length (values ≫= bytes_of)) rest).
Proof.
  pose proof (size_of_range (T := T)) as Hs. revert done rest count.
  induction values as [|v values IH]; intros done rest count Hc Hd Hr Hmax.
  - cbn [write_values]. by rewrite Z.add_0_r.
  - cbn [write_values length] in *.
    assert (Z.of_nat (length rest) >= size_of T) by nia.
    pose proof (length_bytes_of v) as Hv.
    rewrite write_at_Ret by (rewrite ?length_app; lia). rewrite bind_Ret.
    rewrite strict_add_Ret, bind_Ret by lia.
    replace (Z.to_nat (count * size_of T)) with (length done) by lia.
    rewrite take_app_length, drop_app_add', app_assoc by done.
    rewrite (IH (done ++ bytes_of v)).
    + rewrite bind_cons, length_app, drop_drop, <- !app_assoc. f_equal. f_equal. lia.
    + lia.
    + rewrite length_app. lia.
    + rewrite length_drop. lia.
    + lia.
Qed.

Lemma write_get_size_Ret (ptr : list Z) bytes_available (values : list T) :
  0 <= bytes_available <= u32_MAX → bytes_available <= Z.of_nat (length ptr) →
  let written := take (Z.to_nat (bytes_available / size_of T)) values ≫= bytes_of in
  write_get_size ptr bytes_available values =
    Ret (Z.of_nat (length written), written ++ drop (length written) ptr) ∧
  Z.of_nat (length written) <= bytes_available.
Proof.
  intros Hb Hp written. pose proof (size_of_range (T := T)) as Hs.
  pose proof (Z.mul_div_le bytes_available (size_of T)).
  assert (0 <= bytes_available / size_of T) by (apply Z.div_pos; lia).
  set (n := bytes_available / size_of T) in *.
  assert (Z.of_nat (length (take (Z.to_nat n) values)) <= n) by (rewrite length_take; lia).
  assert (Z.of_nat (length written) <= bytes_available) as Hw.
  { subst written. rewrite length_concat_bytes. nia. }
  split; [|done]. assert (n <= u32_MAX) by nia.
  unfold write_get_size. rewrite (proj2 (Z.eqb_neq (size_of T) 0)), bind_Ret by lia. fold n.
  rewrite (write_values_Ret [] ptr 0) by (cbn [length]; bounds || nia).
  rewrite bind_Ret, Z.add_0_l. fold written.
  pose proof (length_concat_bytes (take (Z.to_nat n) values)) as Hl. fold written in Hl.
  rewrite strict_mul_Ret, <- Hl, bind_Ret, try_into_Ret by bounds. done.
Qed.

(** All of the values, when there is room for all. *)
Lemma write_get_size_all (ptr : list Z) bytes_available (values : list T) :
  bytes_available <= u32_MAX → bytes_available <= Z.of_nat (length ptr) →
  Z.of_nat (length values) * size_of T <= bytes_available →
  write_get_size ptr bytes_available values =
    Ret (Z.of_nat (length values) * size_of T,
         (values ≫= bytes_of) ++ drop (length (values ≫= bytes_of)) ptr).
Proof.
  intros Hb Hp Hv. pose proof (size_of_range (T := T)) as Hs.
  destruct (write_get_size_Ret ptr bytes_available values) as [-> _]; [lia|done|].
  rewrite take_ge.
  - by rewrite length_concat_bytes.
  - apply Nat2Z.inj_le. rewrite Z2Nat.id by (apply Z.div_pos; lia).
    apply Z.div_le_lower_bound; lia.
Qed.

Lemma write_once_get_size_Ret (ptr : list Z) (value : T) :
  size_of T <= Z.of_nat (length ptr) →
  write_once_get_size ptr value =
    Ret (size_of T, bytes_of value ++ drop (length (bytes_of value)) ptr).
Proof.
  intros Hp. pose proof (size_of_range (T := T)) as Hs. unfold write_once_get_size.
  rewrite write_get_size_all by (cbn [length]; lia).
  rewrite bind_singleton. cbn [length]. do 2 f_equal. lia.
Qed.
End write_lemmas.
