(* ===== verification/CoreAudioProperties.v ===== *)
(** * Properties of the CoreAudio driver: [syfala_coreaudio/src/lib.rs]

    The HAL learns everything about the driver's objects through five
    callbacks on numbered properties.  Each object has a table of properties,
    and an entry of a table says how large the data is, how it is written to
    the HAL's buffer and, for the settable ones, how it is read from there.
    The definitions follow the code: one [PropertyData] per arm of the tables,
    the tables, the lookup, the callbacks.

    The numbers of the bindings are the class [PropertyNumbers]; CFString
    objects live on a heap that is not part of the driver ([CoreFoundation]).
    [CoreAudioTables.v] shows that the tables are in order, [CoreAudioHAL.v]
    what the HAL can rely on. *)

From stdpp Require Import strings pretty.
From S2P Require Import Prelude SampleType Float32 CoreAudio CoreAudioVolume CoreAudioMemory.

(** ** Numbers and functions of the bindings *)

Class PropertyNumbers := {
  kAudioHardwareUnknownPropertyError : Z;
  kAudioHardwareBadPropertySizeError : Z;
  kAudioHardwareUnspecifiedError : Z;

  kAudioObjectPlugInObject : Z;
  kAudioObjectUnknown : Z;
  kAudioObjectPropertyScopeGlobal : Z;
  kAudioObjectPropertyScopeOutput : Z;
  kAudioObjectPropertyElementMain : Z;

  kAudioObjectClassID : Z;
  kAudioPlugInClassID : Z;
  kAudioDeviceClassID : Z;
  kAudioStreamClassID : Z;
  kAudioLevelControlClassID : Z;
  kAudioVolumeControlClassID : Z;
  kAudioBooleanControlClassID : Z;
  kAudioMuteControlClassID : Z;

  kAudioDeviceTransportTypeAVB : Z;
  kAudioStreamTerminalTypeUnknown : Z;
  kAudioChannelLayoutTag_UseChannelDescriptions : Z;
  kAudioFormatLinearPCM : Z;
  kAudioFormatFlagsNativeFloatPacked : Z;

  kAudioObjectPropertyBaseClass : Z;
  kAudioObjectPropertyClass : Z;
  kAudioObjectPropertyOwner : Z;
  kAudioObjectPropertyName : Z;
  kAudioObjectPropertyManufacturer : Z;
  kAudioObjectPropertyElementName : Z;
  kAudioObjectPropertyOwnedObjects : Z;
  kAudioObjectPropertyControlList : Z;
  kAudioPlugInPropertyDeviceList : Z;
  kAudioPlugInPropertyTranslateUIDToDevice : Z;
  kAudioPlugInPropertyResourceBundle : Z;
  kAudioDevicePropertyDeviceCanBeDefaultDevice : Z;
  kAudioDevicePropertyDeviceCanBeDefaultSystemDevice : Z;
  kAudioDevicePropertyPreferredChannelLayout : Z;
  kAudioDevicePropertySafetyOffset : Z;
  kAudioDevicePropertyLatency : Z;
  kAudioDevicePropertyDeviceUID : Z;
  kAudioDevicePropertyModelUID : Z;
  kAudioDevicePropertyTransportType : Z;
  kAudioDevicePropertyRelatedDevices : Z;
  kAudioDevicePropertyClockDomain : Z;
  kAudioDevicePropertyDeviceIsAlive : Z;
  kAudioDevicePropertyDeviceIsRunning : Z;
  kAudioDevicePropertyNominalSampleRate : Z;
  kAudioDevicePropertyAvailableNominalSampleRates : Z;
  kAudioDevicePropertyIsHidden : Z;
  kAudioDevicePropertyZeroTimeStampPeriod : Z;
  kAudioDevicePropertyStreams : Z;
  kAudioStreamPropertyDirection : Z;
  kAudioStreamPropertyTerminalType : Z;
  kAudioStreamPropertyStartingChannel : Z;
  kAudioStreamPropertyLatency : Z;
  kAudioStreamPropertyAvailableVirtualFormats : Z;
  kAudioStreamPropertyAvailablePhysicalFormats : Z;
  kAudioStreamPropertyVirtualFormat : Z;
  kAudioStreamPropertyPhysicalFormat : Z;
  kAudioStreamPropertyIsActive : Z;
  kAudioControlPropertyScope : Z;
  kAudioControlPropertyElement : Z;
  kAudioLevelControlPropertyScalarValue : Z;
  kAudioLevelControlPropertyDecibelValue : Z;
  kAudioLevelControlPropertyDecibelRange : Z;
  kAudioLevelControlPropertyConvertScalarToDecibels : Z;
  kAudioLevelControlPropertyConvertDecibelsToScalar : Z;
  kAudioBooleanControlPropertyValue : Z;
}.

(** CFString objects: created from bytes (0 is the null pointer) and compared.
    [cf_contents] is the text of the live object at an address, if there is
    one; [cf_refs] is the number of references to it that whoever created it
    has not released yet. *)
Class CoreFoundation := {
  CFHeap : Type;
  CFStringCreateWithBytes : CFHeap → string → Z * CFHeap;
  CFStringCompare : CFHeap → Z → Z → Z;
  kCFCompareEqualTo : Z;
  cf_contents : CFHeap → Z → option string;
  cf_refs : CFHeap → Z → Z;
}.

(** ** Shapes of properties *)

(** [v..=v], as a pair of bounds. *)
Definition s (v : Z) : Z * Z := (v, v).

Inductive Qualifier (T U : Type) :=
  | Needed (t : T)
  | Unneeded (u : U).
Arguments Needed {T U} t.
Arguments Unneeded {T U} u.

(** A call of the host's [PropertiesChanged]. *)
Record Notification := MkNotification {
  n_host : Z;
  n_object : Z;
  n_number_addresses : Z;
  n_addresses : list AudioObjectPropertyAddress;
}.

Definition CLASS_ID_SIZE : Z := size_of u32.
Definition OBJECT_ID_SIZE : Z := size_of u32.
Definition CFSTRING_SIZE : Z := size_of CFStringRef.

Definition DEVICE_UID : string := "UID".
Definition DEVICE_MODEL_UID : string := "ModelUID".

Definition set_stream_active (d : Driver) (b : bool) : Driver :=
  MkDriver (PLUGIN_REF_COUNT d) (HOST d) b (DEVICE_IO d) (OUTPUT_VOLUME d) (OUTPUT_MUTE d).
Definition set_volume (d : Driver) (l : list f32) : Driver :=
  MkDriver (PLUGIN_REF_COUNT d) (HOST d) (IS_OUTPUT_STREAM_ACTIVE d) (DEVICE_IO d) l (OUTPUT_MUTE d).
Definition set_mute (d : Driver) (l : list bool) : Driver :=
  MkDriver (PLUGIN_REF_COUNT d) (HOST d) (IS_OUTPUT_STREAM_ACTIVE d) (DEVICE_IO d)
    (OUTPUT_VOLUME d) l.

(** [UInt32::from(bool)] *)
Definition u32_from_bool (b : bool) : u32 := MkUint (if b then 1 else 0).

Section properties.
Context `{CoreAudioSys, PropertyNumbers, CoreFoundation, CoreAudioLayout, FloatPlatform}.
(** Whether the host interface at an address has a [PropertiesChanged]. *)
Context (host_has_PropertiesChanged : Z → bool).

Definition PLUGIN_ID : Z := kAudioObjectPlugInObject.

Definition FORMAT : AudioStreamRangedDescription := {|
  mFormat := {|
    mSampleRate := u64_as_f64 SAMPLE_RATE;
    mFormatID := kAudioFormatLinearPCM;
    mFormatFlags := kAudioFormatFlagsNativeFloatPacked;
    mBytesPerPacket := N_CHANNELS * size_of f32;
    mFramesPerPacket := 1;
    mBytesPerFrame := N_CHANNELS * size_of f32;
    mChannelsPerFrame := N_CHANNELS;
    mBitsPerChannel := 8 * size_of f32;
    mReserved := 0;
  |};
  mSampleRateRange := MkRange (u64_as_f64 SAMPLE_RATE) (u64_as_f64 SAMPLE_RATE);
|}.

Definition cf_string (h : CFHeap) (str : string) : Z * CFHeap := CFStringCreateWithBytes h str.

(** Comparing is defined for live objects only; null and dangling references
    are undefined behaviour. *)
Definition cf_string_compare (h : CFHeap) (p q : Z) : exec Z :=
  match cf_contents h p, cf_contents h q with
  | Some _, Some _ => Ret (CFStringCompare h p q)
  | _, _ => UB
  end.

(** What a table entry does with the HAL's buffer: the number of bytes
    written, the heap and the buffer after it.  A qualifier is the data the HAL
    passes along with a question ([None] for a null pointer). *)
Definition sizer : Type := Z → AudioObjectPropertyAddress → exec (Z * Z).
Definition writer (Q : Type) : Type :=
  Driver → CFHeap → Z → AudioObjectPropertyAddress → Z → Q → Z → list Z →
  exec (Z * CFHeap * list Z).
(** What it does with data the HAL sets: the driver's state after it and the
    notifications sent. *)
Definition reader (Q : Type) : Type :=
  Driver → Z → AudioObjectPropertyAddress → Z → Q → Z → list Z →
  exec (Driver * list Notification).

Record PropertyData := MkPropertyData {
  get_data_size : sizer;
  write_data : Qualifier (sizer * writer (list Z)) (writer (option (list Z)));
  read_data : option (Qualifier (reader (list Z)) (reader (option (list Z))));
}.

(** The forms most entries have. *)
Definition read_only (size : exec Z) (w : writer (option (list Z))) : PropertyData := {|
  get_data_size := λ _ _, n ← size; Ret (s n);
  write_data := Unneeded w;
  read_data := None;
|}.

(** Write one value, which may depend on the state and the object. *)
Definition once {Q T} `{Repr T} (v : Driver → Z → exec T) : writer Q :=
  λ d h id _ _ _ _ ptr,
    v ← v d id;
    '(n, ptr) ← write_once_get_size ptr v;
    Ret (n, h, ptr).
Definition once_const {Q T} `{Repr T} (v : T) : writer Q := once (λ _ _, Ret v).

(** Write a new CFString. *)
Definition once_cf_string {Q} (str : AudioObjectPropertyAddress → string) : writer Q :=
  λ _ h _ addr _ _ _ ptr,
    let (p, h) := cf_string h (str addr) in
    '(n, ptr) ← write_once_get_size ptr (MkUint p : CFStringRef);
    Ret (n, h, ptr).

(** Write as much of a list of object numbers, or of structs, as fits. *)
Definition all_of {Q T} `{Repr T} (values : list T) : writer Q :=
  λ _ h _ _ _ _ size ptr,
    size ← try_into usize_MAX size;
    '(n, ptr) ← write_get_size ptr size values;
    Ret (n, h, ptr).

Definition nothing {Q} : writer Q := λ _ h _ _ _ _ _ ptr, Ret (0, h, ptr).

(** [size_of::<T>().try_into().unwrap()] *)
Definition size_u32 (T : Type) `{Repr T} : exec Z := try_into u32_MAX (size_of T).

Definition class_id (c : Z) : PropertyData := read_only (Ret CLASS_ID_SIZE) (once_const (MkUint c : u32)).
Definition object_id (o : Z) : PropertyData := read_only (Ret OBJECT_ID_SIZE) (once_const (MkUint o : u32)).
Definition u32_property (v : Z) : PropertyData := read_only (size_u32 u32) (once_const (MkUint v : u32)).
Definition i32_property (v : Z) : PropertyData := read_only (size_u32 u32) (once_const (MkSint v : i32)).
Definition cf_string_property (str : string) : PropertyData :=
  read_only (Ret CFSTRING_SIZE) (once_cf_string (λ _, str)).
Definition object_ids (n : Z) (ids : list Z) : PropertyData :=
  read_only (strict_mul u32_MAX n OBJECT_ID_SIZE) (all_of (MkUint <$> ids : list u32)).

(** Streams and controls own nothing. *)
Definition no_owned_objects : PropertyData := {|
  get_data_size := λ _ _, n ← strict_mul u32_MAX OBJECT_ID_SIZE 0; Ret (0, n);
  write_data := Unneeded nothing;
  read_data := None;
|}.

Definition in_output_scope (addr : AudioObjectPropertyAddress) : bool :=
  bool_decide (mScope addr ∈ [kAudioObjectPropertyScopeGlobal; kAudioObjectPropertyScopeOutput]).

(** [FIRST_CTRL_ID..=LAST_CTRL_ID] *)
Definition control_ids : list Z := seqZ FIRST_CTRL_ID (LAST_CTRL_ID - FIRST_CTRL_ID + 1).

(** ** The plug-in *)

Definition plugin_BaseClass : PropertyData := class_id kAudioObjectClassID.
Definition plugin_Class : PropertyData := class_id kAudioPlugInClassID.
Definition plugin_Owner : PropertyData := object_id kAudioObjectUnknown.
Definition plugin_Manufacturer : PropertyData := cf_string_property "GRAME CNCM".
Definition plugin_OwnedObjects : PropertyData := object_ids 1 [DEVICE_ID].

Definition translate_uid : writer (list Z) :=
  λ _ h _ _ _ qual_data _ out_data,
    uid ← read_ptr qual_data;
    let (p, h) := cf_string h DEVICE_UID in
    compare_res ← cf_string_compare h uid p;
    let id := if compare_res =? kCFCompareEqualTo then DEVICE_ID else kAudioObjectUnknown in
    out_data ← write_at out_data 0 (bytes_of (MkUint id : u32));
    Ret (OBJECT_ID_SIZE, h, out_data).
Definition plugin_TranslateUIDToDevice : PropertyData := {|
  get_data_size := λ _ _, Ret (s OBJECT_ID_SIZE);
  write_data := Needed (λ _ _, Ret (s CFSTRING_SIZE), translate_uid);
  read_data := None;
|}.
Definition plugin_ResourceBundle : PropertyData := cf_string_property "".

Definition find_plugin_property_data (address : AudioObjectPropertyAddress) : option PropertyData :=
  if negb (mScope address =? kAudioObjectPropertyScopeGlobal)
     || negb (mElement address =? kAudioObjectPropertyElementMain) then None else
  let sel := mSelector address in
  if sel =? kAudioObjectPropertyBaseClass then Some plugin_BaseClass else
  if sel =? kAudioObjectPropertyClass then Some plugin_Class else
  if sel =? kAudioObjectPropertyOwner then Some plugin_Owner else
  if sel =? kAudioObjectPropertyManufacturer then Some plugin_Manufacturer else
  if (sel =? kAudioObjectPropertyOwnedObjects) || (sel =? kAudioPlugInPropertyDeviceList)
    then Some plugin_OwnedObjects else
  if sel =? kAudioPlugInPropertyTranslateUIDToDevice then Some plugin_TranslateUIDToDevice else
  if sel =? kAudioPlugInPropertyResourceBundle then Some plugin_ResourceBundle else
  None.

(** ** The device *)

Definition element_name (addr : AudioObjectPropertyAddress) : string :=
  let i := mElement addr in
  if i =? kAudioObjectPropertyElementMain then "Master" else
  if (1 <=? i) && (i <=? N_CHANNELS) then pretty i else "<Unknown>".
Definition device_ElementName : PropertyData :=
  read_only (Ret CFSTRING_SIZE) (once_cf_string element_name).

Definition device_CanBeDefaultDevice : PropertyData := u32_property 1.
Definition device_CanBeDefaultSystemDevice : PropertyData := u32_property 1.

Definition channel_layout_size : exec Z :=
  n ← strict_mul usize_MAX (size_of AudioChannelDescription) 1;
  n ← strict_add usize_MAX n offset_of_mChannelDescriptions;
  try_into u32_MAX n.
Definition write_channel_layout {Q} : writer Q :=
  λ _ h _ _ _ _ _ out_ptr,
    out_ptr ← write_at out_ptr 0
      (layout_header_bytes kAudioChannelLayoutTag_UseChannelDescriptions 0 1);
    out_ptr ← write_at out_ptr offset_of_mChannelDescriptions
      (bytes_of (MkChannelDescription 1 0 [MkFloat 0; MkFloat 0; MkFloat 0]));
    n ← channel_layout_size;
    Ret (n, h, out_ptr).
Definition device_PreferredChannelLayout : PropertyData :=
  read_only channel_layout_size write_channel_layout.

Definition device_BaseClass : PropertyData := class_id kAudioObjectClassID.
Definition device_SafetyOffset : PropertyData := u32_property 0.
Definition device_Latency : PropertyData := u32_property 0.
Definition device_Class : PropertyData := class_id kAudioDeviceClassID.
Definition device_Owner : PropertyData := object_id PLUGIN_ID.
Definition device_Name : PropertyData := cf_string_property "YESSSS".
Definition device_Manufacturer : PropertyData := cf_string_property "GRAME".
Definition device_OwnedObjects : PropertyData :=
  read_only (strict_mul u32_MAX N_DEVICE_OWNED_OBJS OBJECT_ID_SIZE)
    (λ d h id addr qs q size ptr,
       if in_output_scope addr
       then all_of (MkUint <$> (STREAM_ID :: control_ids) : list u32) d h id addr qs q size ptr
       else nothing d h id addr qs q size ptr).
Definition device_ControlList : PropertyData := object_ids N_CONTROLS control_ids.
Definition device_DeviceUID : PropertyData := cf_string_property DEVICE_UID.
Definition device_ModelUID : PropertyData := cf_string_property DEVICE_MODEL_UID.
Definition device_TransportType : PropertyData := u32_property kAudioDeviceTransportTypeAVB.
Definition device_RelatedDevices : PropertyData :=
  read_only (Ret OBJECT_ID_SIZE) (all_of [MkUint DEVICE_ID : u32]).
Definition device_ClockDomain : PropertyData := u32_property 0.
Definition device_DeviceIsAlive : PropertyData := u32_property 1.
Definition device_DeviceIsRunning : PropertyData :=
  read_only (size_u32 u32)
    (once (λ d _, Ret (MkUint <$> n_active_clients (DEVICE_IO d) : option u32))).
Definition device_NominalSampleRate : PropertyData :=
  read_only (size_u32 f64) (once_const (u64_as_f64 SAMPLE_RATE)).
Definition device_AvailableNominalSampleRates : PropertyData :=
  read_only (n ← strict_mul usize_MAX (size_of AudioValueRange) 1; try_into u32_MAX n)
    (all_of [MkRange (u64_as_f64 SAMPLE_RATE) (u64_as_f64 SAMPLE_RATE)]).
Definition device_IsHidden : PropertyData := u32_property 0.
Definition device_ZeroTimeStampPeriod : PropertyData := u32_property FRAMES_PER_TIMESTAMP.
Definition device_Streams : PropertyData :=
  read_only (n ← strict_mul usize_MAX (size_of u32) 1; try_into u32_MAX n)
    (λ d h id addr qs q size ptr,
       if in_output_scope addr
       then all_of [MkUint STREAM_ID : u32] d h id addr qs q size ptr
       else nothing d h id addr qs q size ptr).

(** The properties that exist for the output and the global scope only. *)
Definition find_device_scoped_property (address : AudioObjectPropertyAddress) : option PropertyData :=
  if in_output_scope address then
    let sel := mSelector address in
    if sel =? kAudioDevicePropertyDeviceCanBeDefaultDevice then Some device_CanBeDefaultDevice else
    if sel =? kAudioDevicePropertyDeviceCanBeDefaultSystemDevice
      then Some device_CanBeDefaultSystemDevice else
    if sel =? kAudioDevicePropertyPreferredChannelLayout then Some device_PreferredChannelLayout else
    None
  else None.

Definition find_device_property_data (address : AudioObjectPropertyAddress) : option PropertyData :=
  let sel := mSelector address in
  let elem := mElement address in
  if (sel =? kAudioObjectPropertyElementName) && ((0 <=? elem) && (elem <=? N_CHANNELS))
    then Some device_ElementName else
  match find_device_scoped_property address with
  | Some p => Some p
  | None =>
      if sel =? kAudioObjectPropertyBaseClass then Some device_BaseClass else
      if sel =? kAudioDevicePropertySafetyOffset then Some device_SafetyOffset else
      if sel =? kAudioDevicePropertyLatency then Some device_Latency else
      if sel =? kAudioObjectPropertyClass then Some device_Class else
      if sel =? kAudioObjectPropertyOwner then Some device_Owner else
      if sel =? kAudioObjectPropertyName then Some device_Name else
      if sel =? kAudioObjectPropertyManufacturer then Some device_Manufacturer else
      if sel =? kAudioObjectPropertyOwnedObjects then Some device_OwnedObjects else
      if sel =? kAudioObjectPropertyControlList then Some device_ControlList else
      if sel =? kAudioDevicePropertyDeviceUID then Some device_DeviceUID else
      if sel =? kAudioDevicePropertyModelUID then Some device_ModelUID else
      if sel =? kAudioDevicePropertyTransportType then Some device_TransportType else
      if sel =? kAudioDevicePropertyRelatedDevices then Some device_RelatedDevices else
      if sel =? kAudioDevicePropertyClockDomain then Some device_ClockDomain else
      if sel =? kAudioDevicePropertyDeviceIsAlive then Some device_DeviceIsAlive else
      if sel =? kAudioDevicePropertyDeviceIsRunning then Some device_DeviceIsRunning else
      if sel =? kAudioDevicePropertyNominalSampleRate then Some device_NominalSampleRate else
      if sel =? kAudioDevicePropertyAvailableNominalSampleRates
        then Some device_AvailableNominalSampleRates else
      if sel =? kAudioDevicePropertyIsHidden then Some device_IsHidden else
      if sel =? kAudioDevicePropertyZeroTimeStampPeriod then Some device_ZeroTimeStampPeriod else
      if sel =? kAudioDevicePropertyStreams then Some device_Streams else
      None
  end.

(** ** Notifying the host of changes *)

Definition notify (d : Driver) (id : Z) (addrs : list AudioObjectPropertyAddress)
    : exec (list Notification) :=
  match HOST d with
  | Some host =>
      if host_has_PropertiesChanged host then
        n ← try_into u32_MAX (Z.of_nat (length addrs));
        Ret [MkNotification host id n addrs]
      else Ret []
  | None => Ret []
  end.

(** ** The stream *)

Definition stream_BaseClass : PropertyData := class_id kAudioObjectClassID.
Definition stream_Class : PropertyData := class_id kAudioStreamClassID.
Definition stream_Owner : PropertyData := object_id DEVICE_ID.
Definition stream_OwnedObjects : PropertyData := no_owned_objects.
Definition stream_Name : PropertyData := cf_string_property "Output Stream".
Definition stream_Direction : PropertyData := i32_property 0.
Definition stream_TerminalType : PropertyData := u32_property kAudioStreamTerminalTypeUnknown.
Definition stream_StartingChannel : PropertyData := i32_property 1.
Definition stream_Latency : PropertyData := i32_property 0.
Definition stream_AvailableFormats : PropertyData :=
  read_only (n ← strict_mul usize_MAX (size_of AudioStreamRangedDescription) 1; try_into u32_MAX n)
    (all_of [FORMAT]).
Definition stream_Format : PropertyData :=
  read_only (size_u32 AudioStreamBasicDescription) (once_const (mFormat FORMAT)).

Definition set_stream_is_active {Q} : reader Q :=
  λ d obj_id addr _ _ _ data,
    n ← read_u32 data;
    let new_state := negb (n =? 0) in
    let d := set_stream_active d new_state in
    ns ← notify d obj_id [addr];
    Ret (d, ns).
Definition stream_IsActive : PropertyData := {|
  get_data_size := λ _ _, n ← size_u32 u32; Ret (s n);
  write_data := Unneeded (once (λ d _, Ret (u32_from_bool (IS_OUTPUT_STREAM_ACTIVE d))));
  read_data := Some (Unneeded set_stream_is_active);
|}.

Definition find_stream_property_data (address : AudioObjectPropertyAddress) : option PropertyData :=
  let sel := mSelector address in
  if sel =? kAudioObjectPropertyBaseClass then Some stream_BaseClass else
  if sel =? kAudioObjectPropertyClass then Some stream_Class else
  if sel =? kAudioObjectPropertyOwner then Some stream_Owner else
  if sel =? kAudioObjectPropertyOwnedObjects then Some stream_OwnedObjects else
  if sel =? kAudioObjectPropertyName then Some stream_Name else
  if sel =? kAudioStreamPropertyDirection then Some stream_Direction else
  if sel =? kAudioStreamPropertyTerminalType then Some stream_TerminalType else
  if sel =? kAudioStreamPropertyStartingChannel then Some stream_StartingChannel else
  if sel =? kAudioStreamPropertyLatency then Some stream_Latency else
  if (sel =? kAudioStreamPropertyAvailableVirtualFormats)
     || (sel =? kAudioStreamPropertyAvailablePhysicalFormats) then Some stream_AvailableFormats else
  if (sel =? kAudioStreamPropertyVirtualFormat) || (sel =? kAudioStreamPropertyPhysicalFormat)
    then Some stream_Format else
  if sel =? kAudioStreamPropertyIsActive then Some stream_IsActive else
  None.

(** ** Controls *)

Definition control_Owner : PropertyData := object_id DEVICE_ID.
Definition control_OwnedObjects : PropertyData := no_owned_objects.
Definition control_Scope : PropertyData := u32_property kAudioObjectPropertyScopeOutput.
Definition control_Element : PropertyData :=
  read_only (size_u32 u32)
    (once (λ _ id, ctrl_idx ← control_channel_index id; Ret (MkUint ctrl_idx : u32))).

(** [usize::try_from(control_channel_index(id)).unwrap()] *)
Definition control_index (id : Z) : exec Z :=
  ctrl_elem ← control_channel_index id;
  try_into usize_MAX ctrl_elem.

Definition volume_BaseClass : PropertyData := class_id kAudioLevelControlClassID.
Definition volume_Class : PropertyData := class_id kAudioVolumeControlClassID.

(** Store a gain and tell the host that both views of the volume changed. *)
Definition store_gain (d : Driver) (id : Z) (addr : AudioObjectPropertyAddress) (ctrl_idx : Z)
    (new_gain : spec_float) (other_selector : Z) : exec (Driver * list Notification) :=
  _ ← unwrap (OUTPUT_VOLUME d !! Z.to_nat ctrl_idx);
  let d := set_volume d (<[Z.to_nat ctrl_idx := to_bits new_gain]> (OUTPUT_VOLUME d)) in
  ns ← notify d id [addr; MkAddress other_selector (mScope addr) (mElement addr)];
  Ret (d, ns).

Definition set_volume_scalar {Q} : reader Q :=
  λ d id addr _ _ _ data,
    ctrl_idx ← control_index id;
    new_norm_val ← read_f32 data;
    let new_gain := norm_to_gain (from_bits new_norm_val) in
    store_gain d id addr ctrl_idx new_gain kAudioLevelControlPropertyDecibelValue.
Definition volume_ScalarValue : PropertyData := {|
  get_data_size := λ _ _, n ← size_u32 f32; Ret (s n);
  write_data := Unneeded (once (λ d id,
    ctrl_idx ← control_index id; unwrap (volume_control_norm_val d ctrl_idx)));
  read_data := Some (Unneeded set_volume_scalar);
|}.

Definition set_volume_decibels {Q} : reader Q :=
  λ d id addr _ _ _ data,
    ctrl_idx ← control_index id;
    new_db_val ← read_f32 data;
    let new_gain := db_to_gain (from_bits new_db_val) in
    store_gain d id addr ctrl_idx new_gain kAudioLevelControlPropertyScalarValue.
Definition volume_DecibelValue : PropertyData := {|
  get_data_size := λ _ _, n ← size_u32 f32; Ret (s n);
  write_data := Unneeded (once (λ d id,
    ctrl_idx ← control_index id; unwrap (volume_control_db_val d ctrl_idx)));
  read_data := Some (Unneeded set_volume_decibels);
|}.

(** [VOL_MIN_DB as f64] and [VOL_MAX_DB as f64], which are exact. *)
Definition VOL_RANGE : AudioValueRange :=
  MkRange (MkFloat (Z.setbit (float_bits (u64_as_f64 80)) 63)) (u64_as_f64 0).
Definition volume_DecibelRange : PropertyData :=
  read_only (size_u32 AudioValueRange) (once_const VOL_RANGE).

(** The conversions take their argument from the buffer the result goes to. *)
Definition convert {Q} (f : spec_float → spec_float) : writer Q :=
  λ _ h _ _ _ _ _ ptr,
    val ← read_f32 ptr;
    '(n, ptr) ← write_once_get_size ptr (f (from_bits val));
    Ret (n, h, ptr).
Definition volume_ConvertScalarToDecibels : PropertyData :=
  read_only (size_u32 f32) (convert norm_to_db).
Definition volume_ConvertDecibelsToScalar : PropertyData :=
  read_only (size_u32 f32) (convert db_to_norm).

Definition mute_BaseClass : PropertyData := class_id kAudioBooleanControlClassID.
Definition mute_Class : PropertyData := class_id kAudioMuteControlClassID.

Definition set_mute_value {Q} : reader Q :=
  λ d id addr _ _ _ data,
    ctrl_idx ← control_index id;
    new_val ← read_u32 data;
    _ ← unwrap (OUTPUT_MUTE d !! Z.to_nat ctrl_idx);
    let d := set_mute d (<[Z.to_nat ctrl_idx := negb (new_val =? 0)]> (OUTPUT_MUTE d)) in
    ns ← notify d id [addr];
    Ret (d, ns).
Definition mute_Value : PropertyData := {|
  get_data_size := λ _ _, n ← size_u32 u32; Ret (s n);
  write_data := Unneeded (once (λ d id,
    ctrl_index ← control_index id;
    mute_control ← unwrap (OUTPUT_MUTE d !! Z.to_nat ctrl_index);
    Ret (u32_from_bool mute_control)));
  read_data := Some (Unneeded set_mute_value);
|}.

Definition find_control_property_data (is_volume : bool) (_ctrl_index : Z)
    (address : AudioObjectPropertyAddress) : option PropertyData :=
  let sel := mSelector address in
  if sel =? kAudioObjectPropertyOwner then Some control_Owner else
  if sel =? kAudioObjectPropertyOwnedObjects then Some control_OwnedObjects else
  if sel =? kAudioControlPropertyScope then Some control_Scope else
  if sel =? kAudioControlPropertyElement then Some control_Element else
  if is_volume then
    if sel =? kAudioObjectPropertyBaseClass then Some volume_BaseClass else
    if sel =? kAudioObjectPropertyClass then Some volume_Class else
    if sel =? kAudioLevelControlPropertyScalarValue then Some volume_ScalarValue else
    if sel =? kAudioLevelControlPropertyDecibelValue then Some volume_DecibelValue else
    if sel =? kAudioLevelControlPropertyDecibelRange then Some volume_DecibelRange else
    if sel =? kAudioLevelControlPropertyConvertScalarToDecibels
      then Some volume_ConvertScalarToDecibels else
    if sel =? kAudioLevelControlPropertyConvertDecibelsToScalar
      then Some volume_ConvertDecibelsToScalar else
    None
  else
    if sel =? kAudioObjectPropertyBaseClass then Some mute_BaseClass else
    if sel =? kAudioObjectPropertyClass then Some mute_Class else
    if sel =? kAudioBooleanControlPropertyValue then Some mute_Value else
    None.

(** ** Looking a property up *)

(** [ok_or] *)
Definition ok_or {T E} (o : option T) (e : E) : Result T E :=
  match o with Some t => Ok t | None => Err e end.

(** [Err true]: the object does not have the property; [Err false]: there is no
    such object. *)
Definition find_property_data (id : Z) (address : AudioObjectPropertyAddress)
    : exec (Result PropertyData bool) :=
  if id =? PLUGIN_ID then Ret (ok_or (find_plugin_property_data address) true) else
  if id =? DEVICE_ID then Ret (ok_or (find_device_property_data address) true) else
  if id =? STREAM_ID then Ret (ok_or (find_stream_property_data address) true) else
  if audio_object_is_control id then
    ctrl_index ← control_index id;
    Ret (ok_or (find_control_property_data (control_is_volume id) ctrl_index address) true)
  else Ret (Err false).

(** ** The callbacks *)

Context (raw_driver_ptr : Z).

(** [panic::catch_unwind]: [None] for a panic. *)
Definition catch_unwind {A} (m : exec A) : exec (option A) :=
  match m with Ret a => Ret (Some a) | Panic => Ret None | UB => UB end.

Definition lookup_error (b : bool) : Z :=
  if b then kAudioHardwareUnknownPropertyError else kAudioHardwareBadObjectError.

(** The address comes by pointer: [None] is null. *)
Definition has_property (driver obj_id : Z) (addr : option AudioObjectPropertyAddress) : exec bool :=
  if negb (eq_driver_ptr raw_driver_ptr driver) then Ret false else
  match addr with
  | None => Ret false
  | Some addr =>
      res ← catch_unwind (r ← find_property_data obj_id addr;
                          Ret match r with Ok _ => true | Err _ => false end);
      Ret (default false res)
  end.

(** The second result is what is written to the place for the answer. *)
Definition is_property_settable (driver obj_id : Z) (addr : option AudioObjectPropertyAddress)
    (is_settable : Z) : exec (Z * option bool) :=
  if negb (eq_driver_ptr raw_driver_ptr driver) then Ret (kAudioHardwareBadObjectError, None) else
  match addr with
  | None => Ret (kAudioHardwareIllegalOperationError, None)
  | Some addr =>
      if is_settable =? 0 then Ret (kAudioHardwareIllegalOperationError, None) else
      res ← catch_unwind (r ← find_property_data obj_id addr;
                          Ret match r with
                              | Ok data => Ok (bool_decide (is_Some (read_data data)))
                              | Err b => Err b
                              end);
      match res with
      | None => Ret (kAudioHardwareUnspecifiedError, None)
      | Some (Err b) => Ret (lookup_error b, None)
      | Some (Ok b) => Ret (kAudioHardwareNoError, Some b)
      end
  end.

Definition get_property_data_size (driver obj_id : Z) (addr : option AudioObjectPropertyAddress)
    (data_size : Z) : exec (Z * option Z) :=
  if negb (eq_driver_ptr raw_driver_ptr driver) then Ret (kAudioHardwareBadObjectError, None) else
  match addr with
  | None => Ret (kAudioHardwareIllegalOperationError, None)
  | Some addr =>
      if data_size =? 0 then Ret (kAudioHardwareIllegalOperationError, None) else
      res ← catch_unwind (r ← find_property_data obj_id addr;
                          match r with
                          | Ok data => range ← get_data_size data obj_id addr; Ret (Ok range.2)
                          | Err b => Ret (Err b)
                          end);
      match res with
      | None => Ret (kAudioHardwareUnspecifiedError, None)
      | Some (Err b) => Ret (lookup_error b, None)
      | Some (Ok size) => Ret (kAudioHardwareNoError, Some size)
      end
  end.

(** The results: the status, the heap, the size written to the place for it,
    and the contents of the HAL's buffer. *)
Definition get_property_data (d : Driver) (h : CFHeap) (driver obj_id : Z)
    (addr : option AudioObjectPropertyAddress) (qual_size : Z) (qual_data : option (list Z))
    (data_size written_data_size : Z) (out_data : option (list Z))
    : exec (Z * CFHeap * option Z * option (list Z)) :=
  let fail status := Ret (status, h, None, out_data) in
  if negb (eq_driver_ptr raw_driver_ptr driver) then fail kAudioHardwareBadObjectError else
  match addr with
  | None => fail kAudioHardwareIllegalOperationError
  | Some addr =>
      if written_data_size =? 0 then fail kAudioHardwareIllegalOperationError else
      match out_data with
      | None => fail kAudioHardwareIllegalOperationError
      | Some out =>
          res ← catch_unwind (find_property_data obj_id addr);
          match res with
          | None => fail kAudioHardwareUnspecifiedError
          | Some (Err b) => fail (lookup_error b)
          | Some (Ok data) =>
              range ← get_data_size data obj_id addr;
              if data_size <? range.1 then fail kAudioHardwareBadPropertySizeError else
              match write_data data with
              | Needed (get_qual_size, write_data) =>
                  match qual_data with
                  | None => fail kAudioHardwareIllegalOperationError
                  | Some qual_data =>
                      qual_range ← get_qual_size obj_id addr;
                      if qual_size <? qual_range.1 then fail kAudioHardwareBadPropertySizeError else
                      '(size, h, out) ← write_data d h obj_id addr qual_size qual_data data_size out;
                      Ret (kAudioHardwareNoError, h, Some size, Some out)
                  end
              | Unneeded f =>
                  '(size, h, out) ← f d h obj_id addr qual_size qual_data data_size out;
                  Ret (kAudioHardwareNoError, h, Some size, Some out)
              end
          end
      end
  end.

Definition set_property_data (d : Driver) (driver obj_id : Z)
    (addr : option AudioObjectPropertyAddress) (qual_size : Z) (qual_data : option (list Z))
    (data_size : Z) (out_data : option (list Z)) : exec (Z * Driver * list Notification) :=
  let fail status := Ret (status, d, []) in
  if negb (eq_driver_ptr raw_driver_ptr driver) then fail kAudioHardwareBadObjectError else
  match addr with
  | None => fail kAudioHardwareIllegalOperationError
  | Some addr =>
      res ← catch_unwind (find_property_data obj_id addr);
      match res with
      | None => fail kAudioHardwareUnspecifiedError
      | Some (Err b) => fail (lookup_error b)
      | Some (Ok data) =>
          match out_data with
          | None => fail kAudioHardwareIllegalOperationError
          | Some out_data =>
              range ← get_data_size data obj_id addr;
              if data_size <? range.1 then fail kAudioHardwareBadPropertySizeError else
              match read_data data with
              | None => fail kAudioHardwareUnknownPropertyError
              | Some (Needed f) =>
                  match qual_data with
                  | Some qual_data =>
                      '(d, ns) ← f d obj_id addr qual_size qual_data data_size out_data;
                      Ret (kAudioHardwareNoError, d, ns)
                  | None => Ret (kAudioHardwareNoError, d, [])
                  end
              | Some (Unneeded f) =>
                  '(d, ns) ← f d obj_id addr qual_size qual_data data_size out_data;
                  Ret (kAudioHardwareNoError, d, ns)
              end
          end
      end
  end.
End properties.
