(* ===== verification/CoreAudioTables.v ===== *)
(** * The tables of [CoreAudioProperties.v] are in order

    The documented facts about the bindings' numbers and about CFStrings are
    the classes [LawfulNumbers] and [LawfulCoreFoundation].  [entry_ok] is what
    a table entry promises to the callbacks; every entry of every table keeps
    the promise, and the lookup never panics ([find_property_data_Ret]). *)

From stdpp Require Import strings.
From S2P Require Import Prelude SampleType Float32 CoreAudio CoreAudioVolume CoreAudioMemory.
From S2P Require Import CoreAudioProperties.

(** ** What the bindings promise *)

Class LawfulNumbers `{CoreAudioSys, PropertyNumbers} : Prop := {
  plug_in_object_is_1 : kAudioObjectPlugInObject = 1;
  unknown_object_is_0 : kAudioObjectUnknown = 0;
  no_error_is_no_error :
    kAudioHardwareNoError ∉ [kAudioHardwareBadObjectError; kAudioHardwareIllegalOperationError;
      kAudioHardwareUnknownPropertyError; kAudioHardwareBadPropertySizeError;
      kAudioHardwareUnspecifiedError];
  plugin_selectors_distinct :
    NoDup [kAudioObjectPropertyBaseClass; kAudioObjectPropertyClass; kAudioObjectPropertyOwner;
      kAudioObjectPropertyManufacturer; kAudioObjectPropertyOwnedObjects;
      kAudioPlugInPropertyDeviceList; kAudioPlugInPropertyTranslateUIDToDevice;
      kAudioPlugInPropertyResourceBundle];
  device_selectors_distinct :
    NoDup [kAudioObjectPropertyElementName; kAudioDevicePropertyDeviceCanBeDefaultDevice;
      kAudioDevicePropertyDeviceCanBeDefaultSystemDevice;
      kAudioDevicePropertyPreferredChannelLayout; kAudioObjectPropertyBaseClass;
      kAudioDevicePropertySafetyOffset; kAudioDevicePropertyLatency; kAudioObjectPropertyClass;
      kAudioObjectPropertyOwner; kAudioObjectPropertyName; kAudioObjectPropertyManufacturer;
      kAudioObjectPropertyOwnedObjects; kAudioObjectPropertyControlList;
      kAudioDevicePropertyDeviceUID; kAudioDevicePropertyModelUID;
      kAudioDevicePropertyTransportType; kAudioDevicePropertyRelatedDevices;
      kAudioDevicePropertyClockDomain; kAudioDevicePropertyDeviceIsAlive;
      kAudioDevicePropertyDeviceIsRunning; kAudioDevicePropertyNominalSampleRate;
      kAudioDevicePropertyAvailableNominalSampleRates; kAudioDevicePropertyIsHidden;
      kAudioDevicePropertyZeroTimeStampPeriod; kAudioDevicePropertyStreams];
  stream_selectors_distinct :
    NoDup [kAudioObjectPropertyBaseClass; kAudioObjectPropertyClass; kAudioObjectPropertyOwner;
      kAudioObjectPropertyOwnedObjects; kAudioObjectPropertyName; kAudioStreamPropertyDirection;
      kAudioStreamPropertyTerminalType; kAudioStreamPropertyStartingChannel;
      kAudioStreamPropertyLatency; kAudioStreamPropertyAvailableVirtualFormats;
      kAudioStreamPropertyAvailablePhysicalFormats; kAudioStreamPropertyVirtualFormat;
      kAudioStreamPropertyPhysicalFormat; kAudioStreamPropertyIsActive];
  control_selectors_distinct :
    NoDup [kAudioObjectPropertyOwner; kAudioObjectPropertyOwnedObjects;
      kAudioControlPropertyScope; kAudioControlPropertyElement; kAudioObjectPropertyBaseClass;
      kAudioObjectPropertyClass; kAudioLevelControlPropertyScalarValue;
      kAudioLevelControlPropertyDecibelValue; kAudioLevelControlPropertyDecibelRange;
      kAudioLevelControlPropertyConvertScalarToDecibels;
      kAudioLevelControlPropertyConvertDecibelsToScalar; kAudioBooleanControlPropertyValue];
}.

(** Nothing lives at the null address.  Creating a string gives null and
    leaves the objects as they are, or gives one more reference, which the
    caller owns, to an object with the text: a new one, or one that had the
    text already; the other objects are as they were.  Comparing tells whether
    the texts are the same. *)
Class LawfulCoreFoundation `{CoreFoundation} : Prop := {
  cf_null h : cf_contents h 0 = None;
  cf_create h str :
    let '(p, h') := CFStringCreateWithBytes h str in
    if p =? 0 then ∀ q, cf_contents h' q = cf_contents h q ∧ cf_refs h' q = cf_refs h q
    else
      (cf_contents h p = None ∨ cf_contents h p = Some str) ∧ cf_contents h' p = Some str ∧
      cf_refs h' p = cf_refs h p + 1 ∧
      ∀ q, q ≠ p → cf_contents h' q = cf_contents h q ∧ cf_refs h' q = cf_refs h q;
  cf_compare h p q a b :
    cf_contents h p = Some a → cf_contents h q = Some b →
    (CFStringCompare h p q = kCFCompareEqualTo ↔ a = b);
}.

(** ** The state's shape *)

(** The volume and mute tables have a place for the master and each channel. *)
Definition tables_wf (d : Driver) : Prop :=
  Z.of_nat (length (OUTPUT_VOLUME d)) = N_CHANNELS + 1 ∧
  Z.of_nat (length (OUTPUT_MUTE d)) = N_CHANNELS + 1.

Lemma control_channel_index_Ret id :
  audio_object_is_control id = true →
  ∃ ch, control_channel_index id = Ret ch ∧ 0 <= ch <= N_CHANNELS ∧
    id = 4 + 2 * ch + (if control_is_volume id then 1 else 0).
Proof.
  unfold audio_object_is_control. rewrite andb_true_iff, !Z.leb_le.
  unfold FIRST_CTRL_ID, LAST_CTRL_ID, N_CONTROLS, N_CHANNELS. intros Hid.
  unfold control_channel_index, FIRST_CTRL_ID. rewrite strict_sub_Ret by lia.
  exists ((id - 4) / 2). split; [done|].
  assert (id mod 2 = if control_is_volume id then 1 else 0) as Hm.
  { unfold control_is_volume. rewrite (Z.land_ones _ 1) by lia. change (2 ^ 1) with 2.
    pose proof (Z.mod_pos_bound id 2). destruct (Z.eqb_spec (id mod 2) 0); cbn [negb]; lia. }
  rewrite <- Hm. pose proof (Z.div_mod (id - 4) 2). pose proof (Z.mod_pos_bound (id - 4) 2).
  assert ((id - 4) mod 2 = id mod 2) as Hm4.
  { replace (id - 4) with (id + (-2) * 2) by lia. apply Z.mod_add. lia. }
  lia.
Qed.

Lemma control_channel_index_val id ch :
  control_channel_index id = Ret ch → (id - FIRST_CTRL_ID) / 2 = ch.
Proof. unfold control_channel_index. intros. by exec_inv. Qed.

Lemma control_index_Ret id ch :
  control_channel_index id = Ret ch → 0 <= ch <= N_CHANNELS → control_index id = Ret ch.
Proof.
  intros Hc Hch. unfold control_index. rewrite Hc, bind_Ret.
  apply try_into_Ret. unfold N_CHANNELS in Hch. bounds.
Qed.

Create HintDb coreaudio.

(** Look at every arm of a table. *)
Ltac each_arm :=
  repeat lazymatch goal with
  | |- (if ?b then _ else _) = Some _ → _ => destruct b
  | |- None = Some _ → _ => intros [=]
  | |- Some _ = Some _ → _ => intros [= <-]
  end.

Lemma NoDup_eqb_false {l : list Z} i j a b :
  NoDup l → l !! i = Some a → l !! j = Some b → i ≠ j → (a =? b) = false.
Proof. intros Hl Ha Hb Hij. apply Z.eqb_neq. intros ->. by destruct Hij; eapply NoDup_lookup. Qed.

(** Compare selectors of one table, [H] being the fact that they are distinct. *)
Ltac index_in a l :=
  lazymatch l with
  | a :: _ => constr:(O)
  | _ :: ?l => let n := index_in a l in constr:(S n)
  end.
Ltac compare_selectors H :=
  lazymatch type of H with
  | NoDup ?l =>
      repeat match goal with
      | |- context [?a =? ?a] => rewrite (Z.eqb_refl a)
      | |- context [?a =? ?b] =>
          let i := index_in a l in let j := index_in b l in
          rewrite (NoDup_eqb_false i j a b H eq_refl eq_refl ltac:(discriminate))
      end; cbn [orb andb negb]
  end.

(** ** What a table entry promises to the callbacks *)

Section entries.
Context `{LawfulNumbers, LawfulLayout, FloatPlatform, LawfulCoreFoundation}.
Context (host_has_PropertiesChanged : Z → bool).

(** The qualifier of the one property that needs one holds a reference to a
    live CFString, and there is memory left for the string to compare it
    with. *)
Definition uid_qualifier (h : CFHeap) (q : list Z) : Prop :=
  is_Some (cf_contents h (from_le (take 8 q))) ∧ (cf_string h DEVICE_UID).1 ≠ 0.

(** Given [n] bytes at least, a writer returns, writes either [n] bytes or, for
    a list that is empty in another scope, none, to the start of the buffer and
    changes nothing else. *)
Definition writer_ok {Q} (okQ : CFHeap → Z → Q → Prop) (id : Z) (addr : AudioObjectPropertyAddress)
    (n : Z) (w : writer Q) : Prop :=
  ∀ d h qs q size buf,
    tables_wf d → okQ h qs q → n <= size <= u32_MAX → size <= Z.of_nat (length buf) →
    ∃ h' bs, w d h id addr qs q size buf
        = Ret (Z.of_nat (length bs), h', bs ++ drop (length bs) buf) ∧
      (Z.of_nat (length bs) = n ∨ bs = [] ∧ in_output_scope addr = false).

(** Given [n] bytes at least, a reader returns and changes nothing but the
    stream's activity, the volumes and the mutes. *)
Definition same_frame (d d' : Driver) : Prop :=
  tables_wf d' ∧ HOST d' = HOST d ∧ PLUGIN_REF_COUNT d' = PLUGIN_REF_COUNT d ∧
  DEVICE_IO d' = DEVICE_IO d.
Definition reader_ok {Q} (id : Z) (addr : AudioObjectPropertyAddress) (n : Z) (r : reader Q) : Prop :=
  ∀ d qs q size data,
    tables_wf d → n <= size <= Z.of_nat (length data) →
    ∃ d' ns, r d id addr qs q size data = Ret (d', ns) ∧ same_frame d d'.

(** The only qualifier a property needs is a live CFString. *)
Definition entry_ok (id : Z) (addr : AudioObjectPropertyAddress) (p : PropertyData) : Prop :=
  ∃ n, get_data_size p id addr = Ret (n, n) ∧ 0 <= n <= u32_MAX ∧
    match write_data p with
    | Unneeded w => writer_ok (λ _ _ _, True) id addr n w
    | Needed (gq, w) =>
        gq id addr = Ret (s CFSTRING_SIZE) ∧
        writer_ok (λ h qs q, CFSTRING_SIZE <= qs <= Z.of_nat (length q) ∧ uid_qualifier h q)
          id addr n w
    end ∧
    match read_data p with
    | None => True
    | Some (Unneeded r) => reader_ok id addr n r
    | Some (Needed _) => False
    end.

(** ** The shapes *)

Lemma read_only_ok id addr size n w :
  size = Ret n → 0 <= n <= u32_MAX → writer_ok (λ _ _ _, True) id addr n w →
  entry_ok id addr (read_only size w).
Proof. intros -> Hn Hw. by exists n. Qed.

Lemma size_u32_Ret T `{LawfulRepr T} : size_u32 T = Ret (size_of T).
Proof. pose proof (size_of_range (T := T)). apply try_into_Ret. lia. Qed.

Lemma size_of_mul_Ret T `{LawfulRepr T} :
  (n ← strict_mul usize_MAX (size_of T) 1; try_into u32_MAX n) = Ret (size_of T).
Proof.
  pose proof (size_of_range (T := T)).
  rewrite strict_mul_Ret, Z.mul_1_r, bind_Ret by bounds. apply try_into_Ret. lia.
Qed.

Lemma once_ok {T} `{LawfulRepr T} {Q} okQ id addr (v : Driver → Z → exec T) :
  (∀ d, tables_wf d → ∃ x, v d id = Ret x) →
  writer_ok (Q := Q) okQ id addr (size_of T) (once v).
Proof.
  intros Hv d h qs q size buf Hwf _ Hn Hb. destruct (Hv d Hwf) as [x Hx].
  unfold once. rewrite Hx, bind_Ret, write_once_get_size_Ret, bind_Ret by lia.
  exists h, (bytes_of x). rewrite length_bytes_of. auto.
Qed.

Lemma once_const_ok {T} `{LawfulRepr T} {Q} okQ id addr (v : T) :
  writer_ok (Q := Q) okQ id addr (size_of T) (once_const v).
Proof. apply once_ok. eauto. Qed.

Lemma once_cf_string_ok {Q} okQ id addr str :
  writer_ok (Q := Q) okQ id addr CFSTRING_SIZE (once_cf_string str).
Proof.
  intros d h qs q size buf Hwf _ Hn Hb. unfold once_cf_string, cf_string.
  destruct (CFStringCreateWithBytes h (str addr)) as [p h'].
  rewrite write_once_get_size_Ret, bind_Ret by (unfold CFSTRING_SIZE in Hn; lia).
  exists h', (bytes_of (MkUint p : CFStringRef)). rewrite length_bytes_of. auto.
Qed.

Lemma all_of_ok {T} `{LawfulRepr T} {Q} okQ id addr (values : list T) n :
  n = Z.of_nat (length values) * size_of T →
  writer_ok (Q := Q) okQ id addr n (all_of values).
Proof.
  intros -> d h qs q size buf Hwf _ Hn Hb. pose proof (size_of_range (T := T)).
  unfold all_of. rewrite try_into_Ret, bind_Ret by bounds.
  rewrite write_get_size_all, bind_Ret by lia.
  exists h, (values ≫= bytes_of). rewrite length_concat_bytes. auto.
Qed.

Lemma nothing_ok {Q} okQ id addr n :
  n = 0 ∨ in_output_scope addr = false → writer_ok (Q := Q) okQ id addr n nothing.
Proof. intros Hn d h qs q size buf _ _ _ _. exists h, []. split; [done|]. destruct Hn; auto. Qed.

Lemma scoped_ok {Q} okQ id addr n (w : writer Q) :
  writer_ok okQ id addr n w →
  writer_ok okQ id addr n (λ d h id addr qs q size ptr,
    if in_output_scope addr then w d h id addr qs q size ptr
    else nothing d h id addr qs q size ptr).
Proof.
  intros Hw d h qs q size buf Hwf Hq Hn Hb.
  destruct (Hw d h qs q size buf Hwf Hq Hn Hb) as (h' & bs & Heq & Hor).
  destruct (in_output_scope addr) eqn:E; [by eauto|]. exists h, []. auto.
Qed.

Lemma convert_ok {Q} okQ id addr f :
  writer_ok (Q := Q) okQ id addr (size_of f32) (convert f).
Proof.
  intros d h qs q size buf _ _ Hn Hb. change (size_of f32) with 4 in *.
  unfold convert, read_f32. rewrite read_at_Ret, !bind_Ret by lia.
  rewrite write_once_get_size_Ret, bind_Ret by (cbn [size_of Repr_spec_float]; lia).
  eexists h, (bytes_of (_ : spec_float)). rewrite length_bytes_of. auto.
Qed.

Lemma write_channel_layout_ok {Q} okQ id addr n :
  channel_layout_size = Ret n → writer_ok (Q := Q) okQ id addr n write_channel_layout.
Proof.
  intros Hsize d h qs q size buf _ _ Hn Hb. unfold write_channel_layout. rewrite Hsize.
  assert (n = size_of AudioChannelDescription + offset_of_mChannelDescriptions) as ->.
  { unfold channel_layout_size in Hsize. exec_inv. lia. }
  pose proof offset_of_range. pose proof (size_of_range (T := AudioChannelDescription)).
  set (hd := layout_header_bytes _ _ _). set (desc := bytes_of _).
  assert (Z.of_nat (length hd) = offset_of_mChannelDescriptions) as Hhd
    by apply length_layout_header_bytes.
  assert (Z.of_nat (length desc) = size_of AudioChannelDescription) as Hdesc
    by apply length_bytes_of.
  rewrite write_at_0, bind_Ret by lia.
  rewrite write_at_Ret, !bind_Ret by (rewrite ?length_app, ?length_drop; lia).
  exists h, (hd ++ desc). rewrite length_app, Nat2Z.inj_add. split; [|lia].
  replace (Z.to_nat offset_of_mChannelDescriptions) with (length hd) by lia.
  rewrite take_app_length, drop_app_add', drop_drop, <- app_assoc by done.
  by replace (Z.of_nat (length hd) + Z.of_nat (length desc))
    with (size_of AudioChannelDescription + offset_of_mChannelDescriptions) by lia.
Qed.

(** A string that could be created is live, and what was live still is: the
    two can be compared. *)
Lemma cf_create_compare h uid str p h' text :
  CFStringCreateWithBytes h text = (p, h') → p ≠ 0 → cf_contents h uid = Some str →
  cf_string_compare h' uid p = Ret (CFStringCompare h' uid p) ∧
  (CFStringCompare h' uid p = kCFCompareEqualTo ↔ str = text).
Proof.
  intros Hc Hp Huid. pose proof (cf_create h text) as Hcf. rewrite Hc in Hcf.
  rewrite (proj2 (Z.eqb_neq _ _) Hp) in Hcf. destruct Hcf as (Hor & Hnew & _ & Hold).
  assert (cf_contents h' uid = Some str) as Huid'.
  { destruct (decide (uid = p)) as [->|Hne]; [|by rewrite (proj1 (Hold uid Hne))].
    destruct Hor; congruence. }
  unfold cf_string_compare. rewrite Huid', Hnew. split; [done|]. by apply cf_compare.
Qed.

Lemma translate_uid_ok id addr :
  writer_ok (λ h qs q, CFSTRING_SIZE <= qs <= Z.of_nat (length q) ∧ uid_qualifier h q)
    id addr OBJECT_ID_SIZE translate_uid.
Proof.
  intros d h qs q size buf _ [Hq [[str Hstr] Hmem]] Hn Hb. unfold OBJECT_ID_SIZE in *.
  change CFSTRING_SIZE with 8 in Hq. unfold cf_string in Hmem.
  unfold translate_uid, read_ptr, cf_string. rewrite read_at_Ret, !bind_Ret by lia.
  destruct (CFStringCreateWithBytes h DEVICE_UID) as [p h'] eqn:Hc.
  destruct (cf_create_compare h _ str p h' DEVICE_UID Hc Hmem Hstr) as [Hcmp _].
  change (Z.to_nat 8) with 8%nat. rewrite Hcmp, bind_Ret.
  set (bs := bytes_of _). assert (Z.of_nat (length bs) = size_of u32) as Hl by apply length_bytes_of.
  rewrite write_at_0, bind_Ret by lia. exists h', bs. rewrite Hl. auto.
Qed.

(** ** Readers *)

Lemma notify_Ret d id addrs :
  Z.of_nat (length addrs) <= u32_MAX →
  ∃ ns, notify host_has_PropertiesChanged d id addrs = Ret ns.
Proof.
  intros Hl. unfold notify. destruct (HOST d); [|eauto].
  destruct (host_has_PropertiesChanged z); [|eauto]. rewrite try_into_Ret by lia. eauto.
Qed.

Lemma set_stream_is_active_ok {Q} id addr :
  reader_ok (Q := Q) id addr (size_of u32) (set_stream_is_active host_has_PropertiesChanged).
Proof.
  intros d qs q size data Hwf Hn. change (size_of u32) with 4 in Hn.
  unfold set_stream_is_active, read_u32. rewrite read_at_Ret, !bind_Ret by lia.
  set (d' := set_stream_active d _).
  destruct (notify_Ret d' id [addr]) as [ns ->]; [done|]. rewrite bind_Ret. by exists d', ns.
Qed.

Lemma store_gain_ok d id addr ch gain other :
  tables_wf d → 0 <= ch <= N_CHANNELS →
  ∃ ns, store_gain host_has_PropertiesChanged d id addr ch gain other =
      Ret (set_volume d (<[Z.to_nat ch := to_bits gain]> (OUTPUT_VOLUME d)), ns) ∧
    same_frame d (set_volume d (<[Z.to_nat ch := to_bits gain]> (OUTPUT_VOLUME d))).
Proof.
  intros [Hv Hm] Hch. unfold store_gain.
  destruct (lookup_lt_is_Some_2 (OUTPUT_VOLUME d) (Z.to_nat ch)) as [x ->]; [lia|].
  cbn [unwrap]. rewrite bind_Ret. set (d' := set_volume d _).
  destruct (notify_Ret d' id [addr; MkAddress other (mScope addr) (mElement addr)]) as [ns ->]; [done|].
  rewrite bind_Ret. exists ns. split; [done|]. subst d'.
  repeat split; cbn; by rewrite ?length_insert.
Qed.

Lemma set_volume_scalar_ok {Q} id addr :
  audio_object_is_control id = true →
  reader_ok (Q := Q) id addr (size_of f32) (set_volume_scalar host_has_PropertiesChanged).
Proof.
  intros Hid d qs q size data Hwf Hn. change (size_of f32) with 4 in Hn.
  destruct (control_channel_index_Ret id Hid) as (ch & Hc & Hch & _).
  unfold set_volume_scalar, read_f32.
  rewrite (control_index_Ret id ch), read_at_Ret, !bind_Ret by (done || lia).
  edestruct (store_gain_ok d id addr ch) as (ns & -> & Hs); [done..|]. eauto.
Qed.

Lemma set_volume_decibels_ok {Q} id addr :
  audio_object_is_control id = true →
  reader_ok (Q := Q) id addr (size_of f32) (set_volume_decibels host_has_PropertiesChanged).
Proof.
  intros Hid d qs q size data Hwf Hn. change (size_of f32) with 4 in Hn.
  destruct (control_channel_index_Ret id Hid) as (ch & Hc & Hch & _).
  unfold set_volume_decibels, read_f32.
  rewrite (control_index_Ret id ch), read_at_Ret, !bind_Ret by (done || lia).
  edestruct (store_gain_ok d id addr ch) as (ns & -> & Hs); [done..|]. eauto.
Qed.

Lemma set_mute_value_ok {Q} id addr :
  audio_object_is_control id = true →
  reader_ok (Q := Q) id addr (size_of u32) (set_mute_value host_has_PropertiesChanged).
Proof.
  intros Hid d qs q size data [Hv Hm] Hn. change (size_of u32) with 4 in Hn.
  destruct (control_channel_index_Ret id Hid) as (ch & Hc & Hch & _).
  unfold set_mute_value, read_u32.
  rewrite (control_index_Ret id ch), read_at_Ret, !bind_Ret by (done || lia).
  destruct (lookup_lt_is_Some_2 (OUTPUT_MUTE d) (Z.to_nat ch)) as [x ->]; [lia|].
  cbn [unwrap]. rewrite bind_Ret. set (d' := set_mute d _).
  destruct (notify_Ret d' id [addr]) as [ns ->]; [done|]. rewrite bind_Ret.
  exists d', ns. split; [done|]. repeat split; cbn; by rewrite ?length_insert.
Qed.

(** ** Every entry of every table *)

Lemma class_id_ok id addr c : entry_ok id addr (class_id c).
Proof. eapply read_only_ok; [done|by vm_compute|apply once_const_ok]. Qed.

Lemma object_id_ok id addr o : entry_ok id addr (object_id o).
Proof. eapply read_only_ok; [done|by vm_compute|apply once_const_ok]. Qed.

Lemma u32_property_ok id addr v : entry_ok id addr (u32_property v).
Proof. eapply read_only_ok; [apply size_u32_Ret; apply _|by vm_compute|apply once_const_ok]. Qed.

Lemma i32_property_ok id addr v : entry_ok id addr (i32_property v).
Proof. eapply read_only_ok; [apply size_u32_Ret; apply _|by vm_compute|]. change (size_of u32) with (size_of i32). apply once_const_ok. Qed.

Lemma cf_string_property_ok id addr str : entry_ok id addr (cf_string_property str).
Proof. eapply read_only_ok; [done|by vm_compute|apply once_cf_string_ok]. Qed.

Lemma object_ids_ok id addr ids n :
  n = Z.of_nat (length ids) → n * OBJECT_ID_SIZE <= u32_MAX → entry_ok id addr (object_ids n ids).
Proof.
  intros -> Hmax. eapply read_only_ok; [by apply strict_mul_Ret|change OBJECT_ID_SIZE with 4 in *; lia|].
  apply all_of_ok. by rewrite length_fmap.
Qed.

Lemma no_owned_objects_ok id addr : entry_ok id addr no_owned_objects.
Proof. exists 0. split_and!; [done|done|done|by apply nothing_ok; left|done]. Qed.

(** One struct, or one number. *)
Lemma read_only_once_ok {T} `{LawfulRepr T} id addr (v : T) :
  entry_ok id addr (read_only (size_u32 T) (once_const v)).
Proof.
  pose proof (size_of_range (T := T)).
  eapply read_only_ok; [by apply size_u32_Ret|lia|apply once_const_ok].
Qed.

Lemma read_only_one_ok {T} `{LawfulRepr T} id addr (v : T) size :
  size = Ret (size_of T) → entry_ok id addr (read_only size (all_of [v])).
Proof.
  intros ->. pose proof (size_of_range (T := T)).
  eapply read_only_ok; [done|lia|apply all_of_ok]. cbn [length]. lia.
Qed.

(** A number the driver computes from its state and the object. *)
Lemma computed_ok {T} `{LawfulRepr T} id addr size v r :
  size = Ret (size_of T) → (∀ d, tables_wf d → ∃ x, v d id = Ret x) →
  match r with
  | None => True
  | Some (Unneeded r) => reader_ok id addr (size_of T) r
  | Some (Needed _) => False
  end →
  entry_ok id addr (MkPropertyData (λ _ _, n ← size; Ret (s n)) (Unneeded (once (T := T) v)) r).
Proof.
  intros -> Hv Hr. pose proof (size_of_range (T := T)).
  exists (size_of T). split_and!; [done|lia|lia|by apply once_ok|done].
Qed.

Hint Resolve class_id_ok object_id_ok u32_property_ok i32_property_ok cf_string_property_ok
  no_owned_objects_ok : coreaudio.

(** Unfold an entry to its shape, and solve the common shapes. *)
Ltac entry_shape :=
  let rec head t := lazymatch t with ?f _ => head f | _ => t end in
  lazymatch goal with
  | |- entry_ok _ _ ?p => let h := head p in unfold h; auto with coreaudio
  end.

Lemma plugin_table_ok id address p :
  find_plugin_property_data address = Some p → entry_ok id address p.
Proof.
  unfold find_plugin_property_data. each_arm; entry_shape.
  - by apply object_ids_ok.
  - exists OBJECT_ID_SIZE. split_and!; [done|done|done| |done].
    split; [done|]. apply translate_uid_ok.
Qed.

Lemma device_scoped_table_ok id address p :
  find_device_scoped_property address = Some p → entry_ok id address p.
Proof.
  unfold find_device_scoped_property. each_arm; entry_shape.
  assert (channel_layout_size
    = Ret (size_of AudioChannelDescription + offset_of_mChannelDescriptions)) as Hs.
  { pose proof offset_of_range. pose proof (size_of_range (T := AudioChannelDescription)).
    unfold channel_layout_size. rewrite strict_mul_Ret, bind_Ret by bounds.
    rewrite Z.mul_1_r, strict_add_Ret, bind_Ret by bounds. apply try_into_Ret. lia. }
  pose proof offset_of_range. pose proof (size_of_range (T := AudioChannelDescription)).
  eapply read_only_ok; [exact Hs|lia|by apply write_channel_layout_ok].
Qed.

Lemma device_table_ok id address p :
  find_device_property_data address = Some p → entry_ok id address p.
Proof.
  unfold find_device_property_data.
  destruct (_ && _); [intros [= <-]; eapply read_only_ok; [done|done|apply once_cf_string_ok]|].
  destruct (find_device_scoped_property address) as [p'|] eqn:E.
  { intros [= <-]. by apply device_scoped_table_ok. }
  each_arm; entry_shape.
  - eapply read_only_ok; [by apply strict_mul_Ret|done|]. apply scoped_ok, all_of_ok. done.
  - by apply object_ids_ok.
  - by apply read_only_one_ok.
  - apply computed_ok; [exact (size_u32_Ret u32)| |done]. eauto.
  - apply read_only_once_ok.
  - apply read_only_one_ok, size_of_mul_Ret. apply _.
  - eapply read_only_ok; [by apply (size_of_mul_Ret u32)|done|]. apply scoped_ok, all_of_ok. done.
Qed.

Lemma stream_table_ok id address p :
  find_stream_property_data host_has_PropertiesChanged address = Some p → entry_ok id address p.
Proof.
  unfold find_stream_property_data. each_arm; entry_shape.
  - apply read_only_one_ok, size_of_mul_Ret. apply _.
  - apply read_only_once_ok.
  - apply computed_ok; [by apply size_u32_Ret; apply _|eauto|apply set_stream_is_active_ok].
Qed.

Lemma control_table_ok id vol ch address p :
  audio_object_is_control id = true →
  find_control_property_data host_has_PropertiesChanged vol ch address = Some p →
  entry_ok id address p.
Proof.
  intros Hid. destruct (control_channel_index_Ret id Hid) as (i & Hc & Hi & _).
  pose proof (control_index_Ret id i Hc Hi) as Hci.
  unfold find_control_property_data. each_arm; entry_shape.
  - apply computed_ok; [by apply size_u32_Ret; apply _| |done]. rewrite Hc. eauto.
  - apply computed_ok; [exact (size_u32_Ret f32)| |by apply set_volume_scalar_ok].
    intros d [Hv _]. rewrite Hci, bind_Ret. unfold volume_control_norm_val, volume_control_db_val.
    destruct (lookup_lt_is_Some_2 (OUTPUT_VOLUME d) (Z.to_nat i)) as [x ->]; [lia|]. cbn. eauto.
  - apply computed_ok; [exact (size_u32_Ret f32)| |by apply set_volume_decibels_ok].
    intros d [Hv _]. rewrite Hci, bind_Ret. unfold volume_control_db_val.
    destruct (lookup_lt_is_Some_2 (OUTPUT_VOLUME d) (Z.to_nat i)) as [x ->]; [lia|]. cbn. eauto.
  - apply read_only_once_ok.
  - eapply read_only_ok; [by apply size_u32_Ret; apply _|done|apply convert_ok].
  - eapply read_only_ok; [by apply size_u32_Ret; apply _|done|apply convert_ok].
  - apply computed_ok; [by apply size_u32_Ret; apply _| |by apply set_mute_value_ok].
    intros d [_ Hm]. rewrite Hci, bind_Ret.
    destruct (lookup_lt_is_Some_2 (OUTPUT_MUTE d) (Z.to_nat i)) as [x ->]; [lia|]. cbn. eauto.
Qed.

(** The one property that needs a qualifier. *)
Definition needs_uid (id : Z) (addr : AudioObjectPropertyAddress) : bool :=
  (id =? PLUGIN_ID) && (mSelector addr =? kAudioPlugInPropertyTranslateUIDToDevice).

Lemma needed_is_uid id addr p x :
  find_property_data host_has_PropertiesChanged id addr = Ret (Ok p) →
  write_data p = Needed x → needs_uid id addr = true.
Proof.
  unfold find_property_data, needs_uid.
  assert (∀ (o : option PropertyData) (P : Prop), (o = Some p → write_data p = Needed x → P) →
    Ret (ok_or o true) = Ret (Ok p) → write_data p = Needed x → P) as Ho.
  { intros [p'|] P Hp; cbn; [|done]. intros [= ->]. auto. }
  destruct (id =? PLUGIN_ID).
  { apply Ho. unfold find_plugin_property_data. each_arm; done. }
  destruct (id =? DEVICE_ID); [apply Ho|].
  { unfold find_device_property_data, find_device_scoped_property.
    destruct (_ && _); [by intros [= <-]|].
    destruct (if in_output_scope addr then _ else _) as [p'|] eqn:E; [|each_arm; done].
    intros [= ->]. revert E. each_arm; done. }
  destruct (id =? STREAM_ID); [apply Ho; unfold find_stream_property_data; each_arm; done|].
  destruct (audio_object_is_control id) eqn:Hid; [|done].
  destruct (control_channel_index_Ret id Hid) as (ch & Hc & Hch & _).
  rewrite (control_index_Ret id ch Hc Hch), bind_Ret. apply Ho.
  unfold find_control_property_data. destruct (control_is_volume id); each_arm; done.
Qed.

(** The lookup never panics, and what it finds is in order. *)
Lemma find_property_data_Ret id address :
  ∃ r, find_property_data host_has_PropertiesChanged id address = Ret r ∧
    ∀ p, r = Ok p → entry_ok id address p.
Proof.
  assert (∀ (o : option PropertyData) (b : bool), (∀ p, o = Some p → entry_ok id address p) →
    ∃ r, Ret (ok_or o b) = Ret r ∧ ∀ p, r = Ok p → entry_ok id address p) as Hor.
  { intros o b Ho. eexists. split; [done|]. destruct o; cbn; intros ? [=]; subst; auto. }
  unfold find_property_data. destruct (id =? PLUGIN_ID); [apply Hor; intros; by apply plugin_table_ok|].
  destruct (id =? DEVICE_ID); [apply Hor; intros; by apply device_table_ok|].
  destruct (id =? STREAM_ID); [apply Hor; intros; by apply stream_table_ok|].
  destruct (audio_object_is_control id) eqn:Hid; [|by eexists].
  destruct (control_channel_index_Ret id Hid) as (i & Hc & Hi & _).
  rewrite (control_index_Ret id i Hc Hi), bind_Ret. apply Hor. intros. by eapply control_table_ok.
Qed.
End entries.
