(* ===== verification/CoreAudioInstances.v ===== *)
(** * A concrete CoreAudio for the witnesses

    Instances of the classes that stand for [coreaudio_sys], CoreFoundation and
    the platform's floating-point functions: the numbers of Apple's headers,
    the C layout of the structs, a heap of strings that only grows, and a
    [powf] and a [log10] that are constant.  Each satisfies the laws the
    theorems rely on. *)

From stdpp Require Import strings.
From S2P Require Import Prelude SampleType Float32 CoreAudio CoreAudioVolume CoreAudioMemory.
From S2P Require Import CoreAudioProperties CoreAudioTables.

(** A number that is written as four characters. *)
Fixpoint fourcc_from (n : Z) (str : string) : Z :=
  match str with
  | EmptyString => n
  | String a str => fourcc_from (256 * n + Z.of_N (Ascii.N_of_ascii a)) str
  end.
Definition fourcc : string → Z := fourcc_from 0.

#[export] Instance apple_sys : CoreAudioSys := {
  kAudioHardwareNoError := 0;
  kAudioHardwareBadObjectError := fourcc "!obj";
  kAudioHardwareIllegalOperationError := fourcc "nope";
  kAudioHardwareUnsupportedOperationError := fourcc "unop";
  kAudioServerPlugInIOOperationWriteMix := fourcc "rite";
}.

#[export] Instance apple_numbers : PropertyNumbers := {
  kAudioHardwareUnknownPropertyError := fourcc "who?";
  kAudioHardwareBadPropertySizeError := fourcc "!siz";
  kAudioHardwareUnspecifiedError := fourcc "what";
  kAudioObjectPlugInObject := 1;
  kAudioObjectUnknown := 0;
  kAudioObjectPropertyScopeGlobal := fourcc "glob";
  kAudioObjectPropertyScopeOutput := fourcc "outp";
  kAudioObjectPropertyElementMain := 0;
  kAudioObjectClassID := fourcc "aobj";
  kAudioPlugInClassID := fourcc "aplg";
  kAudioDeviceClassID := fourcc "adev";
  kAudioStreamClassID := fourcc "astr";
  kAudioLevelControlClassID := fourcc "levl";
  kAudioVolumeControlClassID := fourcc "vlme";
  kAudioBooleanControlClassID := fourcc "togl";
  kAudioMuteControlClassID := fourcc "mute";
  kAudioDeviceTransportTypeAVB := fourcc "eavb";
  kAudioStreamTerminalTypeUnknown := 0;
  kAudioChannelLayoutTag_UseChannelDescriptions := 0;
  kAudioFormatLinearPCM := fourcc "lpcm";
  kAudioFormatFlagsNativeFloatPacked := 9;
  kAudioObjectPropertyBaseClass := fourcc "bcls";
  kAudioObjectPropertyClass := fourcc "clas";
  kAudioObjectPropertyOwner := fourcc "stdv";
  kAudioObjectPropertyName := fourcc "lnam";
  kAudioObjectPropertyManufacturer := fourcc "lmak";
  kAudioObjectPropertyElementName := fourcc "lchn";
  kAudioObjectPropertyOwnedObjects := fourcc "ownd";
  kAudioObjectPropertyControlList := fourcc "ctrl";
  kAudioPlugInPropertyDeviceList := fourcc "dev#";
  kAudioPlugInPropertyTranslateUIDToDevice := fourcc "uidd";
  kAudioPlugInPropertyResourceBundle := fourcc "rsrc";
  kAudioDevicePropertyDeviceCanBeDefaultDevice := fourcc "dflt";
  kAudioDevicePropertyDeviceCanBeDefaultSystemDevice := fourcc "sflt";
  kAudioDevicePropertyPreferredChannelLayout := fourcc "srnd";
  kAudioDevicePropertySafetyOffset := fourcc "saft";
  kAudioDevicePropertyLatency := fourcc "ltnc";
  kAudioDevicePropertyDeviceUID := fourcc "uid ";
  kAudioDevicePropertyModelUID := fourcc "muid";
  kAudioDevicePropertyTransportType := fourcc "tran";
  kAudioDevicePropertyRelatedDevices := fourcc "akin";
  kAudioDevicePropertyClockDomain := fourcc "clkd";
  kAudioDevicePropertyDeviceIsAlive := fourcc "livn";
  kAudioDevicePropertyDeviceIsRunning := fourcc "goin";
  kAudioDevicePropertyNominalSampleRate := fourcc "nsrt";
  kAudioDevicePropertyAvailableNominalSampleRates := fourcc "nsr#";
  kAudioDevicePropertyIsHidden := fourcc "hidn";
  kAudioDevicePropertyZeroTimeStampPeriod := fourcc "ring";
  kAudioDevicePropertyStreams := fourcc "stm#";
  kAudioStreamPropertyDirection := fourcc "sdir";
  kAudioStreamPropertyTerminalType := fourcc "term";
  kAudioStreamPropertyStartingChannel := fourcc "schn";
  kAudioStreamPropertyLatency := fourcc "ltnc";
  kAudioStreamPropertyAvailableVirtualFormats := fourcc "sfma";
  kAudioStreamPropertyAvailablePhysicalFormats := fourcc "pfta";
  kAudioStreamPropertyVirtualFormat := fourcc "sfmt";
  kAudioStreamPropertyPhysicalFormat := fourcc "pft ";
  kAudioStreamPropertyIsActive := fourcc "sact";
  kAudioControlPropertyScope := fourcc "cscp";
  kAudioControlPropertyElement := fourcc "celm";
  kAudioLevelControlPropertyScalarValue := fourcc "lcsv";
  kAudioLevelControlPropertyDecibelValue := fourcc "lcdv";
  kAudioLevelControlPropertyDecibelRange := fourcc "lcdr";
  kAudioLevelControlPropertyConvertScalarToDecibels := fourcc "lcsd";
  kAudioLevelControlPropertyConvertDecibelsToScalar := fourcc "lcds";
  kAudioBooleanControlPropertyValue := fourcc "bcvl";
}.

Lemma bool_NoDup (l : list Z) : bool_decide (NoDup l) = true → NoDup l.
Proof. apply bool_decide_eq_true. Qed.

#[export] Instance apple_numbers_lawful : LawfulNumbers.
Proof.
  split; [reflexivity|reflexivity|..|apply bool_NoDup; vm_compute; reflexivity
    |apply bool_NoDup; vm_compute; reflexivity|apply bool_NoDup; vm_compute; reflexivity
    |apply bool_NoDup; vm_compute; reflexivity].
  apply (bool_decide_eq_false (_ ∈ _)). vm_compute. reflexivity.
Qed.

(** The fields in order, without padding. *)
Definition range_bytes (r : AudioValueRange) : list Z :=
  float_to_le_bytes (mMinimum r) ++ float_to_le_bytes (mMaximum r).
Definition basic_description_bytes (b : AudioStreamBasicDescription) : list Z :=
  float_to_le_bytes (mSampleRate b) ++ to_le 4 (mFormatID b) ++ to_le 4 (mFormatFlags b) ++
  to_le 4 (mBytesPerPacket b) ++ to_le 4 (mFramesPerPacket b) ++ to_le 4 (mBytesPerFrame b) ++
  to_le 4 (mChannelsPerFrame b) ++ to_le 4 (mBitsPerChannel b) ++ to_le 4 (mReserved b).
Definition channel_description_bytes (c : AudioChannelDescription) : list Z :=
  let coordinate i := default (MkFloat 0) (mCoordinates c !! i) in
  to_le 4 (mChannelLabel c) ++ to_le 4 (mChannelFlags c) ++
  float_to_le_bytes (coordinate 0%nat) ++ float_to_le_bytes (coordinate 1%nat) ++
  float_to_le_bytes (coordinate 2%nat).

#[export] Instance apple_layout : CoreAudioLayout := {
  Repr_AudioValueRange := {| size_of := 16; bytes_of := range_bytes |};
  Repr_AudioStreamBasicDescription := {| size_of := 40; bytes_of := basic_description_bytes |};
  Repr_AudioStreamRangedDescription := {| size_of := 56;
    bytes_of r := basic_description_bytes (mFormat r) ++ range_bytes (mSampleRateRange r) |};
  Repr_AudioChannelDescription := {| size_of := 20; bytes_of := channel_description_bytes |};
  offset_of_mChannelDescriptions := 12;
  layout_header_bytes a b c := to_le 4 a ++ to_le 4 b ++ to_le 4 c;
}.

#[export] Instance apple_layout_lawful : LawfulLayout.
Proof. split; [split; [done|reflexivity]..|done|reflexivity]. Qed.

(** Strings are never freed nor shared; address [p] is the [p]-th string. *)
#[export] Instance growing_heap : CoreFoundation := {
  CFHeap := list string;
  CFStringCreateWithBytes h str := (Z.of_nat (length h) + 1, h ++ [str]);
  CFStringCompare h p q :=
    if decide (h !! Z.to_nat (p - 1) = h !! Z.to_nat (q - 1)) then 0 else 1;
  kCFCompareEqualTo := 0;
  cf_contents h p := if 1 <=? p then h !! Z.to_nat (p - 1) else None;
  cf_refs h p := if (1 <=? p) && (p <=? Z.of_nat (length h)) then 1 else 0;
}.

Definition strings (l : list string) : @CFHeap growing_heap := l.

#[export] Instance growing_heap_lawful : LawfulCoreFoundation.
Proof.
  split; [done|..].
  - intros h str. cbn. rewrite (proj2 (Z.eqb_neq _ 0)), (proj2 (Z.leb_le 1 _)) by lia.
    replace (Z.to_nat (Z.of_nat (length h) + 1 - 1)) with (length h) by lia.
    rewrite length_app. cbn [length andb]. split_and!.
    + left. apply lookup_ge_None_2. lia.
    + by rewrite lookup_app_r, Nat.sub_diag by lia.
    + rewrite (proj2 (Z.leb_le _ _)), (proj2 (Z.leb_gt _ _)) by lia. done.
    + intros q Hq. destruct (Z.leb_spec 1 q); [|done]. cbn [andb]. split.
      * destruct (decide (Z.to_nat (q - 1) < length h)%nat); [by rewrite lookup_app_l|].
        rewrite !lookup_ge_None_2; [done|lia|]. rewrite length_app. cbn. lia.
      * destruct (Z.leb_spec q (Z.of_nat (length h))), (Z.leb_spec q (Z.of_nat (length h + 1)));
          done || lia.
  - intros h p q a b. cbn. destruct (1 <=? p), (1 <=? q); try done. intros -> ->.
    destruct (decide _); naive_solver.
Qed.

#[export] Instance constant_platform : FloatPlatform := {
  f32_powf _ _ := f32_lit 1;
  f32_log10 _ := f32_lit 0;
  min_takes_first _ _ := true;
  max_takes_first _ _ := true;
}.
