(* ===== verification/CoreAudioHAL.v ===== *)
(** * What the HAL can rely on: the property callbacks of the CoreAudio driver

    Theorems about the callbacks of [CoreAudioProperties.v]: memory safety,
    agreement of the questions the HAL can ask about a property, which
    properties can be set and what setting them does, and the object tree the
    HAL sees. *)

From stdpp Require Import strings.
From S2P Require Import Prelude SampleType Float32 CoreAudio CoreAudioVolume CoreAudioMemory.
From S2P Require Import CoreAudioProperties CoreAudioTables CoreAudioInstances.

Section callbacks.
Context `{LawfulNumbers, LawfulLayout, FloatPlatform, LawfulCoreFoundation}.
Context (host_has_PropertiesChanged : Z → bool) (raw_driver_ptr : Z).

Abbreviation find := (find_property_data host_has_PropertiesChanged).
Abbreviation has := (has_property host_has_PropertiesChanged raw_driver_ptr).
Abbreviation settable := (is_property_settable host_has_PropertiesChanged raw_driver_ptr).
Abbreviation get_size := (get_property_data_size host_has_PropertiesChanged raw_driver_ptr).
Abbreviation get := (get_property_data host_has_PropertiesChanged raw_driver_ptr).
Abbreviation set := (set_property_data host_has_PropertiesChanged raw_driver_ptr).

(** ** Safety of reading *)

(** What the HAL guarantees about its buffers: they are as long as it says. *)
Definition buffer_ok (size : Z) (buf : option (list Z)) : Prop :=
  match buf with Some buf => size <= Z.of_nat (length buf) | None => True end.

(** What it guarantees about the qualifier, for the one property that takes
    one: if it is there and as long as a pointer, it points to a live CFString
    (and memory has not run out). *)
Definition qualifier_ok (h : CFHeap) (id : Z) (addr : option AudioObjectPropertyAddress)
    (qual_size : Z) (qual : option (list Z)) : Prop :=
  match addr, qual with
  | Some addr, Some q =>
      needs_uid id addr = true → CFSTRING_SIZE <= qual_size → uid_qualifier h q
  | _, _ => True
  end.

(** The outcomes of a read: an error, with nothing changed, or some bytes at
    the start of the buffer, not more than there is room for. *)
Definition read_outcome (h : CFHeap) (data_size : Z) (out : option (list Z))
    (r : Z * CFHeap * option Z * option (list Z)) : Prop :=
  let '(status, h', written, out') := r in
  (status ≠ kAudioHardwareNoError ∧ h' = h ∧ written = None ∧ out' = out) ∨
  (status = kAudioHardwareNoError ∧
   ∃ buf bs, out = Some buf ∧ out' = Some (bs ++ drop (length bs) buf) ∧
     written = Some (Z.of_nat (length bs)) ∧ Z.of_nat (length bs) <= data_size).

Lemma errors_are_errors :
  kAudioHardwareBadObjectError ≠ kAudioHardwareNoError ∧
  kAudioHardwareIllegalOperationError ≠ kAudioHardwareNoError ∧
  kAudioHardwareUnknownPropertyError ≠ kAudioHardwareNoError ∧
  kAudioHardwareBadPropertySizeError ≠ kAudioHardwareNoError ∧
  kAudioHardwareUnspecifiedError ≠ kAudioHardwareNoError.
Proof. pose proof no_error_is_no_error as Hn. rewrite !not_elem_of_cons in Hn. destruct_and? Hn. auto. Qed.

Lemma lookup_error_is_error b : lookup_error b ≠ kAudioHardwareNoError.
Proof. destruct errors_are_errors as (? & ? & ? & _). by destruct b. Qed.

(** The part of a read after the arguments are checked. *)
Lemma write_entry d h obj_id addr qual_size qual_data data_size buf p n :
  tables_wf d → entry_ok obj_id addr p → get_data_size p obj_id addr = Ret (n, n) →
  n <= data_size <= u32_MAX → data_size <= Z.of_nat (length buf) →
  buffer_ok qual_size qual_data →
  match write_data p with
  | Needed (gq, w) =>
      gq obj_id addr = Ret (s CFSTRING_SIZE) ∧
        ∀ q, qual_data = Some q → CFSTRING_SIZE <= qual_size → uid_qualifier h q →
        ∃ h' bs, w d h obj_id addr qual_size q data_size buf
            = Ret (Z.of_nat (length bs), h', bs ++ drop (length bs) buf) ∧
          (Z.of_nat (length bs) = n ∨ bs = [] ∧ in_output_scope addr = false)
  | Unneeded w =>
      ∃ h' bs, w d h obj_id addr qual_size qual_data data_size buf
          = Ret (Z.of_nat (length bs), h', bs ++ drop (length bs) buf) ∧
        (Z.of_nat (length bs) = n ∨ bs = [] ∧ in_output_scope addr = false)
  end.
Proof.
  intros Hwf (n' & Hs & Hn & Hw & _) Hs' Hsize Hb Hq. rewrite Hs in Hs'. injection Hs' as ->.
  destruct (write_data p) as [[gq w]|w].
  - destruct Hw as [Hk Hw]. split; [done|]. intros q -> Hkq Huid. by apply Hw.
  - by apply Hw.
Qed.

Lemma get_property_data_returns_outcome (d : Driver) (h : CFHeap) (driver obj_id : Z)
    (addr : option AudioObjectPropertyAddress) (qual_size : Z) (qual_data : option (list Z))
    (data_size written_data_size : Z) (out_data : option (list Z)) :
  tables_wf d → 0 <= data_size <= u32_MAX →
  buffer_ok qual_size qual_data → qualifier_ok h obj_id addr qual_size qual_data →
  buffer_ok data_size out_data →
  ∃ r, get d h driver obj_id addr qual_size qual_data data_size written_data_size out_data = Ret r ∧
    read_outcome h data_size out_data r.
Proof.
  intros Hwf Hsize Hq Hlive Hout. destruct errors_are_errors as (Hbad & Hill & Hunk & Hbs & Huns).
  assert (∀ status, status ≠ kAudioHardwareNoError →
    ∃ r, Ret (status, h, None, out_data) = Ret r ∧ read_outcome h data_size out_data r) as Hfail.
  { intros status Hst. eexists. split; [done|]. left. auto. }
  unfold get_property_data. destruct (eq_driver_ptr _ _); cbn [negb]; [|by apply Hfail].
  destruct addr as [addr|]; [|by apply Hfail].
  destruct (written_data_size =? 0); [by apply Hfail|].
  destruct out_data as [buf|]; [|by apply Hfail].
  destruct (find_property_data_Ret host_has_PropertiesChanged obj_id addr) as (r & Hfind & Hr).
  rewrite Hfind. cbn [catch_unwind]. rewrite bind_Ret.
  destruct r as [p|b]; [|apply Hfail, lookup_error_is_error].
  specialize (Hr p eq_refl). pose proof Hr as (n & Hn & Hrange & _). rewrite Hn, bind_Ret. cbn [fst].
  destruct (Z.ltb_spec data_size n); [by apply Hfail|].
  pose proof (write_entry d h obj_id addr qual_size qual_data data_size buf p n Hwf Hr Hn
    ltac:(lia) Hout Hq) as Hw.
  assert (∀ bs : list Z, Z.of_nat (length bs) = n ∨ bs = [] ∧ in_output_scope addr = false →
    Z.of_nat (length bs) <= data_size) as Hle by (intros bs [|[-> _]]; cbn; lia).
  destruct (write_data p) as [[gq w]|w] eqn:Hneed.
  - destruct Hw as [Hk Hw]. destruct qual_data as [q|]; [|by apply Hfail].
    rewrite Hk, bind_Ret. cbn [fst s].
    destruct (Z.ltb_spec qual_size CFSTRING_SIZE); [by apply Hfail|].
    pose proof (needed_is_uid _ _ _ _ _ Hfind Hneed) as Huid.
    destruct (Hw q eq_refl) as (h' & bs & -> & Hbs'); [done|by apply Hlive|]. rewrite bind_Ret.
    eexists. split; [done|]. right. split; [done|]. exists buf, bs. auto.
  - destruct Hw as (h' & bs & -> & Hbs'). rewrite bind_Ret.
    eexists. split; [done|]. right. split; [done|]. exists buf, bs. auto.
Qed.

Lemma get_property_data_returns d h driver obj_id addr qual_size qual_data data_size
    written_data_size out_data :
  tables_wf d → 0 <= data_size <= u32_MAX →
  buffer_ok qual_size qual_data → qualifier_ok h obj_id addr qual_size qual_data →
  buffer_ok data_size out_data →
  ∃ r, get d h driver obj_id addr qual_size qual_data data_size written_data_size out_data = Ret r.
Proof.
  intros Hwf Hs Hq Hlive Ho.
  destruct (get_property_data_returns_outcome d h driver obj_id addr qual_size qual_data data_size
    written_data_size out_data) as (r & Hr & _); eauto.
Qed.

(** C7: [get_property_data] is memory safe and does not panic, for every
    object, every property address and every combination of null pointers and
    sizes, as long as the buffers are as long as the HAL says, the volume and
    mute tables have their length and, for the one property that compares
    strings ([kAudioPlugInPropertyTranslateUIDToDevice] of the plug-in), a
    qualifier of eight bytes or more starts with a reference to a live CFString
    and the string to compare it with can be created: it returns; on an error
    it leaves the buffer alone; on success it has written a prefix of the
    buffer no longer than the size given, and told the HAL how long. *)
Theorem get_property_data_safe (d : Driver) (h : CFHeap) (driver obj_id : Z)
    (addr : option AudioObjectPropertyAddress) (qual_size : Z) (qual_data : option (list Z))
    (data_size written_data_size : Z) (out_data : option (list Z)) :
  tables_wf d → 0 <= data_size <= u32_MAX →
  buffer_ok qual_size qual_data → qualifier_ok h obj_id addr qual_size qual_data →
  buffer_ok data_size out_data →
  ∃ r, get d h driver obj_id addr qual_size qual_data data_size written_data_size out_data = Ret r ∧
    read_outcome h data_size out_data r.
Proof. apply get_property_data_returns_outcome. Qed.

(** ** The questions about a property agree *)

(** The objects the driver has. *)
Definition is_object (id : Z) : bool :=
  bool_decide (id ∈ [1; DEVICE_ID; STREAM_ID]) || audio_object_is_control id.

Lemma find_absent_object id addr :
  find id addr = Ret (Err false) ↔ is_object id = false.
Proof.
  unfold find_property_data, is_object, PLUGIN_ID. rewrite plug_in_object_is_1, orb_false_iff.
  rewrite bool_decide_eq_false, !not_elem_of_cons.
  assert (∀ o : option PropertyData, Ret (ok_or o true) ≠ Ret (Err false)) as Ho by (by intros []).
  destruct (Z.eqb_spec id 1); [split; [by intros ?%Ho|tauto]|].
  destruct (Z.eqb_spec id DEVICE_ID); [split; [by intros ?%Ho|tauto]|].
  destruct (Z.eqb_spec id STREAM_ID); [split; [by intros ?%Ho|tauto]|].
  destruct (audio_object_is_control id) eqn:Hid.
  - split; [|by intros []]. destruct (control_channel_index_Ret id Hid) as (i & Hc & Hi & _).
    rewrite (control_index_Ret id i Hc Hi), bind_Ret. by intros ?%Ho.
  - split; [|done]. intros _. split_and!; auto using not_elem_of_nil.
Qed.

(** What a lookup without result is reported as. *)
Definition absent_status (id : Z) : Z :=
  if is_object id then kAudioHardwareUnknownPropertyError else kAudioHardwareBadObjectError.

Lemma find_cases id addr :
  (∃ p, find id addr = Ret (Ok p) ∧ entry_ok id addr p) ∨
  (∃ b, find id addr = Ret (Err b) ∧ lookup_error b = absent_status id).
Proof.
  destruct (find_property_data_Ret host_has_PropertiesChanged id addr) as ([p|b] & Hf & Hr); [eauto|].
  right. exists b. split; [done|]. unfold absent_status. destruct b.
  - destruct (is_object id) eqn:E; [done|]. apply (find_absent_object id addr) in E. congruence.
  - by apply find_absent_object in Hf as ->.
Qed.


(** ** Setting properties *)

(** The properties that can be set. *)
Definition settable_address (id : Z) (addr : AudioObjectPropertyAddress) : bool :=
  let sel := mSelector addr in
  if id =? STREAM_ID then sel =? kAudioStreamPropertyIsActive else
  audio_object_is_control id &&
  (if control_is_volume id then
     (sel =? kAudioLevelControlPropertyScalarValue) || (sel =? kAudioLevelControlPropertyDecibelValue)
   else sel =? kAudioBooleanControlPropertyValue).

(** What setting one to the 32-bit word [w] does to the driver. *)
Definition set_effect (d : Driver) (id : Z) (addr : AudioObjectPropertyAddress) (w : Z) : Driver :=
  let ch := Z.to_nat ((id - FIRST_CTRL_ID) / 2) in
  if id =? STREAM_ID then set_stream_active d (negb (w =? 0)) else
  if control_is_volume id then
    let x := from_bits (MkFloat w) in
    let gain := if mSelector addr =? kAudioLevelControlPropertyScalarValue
                then norm_to_gain x else db_to_gain x in
    set_volume d (<[ch := to_bits gain]> (OUTPUT_VOLUME d))
  else set_mute d (<[ch := negb (w =? 0)]> (OUTPUT_MUTE d)).

(** The two views of a volume change together. *)
Definition changed_addresses (id : Z) (addr : AudioObjectPropertyAddress)
    : list AudioObjectPropertyAddress :=
  addr ::
  (if audio_object_is_control id && control_is_volume id then
     [MkAddress (if mSelector addr =? kAudioLevelControlPropertyScalarValue
                 then kAudioLevelControlPropertyDecibelValue
                 else kAudioLevelControlPropertyScalarValue) (mScope addr) (mElement addr)]
   else []).

(** What the host is told, when there is one that wants to know. *)
Definition notifications (d : Driver) (id : Z) (addrs : list AudioObjectPropertyAddress)
    : list Notification :=
  match HOST d with
  | Some host =>
      if host_has_PropertiesChanged host
      then [MkNotification host id (Z.of_nat (length addrs)) addrs] else []
  | None => []
  end.

Lemma notify_notifications d id addrs :
  Z.of_nat (length addrs) <= u32_MAX →
  notify host_has_PropertiesChanged d id addrs = Ret (notifications d id addrs).
Proof.
  intros Hl. unfold notify, notifications. destruct (HOST d) as [host|]; [|done].
  destruct (host_has_PropertiesChanged host); [|done]. by rewrite try_into_Ret by lia.
Qed.

Lemma store_gain_spec d id addr ch gain other :
  tables_wf d → 0 <= ch <= N_CHANNELS →
  store_gain host_has_PropertiesChanged d id addr ch gain other =
    Ret (set_volume d (<[Z.to_nat ch := to_bits gain]> (OUTPUT_VOLUME d)),
         notifications d id [addr; MkAddress other (mScope addr) (mElement addr)]).
Proof.
  intros [Hv _] Hch. unfold store_gain.
  destruct (lookup_lt_is_Some_2 (OUTPUT_VOLUME d) (Z.to_nat ch)) as [x ->]; [lia|].
  cbn [unwrap]. by rewrite bind_Ret, notify_notifications.
Qed.

Lemma set_mute_value_spec {Q} d id addr ch qs (q : Q) size data :
  control_index id = Ret ch → 0 <= ch <= N_CHANNELS → tables_wf d → 4 <= Z.of_nat (length data) →
  set_mute_value host_has_PropertiesChanged d id addr qs q size data =
    Ret (set_mute d (<[Z.to_nat ch := negb (from_le (take 4 data) =? 0)]> (OUTPUT_MUTE d)),
         notifications d id [addr]).
Proof.
  intros Hi Hch [_ Hm] Hl. unfold set_mute_value, read_u32.
  rewrite Hi, read_at_Ret, !bind_Ret by lia.
  destruct (lookup_lt_is_Some_2 (OUTPUT_MUTE d) (Z.to_nat ch)) as [x ->]; [lia|].
  cbn [unwrap]. by rewrite bind_Ret, notify_notifications.
Qed.

Lemma set_volume_scalar_spec {Q} d id addr ch qs (q : Q) size data :
  control_index id = Ret ch → 0 <= ch <= N_CHANNELS → tables_wf d → 4 <= Z.of_nat (length data) →
  set_volume_scalar host_has_PropertiesChanged d id addr qs q size data =
    store_gain host_has_PropertiesChanged d id addr ch
      (norm_to_gain (from_bits (MkFloat (from_le (take 4 data)))))
      kAudioLevelControlPropertyDecibelValue.
Proof.
  intros Hi Hch Hwf Hl. unfold set_volume_scalar, read_f32.
  by rewrite Hi, read_at_Ret, !bind_Ret by lia.
Qed.

Lemma set_volume_decibels_spec {Q} d id addr ch qs (q : Q) size data :
  control_index id = Ret ch → 0 <= ch <= N_CHANNELS → tables_wf d → 4 <= Z.of_nat (length data) →
  set_volume_decibels host_has_PropertiesChanged d id addr qs q size data =
    store_gain host_has_PropertiesChanged d id addr ch
      (db_to_gain (from_bits (MkFloat (from_le (take 4 data)))))
      kAudioLevelControlPropertyScalarValue.
Proof.
  intros Hi Hch Hwf Hl. unfold set_volume_decibels, read_f32.
  by rewrite Hi, read_at_Ret, !bind_Ret by lia.
Qed.

Lemma find_control id addr p :
  audio_object_is_control id = true →
  (∀ ch, find_control_property_data host_has_PropertiesChanged (control_is_volume id) ch addr = Some p) →
  find id addr = Ret (Ok p).
Proof.
  intros Hid Hp. destruct (control_channel_index_Ret id Hid) as (ch & Hc & Hch & Hnum).
  unfold find_property_data, PLUGIN_ID.
  rewrite plug_in_object_is_1, Hid, (control_index_Ret id ch Hc Hch), bind_Ret, Hp.
  unfold DEVICE_ID, STREAM_ID.
  by rewrite !(proj2 (Z.eqb_neq id _)) by (destruct (control_is_volume id); lia).
Qed.

Lemma find_IsActive addr :
  mSelector addr = kAudioStreamPropertyIsActive →
  find STREAM_ID addr = Ret (Ok (stream_IsActive host_has_PropertiesChanged)).
Proof.
  intros Hsel. unfold find_property_data, find_stream_property_data, PLUGIN_ID.
  rewrite plug_in_object_is_1, Hsel. by compare_selectors stream_selectors_distinct.
Qed.

Lemma find_mute_Value id addr :
  audio_object_is_control id = true → control_is_volume id = false →
  mSelector addr = kAudioBooleanControlPropertyValue →
  find id addr = Ret (Ok (mute_Value host_has_PropertiesChanged)).
Proof.
  intros Hid Hv Hsel. apply find_control; [done|]. intros ch. unfold find_control_property_data.
  rewrite Hv, Hsel. by compare_selectors control_selectors_distinct.
Qed.

(** A settable property is in the tables, four bytes long, and its reader does
    what the specification says. *)
Lemma settable_entry id addr :
  settable_address id addr = true →
  ∃ p r, find id addr = Ret (Ok p) ∧ get_data_size p id addr = Ret (4, 4) ∧
    read_data p = Some (Unneeded r) ∧
    ∀ d qs q size data, tables_wf d → 4 <= Z.of_nat (length data) →
      r d id addr qs q size data =
        Ret (set_effect d id addr (from_le (take 4 data)),
             notifications d id (changed_addresses id addr)).
Proof.
  unfold settable_address. destruct (Z.eqb_spec id STREAM_ID) as [->|Hs].
  - intros Hsel%Z.eqb_eq. exists (stream_IsActive host_has_PropertiesChanged). eexists.
    split_and!; [by apply find_IsActive|done|done|].
    intros d qs q size data Hwf Hl. unfold set_stream_is_active, read_u32.
    rewrite read_at_Ret, !bind_Ret by lia. by rewrite notify_notifications.
  - rewrite andb_true_iff. intros [Hid Hsel].
    destruct (control_channel_index_Ret id Hid) as (ch & Hc & Hch & _).
    pose proof (control_index_Ret id ch Hc Hch) as Hi.
    pose proof (λ p, find_control id addr p Hid) as Hfind.
    unfold set_effect, changed_addresses. rewrite Hid, (proj2 (Z.eqb_neq _ _) Hs),
      (control_channel_index_val id ch Hc).
    unfold find_control_property_data in Hfind.
    destruct (control_is_volume id); [apply orb_true_iff in Hsel as [Hsel|Hsel]|];
      apply Z.eqb_eq in Hsel; rewrite Hsel in *; do 2 eexists;
      (split_and!; [apply Hfind; intros _; compare_selectors control_selectors_distinct; reflexivity|reflexivity|reflexivity|]);
      intros d qs q size data Hwf Hl; compare_selectors control_selectors_distinct.
    + by rewrite (set_volume_scalar_spec d id addr ch), store_gain_spec.
    + by rewrite (set_volume_decibels_spec d id addr ch), store_gain_spec.
    + by apply set_mute_value_spec.
Qed.

Lemma unsettable_entry id addr p :
  settable_address id addr = false → find id addr = Ret (Ok p) → read_data p = None.
Proof.
  unfold settable_address, find_property_data, PLUGIN_ID. rewrite plug_in_object_is_1.
  assert (∀ (o : option PropertyData), (o = Some p → read_data p = None) →
    Ret (ok_or o true) = Ret (Ok p) → read_data p = None) as Ho.
  { intros [p'|] Hp; cbn; [|done]. intros [= ->]. auto. }
  destruct (Z.eqb_spec id 1) as [->|]; [intros _; apply Ho|].
  { unfold find_plugin_property_data. each_arm; done. }
  destruct (Z.eqb_spec id DEVICE_ID) as [->|]; [intros _; apply Ho|].
  { unfold find_device_property_data, find_device_scoped_property.
    destruct (_ && _); [by intros [= <-]|].
    destruct (if in_output_scope addr then _ else _) as [p'|] eqn:E; [|each_arm; done].
    intros [= ->]. revert E. each_arm; done. }
  destruct (Z.eqb_spec id STREAM_ID) as [->|].
  { intros Hsel. apply Ho. unfold find_stream_property_data. rewrite Hsel. each_arm; done. }
  destruct (audio_object_is_control id) eqn:Hid; [|done]. cbn [andb].
  destruct (control_channel_index_Ret id Hid) as (ch & Hc & Hch & _).
  rewrite (control_index_Ret id ch Hc Hch), bind_Ret. intros Hsel. apply Ho.
  unfold find_control_property_data. destruct (control_is_volume id).
  - apply orb_false_iff in Hsel as [-> ->]. each_arm; done.
  - rewrite Hsel. each_arm; done.
Qed.

(** C9: exactly the stream's activity, the two views of a volume and the value
    of a mute can be set, and [set_property_data] does what the specification
    says: with four bytes or more it changes that one thing and nothing else,
    and tells the host, if there is one that listens, which properties changed
    (both views, for a volume); with less it reports a bad size; and for every
    other property it reports an error, with nothing changed and nobody told. *)
Theorem set_property_data_spec (d : Driver) (obj_id : Z) (addr : AudioObjectPropertyAddress)
    (qual_size : Z) (qual : option (list Z)) (data_size place : Z) (data : list Z) :
  tables_wf d → place ≠ 0 → 0 <= data_size <= Z.of_nat (length data) →
  (settable raw_driver_ptr obj_id (Some addr) place = Ret (kAudioHardwareNoError, Some true)
     ↔ settable_address obj_id addr = true) ∧
  ∃ status d' ns,
    set d raw_driver_ptr obj_id (Some addr) qual_size qual data_size (Some data)
      = Ret (status, d', ns) ∧
    if settable_address obj_id addr then
      if data_size <? 4 then status = kAudioHardwareBadPropertySizeError ∧ d' = d ∧ ns = []
      else status = kAudioHardwareNoError ∧
           d' = set_effect d obj_id addr (from_le (take 4 data)) ∧
           ns = notifications d obj_id (changed_addresses obj_id addr)
    else status ≠ kAudioHardwareNoError ∧ d' = d ∧ ns = [].
Proof.
  intros Hwf Hp Hsize. apply Z.eqb_neq in Hp. destruct errors_are_errors as (_ & _ & Hunk & Hbs & _).
  unfold is_property_settable, set_property_data, eq_driver_ptr. rewrite Z.eqb_refl, Hp. cbn [negb].
  destruct (settable_address obj_id addr) eqn:Hset.
  - destruct (settable_entry obj_id addr Hset) as (p & r & -> & Hn & Hr & Heff).
    cbn [catch_unwind]. rewrite !bind_Ret. cbn beta iota. rewrite Hr, Hn, !bind_Ret. cbn [fst].
    split; [done|]. destruct (Z.ltb_spec data_size 4); [by eauto 10|].
    rewrite Heff, bind_Ret by (done || lia). eauto 10.
  - destruct (find_cases obj_id addr) as [(p & Hf & (n & Hn & _))|(b & -> & Hb)].
    + rewrite Hf. cbn [catch_unwind]. rewrite !bind_Ret. cbn beta iota.
      rewrite (unsettable_entry obj_id addr p Hset Hf), Hn, !bind_Ret. cbn [fst].
      split; [done|]. destruct (Z.ltb_spec data_size n); eauto 10.
    + cbn [catch_unwind]. rewrite !bind_Ret. pose proof (lookup_error_is_error b).
      split; [|by eauto 10]. cbn. split; [|done]. intros [=].
Qed.

(** Whatever the arguments, [set_property_data] returns, having set a settable
    property or nothing. *)
Lemma set_property_data_cases d driver id addr qs q size out :
  tables_wf d → 0 <= size → buffer_ok size out →
  ∃ status d' ns, set d driver id addr qs q size out = Ret (status, d', ns) ∧
    (d' = d ∨ ∃ a w, settable_address id a = true ∧ d' = set_effect d id a w).
Proof.
  intros Hwf Hsize Hbuf. unfold set_property_data. destruct (negb _); [by eauto 10|].
  destruct addr as [addr|]; [|by eauto 10].
  destruct (settable_address id addr) eqn:Hs.
  - destruct (settable_entry id addr Hs) as (p & r & -> & Hn & Hr & Heff).
    cbn [catch_unwind]. rewrite bind_Ret. destruct out as [data|]; [|by eauto 10].
    rewrite Hn, bind_Ret, Hr. cbn [fst]. destruct (Z.ltb_spec size 4); [by eauto 10|].
    cbn in Hbuf. rewrite Heff, bind_Ret by (done || lia). eauto 10.
  - destruct (find_cases id addr) as [(p & Hf & (n & Hn & _))|(b & -> & Hb)];
      [|cbn [catch_unwind]; rewrite bind_Ret; by eauto 10].
    pose proof (unsettable_entry id addr p Hs Hf) as Hr. rewrite Hf. cbn [catch_unwind].
    rewrite bind_Ret. destruct out as [data|]; [|by eauto 10].
    rewrite Hn, bind_Ret, Hr. destruct (size <? _); eauto 10.
Qed.

(** ** Setting one object leaves the others alone *)

(** What the answers about an object depend on. *)
Definition same_view (id : Z) (d d' : Driver) : Prop :=
  DEVICE_IO d' = DEVICE_IO d ∧
  (id = STREAM_ID → IS_OUTPUT_STREAM_ACTIVE d' = IS_OUTPUT_STREAM_ACTIVE d) ∧
  (audio_object_is_control id = true →
   if control_is_volume id
   then OUTPUT_VOLUME d' !! Z.to_nat ((id - FIRST_CTRL_ID) / 2)
        = OUTPUT_VOLUME d !! Z.to_nat ((id - FIRST_CTRL_ID) / 2)
   else OUTPUT_MUTE d' !! Z.to_nat ((id - FIRST_CTRL_ID) / 2)
        = OUTPUT_MUTE d !! Z.to_nat ((id - FIRST_CTRL_ID) / 2)).

(** A writer that cannot tell two states apart. *)
Definition writer_agrees {Q} (d d' : Driver) (id : Z) (w : writer Q) : Prop :=
  ∀ h addr qs q size buf, w d' h id addr qs q size buf = w d h id addr qs q size buf.
Definition entry_agrees (d d' : Driver) (id : Z) (p : PropertyData) : Prop :=
  match write_data p with
  | Needed (_, w) => writer_agrees d d' id w
  | Unneeded w => writer_agrees d d' id w
  end.

Lemma once_agrees {Q T} `{Repr T} d d' id (v : Driver → Z → exec T) :
  v d' id = v d id → writer_agrees (Q := Q) d d' id (once v).
Proof. intros Hv h addr qs q size buf. unfold once. by rewrite Hv. Qed.

Lemma find_agrees id addr p d d' :
  same_view id d d' → find id addr = Ret (Ok p) → entry_agrees d d' id p.
Proof.
  intros (Hio & Hact & Hctl). unfold find_property_data, PLUGIN_ID. rewrite plug_in_object_is_1.
  assert (∀ o, (o = Some p → entry_agrees d d' id p) →
    Ret (ok_or o true) = Ret (Ok p) → entry_agrees d d' id p) as Ho.
  { intros [p'|] Hp; cbn; [|done]. intros [= ->]. auto. }
  destruct (Z.eqb_spec id 1) as [->|]; [apply Ho|].
  { unfold find_plugin_property_data. each_arm; done. }
  destruct (Z.eqb_spec id DEVICE_ID) as [->|]; [apply Ho|].
  { unfold find_device_property_data, find_device_scoped_property.
    destruct (_ && _); [by intros [= <-]|].
    destruct (if in_output_scope addr then _ else _) as [p'|] eqn:E.
    - intros [= ->]. revert E. each_arm; done.
    - each_arm; try done. apply once_agrees. by rewrite Hio. }
  destruct (Z.eqb_spec id STREAM_ID) as [->|].
  { apply Ho. unfold find_stream_property_data. each_arm; try done.
    apply once_agrees. by rewrite Hact. }
  destruct (audio_object_is_control id) eqn:Hid; [|done]. specialize (Hctl eq_refl).
  destruct (control_channel_index_Ret id Hid) as (ch & Hc & Hch & _).
  rewrite (control_channel_index_val id ch Hc) in Hctl.
  pose proof (control_index_Ret id ch Hc Hch) as Hi. rewrite Hi, bind_Ret. apply Ho.
  unfold find_control_property_data.
  destruct (control_is_volume id); each_arm; try done; apply once_agrees; rewrite Hi, !bind_Ret.
  - unfold volume_control_norm_val, volume_control_db_val. by rewrite Hctl.
  - unfold volume_control_db_val. by rewrite Hctl.
  - by rewrite Hctl.
Qed.

Lemma set_effect_same_view d id addr w id' :
  settable_address id addr = true → id' ≠ id → same_view id' d (set_effect d id addr w).
Proof.
  intros Hset Hne. unfold set_effect, same_view.
  destruct (Z.eqb_spec id STREAM_ID) as [->|Hs].
  { split_and!; [done|by intros ->|]. intros _. by destruct (control_is_volume id'). }
  unfold settable_address in Hset. rewrite (proj2 (Z.eqb_neq _ _) Hs) in Hset.
  apply andb_true_iff in Hset as [Hid _].
  destruct (control_channel_index_Ret id Hid) as (ch & Hc & Hch & Hn).
  rewrite (control_channel_index_val id ch Hc).
  destruct (control_is_volume id) eqn:Hv; split_and!; try done; intros Hid';
    destruct (control_channel_index_Ret id' Hid') as (ch' & Hc' & Hch' & Hn');
    rewrite ?(control_channel_index_val id' ch' Hc');
    destruct (control_is_volume id') eqn:Hv'; try done; cbn; apply list_lookup_insert_ne; lia.
Qed.

(** C19: setting a property of one object does not change any answer about
    another: whatever is set on [id], every read on an object [id'] other than
    it, with whatever arguments, returns the same bytes after as before. *)
Theorem set_leaves_other_objects_alone (d d' : Driver) (ns : list Notification) (id id' : Z)
    (addr : AudioObjectPropertyAddress) (qual_size : Z) (qual : option (list Z)) (data_size : Z)
    (data : list Z) :
  tables_wf d → 0 <= data_size → buffer_ok data_size (Some data) → id' ≠ id →
  set d raw_driver_ptr id (Some addr) qual_size qual data_size (Some data)
    = Ret (kAudioHardwareNoError, d', ns) →
  ∀ h driver addr' qual_size' qual' data_size' place out,
    get d' h driver id' addr' qual_size' qual' data_size' place out =
    get d h driver id' addr' qual_size' qual' data_size' place out.
Proof.
  intros Hwf Hsize Hbuf Hne Hset h driver addr' qs' q' size' place out. cbn in Hbuf.
  assert (same_view id' d d') as Hview.
  { destruct errors_are_errors as (_ & _ & Hunk & Hbs & _).
    unfold set_property_data, eq_driver_ptr in Hset. rewrite Z.eqb_refl in Hset. cbn [negb] in Hset.
    destruct (settable_address id addr) eqn:Hs.
    - destruct (settable_entry id addr Hs) as (p & r & Hf & Hn & Hr & Heff).
      rewrite Hf in Hset. cbn [catch_unwind] in Hset. rewrite !bind_Ret, Hn, bind_Ret, Hr in Hset.
      cbn [fst] in Hset. destruct (Z.ltb_spec data_size 4); [by injection Hset as Hx; destruct Hbs|].
      rewrite Heff, bind_Ret in Hset by (done || lia). injection Hset as <- _.
      by apply set_effect_same_view.
    - destruct (find_cases id addr) as [(p & Hf & (n & Hn & _))|(b & Hf & Hb)];
        rewrite Hf in Hset; cbn [catch_unwind] in Hset; rewrite !bind_Ret in Hset.
      + rewrite Hn, bind_Ret, (unsettable_entry id addr p Hs Hf) in Hset. cbn [fst] in Hset.
        destruct (data_size <? n); injection Hset as Hx; [by destruct Hbs|by destruct Hunk].
      + injection Hset as Hx. by destruct (lookup_error_is_error b). }
  unfold get_property_data. destruct (negb _); [done|]. destruct addr' as [addr'|]; [|done].
  destruct (place =? 0); [done|]. destruct out as [buf|]; [|done].
  destruct (find_cases id' addr') as [(p & Hf & _)|(b & -> & _)]; [|done].
  pose proof (find_agrees id' addr' p d d' Hview Hf) as Hag. unfold entry_agrees in Hag.
  rewrite Hf. cbn [catch_unwind]. rewrite !bind_Ret.
  destruct (get_data_size p id' addr') as [range| |]; [|done..]. rewrite !bind_Ret.
  destruct (write_data p) as [[gq w]|w]; [|by rewrite Hag].
  destruct (size' <? range.1); [done|]. destruct q' as [q'|]; [|done].
  destruct (gq id' addr') as [range'| |]; [|done..]. rewrite !bind_Ret. by rewrite Hag.
Qed.

(** ** Reading back what was set *)

(** A read with room enough is a run of the entry's writer. *)
Lemma get_unneeded d h id addr p n w qs q size place buf :
  find id addr = Ret (Ok p) → get_data_size p id addr = Ret (n, n) → write_data p = Unneeded w →
  place ≠ 0 → n <= size →
  get d h raw_driver_ptr id (Some addr) qs q size place (Some buf) =
    ('(k, h, out) ← w d h id addr qs q size buf; Ret (kAudioHardwareNoError, h, Some k, Some out)).
Proof.
  intros Hf Hn Hw Hp%Z.eqb_neq Hsize. unfold get_property_data, eq_driver_ptr.
  rewrite Z.eqb_refl, Hp, Hf. cbn [negb catch_unwind]. rewrite bind_Ret, Hn, bind_Ret.
  cbn [fst]. by rewrite (proj2 (Z.ltb_ge _ _) Hsize), Hw.
Qed.

(** Setting a settable property, given enough data. *)
Lemma set_settable d id addr qs q size data :
  tables_wf d → settable_address id addr = true → 4 <= size → 4 <= Z.of_nat (length data) →
  set d raw_driver_ptr id (Some addr) qs q size (Some data) =
    Ret (kAudioHardwareNoError, set_effect d id addr (from_le (take 4 data)),
         notifications d id (changed_addresses id addr)).
Proof.
  intros Hwf Hs Hsize Hd. destruct (settable_entry id addr Hs) as (p & r & Hf & Hn & Hr & Heff).
  unfold set_property_data, eq_driver_ptr. rewrite Z.eqb_refl, Hf. cbn [negb catch_unwind].
  rewrite bind_Ret, Hn, bind_Ret, Hr. cbn [fst]. rewrite (proj2 (Z.ltb_ge _ _) Hsize).
  by rewrite Heff.
Qed.

(** C20: the boolean properties round trip: after the stream's activity or a
    mute has been set to a 32-bit word, reading it yields the word 0 if it was
    0 and the word 1 otherwise, in the first four bytes of the buffer. *)
Theorem boolean_set_get_roundtrip (d : Driver) (h : CFHeap) (id : Z)
    (addr : AudioObjectPropertyAddress) (qs qs' : Z) (q q' : option (list Z))
    (size size' place : Z) (data buf : list Z) :
  tables_wf d → settable_address id addr = true → id = STREAM_ID ∨ control_is_volume id = false →
  4 <= size <= Z.of_nat (length data) → 4 <= size' <= Z.of_nat (length buf) → place ≠ 0 →
  ∃ d' ns,
    set d raw_driver_ptr id (Some addr) qs q size (Some data) = Ret (kAudioHardwareNoError, d', ns) ∧
    get d' h raw_driver_ptr id (Some addr) qs' q' size' place (Some buf) =
      Ret (kAudioHardwareNoError, h, Some 4,
           Some (to_le 4 (if from_le (take 4 data) =? 0 then 0 else 1) ++ drop 4 buf)).
Proof.
  intros Hwf Hs Hid Hd Hb Hp. do 2 eexists. split; [apply set_settable; [done..|lia|lia]|].
  set (w := from_le (take 4 data)).
  unfold settable_address in Hs. unfold set_effect.
  destruct (Z.eqb_spec id STREAM_ID) as [->|Hns].
  - apply Z.eqb_eq in Hs. erewrite (get_unneeded _ _ _ _ _ 4); [|by apply find_IsActive|done|done|done|lia].
    unfold once. rewrite bind_Ret, write_once_get_size_Ret by (change (size_of u32) with 4; lia).
    cbn. by destruct (w =? 0).
  - apply andb_true_iff in Hs as [Hctl Hs]. destruct Hid as [?|Hv]; [done|].
    rewrite Hv in *. apply Z.eqb_eq in Hs.
    destruct (control_channel_index_Ret id Hctl) as (ch & Hc & Hch & _).
    rewrite (control_channel_index_val id ch Hc).
    erewrite (get_unneeded _ _ _ _ _ 4); [|by apply find_mute_Value|done|done|done|lia].
    unfold once. destruct Hwf as [_ Hm].
    rewrite (control_index_Ret id ch Hc Hch), bind_Ret. cbn [OUTPUT_MUTE set_mute].
    rewrite list_lookup_insert_eq by lia. cbn [unwrap]. rewrite !bind_Ret.
    rewrite write_once_get_size_Ret by (change (size_of u32) with 4; lia).
    cbn. by destruct (w =? 0).
Qed.

(** ** The object tree *)

(** The object numbers in a buffer. *)
Fixpoint words (bs : list Z) : list Z :=
  match bs with
  | b0 :: b1 :: b2 :: b3 :: bs => from_le [b0; b1; b2; b3] :: words bs
  | _ => []
  end.

(** How the HAL reads a property that is a list of objects, with plenty of
    room. *)
Definition read_ids (d : Driver) (h : CFHeap) (id selector : Z) : exec (option (list Z)) :=
  '(_, _, written, out) ←
    get d h raw_driver_ptr id
      (Some (MkAddress selector kAudioObjectPropertyScopeGlobal kAudioObjectPropertyElementMain))
      0 None 4096 1 (Some (replicate 4096 0));
  Ret match written, out with
      | Some n, Some out => Some (words (take (Z.to_nat n) out))
      | _, _ => None
      end.

Lemma words_bytes (ids : list Z) :
  Forall is_u32 ids → words ((MkUint <$> ids : list u32) ≫= bytes_of) = ids.
Proof.
  induction 1 as [|id ids Hid _ IH]; [done|]. rewrite fmap_cons, bind_cons.
  change (bytes_of (MkUint id : u32)) with (to_le 4 id). cbn [to_le app words].
  rewrite IH. f_equal. change (from_le (to_le 4 id) = id). apply from_to_le_id.
  change (2 ^ _) with (2 ^ 32). bounds.
Qed.

(** A property whose writer puts down the given objects. *)
Lemma read_ids_entry d h id selector p n w ids :
  let addr := MkAddress selector kAudioObjectPropertyScopeGlobal kAudioObjectPropertyElementMain in
  find id addr = Ret (Ok p) → get_data_size p id addr = Ret (n, n) → write_data p = Unneeded w →
  n <= 4096 → Forall is_u32 ids →
  (let bs := (MkUint <$> ids : list u32) ≫= bytes_of in
   w d h id addr 0 None 4096 (replicate 4096 0)
     = Ret (Z.of_nat (length bs), h, bs ++ drop (length bs) (replicate 4096 0))) →
  read_ids d h id selector = Ret (Some ids).
Proof.
  intros addr Hf Hn Hw Hle Hids Hrun. cbn zeta in Hrun. unfold read_ids. fold addr.
  rewrite (get_unneeded _ _ _ _ p n w), Hrun, !bind_Ret by done.
  by rewrite Nat2Z.id, take_app_length, words_bytes.
Qed.

(** The specification of the tree. *)
Definition owner_of (id : Z) : Z :=
  if id =? 1 then kAudioObjectUnknown else if id =? DEVICE_ID then 1 else DEVICE_ID.
Definition owned_by (id : Z) : list Z :=
  if id =? 1 then [DEVICE_ID] else if id =? DEVICE_ID then STREAM_ID :: control_ids else [].

Lemma in_output_scope_global sel elem :
  in_output_scope (MkAddress sel kAudioObjectPropertyScopeGlobal elem) = true.
Proof. apply bool_decide_eq_true. cbn. set_solver. Qed.

Lemma is_object_cases id :
  is_object id = true → id = 1 ∨ id = DEVICE_ID ∨ id = STREAM_ID ∨ audio_object_is_control id = true.
Proof.
  unfold is_object. rewrite orb_true_iff, bool_decide_eq_true, !elem_of_cons, elem_of_nil. tauto.
Qed.

Lemma control_not_fixed id : audio_object_is_control id = true → id ≠ 1 ∧ id ≠ DEVICE_ID.
Proof.
  intros Hid. destruct (control_channel_index_Ret id Hid) as (ch & _ & Hch & Hn).
  unfold DEVICE_ID. destruct (control_is_volume id); lia.
Qed.

Lemma read_owner d h id :
  is_object id = true → read_ids d h id kAudioObjectPropertyOwner = Ret (Some [owner_of id]).
Proof.
  intros Hid. assert (∀ o p, is_u32 o → p = object_id o →
    find id (MkAddress kAudioObjectPropertyOwner kAudioObjectPropertyScopeGlobal
               kAudioObjectPropertyElementMain) = Ret (Ok p) →
    read_ids d h id kAudioObjectPropertyOwner = Ret (Some [o])) as Hread.
  { intros o p Ho -> Hf. eapply (read_ids_entry _ _ _ _ _ 4 _ [o]); [exact Hf|done|done|done| |done].
    constructor; [exact Ho|constructor]. }
  unfold owner_of. rewrite unknown_object_is_0.
  apply is_object_cases in Hid as [->|[->|[->|Hid]]].
  - apply (Hread 0 plugin_Owner); [done|unfold plugin_Owner; by rewrite unknown_object_is_0|].
    unfold find_property_data, find_plugin_property_data, PLUGIN_ID. rewrite plug_in_object_is_1.
    cbn [mSelector mScope mElement]. by compare_selectors plugin_selectors_distinct.
  - apply (Hread 1 device_Owner);
      [done|unfold device_Owner, PLUGIN_ID; by rewrite plug_in_object_is_1|].
    unfold find_property_data, find_device_property_data, find_device_scoped_property, PLUGIN_ID.
    rewrite plug_in_object_is_1, in_output_scope_global. cbn [mSelector mScope mElement].
    by compare_selectors device_selectors_distinct.
  - apply (Hread DEVICE_ID stream_Owner); [done|done|].
    unfold find_property_data, find_stream_property_data, PLUGIN_ID. rewrite plug_in_object_is_1.
    cbn [mSelector mScope mElement]. by compare_selectors stream_selectors_distinct.
  - destruct (control_not_fixed id Hid) as [Hn1%Z.eqb_neq Hn2%Z.eqb_neq]. rewrite Hn1, Hn2.
    apply (Hread DEVICE_ID control_Owner); [done|done|]. apply find_control; [done|]. intros ch.
    unfold find_control_property_data. cbn [mSelector]. by rewrite Z.eqb_refl.
Qed.

Lemma all_of_run {Q} d h id addr qs (q : Q) (ids : list Z) :
  Z.of_nat (length ids) * 4 <= 4096 →
  let bs := (MkUint <$> ids : list u32) ≫= bytes_of in
  all_of (MkUint <$> ids : list u32) d h id addr qs q 4096 (replicate 4096 0)
    = Ret (Z.of_nat (length bs), h, bs ++ drop (length bs) (replicate 4096 0)).
Proof.
  intros Hl. cbn zeta. unfold all_of. rewrite try_into_Ret, bind_Ret by done.
  rewrite write_get_size_all; rewrite ?length_fmap, ?length_replicate; [|done..|done].
  by rewrite bind_Ret, length_concat_bytes, length_fmap.
Qed.

Lemma control_ids_u32 : Forall is_u32 control_ids.
Proof.
  apply Forall_forall. intros id Hid%elem_of_seqZ.
  unfold FIRST_CTRL_ID, LAST_CTRL_ID, N_CONTROLS, N_CHANNELS in Hid. bounds.
Qed.

Lemma read_owned d h id :
  is_object id = true → read_ids d h id kAudioObjectPropertyOwnedObjects = Ret (Some (owned_by id)).
Proof.
  intros Hid. unfold owned_by. apply is_object_cases in Hid as [->|[->|[->|Hid]]].
  - eapply (read_ids_entry _ _ _ _ plugin_OwnedObjects 4); [|done|done|done| |by apply all_of_run].
    + unfold find_property_data, find_plugin_property_data, PLUGIN_ID. rewrite plug_in_object_is_1.
      cbn [mSelector mScope mElement]. by compare_selectors plugin_selectors_distinct.
    + constructor; [done|constructor].
  - eapply (read_ids_entry _ _ _ _ device_OwnedObjects 140); [|done|done|done| |].
    + unfold find_property_data, find_device_property_data, find_device_scoped_property, PLUGIN_ID.
      rewrite plug_in_object_is_1, in_output_scope_global. cbn [mSelector mScope mElement].
      by compare_selectors device_selectors_distinct.
    + constructor; [done|apply control_ids_u32].
    + cbn beta. rewrite in_output_scope_global. by apply all_of_run.
  - eapply (read_ids_entry _ _ _ _ stream_OwnedObjects 0); [|done|done|done|constructor|done].
    unfold find_property_data, find_stream_property_data, PLUGIN_ID. rewrite plug_in_object_is_1.
    cbn [mSelector mScope mElement]. by compare_selectors stream_selectors_distinct.
  - destruct (control_not_fixed id Hid) as [Hn1%Z.eqb_neq Hn2%Z.eqb_neq]. rewrite Hn1, Hn2.
    eapply (read_ids_entry _ _ _ _ control_OwnedObjects 0); [|done|done|done|constructor|done].
    apply find_control; [done|]. intros ch. unfold find_control_property_data. cbn [mSelector].
    by compare_selectors control_selectors_distinct.
Qed.

Lemma owned_by_spec o c :
  is_object o = true → c ∈ owned_by o ↔ is_object c = true ∧ owner_of c = o.
Proof.
  intros Ho. unfold owned_by, owner_of, is_object, DEVICE_ID, STREAM_ID in *.
  assert (c ∈ control_ids ↔ audio_object_is_control c = true) as Hctl.
  { unfold control_ids, audio_object_is_control. rewrite elem_of_seqZ, andb_true_iff, !Z.leb_le. lia. }
  pose proof (control_not_fixed c) as Hfix. unfold DEVICE_ID in Hfix.
  rewrite orb_true_iff, bool_decide_eq_true, !elem_of_cons, elem_of_nil in *.
  rewrite unknown_object_is_0.
  assert (audio_object_is_control o = true → 4 <= o) as Ho4.
  { unfold audio_object_is_control. rewrite andb_true_iff, !Z.leb_le. unfold FIRST_CTRL_ID. lia. }
  destruct (Z.eqb_spec o 1) as [->|]; [|destruct (Z.eqb_spec o 2) as [->|]];
    rewrite ?elem_of_cons, ?elem_of_nil, ?Hctl;
    destruct (Z.eqb_spec c 1), (Z.eqb_spec c 2); split; intuition (done || lia).
Qed.

(** C10: the HAL sees a tree.  For every object of the driver, the objects it
    is said to own are listed without repetition and are exactly the objects
    that name it as their owner; the plug-in has the unknown object, which is
    not one of the driver's, as its owner. *)
Theorem object_tree (d : Driver) (h : CFHeap) (o : Z) :
  is_object o = true →
  (∃ ids, read_ids d h o kAudioObjectPropertyOwnedObjects = Ret (Some ids) ∧ NoDup ids ∧
     ∀ c, c ∈ ids ↔ is_object c = true ∧ read_ids d h c kAudioObjectPropertyOwner = Ret (Some [o])) ∧
  (read_ids d h o kAudioObjectPropertyOwner = Ret (Some [kAudioObjectUnknown]) ↔ o = PLUGIN_ID) ∧
  is_object kAudioObjectUnknown = false.
Proof.
  intros Ho. unfold PLUGIN_ID. rewrite plug_in_object_is_1, unknown_object_is_0. split_and!; [| |done].
  - exists (owned_by o). split; [by apply read_owned|]. split.
    + unfold owned_by. destruct (o =? 1); [by repeat constructor; set_solver|].
      destruct (o =? DEVICE_ID); [|constructor]. constructor; [|apply NoDup_seqZ].
      unfold control_ids, STREAM_ID, FIRST_CTRL_ID. rewrite elem_of_seqZ. lia.
    + intros c. rewrite (owned_by_spec o c Ho). split.
      * intros [Hc <-]. split; [done|]. by apply read_owner.
      * intros [Hc Hr]. split; [done|]. rewrite (read_owner d h c Hc) in Hr. by injection Hr.
  - rewrite (read_owner d h o Ho). unfold owner_of. rewrite unknown_object_is_0.
    destruct (Z.eqb_spec o 1); [by subst|]. split; [|done]. destruct (o =? DEVICE_ID); intros [=].
Qed.

(** ** Finding the device by its name *)

Definition translate_address : AudioObjectPropertyAddress :=
  MkAddress kAudioPlugInPropertyTranslateUIDToDevice kAudioObjectPropertyScopeGlobal
    kAudioObjectPropertyElementMain.

Lemma find_translate :
  find PLUGIN_ID translate_address = Ret (Ok plugin_TranslateUIDToDevice).
Proof.
  unfold find_property_data, find_plugin_property_data. rewrite Z.eqb_refl.
  cbn [translate_address mSelector mScope mElement]. by compare_selectors plugin_selectors_distinct.
Qed.

(** The part of the read after the arguments are checked. *)
Lemma get_translate_uid d h qual data_size place buf :
  place ≠ 0 → 8 <= Z.of_nat (length qual) → 4 <= data_size →
  get d h raw_driver_ptr PLUGIN_ID (Some translate_address) (Z.of_nat (length qual)) (Some qual)
      data_size place (Some buf) =
    ('(size, h, out) ← translate_uid d h PLUGIN_ID translate_address (Z.of_nat (length qual)) qual
                         data_size buf;
     Ret (kAudioHardwareNoError, h, Some size, Some out)).
Proof.
  intros Hp%Z.eqb_neq Hq Hsize. unfold get_property_data, eq_driver_ptr.
  rewrite Z.eqb_refl, Hp, find_translate. cbn [negb catch_unwind].
  rewrite bind_Ret. cbn [get_data_size plugin_TranslateUIDToDevice].
  rewrite bind_Ret. cbn [fst s]. change OBJECT_ID_SIZE with 4.
  rewrite (proj2 (Z.ltb_ge data_size 4)) by lia. cbn [write_data plugin_TranslateUIDToDevice].
  rewrite bind_Ret. cbn [fst s]. change CFSTRING_SIZE with 8.
  by rewrite (proj2 (Z.ltb_ge (Z.of_nat (length qual)) 8)) by lia.
Qed.

(** The rule about the qualifier is not idle: with eight bytes that are not a
    reference to a CFString, live before or just created, the read is
    undefined behaviour. *)
Lemma translate_uid_dangling d h qual data_size place buf :
  place ≠ 0 → 8 <= Z.of_nat (length qual) → 4 <= data_size →
  cf_contents (cf_string h DEVICE_UID).2 (from_le (take 8 qual)) = None →
  get d h raw_driver_ptr PLUGIN_ID (Some translate_address) (Z.of_nat (length qual)) (Some qual)
      data_size place (Some buf) = UB.
Proof.
  intros Hp Hq Hsize Hdead. rewrite get_translate_uid by done.
  unfold translate_uid, read_ptr. rewrite read_at_Ret, !bind_Ret by lia.
  destruct (cf_string h DEVICE_UID) as [q h']. unfold cf_string_compare.
  change (Z.to_nat 8) with 8%nat. cbn [snd] in Hdead. by rewrite Hdead.
Qed.

(** C24: the plug-in translates names to devices: given a live CFString as the
    qualifier, it answers with the device when the text is [DEVICE_UID] and
    with the unknown object otherwise, provided that the string it creates to
    compare with could be created.  That string is never released: every
    question leaves the driver with one more reference to an object with the
    text [DEVICE_UID] (a new object, or one that had this text already), and
    with every other object as it was. *)
Theorem translate_uid_finds_device (d : Driver) (h : CFHeap) (p : Z) (str : string)
    (qual : list Z) (data_size place : Z) (buf : list Z) :
  place ≠ 0 → 8 <= Z.of_nat (length qual) → from_le (take 8 qual) = p →
  cf_contents h p = Some str → (cf_string h DEVICE_UID).1 ≠ 0 →
  4 <= data_size <= Z.of_nat (length buf) →
  ∃ h' leaked,
    get d h raw_driver_ptr PLUGIN_ID (Some translate_address) (Z.of_nat (length qual)) (Some qual)
        data_size place (Some buf) =
      Ret (kAudioHardwareNoError, h', Some 4,
           Some (to_le 4 (if decide (str = DEVICE_UID) then DEVICE_ID else kAudioObjectUnknown)
                 ++ drop 4 buf)) ∧
    (cf_contents h leaked = None ∨ cf_contents h leaked = Some DEVICE_UID) ∧
    cf_contents h' leaked = Some DEVICE_UID ∧ cf_refs h' leaked = cf_refs h leaked + 1 ∧
    ∀ q, q ≠ leaked → cf_contents h' q = cf_contents h q ∧ cf_refs h' q = cf_refs h q.
Proof.
  intros Hp Hq Hptr Hstr Hmem Hsize. unfold cf_string in Hmem.
  pose proof (cf_create h DEVICE_UID) as Hcf.
  destruct (CFStringCreateWithBytes h DEVICE_UID) as [q h'] eqn:Hc. cbn [fst] in Hmem.
  rewrite (proj2 (Z.eqb_neq _ _) Hmem) in Hcf. exists h', q. split; [|done].
  rewrite get_translate_uid by (done || lia). unfold translate_uid, read_ptr, cf_string.
  rewrite read_at_Ret, !bind_Ret by lia. change (Z.to_nat 8) with 8%nat. rewrite Hptr, Hc.
  destruct (cf_create_compare h p str q h' DEVICE_UID Hc Hmem Hstr) as [-> Hcmp]. rewrite bind_Ret.
  rewrite write_at_0 by (rewrite length_bytes_of; change (size_of u32) with 4; lia).
  rewrite bind_Ret.
  destruct (Z.eqb_spec (CFStringCompare h' p q) kCFCompareEqualTo) as [E|E];
    destruct (decide (str = DEVICE_UID)); intuition congruence.
Qed.
End callbacks.

(** ** Witnesses: the driver at address 77, a host that listens *)

Section witnesses.
Abbreviation listening := (λ _ : Z, true).

(** The objects the device owns, in a buffer that is just large enough. *)
Lemma get_property_data_safe_witness :
  ∃ r, get_property_data listening 77 Driver_init (strings []) 77 DEVICE_ID
      (Some (MkAddress (fourcc "ownd") (fourcc "glob") 0)) 0 None 140 4096 (Some (replicate 140 0))
    = Ret r ∧ read_outcome (strings []) 140 (Some (replicate 140 0)) r.
Proof.
  apply (get_property_data_safe listening 77 Driver_init (strings []) 77 DEVICE_ID
    (Some (MkAddress (fourcc "ownd") (fourcc "glob") 0)) 0 None 140 4096 (Some (replicate 140 0))).
  - split; reflexivity.
  - vm_compute. split; discriminate.
  - exact Logic.I.
  - exact Logic.I.
  - vm_compute. discriminate.
Defined.


(** Muting the first channel (control 6) after the host has introduced itself. *)
Definition hosted : Driver := set_host Driver_init (Some 500).
Definition mute_address : AudioObjectPropertyAddress := MkAddress (fourcc "bcvl") (fourcc "glob") 0.
Definition muted : Driver :=
  set_mute hosted (<[1%nat := true]> (replicate 17 false)).

Lemma set_property_data_spec_witness :
  ∃ status d' ns,
    set_property_data listening 77 hosted 77 6 (Some mute_address) 0 None 4 (Some [1; 0; 0; 0])
      = Ret (status, d', ns) ∧
    status = 0 ∧ d' = muted ∧ ns = [MkNotification 500 6 1 [mute_address]].
Proof.
  refine (proj2 (set_property_data_spec listening 77 hosted 6 mute_address 0 None 4 4096
    [1; 0; 0; 0] _ _ _)).
  - split; reflexivity.
  - discriminate.
  - vm_compute. split; discriminate.
Defined.

Lemma set_leaves_other_objects_alone_witness :
  get_property_data listening 77 muted (strings []) 77 8 (Some mute_address) 0 None 4 4096
      (Some [9; 9; 9; 9]) =
  get_property_data listening 77 hosted (strings []) 77 8 (Some mute_address) 0 None 4 4096
      (Some [9; 9; 9; 9]).
Proof.
  apply (set_leaves_other_objects_alone listening 77 hosted muted
    [MkNotification 500 6 1 [mute_address]] 6 8 mute_address 0 None 4 [1; 0; 0; 0]).
  - split; reflexivity.
  - discriminate.
  - vm_compute. discriminate.
  - discriminate.
  - vm_compute. reflexivity.
Defined.

Lemma boolean_set_get_roundtrip_witness :
  ∃ d' ns,
    set_property_data listening 77 Driver_init 77 6 (Some mute_address) 0 None 4 (Some [0; 1; 0; 0])
      = Ret (0, d', ns) ∧
    get_property_data listening 77 d' (strings []) 77 6 (Some mute_address) 0 None 5 4096
        (Some [7; 7; 7; 7; 7])
      = Ret (0, strings [], Some 4, Some [1; 0; 0; 0; 7]).
Proof.
  refine (boolean_set_get_roundtrip listening 77 Driver_init (strings []) 6 mute_address 0 0 None None
    4 5 4096 [0; 1; 0; 0] [7; 7; 7; 7; 7] _ _ _ _ _ _).
  - split; reflexivity.
  - reflexivity.
  - right. reflexivity.
  - vm_compute. split; discriminate.
  - vm_compute. split; discriminate.
  - discriminate.
Defined.

Lemma object_tree_witness :
  ∃ ids, read_ids listening 77 Driver_init (strings []) DEVICE_ID (fourcc "ownd") = Ret (Some ids) ∧ NoDup ids ∧
    ∀ c, c ∈ ids ↔
      is_object c = true ∧ read_ids listening 77 Driver_init (strings []) c (fourcc "stdv") = Ret (Some [2]).
Proof. refine (proj1 (object_tree listening 77 Driver_init (strings []) DEVICE_ID _)). reflexivity. Defined.

(** The HAL asks for the device named by the string at address 1. *)
Lemma translate_uid_finds_device_witness :
  ∃ h' leaked,
    get_property_data listening 77 Driver_init (strings ["UID"%string]) 77 1 (Some translate_address)
        8 (Some [1; 0; 0; 0; 0; 0; 0; 0]) 4 4096 (Some [9; 9; 9; 9])
      = Ret (0, h', Some 4, Some [2; 0; 0; 0]) ∧
    (cf_contents (strings ["UID"%string]) leaked = None ∨
     cf_contents (strings ["UID"%string]) leaked = Some "UID"%string) ∧
    cf_contents h' leaked = Some "UID"%string ∧
    cf_refs h' leaked = cf_refs (strings ["UID"%string]) leaked + 1 ∧
    ∀ q, q ≠ leaked → cf_contents h' q = cf_contents (strings ["UID"%string]) q ∧
                      cf_refs h' q = cf_refs (strings ["UID"%string]) q.
Proof.
  refine (translate_uid_finds_device listening 77 Driver_init (strings ["UID"%string]) 1 "UID"
    [1; 0; 0; 0; 0; 0; 0; 0] 4 4096 [9; 9; 9; 9] _ _ _ _ _ _).
  - discriminate.
  - vm_compute. discriminate.
  - reflexivity.
  - reflexivity.
  - discriminate.
  - vm_compute. split; discriminate.
Defined.
End witnesses.
