(* ===== verification/CoreAudioDriver.v ===== *)
(** * The CoreAudio driver as a whole: [DRIVER_INTERFACE]

    The HAL talks to the driver through a table of 22 callbacks.  A call of any
    of them, with any arguments, is a [HALCall], and [dispatch] runs it: the
    driver is a state machine whose steps are calls.  The theorems are about
    every run: the state keeps its types and sizes, no call panics but those
    whose documented rules the HAL breaks, and the reference count counts. *)

From stdpp Require Import relations.
From S2P Require Import Prelude SampleType Float32 CoreAudio CoreAudioVolume CoreAudioMemory.
From S2P Require Import CoreAudioProperties CoreAudioTables CoreAudioInstances CoreAudioHAL.

(** ** The table of callbacks *)

(** The pointers to addresses, buffers and qualifiers are [None] when null;
    [now] is what the Mach clock says during the call. *)
Inductive HALCall :=
  | QueryInterface (driver : Z) (in_uuid : list Z) (interface : Z)
  | AddRef (driver : Z)
  | Release (driver : Z)
  | Initialize (driver host : Z)
  | CreateDevice (driver : Z)
  | DestroyDevice (driver device_object_id : Z)
  | AddDeviceClient (driver device_object_id : Z)
  | RemoveDeviceClient (driver device_object_id : Z)
  | PerformDeviceConfigurationChange (driver device_object_id : Z)
  | AbortDeviceConfigurationChange (driver device_object_id : Z)
  | HasProperty (driver obj_id : Z) (addr : option AudioObjectPropertyAddress)
  | IsPropertySettable (driver obj_id : Z) (addr : option AudioObjectPropertyAddress)
      (is_settable : Z)
  | GetPropertyDataSize (driver obj_id : Z) (addr : option AudioObjectPropertyAddress)
      (data_size : Z)
  | GetPropertyData (driver obj_id : Z) (addr : option AudioObjectPropertyAddress)
      (qual_size : Z) (qual_data : option (list Z)) (data_size written_data_size : Z)
      (out_data : option (list Z))
  | SetPropertyData (driver obj_id : Z) (addr : option AudioObjectPropertyAddress)
      (qual_size : Z) (qual_data : option (list Z)) (data_size : Z) (out_data : option (list Z))
  | StartIO (driver device_id now : Z)
  | StopIO (driver device_id : Z)
  | GetZeroTimeStamp (driver device_id sample_time host_time seed now : Z)
  | WillDoIOOperation (driver device_id operation_id will_do will_do_in_place : Z)
  | BeginIOOperation (driver device_id : Z)
  | DoIOOperation (driver device_id stream_id : Z)
  | EndIOOperation (driver device_id : Z).

Section driver.
Context `{CoreAudioSys, MachClock, PropertyNumbers, CoreFoundation, CoreAudioLayout, FloatPlatform}.
Context (host_has_PropertiesChanged : Z → bool) (raw_driver_ptr : Z).

(** The states after a call; what the calls answer is in their definitions. *)
Definition dispatch (d : Driver) (h : CFHeap) (c : HALCall) : exec (Driver * CFHeap) :=
  let keep {A} (m : exec A) : exec (Driver * CFHeap) := _ ← m; Ret (d, h) in
  match c with
  | QueryInterface driver in_uuid interface =>
      Ret ((query_interface raw_driver_ptr d driver in_uuid interface).1.2, h)
  | AddRef driver => '(_, d) ← add_ref raw_driver_ptr d driver; Ret (d, h)
  | Release driver => '(_, d) ← release raw_driver_ptr d driver; Ret (d, h)
  | Initialize driver host => Ret ((initialize raw_driver_ptr d driver host).2, h)
  | CreateDevice driver => Ret ((create_device raw_driver_ptr d driver).2, h)
  | DestroyDevice driver dev => Ret ((destroy_device raw_driver_ptr d driver dev).2, h)
  | AddDeviceClient driver dev => Ret ((add_device_client raw_driver_ptr d driver dev).2, h)
  | RemoveDeviceClient driver dev => Ret ((remove_device_client raw_driver_ptr d driver dev).2, h)
  | PerformDeviceConfigurationChange driver dev =>
      Ret ((perform_device_config_change raw_driver_ptr d driver dev).2, h)
  | AbortDeviceConfigurationChange driver dev =>
      Ret ((abort_device_config_change raw_driver_ptr d driver dev).2, h)
  | HasProperty driver id addr =>
      keep (has_property host_has_PropertiesChanged raw_driver_ptr driver id addr)
  | IsPropertySettable driver id addr p =>
      keep (is_property_settable host_has_PropertiesChanged raw_driver_ptr driver id addr p)
  | GetPropertyDataSize driver id addr p =>
      keep (get_property_data_size host_has_PropertiesChanged raw_driver_ptr driver id addr p)
  | GetPropertyData driver id addr qs q size p out =>
      '(_, h, _, _) ← get_property_data host_has_PropertiesChanged raw_driver_ptr d h driver id addr
                        qs q size p out;
      Ret (d, h)
  | SetPropertyData driver id addr qs q size out =>
      '(_, d, _) ← set_property_data host_has_PropertiesChanged raw_driver_ptr d driver id addr
                     qs q size out;
      Ret (d, h)
  | StartIO driver dev now => Ret ((start_io raw_driver_ptr d driver dev now).2, h)
  | StopIO driver dev => '(_, d) ← stop_io raw_driver_ptr d driver dev; Ret (d, h)
  | GetZeroTimeStamp driver dev p1 p2 p3 now =>
      '(_, d, _) ← get_zero_timestamp raw_driver_ptr d driver dev p1 p2 p3 now; Ret (d, h)
  | WillDoIOOperation driver dev op p1 p2 =>
      Ret ((will_do_io_operation raw_driver_ptr d driver dev op p1 p2).1.1.2, h)
  | BeginIOOperation driver dev => Ret ((begin_io_operation raw_driver_ptr d driver dev).2, h)
  | DoIOOperation driver dev stream => Ret ((do_io_operation raw_driver_ptr d driver dev stream).2, h)
  | EndIOOperation driver dev => Ret ((end_io_operation raw_driver_ptr d driver dev).2, h)
  end.

(** What the HAL promises about every call: its buffers are as long as it
    says, sizes and times fit their types. *)
Definition call_ok (c : HALCall) : Prop :=
  match c with
  | GetPropertyData _ _ _ qs q size _ out =>
      is_u32 size ∧ buffer_ok qs q ∧ buffer_ok size out
  | SetPropertyData _ _ _ _ _ size out => is_u32 size ∧ buffer_ok size out
  | StartIO _ _ now => is_u64 now
  | GetZeroTimeStamp _ _ _ _ _ now => is_u64 now
  | _ => True
  end.

(** A step: a call that returns. *)
Inductive hal_step : Driver * CFHeap → Driver * CFHeap → Prop :=
  | hal_step_call d h c d' h' :
      call_ok c → dispatch d h c = Ret (d', h') → hal_step (d, h) (d', h').

Definition reachable (h0 : CFHeap) (d : Driver) (h : CFHeap) : Prop :=
  rtc hal_step (Driver_init, h0) (d, h).

(** ** Types *)

(** Every part of the state is a value of its Rust type. *)
Definition driver_wf (d : Driver) : Prop :=
  is_u32 (PLUGIN_REF_COUNT d) ∧ tables_wf d ∧ io_wf d ∧
  is_u64 (current_frame_timestamp (DEVICE_IO d)) ∧ is_u64 (current_host_timestamp (DEVICE_IO d)) ∧
  Forall float_valid (OUTPUT_VOLUME d).

(** The rules the HAL has to keep for a call not to panic (or, for the places
    of the time stamp, to be undefined behaviour): references are released at
    most as often as they are taken, the clock read for a time stamp is not
    older than the last time stamp and does not lead past the range of the
    counters, and the qualifier of the one property that takes one is a live
    CFString. *)
Definition call_safe (d : Driver) (h : CFHeap) (c : HALCall) : Prop :=
  match c with
  | GetPropertyData _ id addr qs q _ _ _ => qualifier_ok h id addr qs q
  | AddRef _ => PLUGIN_REF_COUNT d < u32_MAX
  | Release _ => 0 < PLUGIN_REF_COUNT d
  | GetZeroTimeStamp _ _ p1 p2 p3 now =>
      p1 ≠ 0 ∧ p2 ≠ 0 ∧ p3 ≠ 0 ∧ current_host_timestamp (DEVICE_IO d) <= now ∧
      ∃ ticks, TICKS_PER_TIMESTAMP = Ret ticks ∧ 0 < ticks ∧
        current_frame_timestamp (DEVICE_IO d)
          + FRAMES_PER_TIMESTAMP * ((now - current_host_timestamp (DEVICE_IO d)) / ticks) <= u64_MAX
  | _ => True
  end.
End driver.

(** Rust's [powf] returns a float. *)
Class LawfulPlatform `{FloatPlatform} : Prop := {
  powf_valid x y : valid_binary prec emax (f32_powf x y) = true;
}.

(** The two numbers of the time base are [u32]s. *)
Class LawfulClock `{MachClock} : Prop := {
  timebase_u32 : is_u32 timebase_numer ∧ is_u32 timebase_denom;
}.

Section wf.
Context `{LawfulNumbers, LawfulClock, LawfulLayout, LawfulCoreFoundation, LawfulPlatform}.
Context (host_has_PropertiesChanged : Z → bool) (raw_driver_ptr : Z).
Abbreviation dispatch := (dispatch host_has_PropertiesChanged raw_driver_ptr).
Abbreviation reachable := (reachable host_has_PropertiesChanged raw_driver_ptr).

Lemma Driver_init_wf : driver_wf Driver_init.
Proof.
  unfold driver_wf, tables_wf. cbn [Driver_init PLUGIN_REF_COUNT DEVICE_IO
    current_frame_timestamp current_host_timestamp OUTPUT_MUTE].
  split_and!; [bounds|reflexivity|reflexivity|exact Logic.I|bounds|bounds|].
  apply Forall_insert; [apply Forall_replicate|]; split; reflexivity || discriminate.
Qed.

Lemma set_ref_count_wf d n : driver_wf d → is_u32 n → driver_wf (set_ref_count d n).
Proof. by intros (_ & Hwf) Hn. Qed.

Lemma set_host_wf d host : driver_wf d → driver_wf (set_host d host).
Proof. done. Qed.

Lemma fetch_add_u32 n k : is_u32 (fetch_add n k).
Proof. unfold fetch_add. pose proof (Z.mod_pos_bound (n + k) (2 ^ 32)). bounds. Qed.

Lemma set_effect_wf d id addr w :
  driver_wf d → settable_address id addr = true → driver_wf (set_effect d id addr w).
Proof.
  intros (Href & [Hv Hm] & Hio & Hf & Hh & Hvol) Hs. unfold set_effect.
  destruct (id =? STREAM_ID); [done|]. destruct (control_is_volume id); unfold driver_wf, tables_wf;
    cbn [PLUGIN_REF_COUNT DEVICE_IO OUTPUT_VOLUME OUTPUT_MUTE set_volume set_mute];
    rewrite ?length_insert; split_and!; try done.
  apply Forall_insert; [done|]. apply to_bits_valid.
  destruct (mSelector addr =? _); apply powf_valid.
Qed.

Lemma start_io_wf d driver dev now :
  driver_wf d → is_u64 now → driver_wf (start_io raw_driver_ptr d driver dev now).2.
Proof.
  intros Hwf Hnow. pose proof Hwf as (Href & Ht & Hio & Hf & Hh & Hvol). unfold start_io, io_wf in *.
  destruct (negb _); [done|]. destruct (negb _); [done|].
  destruct (n_active_clients (DEVICE_IO d)) as [n|] eqn:E.
  - destruct (Z.leb_spec (n + 1) u32_MAX); [|done].
    unfold driver_wf, io_wf. cbn. split_and!; try done; bounds.
  - unfold driver_wf, io_wf. cbn. split_and!; try done; bounds.
Qed.

Lemma stop_io_wf d driver dev :
  driver_wf d → ∃ st d', stop_io raw_driver_ptr d driver dev = Ret (st, d') ∧ driver_wf d'.
Proof.
  intros Hwf. pose proof Hwf as (Href & Ht & Hio & Hf & Hh & Hvol). unfold stop_io, io_wf in *.
  destruct (negb _); [by eauto|]. destruct (negb _); [by eauto|].
  destruct (n_active_clients (DEVICE_IO d)) as [n|] eqn:E; [|by eauto].
  rewrite strict_sub_Ret, bind_Ret by lia. do 2 eexists. split; [done|].
  unfold driver_wf, io_wf. cbn. split_and!; try done.
  destruct (Z.eqb_spec (n - 1) 0); bounds.
Qed.

Lemma ticks_positive ticks : TICKS_PER_TIMESTAMP = Ret ticks → 0 < ticks.
Proof.
  destruct timebase_u32 as [Hn Hd]. unfold TICKS_PER_TIMESTAMP. intros Ht. exec_inv.
  destruct (Z.eqb_spec timebase_denom 0); [done|]. exec_inv. subst.
  assert (0 <= TIMESTAMP_PERIOD_NANOSECS * timebase_numer / timebase_denom).
  { apply Z.div_pos; unfold TIMESTAMP_PERIOD_NANOSECS; bounds. }
  destruct (Z.eqb_spec (TIMESTAMP_PERIOD_NANOSECS * timebase_numer / timebase_denom) 0); [done|].
  exec_inv. lia.
Qed.

Lemma get_zero_timestamp_wf d driver dev p1 p2 p3 now st d' ts :
  driver_wf d → is_u64 now →
  get_zero_timestamp raw_driver_ptr d driver dev p1 p2 p3 now = Ret (st, d', ts) → driver_wf d'.
Proof.
  intros Hwf Hnow. pose proof Hwf as (Href & Ht & Hio & Hf & Hh & Hvol).
  unfold get_zero_timestamp. destruct (negb _); [by intros [= _ <- _]|].
  destruct (negb _); [by intros [= _ <- _]|]. intros Hrun.
  apply bind_Ret_inv in Hrun as (ticks & Hticks & Hrun). apply ticks_positive in Hticks.
  exec_inv. destruct (_ || _); [done|]. exec_inv. subst.
  set (host := current_host_timestamp (DEVICE_IO d)) in *.
  assert (0 <= (now - host) / ticks) by (apply Z.div_pos; lia).
  assert (0 < FRAMES_PER_TIMESTAMP) by reflexivity.
  unfold driver_wf, io_wf. cbn. split_and!; try done; unfold is_u64 in *; nia.
Qed.

(** The callbacks that only check their arguments. *)
Lemma checked_device_state d driver dev : (checked_device raw_driver_ptr d driver dev).2 = d.
Proof. unfold checked_device. by repeat case_match. Qed.

Lemma query_interface_wf d driver in_uuid interface :
  driver_wf d → driver_wf (query_interface raw_driver_ptr d driver in_uuid interface).1.2.
Proof.
  intros Hwf. unfold query_interface. repeat case_match; try done.
  apply set_ref_count_wf; [done|apply fetch_add_u32].
Qed.

Lemma initialize_wf d driver host :
  driver_wf d → driver_wf (initialize raw_driver_ptr d driver host).2.
Proof. intros Hwf. unfold initialize. by repeat case_match. Qed.

Lemma add_ref_wf d driver r d' :
  driver_wf d → add_ref raw_driver_ptr d driver = Ret (r, d') → driver_wf d'.
Proof.
  intros Hwf. unfold add_ref. destruct (negb _); intros Hrun; exec_inv; subst; [done|].
  apply set_ref_count_wf; [done|apply fetch_add_u32].
Qed.

Lemma release_wf d driver r d' :
  driver_wf d → release raw_driver_ptr d driver = Ret (r, d') → driver_wf d'.
Proof.
  intros Hwf. unfold release. destruct (negb _); intros Hrun; exec_inv; subst; [done|].
  apply set_ref_count_wf; [done|apply fetch_add_u32].
Qed.

Lemma set_property_data_wf d driver id addr qs q size out :
  driver_wf d → is_u32 size → buffer_ok size out →
  ∃ st d' ns, set_property_data host_has_PropertiesChanged raw_driver_ptr d driver id addr qs q size out
      = Ret (st, d', ns) ∧ driver_wf d'.
Proof.
  intros Hwf [Hs _] Hb. pose proof Hwf as (_ & Ht & _).
  destruct (set_property_data_cases host_has_PropertiesChanged raw_driver_ptr d driver id addr qs q size out)
    as (st & d' & ns & -> & Hd'); [done..|].
  exists st, d', ns. split; [done|]. destruct Hd' as [->|(a & w & Hset & ->)]; [done|].
  by apply set_effect_wf.
Qed.

Hint Resolve query_interface_wf initialize_wf start_io_wf get_zero_timestamp_wf add_ref_wf
  release_wf : coreaudio.

(** Every call keeps the types. *)
Lemma dispatch_wf d h c d' h' :
  driver_wf d → call_ok c → dispatch d h c = Ret (d', h') → driver_wf d'.
Proof.
  intros Hwf Hok.
  destruct c; cbn [CoreAudioDriver.dispatch call_ok] in *; intros Hrun; exec_inv; subst;
    rewrite ?checked_device_state; eauto with coreaudio.
  - unfold create_device. by case_match.
  - unfold destroy_device. by case_match.
  - destruct Hok as [Hsize Hbuf].
    destruct (set_property_data_wf d driver obj_id addr qual_size qual_data data_size out_data Hwf Hsize Hbuf)
      as (st & d1 & ns & Hset & Hd1). congruence.
  - destruct (stop_io_wf d driver device_id Hwf) as (st & d1 & Hstop & Hd1). congruence.
  - unfold will_do_io_operation. by repeat case_match.
  - unfold do_io_operation. by repeat case_match.
Qed.

Lemma reachable_wf h0 d h : reachable h0 d h → driver_wf d.
Proof.
  intros Hr. change d with ((d, h).1).
  refine (rtc_ind_r (λ s, driver_wf s.1) (Driver_init, h0) Driver_init_wf _ _ Hr).
  intros s s' _ Hstep Hwf. destruct Hstep as [d1 h1 c d2 h2 Hok Hrun]. cbn in *.
  by eapply dispatch_wf.
Qed.

(** The questions about properties always return. *)
Lemma property_questions_return driver id addr p :
  (∃ b, has_property host_has_PropertiesChanged raw_driver_ptr driver id addr = Ret b) ∧
  (∃ r, is_property_settable host_has_PropertiesChanged raw_driver_ptr driver id addr p = Ret r) ∧
  (∃ r, get_property_data_size host_has_PropertiesChanged raw_driver_ptr driver id addr p = Ret r).
Proof.
  unfold has_property, is_property_settable, get_property_data_size.
  destruct (negb _); [by eauto 10|]. destruct addr as [addr|]; [|by eauto 10].
  destruct (find_property_data_Ret host_has_PropertiesChanged id addr) as ([data|b] & -> & Hr);
    rewrite !bind_Ret; destruct (p =? 0); cbn [catch_unwind]; eauto 10.
  destruct (Hr data eq_refl) as (n & -> & _). cbn. eauto 10.
Qed.

Lemma get_zero_timestamp_returns d h driver dev p1 p2 p3 now :
  driver_wf d → is_u64 now → call_safe d h (GetZeroTimeStamp driver dev p1 p2 p3 now) →
  ∃ r, get_zero_timestamp raw_driver_ptr d driver dev p1 p2 p3 now = Ret r.
Proof.
  intros (_ & _ & _ & Hf & Hh & _) Hnow (Hp1 & Hp2 & Hp3 & Hback & ticks & Ht & Hpos & Hmax).
  unfold get_zero_timestamp. destruct (negb _); [by eauto|]. destruct (negb _); [by eauto|].
  set (host := current_host_timestamp (DEVICE_IO d)) in *.
  rewrite Ht, bind_Ret, strict_sub_Ret, bind_Ret by done.
  pose proof (Z.mul_div_le (now - host) ticks Hpos).
  assert (0 <= (now - host) / ticks) by (apply Z.div_pos; lia).
  assert (0 < FRAMES_PER_TIMESTAMP) by reflexivity. unfold is_u64 in *.
  rewrite (strict_mul_Ret u64_MAX ticks), bind_Ret, strict_add_Ret, bind_Ret by lia.
  rewrite strict_mul_Ret, bind_Ret, strict_add_Ret, bind_Ret by lia.
  rewrite !(proj2 (Z.eqb_neq _ 0)) by done. cbn [orb]. eauto.
Qed.

Lemma dispatch_returns d h c :
  driver_wf d → call_ok c → call_safe d h c → ∃ d' h', dispatch d h c = Ret (d', h').
Proof.
  intros Hwf Hok Hsafe.
  destruct c; cbn [CoreAudioDriver.dispatch call_ok] in *; try by eauto.
  - unfold add_ref. destruct (negb _); cbn in *; [by eauto|]. rewrite strict_add_Ret by lia. cbn. eauto.
  - unfold release. destruct (negb _); cbn in *; [by eauto|]. rewrite strict_sub_Ret by lia. cbn. eauto.
  - destruct (property_questions_return driver obj_id addr 0) as ([b ->] & _). cbn. eauto.
  - destruct (property_questions_return driver obj_id addr is_settable) as (_ & [r ->] & _). cbn. eauto.
  - destruct (property_questions_return driver obj_id addr data_size) as (_ & _ & [r ->]). cbn. eauto.
  - destruct Hwf as (_ & Ht & _), Hok as (Hsize & Hq & Hout).
    destruct (get_property_data_returns host_has_PropertiesChanged raw_driver_ptr d h driver obj_id
      addr qual_size qual_data data_size written_data_size out_data) as [[[[st h'] wr] out] ->];
      [done..|]. cbn. eauto.
  - destruct Hok as [Hsize Hout].
    destruct (set_property_data_wf d driver obj_id addr qual_size qual_data data_size out_data)
      as (st & d' & ns & -> & _); [done..|]. cbn. eauto.
  - destruct (stop_io_wf d driver device_id Hwf) as (st & d' & -> & _). cbn. eauto.
  - destruct (get_zero_timestamp_returns d h driver device_id sample_time host_time seed now)
      as [[[st d'] ts] ->]; [done..|]. cbn. eauto.
Qed.

(** C6: every reachable state of the driver is well typed, and no call
    panics.  From loading on, through any sequence of calls with any
    arguments, the reference count, the IO counters, the time stamps and the
    stored volumes are values of their Rust types, and the volume and mute
    tables keep their length.  In every such state each of the 22 callbacks
    returns, provided that the HAL keeps the rules: buffers as long as it
    says, a live CFString where a property takes one as its qualifier (and
    memory for another), no more releases than references, a clock that was
    not read before the last time stamp. *)
Theorem reachable_driver_wf (h0 : CFHeap) (d : Driver) (h : CFHeap) :
  reachable h0 d h →
  driver_wf d ∧
  ∀ c, call_ok c → call_safe d h c → ∃ d' h', dispatch d h c = Ret (d', h') ∧ reachable h0 d' h'.
Proof.
  intros Hr. pose proof (reachable_wf _ _ _ Hr) as Hwf. split; [done|]. intros c Hok Hsafe.
  destruct (dispatch_returns d h c Hwf Hok Hsafe) as (d' & h' & Hrun).
  exists d', h'. split; [done|]. eapply rtc_r; [exact Hr|]. by econstructor.
Qed.
End wf.

(** ** Counting references *)

Section references.
Context `{CoreAudioSys}.
Context (raw_driver_ptr : Z).

Inductive ref_call :=
  | RefQuery (driver : Z) (in_uuid : list Z) (interface : Z)
  | RefAdd (driver : Z)
  | RefRelease (driver : Z).

(** A call and its answer. *)
Definition do_ref (d : Driver) (c : ref_call) : exec (Z * Driver) :=
  match c with
  | RefQuery driver in_uuid interface =>
      Ret (query_interface raw_driver_ptr d driver in_uuid interface).1
  | RefAdd driver => add_ref raw_driver_ptr d driver
  | RefRelease driver => release raw_driver_ptr d driver
  end.

Fixpoint do_refs (d : Driver) (cs : list ref_call) : exec (list Z * Driver) :=
  match cs with
  | [] => Ret ([], d)
  | c :: cs => '(r, d) ← do_ref d c; '(rs, d) ← do_refs d cs; Ret (r :: rs, d)
  end.

(** The specification: a number; [None] is a panic.  A query that finds the
    number at its largest takes it back to 0, and reports success. *)
Definition spec_ref (n : Z) (c : ref_call) : option (Z * Z) :=
  match c with
  | RefQuery driver in_uuid interface =>
      if negb (driver =? raw_driver_ptr) then Some (kAudioHardwareBadObjectError, n) else
      if interface =? 0 then Some (kAudioHardwareIllegalOperationError, n) else
      if decide (in_uuid ∈ [I_UNKNOWN_UUID; ASP_DRIVER_INTERFACE_UUID])
      then Some (kAudioHardwareNoError, if n =? u32_MAX then 0 else n + 1)
      else Some (E_NOINTERFACE, n)
  | RefAdd driver =>
      if negb (driver =? raw_driver_ptr) then Some (0, n) else
      if n <? u32_MAX then Some (n + 1, n + 1) else None
  | RefRelease driver =>
      if negb (driver =? raw_driver_ptr) then Some (0, n) else
      if 0 <? n then Some (n - 1, n - 1) else None
  end.

Fixpoint spec_refs (n : Z) (cs : list ref_call) : option (list Z * Z) :=
  match cs with
  | [] => Some ([], n)
  | c :: cs => '(r, n) ← spec_ref n c; '(rs, n) ← spec_refs n cs; Some (r :: rs, n)
  end.

Lemma fetch_add_spec n k : 0 <= n + k <= u32_MAX → fetch_add n k = n + k.
Proof. intros Hn. apply Z.mod_small. bounds. Qed.

Lemma set_ref_count_same d : set_ref_count d (PLUGIN_REF_COUNT d) = d.
Proof. by destruct d. Qed.

Lemma do_ref_refines d c :
  is_u32 (PLUGIN_REF_COUNT d) →
  match spec_ref (PLUGIN_REF_COUNT d) c with
  | Some (r, n) => do_ref d c = Ret (r, set_ref_count d n) ∧ is_u32 n
  | None => do_ref d c = Panic
  end.
Proof.
  intros Hn. destruct c as [driver uuid p|driver|driver]; cbn [do_ref spec_ref];
    unfold query_interface, add_ref, release, eq_driver_ptr;
    destruct (driver =? raw_driver_ptr); cbn [negb]; try by rewrite set_ref_count_same.
  - destruct (p =? 0); [by rewrite set_ref_count_same|].
    destruct (decide _); [|by rewrite set_ref_count_same]. cbn [fst snd].
    destruct (Z.eqb_spec (PLUGIN_REF_COUNT d) u32_MAX) as [->|]; [split; [done|bounds]|].
    rewrite fetch_add_spec by bounds. split; [done|bounds].
  - destruct (Z.ltb_spec (PLUGIN_REF_COUNT d) u32_MAX).
    + rewrite fetch_add_spec, strict_add_Ret by bounds. split; [done|bounds].
    + unfold strict_add. by rewrite (proj2 (Z.leb_gt _ _)) by lia.
  - destruct (Z.ltb_spec 0 (PLUGIN_REF_COUNT d)).
    + rewrite (fetch_add_spec _ (-1)), strict_sub_Ret by bounds. split; [done|bounds].
    + by rewrite strict_sub_Panic by lia.
Qed.

Lemma do_refs_refine d cs :
  is_u32 (PLUGIN_REF_COUNT d) →
  do_refs d cs =
    match spec_refs (PLUGIN_REF_COUNT d) cs with
    | Some (rs, n) => Ret (rs, set_ref_count d n)
    | None => Panic
    end.
Proof.
  revert d. induction cs as [|c cs IH]; intros d Hn; cbn [do_refs spec_refs].
  { by rewrite set_ref_count_same. }
  pose proof (do_ref_refines d c Hn) as Hstep.
  destruct (spec_ref (PLUGIN_REF_COUNT d) c) as [[r n]|]; [|by rewrite Hstep].
  destruct Hstep as [-> Hn']. cbn. rewrite (IH (set_ref_count d n)) by done.
  cbn [PLUGIN_REF_COUNT set_ref_count]. by destruct (spec_refs n cs) as [[rs n']|].
Qed.

Lemma spec_ref_panics n c :
  is_u32 n → spec_ref n c = None ↔
    c = RefRelease raw_driver_ptr ∧ n = 0 ∨ c = RefAdd raw_driver_ptr ∧ n = u32_MAX.
Proof.
  intros Hn. destruct c as [driver uuid p|driver|driver]; cbn [spec_ref];
    destruct (Z.eqb_spec driver raw_driver_ptr) as [->|Hne]; cbn [negb].
  - split; [by repeat case_match|]. by intros [[[=] _]|[[=] _]].
  - split; [done|]. by intros [[[=] _]|[[=] _]].
  - destruct (Z.ltb_spec n u32_MAX); split; try done.
    + intros [[[=] _]|[_ ->]]. lia.
    + intros _. right. split; [done|]. bounds.
  - split; [done|]. by intros [[[=] _]|[[= ->] _]].
  - destruct (Z.ltb_spec 0 n); split; try done.
    + intros [[_ ->]|[[=] _]]. lia.
    + intros _. left. split; [done|]. bounds.
  - split; [done|]. by intros [[[= ->] _]|[[=] _]].
Qed.

(** C21: the reference count is a counter.  For every sequence of interface
    queries, retains and releases, with right or wrong arguments: each answer
    is the one a plain number gives, wrong arguments change nothing, nothing
    but the count changes.  The run panics exactly when a reference is released
    that nobody holds or when a retain finds the count at [u32::MAX]; an
    interface query that finds it there does not panic: it takes the count to
    0 and reports success. *)
Theorem ref_calls_refine_counter (d : Driver) (cs : list ref_call) :
  is_u32 (PLUGIN_REF_COUNT d) →
  do_refs d cs =
    match spec_refs (PLUGIN_REF_COUNT d) cs with
    | Some (rs, n) => Ret (rs, set_ref_count d n)
    | None => Panic
    end ∧
  (∀ n c, is_u32 n → spec_ref n c = None ↔
     c = RefRelease raw_driver_ptr ∧ n = 0 ∨ c = RefAdd raw_driver_ptr ∧ n = u32_MAX) ∧
  (∀ interface, interface ≠ 0 →
     spec_ref u32_MAX (RefQuery raw_driver_ptr I_UNKNOWN_UUID interface)
       = Some (kAudioHardwareNoError, 0)).
Proof.
  intros Hn. split_and!; [by apply do_refs_refine|by apply spec_ref_panics|].
  intros p Hp%Z.eqb_neq. cbn [spec_ref]. rewrite Z.eqb_refl, Hp. cbn [negb].
  by rewrite decide_True by set_solver.
Qed.
End references.

(** ** Witnesses *)

Section witnesses.
#[local] Instance constant_platform_lawful : LawfulPlatform.
Proof. split. reflexivity. Qed.
#[local] Instance nanosecond_clock : MachClock := {| timebase_numer := 1; timebase_denom := 1 |}.
#[local] Instance nanosecond_clock_lawful : LawfulClock.
Proof. split. split; split; vm_compute; discriminate. Qed.

(** After one reference has been taken it can be released. *)
Lemma reachable_driver_wf_witness :
  ∃ d' h', dispatch (λ _, true) 77 (set_ref_count Driver_init 1) (strings []) (Release 77) = Ret (d', h') ∧
    reachable (λ _, true) 77 (strings []) d' h'.
Proof.
  refine (proj2 (reachable_driver_wf (λ _, true) 77 (strings []) (set_ref_count Driver_init 1)
    (strings []) _) (Release 77) _ _).
  - apply rtc_once.
    apply (hal_step_call (λ _, true) 77 Driver_init (strings []) (AddRef 77)); [exact Logic.I|reflexivity].
  - exact Logic.I.
  - reflexivity.
Defined.

(** Two references taken, two released, and one released too many. *)
Lemma ref_calls_refine_counter_witness :
  do_refs 77 Driver_init
    [RefQuery 77 I_UNKNOWN_UUID 4096; RefAdd 77; RefAdd 1; RefRelease 77; RefRelease 77; RefRelease 77]
    = Panic.
Proof.
  refine (proj1 (ref_calls_refine_counter 77 Driver_init
    [RefQuery 77 I_UNKNOWN_UUID 4096; RefAdd 77; RefAdd 1; RefRelease 77; RefRelease 77;
     RefRelease 77] _)).
  split; vm_compute; discriminate.
Defined.
End witnesses.
